(* ===== verification/_CoqProject ===== *)
-Q . S2P
Prelude.v
GoStrings.v
GoEncoding.v
NetAddr.v
GoJson.v
GoJsonFacts.v
GoJsonRaw.v
Awg.v
AwgEndpoint.v
Fields.v
AwgFacts.v
AwgEndpointFacts.v
AwgConfForm.v
Rtt.v
RttFacts.v
Handshake.v
Diag.v
DiagFacts.v
Effects.v
System.v
SystemFacts.v
Simulated.v
SystemProps.v
SystemDarwin.v
SystemDarwinFacts.v
SystemWindows.v
SystemWindowsFacts.v
Routing.v
RoutingFacts.v
Systunnel.v
SystunnelFacts.v
SystunnelMachine.v
SystunnelProps.v
Tunnel.v
TunnelFacts.v
Release.v
Probe.v
ProbeFacts.v
Fdtun.v
FdtunFacts.v
Libcaelo.v
LibcaeloFacts.v
Service.v
ServiceFacts.v
Aside.v
IdlerFacts.v
SubscriptionServer.v
SubscriptionServerFacts.v
Programs.v
ProgramsFacts.v
SubscriptionMain.v
SubscriptionMainFacts.v
SubscriptionProps.v
Host.v
HostFacts.v
Daemon.v
DaemonFacts.v
DaemonProps.v
AwgTest.v
AwgTestFacts.v
RttTest.v
