(* ===== verification/Prelude.v ===== *)
(** * Caelo: verification of the Go code

    Caelo is a VPN client.  Its core (src/core, in Go) reads a tunnel's
    configuration, drives an AmneziaWG device with it and, on the desktop,
    points the whole machine at that device from a small privileged service;
    src/examples holds a server that hands out configurations.  This library
    models that code as Rocq definitions that follow the source function by
    function, and proves what makes each part correct.

    ** The parts, and how they interact

    A configuration text (a [.conf] file or one sing-box endpoint in JSON)
    becomes a [Config] and then the UAPI text a device is configured with.
    The [Controller] uses that text to bring up the machine-wide tunnel: it
    snapshots the machine's routing, creates the interface, starts the device,
    applies the routes, and waits for the server's handshake, undoing all of it
    on any failure.  The service serves the controller over a local socket,
    one JSON request per connection, and ends itself when idle or when its
    host's service manager says so.  The session is the tunnel inside one
    process, on a user-space network stack; the hosted session is one on a
    descriptor the system hands over; the probe is one tunnel for one request.
    An application calls all three through C functions that answer in JSON.
    The meter watches packets to measure round trips, the log keeps recent
    lines without secrets, and release verification checks signed updates.
    The subscription server writes the endpoints the core reads.

    ** Files

    The language and its standard library:
    - Prelude: results and errors, folds that stop at an error, list, option
      and integer lemmas, the [caelo] hint and rewrite databases;
    - GoStrings ([strings], [strconv]), GoEncoding ([encoding/base64],
      [encoding/hex]), NetAddr ([net/netip] and parts of [net]), GoJson
      ([encoding/json], reader and writer) and GoJsonFacts, GoJsonRaw
      ([json.RawMessage]: a value handed on as the text it has); Fields (struct
      fields read from members, and read back).

    The program, with the file under src/core each models:
    - Awg: internal/awg/config.go; facts in AwgFacts;
    - AwgEndpoint: internal/awg/endpoint.go; facts in AwgEndpointFacts and,
      for the two forms of one tunnel, AwgConfForm;
    - Rtt: internal/rtt/rtt.go; facts in RttFacts;
    - Handshake: internal/handshake/handshake.go, with its facts;
    - Diag: internal/diag/log.go and logger.go; facts in DiagFacts;
    - Effects: calls to the world outside, the [Env] interface that answers
      them, the [IO] monad, its two weakest preconditions, scripts (the calls
      an operation makes, in order), tallies (what a history adds up to), and
      that an operation only adds to what was done ([extends]);
    - System: internal/system/network_linux.go and doc.go; the machine the
      commands act on and the [Documented] interface in SystemFacts, a
      simulated environment that satisfies it in Simulated, the theorems in
      SystemProps;
    - SystemDarwin, SystemWindows: network_darwin.go and network_windows.go of
      the same package, each with its machine and its documented interface in
      SystemDarwinFacts and SystemWindowsFacts;
    - Routing: what the controller asks of the system it is built for, the
      class [Platform], with an instance per system (package system and
      internal/systunnel/name_linux.go, name_darwin.go, name_windows.go); in
      RoutingFacts what is open, closed though it was not, or told to a
      service manager ([books]), what the controller's theorems rely on, the
      classes [Orderly] and [Restores], and the three systems' instances of them;
    - Systunnel: internal/systunnel/controller.go, for any [Platform];
      SystunnelFacts (interfaces that are open), SystunnelMachine
      (termination, the machine), SystunnelProps (the theorems);
    - Tunnel: internal/tunnel/session.go; facts in TunnelFacts;
    - Release: internal/release/verify.go, with its facts;
    - Probe: internal/probe/probe.go and handshake.go; facts in ProbeFacts;
    - Fdtun: internal/fdtun (session.go, mtu.go and the adoption of a
      descriptor on Linux and macOS); facts in FdtunFacts;
    - Libcaelo: libcaelo/libcaelo.go and libcaelo_fd.go, the C interface, its
      replies by a class ([Wire]) with an instance per payload; facts in
      LibcaeloFacts, where [Flat] is the law those instances keep;
    - Service: cmd/caelo-service/main.go and internal/ipc/protocol.go; facts in
      ServiceFacts and, for its module [Idler], IdlerFacts; in Aside, calls
      that open nothing and leave the machine as it is;
    - Programs: cmd/caelo-probe/main.go, cmd/caelo-tun/main.go and
      internal/version; facts in ProgramsFacts;
    - Host: the rest of cmd/caelo-service, how it is started, stopped,
      installed and removed (listen_linux.go, listen_windows.go,
      platform_linux.go, service_windows.go and [main] up to its goroutines);
      facts in HostFacts;
    - Daemon: the goroutines of cmd/caelo-service/main.go, from the start of
      the process to its end, over Service and Host; in DaemonFacts the class
      [Kept] of what its events keep, the idler as a view of them, and the
      measure; theorems in DaemonProps;
    - SubscriptionServer: src/examples/subscription-server/main.go, its
      requests; facts in SubscriptionServerFacts; SubscriptionMain: its file
      and [main]; facts in SubscriptionMainFacts; SubscriptionProps: from
      the file to what the application reads;
    - AwgTest: internal/awgtest/awgtest.go, the loopback server of the tests;
      facts in AwgTestFacts; RttTest: internal/rtt/rtttest, with its facts.

    ** How code is modelled

    - Pure functions are functions; a Go [(value, error)] pair is a [result],
      an error the list of pieces its text is built from.
    - A run-time panic is [None] (Rtt, Release) or [diverge] (Effects); the
      theorems show that it does not happen.
    - Operations that run commands, touch files, open devices, call the
      operating system or read the clock are in [IO]: functions of the history
      of calls, answered by an arbitrary [Env].  A theorem for every [Env] is
      one for every behaviour of the outside.  Where a theorem needs the
      commands to do what they document, it assumes [Documented]; where it
      needs the clock to move, [Clock].  Both are satisfied by [simulated],
      which the witnesses run.  What a device logs and carries meanwhile is
      [Traffic], as arbitrary.
    - Handles (devices, interfaces, listeners, services) are named by the
      number of calls made before the one that opened them, so that what is
      open is a function of the history ([opened], [handles]).
    - A method that holds its mutex from start to end is one step.  The session
      does not, so it is goroutines whose steps interleave ([Tunnel.exec]); the
      idler is a step function that makes the mutex held at a channel send and
      the channel itself explicit; the service's process ([Daemon.step])
      interleaves all its goroutines, and its exit may cut any operation after
      any of its calls.  [Host.Execute] is one more of them, with what the
      others do between the requests it reads; a signal ends caelo-tun after
      any of its calls until it has registered for signals ([tun_process]).
    - What is built per system is a class with an instance each ([Platform],
      [Glue]); code above it, and its theorems, are for any instance.
    - Buffers that are kept for later are addresses in a memory their caller
      goes on using ([AwgTest.memory]).
    - Where Go leaves the order of a map open, the order is an argument, and
      the theorems hold for every one.
    - Integers that can wrap are wrapped at 64 bits ([wrap64]), packet fields
      read at their width, JSON numbers that pass through [float64] rounded;
      times are nanoseconds.

    ** What the theorems show

    - Configurations: an accepted configuration is well formed; the UAPI text
      reads back as exactly its settings (and, for JSON, when no value holds a
      newline); Go's map order does not matter; the two forms of one tunnel
      give the same configuration; keys survive the change of alphabet.
    - The machine, on each of the three systems: Apply then Restore gives the
      machine back from wherever Apply stopped, and the route to the server is
      pinned before traffic moves; on any machine that already pins a route to
      the server, Apply fails and Restore removes it (Linux); Restore forgets IPv6 configured by hand (macOS); the
      cheapest default route is taken (Windows).
    - The controller: every sequence of requests ends; at most one interface is
      open, none is left behind and none closed twice; the machine is given back; "up" means that
      the server answered.
    - The service refines that contract for raw bytes on a socket: nothing
      privileged happens without a well-formed request of this protocol, every
      request gets one reply, a line that reads back, which tells the state the
      service is in; shutting down gives the machine back, also when a service
      manager asks for it, which is told before it begins; so does caelo-tun,
      unless a signal ends it before it has registered for signals.
    - The service's process, in any interleaving: it gives the machine back if
      no request is handled after [shutdown] has stopped the tunnel, and not
      otherwise (a request that was waiting is handled all the same, and the
      process ends with the tunnel it brought up); left alone with nothing up
      it ends by itself in boundedly many steps; the idle timer ends it only if
      it fired with no connection open and the watcher then found no tunnel up.
      The idle exit is lost
      for good once the timer runs out under a tunnel.  The socket it serves on is the one
      systemd passed to this very process or a private one of its own.
    - The session: no device is leaked or closed twice under any interleaving,
      and a [Connect] that fails spares the tunnel that was up.  The hosted
      session has one device at most, which is the one its status tells; the
      probe leaves none.
    - The C interface: its replies are one line that reads back as what was
      said, integers as far as a [float64] holds them; the hosted calls tell
      the truth about the session they drive.
    - The meter: bounded memory, no panic on any packet, every sample is one
      opening of a connection and its answer, the figure is the least recent.
    - The log: what redaction removes and what it does not, how many lines are
      kept and when that bound is lost.
    - Releases: exactly the messages signed by a trusted key are accepted.
    - The subscription server: what the operator's file says is what the core
      reads from what is served, in the subscriber's order and in whichever
      form the file spells a text or a number; a revoked token is answered as
      an unknown one; a version of the summary that did not change means nodes
      that did not; it listens with a file that holds together or not at all,
      and a misspelt member anywhere in the file keeps it from starting, where
      text after the configuration does not.
    - The tests' server and the client it is for have keys, settings and
      addresses that fit, and a test leaves nothing open; what is held back is
      what was sent.

    ** Bounds and fuel

    [wait_fuel] is 52 rounds of 200 ms, more than the ten seconds of
    [HandshakeTimeout] on any clock that moves by the pause it sleeps
    ([Clock]); the JSON reader's fuel is twice the length of its input and two,
    as every second call consumes a byte; scanners over strings take the length
    as fuel.  That the fuel is enough is part of the termination theorems
    ([Controller_serves], [Service_gives_back], [Wait_returns]).

    ** What is not modelled

    The device itself (amneziawg-go), the user-space network stack, Ed25519
    and the operating system's commands and calls are parameters or
    calls of the environment; so are net/http, SHA-256 and X25519.  Left out:
    the core's own version (the linker sets it), HTTP's plumbing (a request is
    an argument), an array that comes three times under one name in a JSON
    document, and the applications in Dart, Kotlin, Swift and C++.  The peer's
    credentials are what the call answers; what [authorise] found is an
    argument of [serve].  Monotonic and wall clock are one; log output, which
    no operation reads back, is left
    out of the operations that write it.  The controller's meter is shown no
    packets here (the packets of a device are not calls of the controller), so
    its latency is none; what packets do to a meter is in Rtt. *)

From Stdlib Require Export ZArith Lia.
From stdpp Require Export base tactics list gmap strings pretty numbers option.
From stdpp Require Import options.

(** ** Results: Go's [(value, error)] pairs *)

(** A Go error value, by its construction: [fmt.Errorf]/[errors.New] text,
    [%q]-quoted and [%d] arguments, the text of an error produced by the
    standard library or by a third-party package (named by the call that
    produced it), and wrapped errors, which are concatenated pieces. *)
Inductive piece :=
  | Lit (s : string)
  | Quoted (s : string)
  | Plain (s : string)
  | Num (z : Z)
  | Foreign (call : string) (arg : string).

Definition error := list piece.

#[export] Instance piece_eq_dec : EqDecision piece.
Proof. solve_decision. Defined.

Inductive result (A : Type) :=
  | Ok (a : A)
  | Err (e : error).
Arguments Ok {_} _.
Arguments Err {_} _.

#[export] Instance result_eq_dec `{EqDecision A} : EqDecision (result A).
Proof. solve_decision. Defined.

#[export] Instance result_ret : MRet result := @Ok.
#[export] Instance result_bind : MBind result := λ A B f m,
  match m with Ok a => f a | Err e => Err e end.
#[export] Instance result_fmap : FMap result := λ A B f m,
  match m with Ok a => Ok (f a) | Err e => Err e end.

Definition is_ok {A} (r : result A) : bool :=
  match r with Ok _ => true | Err _ => false end.

(** The value of a successful result, for concrete examples. *)
Definition from_ok {A} (d : A) (r : result A) : A :=
  match r with Ok a => a | Err _ => d end.

(** [fmt.Errorf("prefix: %w", err)]: the wrapped error's text follows. *)
Definition wrap {A} (prefix : error) (r : result A) : result A :=
  match r with Ok a => Ok a | Err e => Err (prefix ++ e) end.

Section Results.
Context {A B : Type}.

Lemma bind_Ok (f : A → result B) (m : result A) (b : B) :
  m ≫= f = Ok b ↔ ∃ a, m = Ok a ∧ f a = Ok b.
Proof. destruct m; cbn; split; [eauto|by intros (? & [= ->] & ?)|done|by intros (? & ? & ?)]. Qed.

Lemma bind_ext (f g : A → result B) (m : result A) :
  (∀ a, f a = g a) → m ≫= f = m ≫= g.
Proof. intros H. by destruct m; cbn. Qed.

Lemma wrap_Ok (p : error) (m : result A) (a : A) :
  wrap p m = Ok a ↔ m = Ok a.
Proof. by destruct m. Qed.

Lemma is_ok_true (m : result A) : is_ok m = true ↔ ∃ a, m = Ok a.
Proof. destruct m; cbn; split; [eauto|done|done|by intros [? ?]]. Qed.

Lemma is_ok_wrap (p : error) (m : result A) : is_ok (wrap p m) = is_ok m.
Proof. by destruct m. Qed.
End Results.

(** Left fold of a fallible step, the shape of a Go loop that returns at the
    first error. *)
Fixpoint foldM {A S} (f : S → A → result S) (l : list A) (s : S) : result S :=
  match l with
  | [] => Ok s
  | x :: l => s' ← f s x; foldM f l s'
  end.

Section FoldM.
Context {A S : Type} (f : S → A → result S).

Lemma foldM_app l1 l2 s :
  foldM f (l1 ++ l2) s = foldM f l1 s ≫= foldM f l2.
Proof.
  revert s; induction l1 as [|x l1 IH]; intros s; [done|]; cbn.
  destruct (f s x); cbn; auto.
Qed.

(** An invariant that every successful step preserves holds at the end. *)
Lemma foldM_invariant (P : S → Prop) (Q : A → Prop) l s s' :
  (∀ s x s', P s → Q x → f s x = Ok s' → P s') →
  Forall Q l → P s → foldM f l s = Ok s' → P s'.
Proof.
  intros Hstep Hl; revert s; induction Hl as [|x l Hx Hl IH]; intros s HP; cbn.
  { by intros [= <-]. }
  intros (s1 & H1 & H2)%bind_Ok. apply (IH s1); eauto.
Qed.

(** A fold whose step agrees with another up to projection. *)
Lemma foldM_ext (g : S → A → result S) l s :
  (∀ s x, x ∈ l → f s x = g s x) → foldM f l s = foldM g l s.
Proof.
  revert s; induction l as [|x l IH]; intros s H; [done|]; cbn.
  rewrite H by set_solver. destruct (g s x); cbn; [|done].
  apply IH. set_solver.
Qed.
End FoldM.

(** Steps for different keys that commute make the order of the entries
    irrelevant, the shape of a Go loop over a map. *)
Lemma foldM_Permutation {A S K} (f : S → A → result S) (key : A → K) l l' s :
  (∀ s x y, key x ≠ key y → (f s x ≫= λ s, f s y) = (f s y ≫= λ s, f s x)) →
  NoDup (key <$> l) → l ≡ₚ l' → foldM f l s = foldM f l' s.
Proof.
  intros Hcomm Hnd Hp. revert s Hnd.
  induction Hp as [|x l l' Hp IH|x y l|l1 l2 l3 H1 IH1 H2 IH2]; intros s Hnd; [done| | |].
  - cbn. destruct (f s x); cbn; [|done]. apply IH. by inversion Hnd.
  - assert (key y ≠ key x) as Hne.
    { inversion_clear Hnd as [|?? Hy _]. cbn in Hy. set_solver. }
    pose proof (Hcomm s y x Hne) as Hc. cbn.
    destruct (f s y) as [sy|e1] eqn:Hy, (f s x) as [sx|e2] eqn:Hx; cbn in *.
    + by rewrite Hc.
    + by rewrite Hc.
    + by rewrite <- Hc.
    + congruence.
  - rewrite IH1 by done. apply IH2. by rewrite <- H1.
Qed.

(** ** Machine integers *)

Definition int64_min : Z := -9223372036854775808.
Definition int64_max : Z := 9223372036854775807.
Definition in_int64 (z : Z) : bool := (int64_min <=? z)%Z && (z <=? int64_max)%Z.

(** Two's-complement wrap-around at 64 bits, unsigned wrap at [w] bits. *)
Definition wrap64 (z : Z) : Z :=
  ((z + 9223372036854775808) mod 18446744073709551616 - 9223372036854775808)%Z.
Definition wrapu (w : Z) (z : Z) : Z := (z mod 2 ^ w)%Z.

Lemma wrap64_id z : (int64_min ≤ z ≤ int64_max)%Z → wrap64 z = z.
Proof.
  unfold wrap64, int64_min, int64_max. intros H.
  rewrite Z.mod_small by lia. lia.
Qed.

Lemma wrapu_range w z : (0 ≤ w)%Z → (0 ≤ wrapu w z < 2 ^ w)%Z.
Proof. intros. apply Z.mod_pos_bound. by apply Z.pow_pos_nonneg. Qed.

Lemma wrapu_id w z : (0 ≤ z < 2 ^ w)%Z → wrapu w z = z.
Proof. intros. by apply Z.mod_small. Qed.

(** The big-endian value of a byte slice ([encoding/binary]'s BigEndian). *)
Definition be_combine (l : list Z) : Z := fold_left (λ acc b, acc * 256 + b)%Z l 0%Z.

(** The low [n] bytes of [z], most significant first. *)
Fixpoint be_split (n : nat) (z : Z) : list Z :=
  match n with
  | O => []
  | S n => (z / 2 ^ (8 * Z.of_nat n)) mod 256 :: be_split n z
  end%Z.

Lemma be_combine_snoc l b : be_combine (l ++ [b]) = (be_combine l * 256 + b)%Z.
Proof. unfold be_combine. by rewrite fold_left_app. Qed.

Lemma be_combine_acc l acc :
  fold_left (λ acc b, acc * 256 + b)%Z l acc = (acc * 2 ^ (8 * Z.of_nat (length l)) + be_combine l)%Z.
Proof.
  unfold be_combine. revert acc. induction l as [|b l IH]; intros acc; cbn -[Z.of_nat Z.pow Z.mul].
  { change (8 * Z.of_nat 0)%Z with 0%Z. lia. }
  rewrite IH, (IH (0 * 256 + b)%Z). rewrite Nat2Z.inj_succ, Z.mul_succ_r, Z.pow_add_r by lia. lia.
Qed.

Lemma length_be_split n z : length (be_split n z) = n.
Proof. induction n; cbn; auto. Qed.

(** Splitting a value that fits and combining it again is the identity. *)
Lemma be_combine_split n z :
  (0 ≤ z < 2 ^ (8 * Z.of_nat n))%Z → be_combine (be_split n z) = z.
Proof.
  intros H. enough (∀ z, 0 ≤ z → be_combine (be_split n z) = z mod 2 ^ (8 * Z.of_nat n))%Z as Hm.
  { rewrite Hm by lia. by apply Z.mod_small. }
  clear z H. induction n as [|n IH]; intros z Hz.
  { cbn. by rewrite Z.mod_1_r. }
  cbn [be_split]. unfold be_combine. cbn [fold_left].
  rewrite be_combine_acc, length_be_split, IH by done.
  rewrite Nat2Z.inj_succ, Z.mul_succ_r, Z.pow_add_r by lia.
  rewrite (Z.rem_mul_r z) by lia. rewrite Z.mul_0_l, Z.add_0_l.
  change (2 ^ 8)%Z with 256%Z. lia.
Qed.

(** ** Byte slices with Go's bounds checks: [None] is a run-time panic *)

Definition slice {A} (p : list A) (a b : Z) : option (list A) :=
  if (0 <=? a)%Z && (a <=? b)%Z && (b <=? Z.of_nat (length p))%Z
  then Some (take (Z.to_nat (b - a)) (drop (Z.to_nat a) p)) else None.

Definition index {A} (p : list A) (i : Z) : option A :=
  if (0 <=? i)%Z then p !! Z.to_nat i else None.

Definition len {A} (p : list A) : Z := Z.of_nat (length p).

Lemma slice_in_bounds {A} (p : list A) a b :
  (0 ≤ a ≤ b)%Z → (b ≤ len p)%Z → ∃ l, slice p a b = Some l ∧ len l = (b - a)%Z.
Proof.
  unfold slice, len. intros Ha Hb. eexists. split.
  - rewrite (proj2 (Z.leb_le 0 a)), (proj2 (Z.leb_le a b)), (proj2 (Z.leb_le b _)) by lia. done.
  - rewrite length_take, length_drop. lia.
Qed.

Lemma index_in_bounds {A} (p : list A) i :
  (0 ≤ i < len p)%Z → ∃ x, index p i = Some x.
Proof.
  unfold index, len. intros Hi. rewrite (proj2 (Z.leb_le 0 i)) by lia.
  apply lookup_lt_is_Some_2. lia.
Qed.

Lemma slice_mid {A} (p l1 l2 l3 : list A) a b :
  p = l1 ++ l2 ++ l3 → a = len l1 → b = (a + len l2)%Z → slice p a b = Some l2.
Proof.
  intros -> -> ->. unfold slice, len. rewrite !length_app.
  rewrite (proj2 (Z.leb_le 0 _)), !(proj2 (Z.leb_le _ _)) by lia.
  cbn. rewrite Nat2Z.id, drop_app_length. f_equal.
  replace (Z.to_nat _) with (length l2) by lia. apply take_app_length.
Qed.

Lemma index_mid {A} (p l1 l2 : list A) x i :
  p = l1 ++ x :: l2 → i = len l1 → index p i = Some x.
Proof.
  intros -> ->. unfold index, len. rewrite (proj2 (Z.leb_le 0 _)) by lia.
  rewrite Nat2Z.id. by apply list_lookup_middle.
Qed.

(** ** Automation *)

(** Break a hypothesis [m = Ok v], [m] a chain of binds, wraps and matches,
    into the facts that made it succeed. *)
Ltac inv_result :=
  repeat match goal with
  | H : Ok _ = Ok _ |- _ => injection H as H; try subst
  | H : mret _ = Ok _ |- _ => change (mret ?x) with (Ok x) in H
  | H : Err _ = Ok _ |- _ => discriminate H
  | H : Ok _ = Err _ |- _ => discriminate H
  | H : wrap _ _ = Ok _ |- _ => apply wrap_Ok in H
  | H : (_ ≫= _) = Ok _ |- _ =>
      let a := fresh "r" in let H1 := fresh H in
      apply bind_Ok in H as (a & H1 & H)
  end.

Create HintDb caelo.
Create Rewrite HintDb caelo.

#[global] Arguments String.append : simpl nomatch.

Lemma sapp_assoc (s t u : string) : (s +:+ t) +:+ u = s +:+ (t +:+ u).
Proof. induction s as [|a s IH]; cbn; [done|]. by rewrite IH. Qed.

Lemma sapp_nil_r (s : string) : s +:+ "" = s.
Proof. induction s as [|a s IH]; cbn; [done|]. by rewrite IH. Qed.

#[export] Hint Rewrite sapp_assoc sapp_nil_r : caelo.
