(* ===== verification/GoStrings.v ===== *)
(** * Go's [strings] and [strconv], as the core uses them

    A Go string is a sequence of bytes, here Rocq's [string] with one
    [ascii] per byte.  White space is Go's [unicode.IsSpace], recognised by
    its UTF-8 encodings.  [ToLower] lowers ASCII letters and the two other
    letters whose lower case is ASCII (U+212A KELVIN SIGN and U+0130); every
    remaining non-ASCII letter is left as it is, which is enough here because
    the core compares lowered text only with ASCII words. *)

From S2P Require Import Prelude.
From Stdlib Require Import Ascii.
From stdpp Require Import options.

Definition code (c : ascii) : Z := Z.of_N (N_of_ascii c).
Definition chr (z : Z) : ascii := ascii_of_N (Z.to_N z).
Definition ascii_eqb (a b : ascii) : bool := bool_decide (a = b).
Definition newline : ascii := "010"%char.
Definition nl : string := String newline "".

Definition code_in (lo hi : Z) (c : ascii) : bool :=
  (lo <=? code c)%Z && (code c <=? hi)%Z.
Definition is_digit : ascii → bool := code_in 48 57.

(** ** Byte predicates lifted to strings *)

Fixpoint sall (P : ascii → bool) (s : string) : bool :=
  match s with
  | EmptyString => true
  | String c s => P c && sall P s
  end.

Definition not_byte (c : ascii) : ascii → bool := λ a, negb (ascii_eqb a c).

(** [lacks c s]: the byte [c] does not occur in [s]. *)
Abbreviation lacks c s := (sall (not_byte c) s = true).

Fixpoint has_byte (c : ascii) (s : string) : bool :=
  match s with
  | EmptyString => false
  | String a s => ascii_eqb a c || has_byte c s
  end.

Definition slen (s : string) : Z := Z.of_nat (String.length s).

Fixpoint srev_app (s acc : string) : string :=
  match s with EmptyString => acc | String c s => srev_app s (String c acc) end.
Definition srev (s : string) : string := srev_app s "".

(** ** Prefixes, cutting, splitting, joining *)

(** [strings.CutPrefix]. *)
Fixpoint CutPrefix (s p : string) {struct p} : option string :=
  match p, s with
  | EmptyString, _ => Some s
  | String a p, String b s => if ascii_eqb a b then CutPrefix s p else None
  | String _ _, EmptyString => None
  end.

Definition HasPrefix (s p : string) : bool := bool_decide (is_Some (CutPrefix s p)).
Definition CutSuffix (s p : string) : option string :=
  srev <$> CutPrefix (srev s) (srev p).
Definition HasSuffix (s p : string) : bool := bool_decide (is_Some (CutSuffix s p)).
Definition TrimPrefix (s p : string) : string := default s (CutPrefix s p).

(** [strings.Cut] at a one-byte separator: before and after, if found. *)
Fixpoint Cut (s : string) (c : ascii) : option (string * string) :=
  match s with
  | EmptyString => None
  | String a s =>
      if ascii_eqb a c then Some ("", s)
      else '(before, after) ← Cut s c; Some (String a before, after)
  end.

(** [strings.Cut] at any separator. *)
Fixpoint CutString (s sep : string) : option (string * string) :=
  match CutPrefix s sep with
  | Some after => Some ("", after)
  | None => match s with
            | EmptyString => None
            | String a s => '(before, after) ← CutString s sep; Some (String a before, after)
            end
  end.

(** [strings.LastIndexByte] seen as a cut at the last occurrence. *)
Definition CutLast (s : string) (c : ascii) : option (string * string) :=
  '(after, before) ← Cut (srev s) c; Some (srev before, srev after).

(** [strings.Split] at a one-byte separator; never empty. *)
Fixpoint Split (s : string) (c : ascii) : list string :=
  match s with
  | EmptyString => [""]
  | String a s =>
      if ascii_eqb a c then "" :: Split s c
      else match Split s c with
           | [] => [String a ""]
           | w :: ws => String a w :: ws
           end
  end.

Fixpoint Join (l : list string) (sep : string) : string :=
  match l with
  | [] => ""
  | [s] => s
  | s :: l => s +:+ sep +:+ Join l sep
  end.

(** [strings.Contains]. *)
Fixpoint Contains (s sub : string) : bool :=
  HasPrefix s sub || match s with EmptyString => false | String _ s => Contains s sub end.

Fixpoint sconcat (l : list string) : string :=
  match l with [] => "" | s :: l => s +:+ sconcat l end.

(** ** White space and trimming *)

(** The encodings of the runes [unicode.IsSpace] accepts. *)
Definition bytes (l : list Z) : string :=
  foldr (λ z s, String (chr z) s) "" l.
Definition white_space : list string := map bytes
  [[9];[10];[11];[12];[13];[32]; [194;133];[194;160]; [225;154;128];
   [226;128;128];[226;128;129];[226;128;130];[226;128;131];[226;128;132];
   [226;128;133];[226;128;134];[226;128;135];[226;128;136];[226;128;137];
   [226;128;138];[226;128;168];[226;128;169];[226;128;175];[226;129;159];
   [227;128;128]]%Z.

(** What remains of [s] after the first of [tokens] it starts with. *)
Fixpoint strip_one (tokens : list string) (s : string) : option string :=
  match tokens with
  | [] => None
  | t :: tokens =>
      match CutPrefix s t with Some r => Some r | None => strip_one tokens s end
  end.

(** Strip tokens from the left until none matches; every token is non-empty,
    so [String.length s] rounds are enough. *)
Fixpoint strip_fuel (n : nat) (tokens : list string) (s : string) : string :=
  match n with
  | O => s
  | S n => match strip_one tokens s with
           | Some r => strip_fuel n tokens r
           | None => s
           end
  end.
Definition strip (tokens : list string) (s : string) : string :=
  strip_fuel (String.length s) tokens s.

Definition TrimLeft (tokens : list string) (s : string) : string := strip tokens s.
Definition TrimRight (tokens : list string) (s : string) : string :=
  srev (strip (map srev tokens) (srev s)).

(** [strings.TrimSpace]. *)
Definition TrimSpace (s : string) : string :=
  TrimRight white_space (TrimLeft white_space s).

(** [strings.Trim] with an ASCII cutset. *)
Definition cutset (s : string) : list string :=
  map (λ c, String c "") (String.list_ascii_of_string s).
Definition Trim (s cut : string) : string :=
  TrimRight (cutset cut) (TrimLeft (cutset cut) s).

(** [strings.Fields]: the maximal runs of non-white-space bytes. *)
Fixpoint fields_fuel (n : nat) (s : string) (word : string) : list string :=
  let flush rest := if bool_decide (word = "") then rest else srev word :: rest in
  match n with
  | O => flush []
  | S n =>
      match strip_one white_space s with
      | Some r => flush (fields_fuel n r "")
      | None => match s with
                | EmptyString => flush []
                | String c r => fields_fuel n r (String c word)
                end
      end
  end.
Definition Fields (s : string) : list string :=
  fields_fuel (S (String.length s)) s "".

(** ** Case *)

Definition lower_byte (c : ascii) : ascii :=
  if code_in 65 90 c then chr (code c + 32) else c.

(** [strings.ToLower]; see the head of the file. *)
Fixpoint ToLower (s : string) : string :=
  match s with
  | EmptyString => EmptyString
  | String "226" (String "132" (String "170" r)) => String "k" (ToLower r)
  | String "196" (String "176" r) => String "i" (ToLower r)
  | String c r => String (lower_byte c) (ToLower r)
  end.

(** ** Numbers *)

(** The value of a non-empty run of decimal digits. *)
Fixpoint digits_from (acc : Z) (s : string) : option Z :=
  match s with
  | EmptyString => Some acc
  | String c s =>
      if is_digit c then digits_from (acc * 10 + (code c - 48))%Z s else None
  end.
Definition digits (s : string) : option Z :=
  if bool_decide (s = "") then None else digits_from 0 s.

(** [strconv.ParseInt(s, 10, 64)], and [strconv.Atoi] on a 64-bit machine. *)
Definition parse_int (s : string) : option Z :=
  v ← match s with
      | String "-" r => Z.opp <$> digits r
      | String "+" r => digits r
      | _ => digits s
      end;
  if in_int64 v then Some v else None.

Definition Atoi (s : string) : result Z :=
  match parse_int s with
  | Some v => Ok v
  | None => Err [Foreign "strconv.Atoi" s]
  end.

(** [strconv.Itoa], [%d]. *)
Definition Itoa (z : Z) : string := pretty z.

(** ** Lemmas *)

Lemma ascii_eqb_true a b : ascii_eqb a b = true ↔ a = b.
Proof. apply bool_decide_eq_true. Qed.
Lemma ascii_eqb_false a b : ascii_eqb a b = false ↔ a ≠ b.
Proof. apply bool_decide_eq_false. Qed.
Lemma ascii_eqb_refl a : ascii_eqb a a = true.
Proof. by apply ascii_eqb_true. Qed.
#[export] Hint Rewrite ascii_eqb_refl : caelo.

Section Sall.
Context (P : ascii → bool).
Implicit Types s t : string.

Lemma sall_app s t : sall P (s +:+ t) = sall P s && sall P t.
Proof. induction s as [|a s IH]; cbn; [done|]. by rewrite IH, andb_assoc. Qed.

Lemma sall_srev_app s t : sall P (srev_app s t) = sall P s && sall P t.
Proof.
  revert t; induction s as [|a s IH]; intros t; cbn; [done|].
  rewrite IH; cbn. destruct (P a), (sall P s), (sall P t); done.
Qed.

Lemma sall_srev s : sall P (srev s) = sall P s.
Proof. unfold srev. by rewrite sall_srev_app, andb_true_r. Qed.

Lemma CutPrefix_Some s p r : CutPrefix s p = Some r ↔ s = p +:+ r.
Proof.
  revert s; induction p as [|a p IH]; intros s; cbn.
  { split; [by intros [= ->]|by intros ->]. }
  destruct s as [|b s]; [done|].
  destruct (ascii_eqb a b) eqn:E.
  - apply ascii_eqb_true in E as ->. rewrite IH. split; [by intros ->|by intros [=]].
  - apply ascii_eqb_false in E. split; [done|by intros [= -> ?]].
Qed.

Lemma CutPrefix_sall s p r : sall P s = true → CutPrefix s p = Some r → sall P r = true.
Proof.
  intros Hs ->%CutPrefix_Some. rewrite sall_app in Hs. by apply andb_true_iff in Hs as [_ ?].
Qed.

Lemma strip_one_sall ts s r :
  sall P s = true → strip_one ts s = Some r → sall P r = true.
Proof.
  intros Hs; induction ts as [|t ts IH]; cbn; [done|].
  destruct (CutPrefix s t) eqn:E; [|done]. intros [= <-]. by eapply CutPrefix_sall.
Qed.

Lemma strip_fuel_sall n ts s : sall P s = true → sall P (strip_fuel n ts s) = true.
Proof.
  revert s; induction n as [|n IH]; intros s Hs; cbn; [done|].
  destruct (strip_one ts s) eqn:E; [|done]. apply IH. by eapply strip_one_sall.
Qed.

Lemma TrimLeft_sall ts s : sall P s = true → sall P (TrimLeft ts s) = true.
Proof. apply strip_fuel_sall. Qed.

Lemma TrimRight_sall ts s : sall P s = true → sall P (TrimRight ts s) = true.
Proof. intros. unfold TrimRight. rewrite sall_srev. apply strip_fuel_sall. by rewrite sall_srev. Qed.

Lemma TrimSpace_sall s : sall P s = true → sall P (TrimSpace s) = true.
Proof. intros. by apply TrimRight_sall, TrimLeft_sall. Qed.

Lemma Trim_sall s c : sall P s = true → sall P (Trim s c) = true.
Proof. intros. by apply TrimRight_sall, TrimLeft_sall. Qed.

Lemma Cut_Some s c a b :
  Cut s c = Some (a, b) → s = a +:+ String c b ∧ lacks c a.
Proof.
  revert a; induction s as [|x s IH]; intros a; cbn; [done|].
  destruct (ascii_eqb x c) eqn:E.
  - apply ascii_eqb_true in E as ->. by intros [= <- <-].
  - destruct (Cut s c) as [[a' b']|] eqn:E'; cbn; [|done].
    intros [= <- <-]. destruct (IH a') as [-> ?]; [done|].
    cbn. unfold not_byte at 1. by rewrite E.
Qed.

Lemma Cut_sall s c a b :
  sall P s = true → Cut s c = Some (a, b) → sall P a = true ∧ sall P b = true.
Proof.
  intros Hs [-> _]%Cut_Some. rewrite sall_app in Hs. cbn in Hs.
  apply andb_true_iff in Hs as [? [_ ?]%andb_true_iff]. done.
Qed.

Lemma Split_sall s c : sall P s = true → Forall (λ w, sall P w = true) (Split s c).
Proof.
  induction s as [|a s IH]; cbn; [by constructor|].
  intros [Ha Hs]%andb_true_iff. specialize (IH Hs).
  destruct (ascii_eqb a c); [by constructor|].
  destruct (Split s c) as [|w ws].
  - constructor; cbn; [by rewrite Ha|done].
  - inversion_clear IH. constructor; cbn; [by rewrite Ha|done].
Qed.
End Sall.

Lemma sall_impl (P Q : ascii → bool) s :
  (∀ c, P c = true → Q c = true) → sall P s = true → sall Q s = true.
Proof.
  intros HPQ. induction s as [|a s IH]; cbn; [done|].
  intros [Ha Hs]%andb_true_iff. rewrite HPQ, IH; auto.
Qed.

Lemma Split_lacks s c : Forall (λ w, lacks c w) (Split s c).
Proof.
  induction s as [|a s IH]; cbn; [by constructor|].
  destruct (ascii_eqb a c) eqn:E; [by constructor|].
  destruct (Split s c) as [|w ws].
  - constructor; cbn; [|done]. unfold not_byte. by rewrite E.
  - inversion_clear IH. constructor; cbn; [|done].
    unfold not_byte at 1. by rewrite E.
Qed.

Lemma Split_lacks_id c l : lacks c l → Split l c = [l].
Proof.
  induction l as [|a l IH]; cbn; [done|]. intros [Ha Hl]%andb_true_iff.
  unfold not_byte in Ha. apply negb_true_iff in Ha. by rewrite Ha, IH.
Qed.

Lemma Split_line c l r : lacks c l → Split (l +:+ String c r) c = l :: Split r c.
Proof.
  induction l as [|a l IH]; cbn.
  { intros _. by rewrite ascii_eqb_refl. }
  intros [Ha Hl]%andb_true_iff. unfold not_byte in Ha. apply negb_true_iff in Ha.
  by rewrite Ha, IH.
Qed.

(** Text made of whole lines splits back into those lines. *)
Lemma Split_lines c ls :
  Forall (λ l, lacks c l) ls →
  Split (sconcat (map (λ l, l +:+ String c "") ls)) c = ls ++ [""].
Proof.
  induction 1 as [|l ls Hl _ IH]; cbn; [done|].
  rewrite sapp_assoc. cbn. rewrite Split_line by done. by rewrite IH.
Qed.

Lemma Split_not_nil s c : Split s c ≠ [].
Proof.
  destruct s as [|a s]; cbn; [done|]. destruct (ascii_eqb a c); [done|].
  by destruct (Split s c).
Qed.

(** Splitting loses nothing: joining at the separator gives the text back. *)
Lemma Join_Split s c : Join (Split s c) (String c "") = s.
Proof.
  induction s as [|a s IH]; cbn; [done|].
  pose proof (Split_not_nil s c) as Hn.
  destruct (ascii_eqb a c) eqn:E.
  - apply ascii_eqb_true in E as ->. destruct (Split s c); [done|]. cbn in *. by rewrite IH.
  - destruct (Split s c) as [|w [|w' ws]]; [done| |]; cbn in *; by rewrite IH.
Qed.

Lemma sconcat_app l1 l2 : sconcat (l1 ++ l2) = sconcat l1 +:+ sconcat l2.
Proof. induction l1 as [|s l1 IH]; cbn; [done|]. by rewrite IH, sapp_assoc. Qed.

Lemma HasPrefix_true s p : HasPrefix s p = true ↔ ∃ r, s = p +:+ r.
Proof.
  unfold HasPrefix. rewrite bool_decide_eq_true. split.
  - intros [r ->%CutPrefix_Some]. eauto.
  - intros [r ->]. exists r. by apply CutPrefix_Some.
Qed.

Lemma Cut_app c a b : lacks c a → Cut (a +:+ String c b) c = Some (a, b).
Proof.
  induction a as [|x a IH]; cbn.
  { intros _. by rewrite ascii_eqb_refl. }
  intros [Hx Ha]%andb_true_iff. unfold not_byte in Hx. apply negb_true_iff in Hx.
  by rewrite Hx, IH.
Qed.

Lemma string_length_app s t : String.length (s +:+ t) = (String.length s + String.length t)%nat.
Proof. induction s as [|a s IH]; cbn; auto. Qed.

Lemma slen_app s t : slen (s +:+ t) = (slen s + slen t)%Z.
Proof. unfold slen. induction s as [|a s IH]; cbn -[Z.of_nat] in *; lia. Qed.

#[export] Hint Resolve TrimSpace_sall Trim_sall TrimLeft_sall TrimRight_sall : caelo.

(** ** Decimal numbers print and parse *)

Lemma pretty_N_char_code d :
  (d < 10)%N → is_digit (pretty_N_char d) = true ∧ code (pretty_N_char d) = (48 + Z.of_N d)%Z.
Proof.
  intros H. assert (d = 0 ∨ d = 1 ∨ d = 2 ∨ d = 3 ∨ d = 4 ∨ d = 5 ∨ d = 6 ∨ d = 7 ∨ d = 8 ∨ d = 9)%N
    as Hd by lia.
  by repeat destruct Hd as [->|Hd]; [..|subst].
Qed.

Lemma digits_from_pretty_N_go x s :
  digits_from 0 (pretty_N_go x s) = digits_from (Z.of_N x) s.
Proof.
  revert s. induction (N.lt_wf_0 x) as [x _ IH]; intros s.
  assert (x = 0 ∨ 0 < x)%N as [->|Hx] by lia; [done|].
  rewrite pretty_N_go_step, IH by (done || by apply N.div_lt). cbn.
  destruct (pretty_N_char_code (x `mod` 10)) as [-> ->]; [by apply N.mod_lt|].
  f_equal. rewrite (N.div_mod x 10) at 3 by done. lia.
Qed.

Lemma pretty_N_go_digits x s : sall is_digit s = true → sall is_digit (pretty_N_go x s) = true.
Proof.
  revert s. induction (N.lt_wf_0 x) as [x _ IH]; intros s Hs.
  assert (x = 0 ∨ 0 < x)%N as [->|Hx] by lia; [done|].
  rewrite pretty_N_go_step by done. apply IH; [by apply N.div_lt|]. cbn.
  destruct (pretty_N_char_code (x `mod` 10)) as [-> _]; [by apply N.mod_lt|done].
Qed.

Lemma pretty_N_digits (x : N) : sall is_digit (pretty x) = true.
Proof. unfold pretty, pretty_N. case_decide; [done|]. by apply pretty_N_go_digits. Qed.

Lemma pretty_N_not_empty (x : N) : pretty x ≠ "".
Proof.
  intros H. assert (digits_from 0 (pretty x) = Some (Z.of_N x)) as Hd.
  { unfold pretty, pretty_N. case_decide; [by subst|]. by rewrite digits_from_pretty_N_go. }
  rewrite H in Hd. injection Hd as Hd. assert (x = 0%N) as -> by lia. done.
Qed.

Lemma digits_pretty_N (x : N) : digits (pretty x) = Some (Z.of_N x).
Proof.
  unfold digits. rewrite bool_decide_eq_false_2 by apply pretty_N_not_empty.
  unfold pretty, pretty_N. case_decide; [by subst|]. by rewrite digits_from_pretty_N_go.
Qed.

Lemma digit_string_head s c r :
  sall is_digit s = true → s = String c r → c ≠ "-"%char ∧ c ≠ "+"%char.
Proof. intros Hs ->. cbn in Hs. split; by intros ->. Qed.

Lemma parse_int_digits s :
  sall is_digit s = true →
  parse_int s = (v ← digits s; if in_int64 v then Some v else None).
Proof.
  intros Hs. destruct s as [|c s]; [done|].
  destruct (digit_string_head _ _ _ Hs eq_refl) as [Hm Hp]. unfold parse_int.
  repeat case_match; congruence.
Qed.

(** [Atoi] of a rendered number gives it back, over the whole 64-bit range. *)
Lemma parse_int_Itoa z : in_int64 z = true → parse_int (Itoa z) = Some z.
Proof.
  intros Hz. destruct z as [|p|p]; [done| |].
  - change (Itoa (Z.pos p)) with (pretty (N.pos p)).
    rewrite parse_int_digits by apply pretty_N_digits.
    rewrite digits_pretty_N. cbn -[in_int64]. by rewrite Hz.
  - change (Itoa (Z.neg p)) with (String "-" (pretty (N.pos p))).
    unfold parse_int. rewrite digits_pretty_N.
    change ((if in_int64 (Z.neg p) then Some (Z.neg p) else None) = Some (Z.neg p)).
    by rewrite Hz.
Qed.

Lemma Itoa_chars z : sall (λ c, is_digit c || ascii_eqb c "-") (Itoa z) = true.
Proof.
  assert (∀ x : N, sall (λ c, is_digit c || ascii_eqb c "-") (pretty x) = true) as H.
  { intros x. eapply sall_impl; [|apply pretty_N_digits]. by intros c ->. }
  destruct z as [|p|p]; [done|apply (H (N.pos p))|].
  change (Itoa (Z.neg p)) with (String "-" (pretty (N.pos p))). cbn -[is_digit]. apply H.
Qed.

Lemma Itoa_lacks c z : is_digit c = false → c ≠ "-"%char → lacks c (Itoa z).
Proof.
  intros Hd Hm. eapply sall_impl; [|apply Itoa_chars]. cbn. intros a Ha.
  unfold not_byte. apply negb_true_iff, ascii_eqb_false. intros ->.
  rewrite Hd in Ha. cbn in Ha. by apply ascii_eqb_true in Ha.
Qed.

(** ** Texts trimming leaves alone *)

(** A printable ASCII byte other than the space: no white space starts or ends
    with one. *)
Definition visible : ascii → bool := code_in 33 126.

Definition starts_visible (s : string) : bool :=
  match s with String c _ => visible c | "" => false end.
Definition ends_visible (s : string) : bool := starts_visible s && starts_visible (srev s).

Lemma srev_app_acc s t : srev_app s t = srev s +:+ t.
Proof.
  unfold srev. revert t. induction s as [|a s IH]; intros t; cbn; [done|].
  rewrite IH, (IH (String a "")), sapp_assoc. done.
Qed.

Lemma srev_cons a s : srev (String a s) = srev s +:+ String a "".
Proof. apply (srev_app_acc s). Qed.

Lemma srev_sapp s t : srev (s +:+ t) = srev t +:+ srev s.
Proof.
  induction s as [|a s IH].
  - change (srev t = srev t +:+ ""). by rewrite sapp_nil_r.
  - change (String a s +:+ t) with (String a (s +:+ t)). by rewrite !srev_cons, IH, sapp_assoc.
Qed.

Lemma srev_srev s : srev (srev s) = s.
Proof. induction s as [|a s IH]; [done|]. by rewrite srev_cons, srev_sapp, IH. Qed.

Lemma starts_visible_app s t : starts_visible s = true → starts_visible (s +:+ t) = true.
Proof. by destruct s. Qed.

Lemma ends_visible_app s m t :
  starts_visible s = true → ends_visible t = true → ends_visible (s +:+ m +:+ t) = true.
Proof.
  unfold ends_visible. intros Hs [_ Ht]%andb_true_iff.
  rewrite starts_visible_app by done. rewrite !srev_sapp, sapp_assoc. by apply starts_visible_app.
Qed.

Lemma ends_visible_sall s : s ≠ "" → sall visible s = true → ends_visible s = true.
Proof.
  assert (∀ s, s ≠ "" → sall visible s = true → starts_visible s = true) as H.
  { intros [|c r] Hne; [done|]. by intros [? _]%andb_true_iff. }
  intros Hne Hs. unfold ends_visible. rewrite H by done. apply H; [|by rewrite sall_srev].
  intros Hr. apply Hne. by rewrite <- (srev_srev s), Hr.
Qed.

(** The token starts with a byte that is not visible. *)
Definition hidden_token (t : string) : Prop :=
  match t with String c _ => visible c = false | "" => False end.

Lemma strip_visible ts s : Forall hidden_token ts → starts_visible s = true → strip ts s = s.
Proof.
  intros Hts Hs. assert (strip_one ts s = None) as Hn.
  { induction Hts as [|t ts Ht _ IH]; [done|]. cbn. destruct t as [|a t]; [done|].
    destruct s as [|c s]; [done|]. cbn. destruct (ascii_eqb a c) eqn:E; [|done].
    apply ascii_eqb_true in E as ->. cbn in *. congruence. }
  unfold strip. destruct (String.length s); cbn; [done|]. by rewrite Hn.
Qed.

Lemma white_space_hidden : Forall hidden_token white_space ∧ Forall hidden_token (map srev white_space).
Proof. split; repeat (constructor; [reflexivity|]); constructor. Qed.

Lemma TrimRight_visible s : starts_visible (srev s) = true → TrimRight white_space s = s.
Proof.
  intros H. unfold TrimRight. rewrite strip_visible; [apply srev_srev|apply white_space_hidden|done].
Qed.

Lemma TrimSpace_visible s : ends_visible s = true → TrimSpace s = s.
Proof.
  intros [Hs Hr]%andb_true_iff. unfold TrimSpace, TrimLeft.
  rewrite strip_visible; [by apply TrimRight_visible|apply white_space_hidden|done].
Qed.

Lemma TrimSpace_space s : TrimSpace (String " " s) = TrimSpace s.
Proof. reflexivity. Qed.

Lemma Itoa_not_empty z : Itoa z ≠ "".
Proof.
  destruct z as [|p|p]; [done|apply (pretty_N_not_empty (N.pos p))|].
  by change (Itoa (Z.neg p)) with (String "-" (pretty (N.pos p))).
Qed.

Lemma Itoa_visible z : ends_visible (Itoa z) = true.
Proof.
  apply ends_visible_sall; [apply Itoa_not_empty|].
  eapply sall_impl; [|apply Itoa_chars]. intros c [H|H]%orb_true_iff.
  - unfold is_digit, visible, code_in in *. apply andb_true_iff in H as [?%Z.leb_le ?%Z.leb_le].
    apply andb_true_iff; split; apply Z.leb_le; lia.
  - by apply ascii_eqb_true in H as ->.
Qed.

Lemma Atoi_Itoa z : in_int64 z = true → Atoi (Itoa z) = Ok z.
Proof. intros H. unfold Atoi. by rewrite parse_int_Itoa. Qed.
