(* ===== verification/GoEncoding.v ===== *)
(** * [encoding/base64] (StdEncoding) and [encoding/hex]

    [DecodeString] is Go's non-strict decoder: carriage returns and newlines
    are skipped anywhere, padding is required and nothing may follow it, and
    the unused low bits of the last quantum are not checked.  Byte slices are
    lists of [Z] in [0, 256). *)

From S2P Require Import Prelude GoStrings.
From Stdlib Require Import Ascii.
From stdpp Require Import options.
Local Open Scope Z_scope.

Definition is_byte (z : Z) : Prop := 0 ≤ z < 256.

Definition b64_value (c : ascii) : option Z :=
  if code_in 65 90 c then Some (code c - 65)
  else if code_in 97 122 c then Some (code c - 71)
  else if code_in 48 57 c then Some (code c + 4)
  else if ascii_eqb c "+" then Some 62
  else if ascii_eqb c "/" then Some 63
  else None.

Definition b64_char (v : Z) : ascii :=
  if v <? 26 then chr (v + 65)
  else if v <? 52 then chr (v + 71)
  else if v <? 62 then chr (v - 4)
  else if v =? 62 then "+"%char else "/"%char.

Definition pad : ascii := "="%char.

(** Quanta of four characters; the last may be padded. *)
Fixpoint b64_quanta (s : string) : option (list Z) :=
  match s with
  | EmptyString => Some []
  | String a (String b (String c (String d r))) =>
      x ← b64_value a; y ← b64_value b;
      if ascii_eqb c pad then
        if ascii_eqb d pad && bool_decide (r = "") then Some [x * 4 + y / 16] else None
      else
        z ← b64_value c;
        if ascii_eqb d pad then
          if bool_decide (r = "") then Some [x * 4 + y / 16; (y mod 16) * 16 + z / 4] else None
        else
          w ← b64_value d; rest ← b64_quanta r;
          Some (x * 4 + y / 16 :: (y mod 16) * 16 + z / 4 :: (z mod 4) * 64 + w :: rest)
  | _ => None
  end.

Fixpoint drop_newlines (s : string) : string :=
  match s with
  | EmptyString => EmptyString
  | String c s =>
      if ascii_eqb c "010" || ascii_eqb c "013" then drop_newlines s
      else String c (drop_newlines s)
  end.

(** [base64.StdEncoding.DecodeString]. *)
Definition b64_decode (s : string) : option (list Z) := b64_quanta (drop_newlines s).

(** [base64.StdEncoding.EncodeToString]. *)
Fixpoint b64_encode (l : list Z) : string :=
  match l with
  | [] => ""
  | [a] => String (b64_char (a / 4)) (String (b64_char ((a mod 4) * 16))
             (String pad (String pad "")))
  | [a; b] => String (b64_char (a / 4)) (String (b64_char ((a mod 4) * 16 + b / 16))
                (String (b64_char ((b mod 16) * 4)) (String pad "")))
  | a :: b :: c :: l =>
      String (b64_char (a / 4)) (String (b64_char ((a mod 4) * 16 + b / 16))
        (String (b64_char ((b mod 16) * 4 + c / 64)) (String (b64_char (c mod 64)) (b64_encode l))))
  end.

Definition nibble (v : Z) : ascii := if v <? 10 then chr (v + 48) else chr (v + 87).

(** [hex.EncodeToString]. *)
Fixpoint hex_encode (l : list Z) : string :=
  match l with
  | [] => ""
  | b :: l => String (nibble (b / 16)) (String (nibble (b mod 16)) (hex_encode l))
  end.

Definition is_lower_hex (c : ascii) : bool := code_in 48 57 c || code_in 97 102 c.

(** ** Lemmas *)

Lemma code_chr z : 0 ≤ z < 256 → code (chr z) = z.
Proof.
  intros H. unfold code, chr. rewrite N_ascii_embedding by lia. lia.
Qed.

Lemma chr_code c : chr (code c) = c.
Proof. unfold code, chr. rewrite N2Z.id. apply ascii_N_embedding. Qed.

Lemma code_inj a b : code a = code b → a = b.
Proof. intros H. rewrite <-(chr_code a), <-(chr_code b). by rewrite H. Qed.

Lemma code_range c : 0 ≤ code c < 256.
Proof. unfold code. pose proof (N_ascii_bounded c). lia. Qed.

(** All 64 digits at once. *)
Lemma b64_value_char v : 0 ≤ v < 64 → b64_value (b64_char v) = Some v.
Proof.
  intros H.
  assert (Forall (λ v, b64_value (b64_char v) = Some v) (map Z.of_nat (seq 0 64))) as Hall.
  { repeat (constructor; [reflexivity|]). constructor. }
  rewrite List.Forall_forall in Hall. apply Hall.
  apply in_map_iff. exists (Z.to_nat v). split; [lia|]. apply in_seq. lia.
Qed.

Lemma b64_char_plain v :
  0 ≤ v < 64 → ascii_eqb (b64_char v) pad = false ∧ ascii_eqb (b64_char v) "010" = false
    ∧ ascii_eqb (b64_char v) "013" = false.
Proof.
  intros H. pose proof (b64_value_char v H) as Hv.
  split; [|split]; apply ascii_eqb_false; intros E; rewrite E in Hv; discriminate.
Qed.

Lemma b64_value_range c v : b64_value c = Some v → 0 ≤ v < 64.
Proof.
  pose proof (code_range c). unfold b64_value, code_in.
  repeat case_match; intros [= <-]; lia.
Qed.

Lemma b64_quanta_bytes s l : b64_quanta s = Some l → Forall is_byte l.
Proof.
  revert l. induction s as [s IH] using (induction_ltof1 _ String.length). unfold ltof in IH.
  intros l. destruct s as [|a [|b [|c [|d r]]]]; cbn -[Z.mul Z.add Z.div Z.modulo]; try done.
  { intros [= <-]. constructor. }
  intros H.
  destruct (b64_value a) as [x|] eqn:Ha; cbn in H; [|done].
  destruct (b64_value b) as [y|] eqn:Hb; cbn in H; [|done].
  apply b64_value_range in Ha, Hb.
  pose proof (Z.div_mod y 16). pose proof (Z.mod_pos_bound y 16).
  destruct (ascii_eqb c pad).
  { destruct (_ && _); [|done]. injection H as <-. repeat constructor; lia. }
  destruct (b64_value c) as [z|] eqn:Hc; cbn in H; [|done]. apply b64_value_range in Hc.
  pose proof (Z.div_mod z 4). pose proof (Z.mod_pos_bound z 4).
  destruct (ascii_eqb d pad).
  { destruct (bool_decide _); [|done]. injection H as <-. repeat constructor; lia. }
  destruct (b64_value d) as [w|] eqn:Hd; cbn in H; [|done]. apply b64_value_range in Hd.
  destruct (b64_quanta r) as [rest|] eqn:Hr; cbn in H; [|done]. injection H as <-.
  repeat (constructor; [unfold is_byte; lia|]). eapply IH; [|done]. cbn. lia.
Qed.

(** Decoding an encoding gives the bytes back. *)
Lemma b64_decode_encode l : Forall is_byte l → b64_decode (b64_encode l) = Some l.
Proof.
  unfold b64_decode.
  induction l as [l IH] using (induction_ltof1 _ length). unfold ltof in IH. intros Hl.
  assert (∀ v, 0 ≤ v < 64 → drop_newlines (String (b64_char v) "") = String (b64_char v) "") as Hn.
  { intros v Hv. destruct (b64_char_plain v Hv) as (_ & E1 & E2). cbn. by rewrite E1, E2. }
  assert (∀ v r, 0 ≤ v < 64 → drop_newlines (String (b64_char v) r) = String (b64_char v) (drop_newlines r)) as Hs.
  { intros v r Hv. destruct (b64_char_plain v Hv) as (_ & E1 & E2). cbn. by rewrite E1, E2. }
  assert (∀ v, 0 ≤ v < 64 → ascii_eqb (b64_char v) pad = false) as Hp.
  { intros v Hv. apply (b64_char_plain v Hv). }
  destruct l as [|a [|b [|c l]]]; cbn [b64_encode]; [done|..];
    repeat match goal with H : Forall _ (_ :: _) |- _ => inversion_clear H end;
    unfold is_byte in *;
    repeat match goal with H : 0 ≤ ?x < 256 |- _ =>
      pose proof (Z.div_mod x 4); pose proof (Z.mod_pos_bound x 4);
      pose proof (Z.div_mod x 16); pose proof (Z.mod_pos_bound x 16);
      pose proof (Z.div_mod x 64); pose proof (Z.mod_pos_bound x 64);
      assert (0 ≤ x / 4 < 64 ∧ 0 ≤ x / 16 < 16 ∧ 0 ≤ x / 64 < 4) by lia;
      revert H end; intros;
    rewrite !Hs by lia; cbn [b64_quanta];
    rewrite !b64_value_char by lia; cbn -[Z.mul Z.add Z.div Z.modulo b64_char b64_value b64_quanta];
    rewrite ?ascii_eqb_refl; cbn -[Z.mul Z.add Z.div Z.modulo b64_char b64_value b64_quanta].
  - do 2 f_equal. rewrite Z.div_mul by lia. lia.
  - rewrite Hp by lia. rewrite ?b64_value_char by lia. cbn -[Z.mul Z.add Z.div Z.modulo].
    do 2 f_equal; [|f_equal].
    + rewrite Z.div_add_l by lia. rewrite (Z.div_small (b / 16)) by lia. lia.
    + rewrite Z.div_mul, (Z.add_comm (a mod 4 * 16)), Z.mod_add, Z.mod_small by lia. lia.
  - rewrite !Hp by lia. rewrite ?b64_value_char by lia.
    cbn -[Z.mul Z.add Z.div Z.modulo b64_quanta].
    rewrite IH by (done || (cbn; lia)). cbn -[Z.mul Z.add Z.div Z.modulo].
    do 2 f_equal; [|f_equal; [|f_equal]].
    + rewrite Z.div_add_l by lia. rewrite (Z.div_small (b / 16)) by lia. lia.
    + rewrite Z.div_add_l by lia. rewrite (Z.div_small (c / 64)) by lia.
      rewrite (Z.add_comm (a mod 4 * 16)), Z.mod_add, Z.mod_small by lia. lia.
    + rewrite (Z.add_comm (b mod 16 * 4)), Z.mod_add, Z.mod_small by lia. lia.
Qed.

Lemma nibble_lower_hex v : 0 ≤ v < 16 → is_lower_hex (nibble v) = true.
Proof.
  intros H. unfold nibble, is_lower_hex, code_in.
  destruct (Z.ltb_spec v 10); rewrite !code_chr by lia; lia.
Qed.

Lemma nibble_inj v w : 0 ≤ v < 16 → 0 ≤ w < 16 → nibble v = nibble w → v = w.
Proof.
  unfold nibble. intros Hv Hw Heq%(f_equal code).
  destruct (Z.ltb_spec v 10), (Z.ltb_spec w 10); rewrite !code_chr in Heq by lia; lia.
Qed.

Lemma byte_nibbles z : is_byte z → 0 ≤ z / 16 < 16 ∧ 0 ≤ z mod 16 < 16.
Proof. unfold is_byte. pose proof (Z.div_mod z 16). pose proof (Z.mod_pos_bound z 16). lia. Qed.

Lemma hex_encode_lower l : Forall is_byte l → sall is_lower_hex (hex_encode l) = true.
Proof.
  induction 1 as [|b l Hb _ IH]; cbn -[Z.div Z.modulo]; [done|].
  destruct (byte_nibbles b Hb). by rewrite !nibble_lower_hex, IH.
Qed.

Lemma hex_encode_length l : String.length (hex_encode l) = (2 * length l)%nat.
Proof. induction l as [|b l IH]; cbn -[Z.div Z.modulo Nat.mul]; [done|]. rewrite IH. lia. Qed.

Lemma hex_encode_inj l1 l2 :
  Forall is_byte l1 → Forall is_byte l2 → hex_encode l1 = hex_encode l2 → l1 = l2.
Proof.
  intros H1; revert l2; induction H1 as [|a l1 Ha _ IH]; intros l2 H2 Heq.
  { by destruct l2. }
  destruct H2 as [|b l2 Hb H2]; cbn -[Z.div Z.modulo] in Heq; [done|].
  destruct (byte_nibbles a Ha), (byte_nibbles b Hb).
  injection Heq as Hh Hl Hr. apply nibble_inj in Hh, Hl; [|done..].
  rewrite (IH l2 H2 Hr). f_equal. rewrite (Z.div_mod a 16), (Z.div_mod b 16) by lia. congruence.
Qed.

Lemma b64_decode_bytes s l : b64_decode s = Some l → Forall is_byte l.
Proof. apply b64_quanta_bytes. Qed.

#[export] Hint Resolve hex_encode_lower b64_decode_bytes : caelo.

(** What is encoded can be seen: no white space, one line. *)
Lemma b64_char_visible v : 0 ≤ v < 64 → visible (b64_char v) = true.
Proof.
  intros H.
  assert (Forall (λ v, visible (b64_char v) = true) (map Z.of_nat (seq 0 64))) as Hall.
  { repeat (constructor; [reflexivity|]). constructor. }
  rewrite List.Forall_forall in Hall. apply Hall.
  apply in_map_iff. exists (Z.to_nat v). split; [lia|]. apply in_seq. lia.
Qed.

Lemma b64_encode_visible l : Forall is_byte l → sall visible (b64_encode l) = true.
Proof.
  induction l as [l IH] using (induction_ltof1 _ length). unfold ltof in IH. intros Hl.
  destruct l as [|a [|b [|c l]]]; cbn [b64_encode sall]; [done|..];
    repeat match goal with H : Forall _ (_ :: _) |- _ => inversion_clear H end; unfold is_byte in *.
  all: repeat match goal with H : 0 ≤ ?x < 256 |- _ =>
      pose proof (Z.div_mod x 4); pose proof (Z.mod_pos_bound x 4);
      pose proof (Z.div_mod x 16); pose proof (Z.mod_pos_bound x 16);
      pose proof (Z.div_mod x 64); pose proof (Z.mod_pos_bound x 64);
      assert (0 ≤ x / 4 < 64 ∧ 0 ≤ x / 16 < 16 ∧ 0 ≤ x / 64 < 4) by lia; revert H end; intros.
  all: rewrite !b64_char_visible by lia; cbn [andb].
  1-2: reflexivity.
  apply IH; [cbn; lia|done].
Qed.

Lemma visible_lacks_newline s : sall visible s = true → lacks newline s.
Proof. apply sall_impl. intros c. unfold visible, not_byte, code_in. intros H. apply negb_true_iff, ascii_eqb_false.
  by intros ->. Qed.
