(* ===== verification/NetAddr.v ===== *)
(** * [net/netip] and the parts of [net] the core uses

    Addresses as [netip.ParseAddr] and [netip.ParsePrefix] accept them and as
    [Addr.String] prints them, [net.ParseIP] and [net.SplitHostPort]. *)

From S2P Require Import Prelude GoStrings.
From Stdlib Require Import Ascii.
From stdpp Require Import options.
Local Open Scope Z_scope.

(** A valid [netip.Addr]: 32 bits, or 128 bits and a zone ([""] for none). *)
Inductive Addr :=
  | Addr4 (v : Z)
  | Addr6 (v : Z) (zone : string).

#[export] Instance Addr_eq_dec : EqDecision Addr.
Proof. solve_decision. Defined.
#[export] Instance Addr_countable : Countable Addr.
Proof.
  refine (inj_countable'
    (λ a, match a with Addr4 v => inl v | Addr6 v z => inr (v, z) end)
    (λ s, match s with inl v => Addr4 v | inr (v, z) => Addr6 v z end) _).
  by intros [].
Defined.

Definition AddrFrom4 (b : list Z) : Addr := Addr4 (be_combine b).
Definition AddrFrom16 (b : list Z) : Addr := Addr6 (be_combine b) "".

(** ** Parsing *)

Definition dot : ascii := "."%char.
Definition colon : ascii := ":"%char.

(** [parseIPv4Fields]: [prev_dot] and [first] are the loop's look-behind. *)
Fixpoint ipv4_fields (s : string) (val pos diglen : Z) (out : list Z)
    (first prev_dot : bool) : option (list Z) :=
  match s with
  | EmptyString => if pos <? 3 then None else Some (out ++ [val])
  | String c r =>
      if is_digit c then
        if (diglen =? 1) && (val =? 0) then None
        else
          let val := val * 10 + (code c - 48) in
          if 255 <? val then None
          else ipv4_fields r val pos (diglen + 1) out false false
      else if ascii_eqb c dot then
        if first || bool_decide (r = "") || prev_dot then None
        else if pos =? 3 then None
        else ipv4_fields r 0 (pos + 1) 0 (out ++ [val]) false true
      else None
  end.
Definition parseIPv4 (s : string) : option (list Z) := ipv4_fields s 0 0 0 [] true false.

Definition hex_value (c : ascii) : option Z :=
  if code_in 48 57 c then Some (code c - 48)
  else if code_in 97 102 c then Some (code c - 87)
  else if code_in 65 70 c then Some (code c - 55)
  else None.

(** The group at the head of [s]: its value, its number of digits, the rest;
    [None] at a fifth digit. *)
Fixpoint hex_group (s : string) (acc : Z) (off : nat) : option (Z * nat * string) :=
  match s with
  | EmptyString => Some (acc, off, "")
  | String c r =>
      match hex_value c with
      | Some v => if (3 <? off)%nat then None else hex_group r (acc * 16 + v) (S off)
      | None => Some (acc, off, s)
      end
  end.

(** [parseIPv6]'s loop.  [ip] holds the bytes so far and [ell] the position of
    the ellipsis; every round adds at least two bytes, so 8 rounds reach 16. *)
Fixpoint ipv6_loop (n : nat) (s : string) (ip : list Z) (ell : option nat)
    : option (list Z * option nat * string) :=
  match n with
  | O => Some (ip, ell, s)
  | S n =>
      '(acc, off, rest) ← hex_group s 0 0;
      if (off =? 0)%nat then None
      else match rest with
      | String "." _ =>
          if bool_decide (ell = None) && negb (length ip =? 12)%nat then None
          else if (16 <? length ip + 4)%nat then None
          else v4 ← parseIPv4 s; Some (ip ++ v4, ell, "")
      | EmptyString => Some (ip ++ [acc / 256; acc mod 256], ell, "")
      | String ":" (String c r) =>
          let ip := ip ++ [acc / 256; acc mod 256] in
          if ascii_eqb c colon then
            match ell with
            | Some _ => None
            | None => if bool_decide (r = "") then Some (ip, Some (length ip), "")
                      else ipv6_loop n r ip (Some (length ip))
            end
          else ipv6_loop n (String c r) ip ell
      | _ => None
      end
  end.

Definition parseIPv6 (input : string) : option Addr :=
  '(s, zone) ← match Cut input "%" with
               | Some (s, z) => if bool_decide (z = "") then None else Some (s, z)
               | None => Some (input, "")
               end;
  let finish st :=
    '(ip, ell, rest) ← st;
    if negb (bool_decide (rest = "")) then None
    else if (length ip <? 16)%nat then
      match ell with
      | None => None
      | Some e => Some (Addr6 (be_combine
                    (take e ip ++ replicate (16 - length ip) 0 ++ drop e ip)) zone)
      end
    else match ell with Some _ => None | None => Some (Addr6 (be_combine ip) zone) end in
  match s with
  | String ":" (String ":" r) =>
      if bool_decide (r = "") then Some (Addr6 0 zone)
      else finish (ipv6_loop 8 r [] (Some 0%nat))
  | _ => finish (ipv6_loop 8 s [] None)
  end.

(** [netip.ParseAddr]: the first of '.', ':' and '%' decides the form. *)
Fixpoint addr_form (s : string) : option ascii :=
  match s with
  | EmptyString => None
  | String c r =>
      if ascii_eqb c dot || ascii_eqb c colon || ascii_eqb c "%" then Some c else addr_form r
  end.

Definition ParseAddr (s : string) : option Addr :=
  c ← addr_form s;
  if ascii_eqb c dot then AddrFrom4 <$> parseIPv4 s
  else if ascii_eqb c colon then parseIPv6 s
  else None.

(** [netip.ParsePrefix], of which the core keeps the address. *)
Definition ParsePrefix (s : string) : option (Addr * Z) :=
  '(before, bits_str) ← CutLast s "/";
  ip ← ParseAddr before;
  if match ip with Addr6 _ z => negb (bool_decide (z = "")) | _ => false end then None
  else if match bits_str with
          | String c (String _ _) => negb (code_in 49 57 c)
          | _ => false
          end then None
  else
    bits ← parse_int bits_str;
    let max_bits := match ip with Addr4 _ => 32 | Addr6 _ _ => 128 end in
    if (bits <? 0) || (max_bits <? bits) then None else Some (ip, bits).

(** ** Printing *)

Definition ipv4_string (v : Z) : string := Join (map Itoa (be_split 4 v)) ".".

(** The eight 16-bit groups, most significant first. *)
Definition groups (v : Z) : list Z :=
  map (λ i, (v / 2 ^ (16 * Z.of_nat (7 - i))) mod 65536) (seq 0 8).

Definition hex_digit_string (v : Z) : string :=
  String (if v <? 10 then chr (v + 48) else chr (v + 87)) "".
(** Lower-case hexadecimal without leading zeros, up to four digits. *)
Definition hex16 (v : Z) : string :=
  (if 4095 <? v then hex_digit_string (v / 4096) else "") +:+
  (if 255 <? v then hex_digit_string (v / 256 mod 16) else "") +:+
  (if 15 <? v then hex_digit_string (v / 16 mod 16) else "") +:+
  hex_digit_string (v mod 16).

Fixpoint leading_zeros (gs : list Z) : nat :=
  match gs with 0 :: gs => S (leading_zeros gs) | _ => O end.

(** The first longest run of at least two zero groups, as [start, end). *)
Definition longest_zeros (gs : list Z) : nat * nat :=
  fold_left (λ '(zs, ze) i,
    let l := leading_zeros (drop i gs) in
    if (2 <=? l)%nat && (ze - zs <? l)%nat then (i, (i + l)%nat) else (zs, ze))
    (seq 0 8) (255%nat, 255%nat).

Fixpoint ipv6_text (n : nat) (gs : list Z) (i zs ze : nat) : string :=
  match n with
  | O => ""
  | S n =>
      if (8 <=? i)%nat then ""
      else if (i =? zs)%nat then
        "::" +:+ (if (8 <=? ze)%nat then ""
                  else hex16 (nth ze gs 0) +:+ ipv6_text n gs (S ze) zs ze)
      else (if (0 <? i)%nat then ":" else "") +:+ hex16 (nth i gs 0) +:+ ipv6_text n gs (S i) zs ze
  end.

Definition ipv6_string (v : Z) : string :=
  if v / 2 ^ 32 =? 65535 then "::ffff:" +:+ ipv4_string (v mod 2 ^ 32)
  else let '(zs, ze) := longest_zeros (groups v) in ipv6_text 8 (groups v) 0 zs ze.

(** [Addr.String]. *)
Definition Addr_String (a : Addr) : string :=
  match a with
  | Addr4 v => ipv4_string v
  | Addr6 v z => ipv6_string v +:+ (if bool_decide (z = "") then "" else "%" +:+ z)
  end.

(** ** package net *)

(** [net.ParseIP]: an address without a zone. *)
Definition ParseIP (s : string) : option Addr :=
  a ← ParseAddr s;
  match a with
  | Addr6 _ z => if bool_decide (z = "") then Some a else None
  | _ => Some a
  end.

(** [ip.To4() != nil]: IPv4, or IPv4 mapped into IPv6. *)
Definition is_to4 (a : Addr) : bool :=
  match a with Addr4 _ => true | Addr6 v _ => v / 2 ^ 32 =? 65535 end.

(** [net.SplitHostPort]. *)
Definition SplitHostPort (hostport : string) : option (string * string) :=
  '(before, port) ← CutLast hostport ":";
  match hostport with
  | String "[" inner =>
      '(host, tail) ← Cut inner "]";
      (* the ']' must stand immediately before the last ':' *)
      if bool_decide (tail = String colon port) && negb (has_byte "[" host)
         && negb (has_byte "[" port) && negb (has_byte "]" port)
      then Some (host, port) else None
  | _ =>
      if has_byte ":" before || has_byte "[" hostport || has_byte "]" hostport then None
      else Some (before, port)
  end.
