(* ===== verification/GoJson.v ===== *)
(** * [encoding/json]: documents and their reader

    [json] is a decoded document; numbers keep their literal, object members
    their order.  [json_read] is the reader [json.Unmarshal] runs: strict
    syntax, white space between tokens, at most 10000 levels of nesting,
    strings with their escapes resolved and invalid UTF-8 replaced by U+FFFD.
    [fuel] bounds the calls: a value or a list of them consumes a byte every
    second call, so twice the input's length is enough. *)

From S2P Require Import Prelude GoStrings.
From Stdlib Require Import Ascii.
From stdpp Require Import options.
Local Open Scope Z_scope.

#[warnings="-register-all"]
Inductive json :=
  | JNull
  | JBool (b : bool)
  | JNum (literal : string)
  | JStr (s : string)
  | JArr (l : list json)
  | JObj (members : list (string * json)).

Fixpoint skip_ws (s : string) : string :=
  match s with
  | String c r =>
      if ascii_eqb c " " || ascii_eqb c "009" || ascii_eqb c "010" || ascii_eqb c "013"
      then skip_ws r else s
  | _ => s
  end.

(** ** Strings *)

Definition continuation : ascii → bool := code_in 128 191.
Definition replacement : string := bytes [239;191;189].

(** The UTF-8 sequence at the head of [s], as it goes into the value: an
    invalid byte becomes U+FFFD. *)
Definition next_rune (s : string) : option (string * string) :=
  match s with
  | EmptyString => None
  | String a r =>
      if code a <? 128 then Some (String a "", r)
      else match r with
      | String b r2 =>
          if code_in 194 223 a && continuation b then Some (String a (String b ""), r2)
          else match r2 with
          | String c r3 =>
              if continuation c &&
                 ((code_in 224 224 a && code_in 160 191 b)
                  || ((code_in 225 236 a || code_in 238 239 a) && continuation b)
                  || (code_in 237 237 a && code_in 128 159 b))
              then Some (String a (String b (String c "")), r3)
              else match r3 with
              | String d r4 =>
                  if continuation c && continuation d &&
                     ((code_in 240 240 a && code_in 144 191 b)
                      || (code_in 241 243 a && continuation b)
                      || (code_in 244 244 a && code_in 128 143 b))
                  then Some (String a (String b (String c (String d ""))), r4)
                  else Some (replacement, r)
              | _ => Some (replacement, r)
              end
          | _ => Some (replacement, r)
          end
      | _ => Some (replacement, r)
      end
  end.

Definition encode_rune (r : Z) : string :=
  if r <? 128 then bytes [r]
  else if r <? 2048 then bytes [192 + r / 64; 128 + r mod 64]
  else if r <? 65536 then bytes [224 + r / 4096; 128 + (r / 64) mod 64; 128 + r mod 64]
  else bytes [240 + r / 262144; 128 + (r / 4096) mod 64; 128 + (r / 64) mod 64; 128 + r mod 64].

Definition hex_nibble (c : ascii) : option Z :=
  if code_in 48 57 c then Some (code c - 48)
  else if code_in 97 102 c then Some (code c - 87)
  else if code_in 65 70 c then Some (code c - 55)
  else None.

Definition hex4 (s : string) : option (Z * string) :=
  match s with
  | String a (String b (String c (String d r))) =>
      x ← hex_nibble a; y ← hex_nibble b; z ← hex_nibble c; w ← hex_nibble d;
      Some (x * 4096 + y * 256 + z * 16 + w, r)
  | _ => None
  end.

(** After [\u]: a scalar value, or a surrogate pair, or U+FFFD for a surrogate
    that is not paired. *)
Definition unicode_escape (s : string) : option (string * string) :=
  '(u, r) ← hex4 s;
  if (55296 <=? u) && (u <=? 57343) then
    match r with
    | String "\" (String "u" r2) =>
        match hex4 r2 with
        | Some (v, r3) =>
            if (u <=? 56319) && (56320 <=? v) && (v <=? 57343)
            then Some (encode_rune (65536 + (u - 55296) * 1024 + (v - 56320)), r3)
            else Some (replacement, r)
        | None => Some (replacement, r)
        end
    | _ => Some (replacement, r)
    end
  else Some (encode_rune u, r).

Definition quote : ascii := ascii_of_N 34.

Definition simple_escape (c : ascii) : option string :=
  if ascii_eqb c quote then Some (String quote "")
  else match c with
       | "\"%char => Some "\" | "/"%char => Some "/"
       | "b"%char => Some (bytes [8]) | "f"%char => Some (bytes [12])
       | "n"%char => Some (bytes [10]) | "r"%char => Some (bytes [13])
       | "t"%char => Some (bytes [9]) | _ => None
       end.

(** The rest of a string after its opening quote. *)
Fixpoint string_body (n : nat) (s : string) : option (string * string) :=
  match n with
  | O => None
  | S n =>
      match s with
      | EmptyString => None
      | String c r =>
          if ascii_eqb c quote then Some ("", r)
          else if ascii_eqb c "\" then
            '(piece, r2) ← match r with
                           | String "u" r2 => unicode_escape r2
                           | String e r2 => p ← simple_escape e; Some (p, r2)
                           | _ => None
                           end;
            '(body, rest) ← string_body n r2; Some (piece +:+ body, rest)
          else if code c <? 32 then None
          else
            '(piece, r2) ← next_rune s;
            '(body, rest) ← string_body n r2; Some (piece +:+ body, rest)
      end
  end.

(** ** Numbers *)

Fixpoint span_digits (s : string) : string * string :=
  match s with
  | String c r => if is_digit c then let '(d, rest) := span_digits r in (String c d, rest) else ("", s)
  | _ => ("", s)
  end.

(** A literal of the JSON grammar, as sign, integer digits, fraction digits
    and exponent (sign, digits), and the rest of the input. *)
Record number := Number {
  neg : bool; int_digits : string; frac_digits : string; exp_neg : bool; exp_digits : string }.

Definition read_number (s : string) : option (number * string * string) :=
  let '(neg, s1) := match s with String "-" r => (true, r) | _ => (false, s) end in
  '(ip, s2) ← match s1 with
              | String "0" r => Some ("0", r)
              | _ => let '(d, r) := span_digits s1 in if bool_decide (d = "") then None else Some (d, r)
              end;
  '(fp, s3) ← match s2 with
              | String "." r => let '(d, r2) := span_digits r in
                                if bool_decide (d = "") then None else Some (d, r2)
              | _ => Some ("", s2)
              end;
  let expo r := let '(en, r) := match r with
                                | String "-" r => (true, r) | String "+" r => (false, r) | _ => (false, r)
                                end in
                let '(d, r2) := span_digits r in
                if bool_decide (d = "") then None else Some (en, d, r2) in
  '(en, ed, s4) ← match s3 with
                  | String "e" r => expo r
                  | String "E" r => expo r
                  | _ => Some (false, "", s3)
                  end;
  let len := (String.length s - String.length s4)%nat in
  Some (Number neg ip fp en ed, String.substring 0 len s, s4).

(** ** Values *)

Fixpoint read_value (n : nat) (depth : Z) (s : string) : option (json * string) :=
  match n with
  | O => None
  | S n =>
      match skip_ws s with
      | EmptyString => None
      | String c r =>
          if ascii_eqb c quote then
            '(v, rest) ← string_body (S (String.length r)) r; Some (JStr v, rest)
          else if ascii_eqb c "{" then
            if 10000 <? depth + 1 then None
            else match skip_ws r with
                 | String "}" r2 => Some (JObj [], r2)
                 | r2 => '(ms, rest) ← read_members n (depth + 1) r2; Some (JObj ms, rest)
                 end
          else if ascii_eqb c "[" then
            if 10000 <? depth + 1 then None
            else match skip_ws r with
                 | String "]" r2 => Some (JArr [], r2)
                 | r2 => '(vs, rest) ← read_elements n (depth + 1) r2; Some (JArr vs, rest)
                 end
          else match CutPrefix (String c r) "null", CutPrefix (String c r) "true",
                     CutPrefix (String c r) "false" with
          | Some rest, _, _ => Some (JNull, rest)
          | _, Some rest, _ => Some (JBool true, rest)
          | _, _, Some rest => Some (JBool false, rest)
          | _, _, _ => '(_, lit, rest) ← read_number (String c r); Some (JNum lit, rest)
          end
      end
  end
with read_elements (n : nat) (depth : Z) (s : string) : option (list json * string) :=
  match n with
  | O => None
  | S n =>
      '(v, rest) ← read_value n depth s;
      match skip_ws rest with
      | String "," r => '(vs, rest) ← read_elements n depth r; Some (v :: vs, rest)
      | String "]" r => Some ([v], r)
      | _ => None
      end
  end
with read_members (n : nat) (depth : Z) (s : string) : option (list (string * json) * string) :=
  match n with
  | O => None
  | S n =>
      match skip_ws s with
      | String q r =>
          if negb (ascii_eqb q quote) then None
          else
            '(k, r2) ← string_body (S (String.length r)) r;
            match skip_ws r2 with
            | String ":" r3 =>
                '(v, rest) ← read_value n depth r3;
                match skip_ws rest with
                | String "," r => '(ms, rest) ← read_members n depth r; Some ((k, v) :: ms, rest)
                | String "}" r => Some ([(k, v)], r)
                | _ => None
                end
            | _ => None
            end
      | _ => None
      end
  end.

Definition json_read (s : string) : option json :=
  '(v, rest) ← read_value (2 * String.length s + 2) 0 s;
  if bool_decide (skip_ws rest = "") then Some v else None.

(** ** Writing: [json.Marshal] *)

Definition hex_char (v : Z) : ascii := if v <? 10 then chr (v + 48) else chr (v + 87).

(** A byte below 128 inside a string, with HTML escaping on. *)
Definition quote_byte (c : ascii) : string :=
  if ascii_eqb c quote || ascii_eqb c "\" then String "\" (String c "")
  else if code c =? 8 then "\b" else if code c =? 12 then "\f"
  else if code c =? 10 then "\n" else if code c =? 13 then "\r" else if code c =? 9 then "\t"
  else if (code c <? 32) || ascii_eqb c "<" || ascii_eqb c ">" || ascii_eqb c "&"
  then "\u00" +:+ String (hex_char (code c / 16)) (String (hex_char (code c mod 16)) "")
  else String c "".

(** The sequence at the head of a text: invalid bytes and the two line
    separators are escaped. *)
Definition quote_rune (s piece : string) : string :=
  if negb (HasPrefix s piece) then "\ufffd"
  else match piece with
  | String c "" => quote_byte c
  | _ => if bool_decide (piece = bytes [226;128;168]) then "\u2028"
         else if bool_decide (piece = bytes [226;128;169]) then "\u2029" else piece
  end.

Fixpoint quote_body (n : nat) (s : string) : string :=
  match n with
  | O => ""
  | S n => match next_rune s with
           | None => ""
           | Some (piece, r) => quote_rune s piece +:+ quote_body n r
           end
  end.

(** A quoted string; a rune takes at least a byte. *)
Definition marshal_string (s : string) : string :=
  String quote (quote_body (String.length s) s +:+ String quote "").

Definition marshal_bool (b : bool) : string := if b then "true" else "false".

(** An object of marshalled values; [omitempty] members are left out before. *)
Definition marshal_object (ms : list (string * string)) : string :=
  "{" +:+ Join (map (λ '(k, v), marshal_string k +:+ ":" +:+ v) ms) "," +:+ "}".

Definition marshal_array (vs : list string) : string := "[" +:+ Join vs "," +:+ "]".

(** A document; numbers are written as their literal. *)
Fixpoint marshal_json (v : json) : string :=
  match v with
  | JNull => "null"
  | JBool b => marshal_bool b
  | JNum lit => lit
  | JStr s => marshal_string s
  | JArr l => marshal_array (map marshal_json l)
  | JObj ms => marshal_object (map (λ m, (m.1, marshal_json m.2)) ms)
  end.

(** ** [strconv.ParseFloat(_, 64)] on a JSON number: only its range can fail

    The exponent is accumulated as [readFloat] does, up to five digits.  The
    value overflows when it rounds to infinity, at 2^1024 - 2^970. *)
Definition exponent (ds : string) : Z :=
  let fix go s e := match s with
    | EmptyString => e
    | String c s => go s (if e <? 10000 then e * 10 + (code c - 48) else e)
    end in go ds 0.

Definition float_limit : Z := 2 ^ 1024 - 2 ^ 970.

Definition float_in_range (m e : Z) (ndigits : Z) : bool :=
  if m =? 0 then true
  else if 310 <? e then false
  else if 0 <=? e then m * 10 ^ e <? float_limit
  else if ndigits + e <? 300 then true
  else m <? float_limit * 10 ^ (- e).

Definition parse_float_ok (lit : string) : bool :=
  match read_number lit with
  | Some (n, _, "") =>
      let ds := int_digits n +:+ frac_digits n in
      let m := default 0 (digits ds) in
      let e := (if exp_neg n then - exponent (exp_digits n) else exponent (exp_digits n)) in
      float_in_range m (e - slen (frac_digits n)) (slen ds)
  | _ => false
  end.
