(* ===== verification/GoJsonFacts.v ===== *)
(** * What is written is what is read: facts of the JSON writer

    [next_rune_view] says how a text begins; [read_quote_body] that a written
    string is read back with its invalid bytes replaced ([to_valid]);
    [read_number_Itoa] that a printed integer is; [json_read_object] that a
    written object is, member by member; [marshal_object_printable] that it
    has no control character, so that it is one line. *)

From S2P Require Import Prelude GoStrings GoJson.
From Stdlib Require Import Ascii.
From stdpp Require Import options.

(** ** Runes *)

(** A byte of a sequence longer than one. *)
Definition high (c : ascii) : bool := (127 <? code c)%Z.

(** The three ways a text begins. *)
Inductive rune_view (s piece r : string) : Prop :=
  | one_byte c : (code c < 128)%Z → piece = String c "" → s = String c r → rune_view s piece r
  | invalid : piece = replacement → HasPrefix s replacement = false → rune_view s piece r
  | sequence a b t : piece = String a (String b t) → s = piece +:+ r → sall high piece = true →
      (∀ r', next_rune (piece +:+ r') = Some (piece, r')) → rune_view s piece r.

Lemma next_rune_replacement r : next_rune (replacement +:+ r) = Some (replacement, r).
Proof. reflexivity. Qed.

Lemma rune_replacement s r : next_rune s = Some (replacement, r) → rune_view s replacement r.
Proof.
  intros H. destruct (HasPrefix s replacement) eqn:E.
  - apply HasPrefix_true in E as [r' ->]. rewrite next_rune_replacement in H. injection H as <-.
    eapply sequence; [reflexivity|done|reflexivity|apply next_rune_replacement].
  - by apply invalid.
Qed.
Lemma continuation_high c : continuation c = true -> high c = true.
Proof. unfold continuation, high, code_in. lia. Qed.



#[local] Ltac use_tests :=
  repeat match goal with H : ?b = true |- context [?b] => rewrite H | H : ?b = false |- context [?b] => rewrite H end.

Lemma next_rune_view s piece r : next_rune s = Some (piece, r) → rune_view s piece r ∧ String.length r < String.length s.
Proof.
  intros H. split.
  - destruct (decide (piece = replacement)) as [->|E]; [by apply rune_replacement|].
    revert H. unfold next_rune.
    repeat (case_match; simplify_eq/=); intros [= <- <-]; try done;
      [by eapply one_byte; [apply Z.ltb_lt|..]|..];
      (eapply sequence; [done|done|unfold high, continuation, code_in in *; cbn; lia|]);
      intros r'; cbn; by use_tests.
   - revert H. unfold next_rune. destruct s; [done|].
  repeat (case_match; simplify_eq/=); intros [= <- <-]; cbn; try lia.
Qed.

(** ** Strings *)

(** One step of the reader. *)
Definition then_read (piece : string) (o : option (string * string)) : option (string * string) :=
  '(body, rest) ← o; Some (piece +:+ body, rest).

Lemma read_quoted_byte n c rest : (code c < 128)%Z →
  string_body (S n) (quote_byte c +:+ rest) = then_read (String c "") (string_body n rest).
Proof.
  intros H. destruct c as [[] [] [] [] [] [] [] []]; try (exfalso; revert H; vm_compute; done);
  reflexivity.
Qed.

Lemma read_quoted_rune n s piece r rest : next_rune s = Some (piece, r) →
  string_body (S n) (quote_rune s piece +:+ rest) = then_read piece (string_body n rest).
Proof.
  intros H. destruct (next_rune_view _ _ _ H) as [V _]. unfold quote_rune.
  destruct V as [c Hc -> -> | -> Hp | a b t -> -> Ha Hnext].
  - change (HasPrefix (String c r) (String c "")) with (HasPrefix (String c "" +:+ r) (String c "")).
    rewrite (proj2 (HasPrefix_true _ _)) by eauto. cbn [negb]. by apply read_quoted_byte.
  - rewrite Hp. cbn [negb]. reflexivity.
  - rewrite (proj2 (HasPrefix_true _ _)) by eauto. cbn [negb].
    case_bool_decide as H1; [rewrite H1; reflexivity|]. case_bool_decide as H2; [rewrite H2; reflexivity|].
    assert (a ≠ quote ∧ a ≠ "\"%char ∧ (32 <= code a)%Z) as (E1 & E2 & E3).
    { cbn in Ha. unfold high in Ha. split_and!; try (intros ->; vm_compute in Ha; done). lia. }
    change (String a (String b t) +:+ rest) with (String a (String b t +:+ rest)).
    cbn [string_body].
    apply ascii_eqb_false in E1, E2. rewrite E1, E2, (proj2 (Z.ltb_ge _ _)) by done.
    change (String a (String b t +:+ rest)) with (String a (String b t) +:+ rest). by rewrite Hnext.
Qed.

(** The text with every invalid byte replaced. *)
Fixpoint valid_text (n : nat) (s : string) : string :=
  match n with
  | O => ""
  | S n => match next_rune s with None => "" | Some (piece, r) => piece +:+ valid_text n r end
  end.
Definition to_valid (s : string) : string := valid_text (String.length s) s.

Lemma quote_rune_not_empty s piece r : next_rune s = Some (piece, r) → 1 ≤ String.length (quote_rune s piece).
Proof.
  intros H. destruct (next_rune_view _ _ _ H) as [V _]. unfold quote_rune.
  destruct (HasPrefix s piece); cbn [negb]; [|cbn; lia].
  destruct V as [c Hc -> -> | -> Hp | a b t -> -> Ha Hnext].
  - unfold quote_byte. repeat case_match; cbn; lia.
  - vm_compute. lia.
  - do 2 (case_bool_decide; [cbn; lia|]). cbn. lia.
Qed.

Lemma read_quote_body m s n rest :
  String.length s ≤ m → String.length (quote_body m s) < n →
  string_body n (quote_body m s +:+ String quote rest) = Some (valid_text m s, rest).
Proof.
  revert s n. induction m as [|m IH]; intros s n Hm Hn.
  { destruct n; [lia|]. reflexivity. }
  cbn [quote_body valid_text] in *. destruct (next_rune s) as [[piece r]|] eqn:E.
  - destruct (next_rune_view _ _ _ E) as [_ Hr]. pose proof (quote_rune_not_empty _ _ _ E).
    rewrite string_length_app in Hn. destruct n; [lia|]. rewrite sapp_assoc.
    rewrite (read_quoted_rune n s piece r) by done. rewrite IH by lia. done.
  - destruct n; [cbn in Hn; lia|]. reflexivity.
Qed.

(** ** Numbers *)

Lemma span_digits_app d rest : sall is_digit d = true →
  (∀ c r, rest = String c r → is_digit c = false) → span_digits (d +:+ rest) = (d, rest).
Proof.
  intros Hd Hr. induction d as [|c d IH]; cbn in *.
  - destruct rest as [|c r]; [done|]. cbn. by rewrite (Hr c r).
  - apply andb_true_iff in Hd as [Hc Hd]. by rewrite Hc, IH.
Qed.

Lemma substring_all s : String.substring 0 (String.length s) s = s.
Proof. induction s; cbn; congruence. Qed.

Lemma substring_prefix s t : String.substring 0 (String.length (s +:+ t) - String.length t) (s +:+ t) = s.
Proof.
  rewrite string_length_app, Nat.add_sub. induction s; cbn; [by destruct t|congruence].
Qed.

(** What may follow a number in a document. *)
Definition closes (rest : string) : Prop :=
  match rest with String c _ => c = ","%char ∨ c = "}"%char ∨ c = "]"%char | _ => True end.

Lemma pretty_N_go_head x s : (0 < x)%N →
  ∃ c r, pretty_N_go x s = String c r ∧ is_digit c = true ∧ c ≠ "0"%char.
Proof.
  revert s. induction (N.lt_wf_0 x) as [x _ IH]; intros s Hx. rewrite pretty_N_go_step by done.
  destruct (N.eq_0_gt_0_cases (x `div` 10)) as [E|E].
  - rewrite E, pretty_N_go_0. eexists _, _. split; [done|].
    assert (x < 10)%N as Hlt by (apply N.div_small_iff in E; lia). rewrite N.mod_small by done.
    destruct (pretty_N_char_code x Hlt) as [Hd Hc]. split; [done|]. intros E0. rewrite E0 in Hc.
    change (code "0") with 48%Z in Hc. lia.
  - apply IH; [by apply N.div_lt|done].
Qed.

(** The integer part of a literal: a zero, or digits that do not start with one. *)
Definition integer_digits (d : string) : Prop :=
  d = "0" ∨ ∃ c r, d = String c r ∧ c ≠ "0"%char ∧ is_digit c = true ∧ sall is_digit r = true.

Lemma pretty_N_integer (x : N) : integer_digits (pretty x).
Proof.
  assert (x = 0 ∨ 0 < x)%N as [->|Hx] by lia; [by left|right].
  pose proof (pretty_N_digits x) as Hd. unfold pretty, pretty_N in *. rewrite decide_False in * by lia.
  destruct (pretty_N_go_head x "" Hx) as (c & r & E & Hc & H0). rewrite E in *.
  cbn in Hd. apply andb_true_iff in Hd as [_ ?]. eauto 6.
Qed.

Lemma read_integer (minus : bool) d rest : closes rest → integer_digits d →
  let lit := (if minus then String "-" d else d) in
  ∃ num, read_number (lit +:+ rest) = Some (num, lit, rest).
Proof.
  intros Hr Hd lit.
  assert (∀ c r, rest = String c r → is_digit c = false) as Hnd.
  { intros c r ->. by destruct Hr as [-> |[-> | ->]]. }
  eexists. unfold read_number.
  assert (match lit +:+ rest with String "-" r => (true, r) | _ => (false, lit +:+ rest) end
          = (minus, d +:+ rest)) as ->.
  { unfold lit. destruct minus; [done|]. destruct Hd as [-> |(c & r & -> & _ & Hc & _)]; [done|]. cbn.
    destruct c as [[] [] [] [] [] [] [] []]; try done. }
  assert (match d +:+ rest with
          | String "0" r => Some ("0", r)
          | _ => let '(d', r) := span_digits (d +:+ rest) in
                 if bool_decide (d' = "") then None else Some (d', r)
          end = Some (d, rest)) as ->.
  { destruct Hd as [-> |(c & r & -> & H0 & Hc & Hs)]; [done|].
    rewrite (span_digits_app (String c r)) by (cbn; by rewrite ?Hc). cbn.
    destruct c as [[] [] [] [] [] [] [] []]; try done. }
  destruct rest as [|c rest]; [|destruct Hr as [-> |[-> | ->]]]; cbn -[String.length String.substring];
    by rewrite substring_prefix.
Qed.

Lemma read_number_Itoa z rest : closes rest →
  ∃ num, read_number (Itoa z +:+ rest) = Some (num, Itoa z, rest).
Proof.
  intros Hr. destruct z as [|p|p].
  - by apply (read_integer false "0" rest Hr); left.
  - apply (read_integer false (pretty (N.pos p)) rest Hr), pretty_N_integer.
  - apply (read_integer true (pretty (N.pos p)) rest Hr), pretty_N_integer.
Qed.

(** ** Values and objects *)

(** The head of a value: no white space, and not the end of an array. *)
Definition starts_value (v : string) : bool :=
  match v with
  | String c _ => negb (ascii_eqb c " " || ascii_eqb c "009" || ascii_eqb c "010" || ascii_eqb c "013"
                        || ascii_eqb c "]")
  | _ => false
  end.

(** [v] is how [j], which nests [k] deep, is written: wherever a value may end,
    it reads as [j]. *)
Record written (k : nat) (v : string) (j : json) : Prop := {
  written_head : starts_value v = true;
  written_read n depth rest : closes rest → (depth + Z.of_nat k ≤ 10000)%Z → String.length v ≤ n →
    read_value (S n) depth (v +:+ rest) = Some (j, rest);
}.

Lemma starts_value_skip v t : starts_value v = true →
  ∃ c r, v = String c r ∧ skip_ws (v +:+ t) = v +:+ t ∧ c ≠ "]"%char.
Proof.
  destruct v as [|c r]; [done|]. cbn [starts_value]. intros H. exists c, r. split; [done|].
  apply negb_true_iff, orb_false_iff in H as [H1 H2]. split; [|by apply ascii_eqb_false].
  change (String c r +:+ t) with (String c (r +:+ t)). cbn [skip_ws]. by rewrite H1.
Qed.

Lemma string_body_marshal s rest :
  let r := quote_body (String.length s) s +:+ String quote rest in
  string_body (S (String.length r)) r = Some (to_valid s, rest).
Proof. apply read_quote_body; [done|]. rewrite string_length_app. lia. Qed.

Lemma marshal_string_app s rest :
  marshal_string s +:+ rest = String quote (quote_body (String.length s) s +:+ String quote rest).
Proof. unfold marshal_string. cbn. by rewrite sapp_assoc. Qed.

Lemma written_string k s : written k (marshal_string s) (JStr (to_valid s)).
Proof.
  split; [done|]. intros n depth rest _ _ _. rewrite marshal_string_app.
  pose proof (string_body_marshal s rest) as H. cbv zeta in H. remember (quote_body _ s +:+ _) as r eqn:Er.
  change (read_value (S n) depth (String quote r))
    with ('(v, rest) ← string_body (S (String.length r)) r; Some (JStr v, rest)). by rewrite H.
Qed.

Lemma written_bool k b : written k (marshal_bool b) (JBool b).
Proof. by destruct b. Qed.

Lemma written_null k : written k "null" JNull.
Proof. done. Qed.

Lemma Itoa_head z : ∃ c r, Itoa z = String c r ∧ (is_digit c = true ∨ c = "-"%char).
Proof.
  pose proof (Itoa_chars z) as Hc. destruct (Itoa z) as [|c r] eqn:E; [by apply Itoa_not_empty in E|].
  exists c, r. split; [done|]. cbn in Hc. apply andb_true_iff in Hc as [Hc _].
  apply orb_true_iff in Hc as [?|?%ascii_eqb_true]; auto.
Qed.

Lemma written_int k z : written k (Itoa z) (JNum (Itoa z)).
Proof.
  split.
  { destruct (Itoa_head z) as (c & r & -> & [Hc| ->]); [|done].
    destruct c as [[] [] [] [] [] [] [] []]; try (exfalso; revert Hc; vm_compute; done); reflexivity. }
  intros n depth rest Hr _ _. destruct (read_number_Itoa z rest Hr) as [num H].
  destruct (Itoa_head z) as (c & r & E & Hc). rewrite E in *. cbn [String.app] in *. 
  change (String c r +:+ rest) with (String c (r +:+ rest)) in *.
  remember (r +:+ rest) as t eqn:Et. clear Et.
  assert (read_value (S n) depth (String c t) = '(_, lit, rest) ← read_number (String c t); Some (JNum lit, rest)) as ->.
  { destruct Hc as [Hc| ->]; [|reflexivity].
    destruct c as [[] [] [] [] [] [] [] []]; try (exfalso; revert Hc; vm_compute; done); reflexivity. }
  by rewrite H.
Qed.

Lemma skip_ws_key k r : skip_ws (marshal_string k +:+ r) = marshal_string k +:+ r.
Proof. reflexivity. Qed.

(** Elements and members, one after the other, within [n] calls. *)
Lemma read_array_elements k vs js n depth rest :
  Forall2 (written k) vs js → vs ≠ [] → (depth + Z.of_nat k ≤ 10000)%Z → String.length (Join vs ",") + 1 < n →
  read_elements n depth (Join vs "," +:+ "]" +:+ rest) = Some (js, rest).
Proof.
  intros H. revert n. induction H as [|v j vs js Hv H IH]; intros n Hne Hd Hn; [done|].
  destruct n; [lia|]. destruct vs as [|v' vs].
  - inversion H; subst. cbn [Join read_elements] in *. destruct n; [lia|].
    rewrite (written_read _ _ _ Hv); [reflexivity|cbn; auto|done|lia].
  - change (Join (v :: v' :: vs) ",") with (v +:+ "," +:+ Join (v' :: vs) ",") in *.
    rewrite !string_length_app in Hn. cbn [String.length] in Hn.
    rewrite !sapp_assoc. cbn [read_elements]. destruct n; [lia|].
    rewrite (written_read _ _ _ Hv) by (done || lia || (cbn; auto)). cbn [mbind option_bind].
    set (t := Join _ _ +:+ "]" +:+ rest).
    change (skip_ws ("," +:+ t)) with (String "," t). cbv iota. unfold t. by rewrite IH by (done || lia).
Qed.

Lemma read_object_members k ms js n depth rest :
  Forall2 (λ m j, j.1 = to_valid m.1 ∧ written k m.2 j.2) ms js → ms ≠ [] →
  (depth + Z.of_nat k ≤ 10000)%Z →
  String.length (Join (map (λ '(k, v), marshal_string k +:+ ":" +:+ v) ms) ",") < n →
  read_members n depth (Join (map (λ '(k, v), marshal_string k +:+ ":" +:+ v) ms) "," +:+ "}" +:+ rest)
    = Some (js, rest).
Proof.
  intros H. revert n. induction H as [|[key v] [key' j] ms js [Hk Hv] H IH]; intros n Hne Hd Hn; [done|].
  cbn in Hk, Hv. subst key'.
  assert (∀ n tail, closes tail → String.length v ≤ n →
    read_members (S (S n)) depth ((marshal_string key +:+ ":" +:+ v) +:+ tail) =
    match skip_ws tail with
    | String "," r => '(ms, rest) ← read_members (S n) depth r; Some ((to_valid key, j) :: ms, rest)
    | String "}" r => Some ([(to_valid key, j)], r)
    | _ => None
    end) as Hone.
  { clear n Hn. intros n tail Ht Hn. rewrite !sapp_assoc, marshal_string_app.
    pose proof (string_body_marshal key (":" +:+ v +:+ tail)) as H'. cbv zeta in H'.
    remember (quote_body _ key +:+ _) as r eqn:Er. cbn [read_members].
    change (skip_ws (String quote r)) with (String quote r). cbv iota.
    change (negb (ascii_eqb quote quote)) with false. cbv iota. rewrite H'. cbn [mbind option_bind].
    change (skip_ws (":" +:+ v +:+ tail)) with (String ":" (v +:+ tail)). cbv iota.
    by rewrite (written_read _ _ _ Hv n). }
  destruct ms as [|m ms].
  - inversion H; subst. cbn [map Join] in *. rewrite !string_length_app in Hn. cbn [String.length] in Hn.
    do 2 (destruct n; [lia|]). rewrite Hone by (lia || (cbn; auto)). reflexivity.
  - change (Join (map _ ((key, v) :: m :: ms)) ",") with ((marshal_string key +:+ ":" +:+ v) +:+ "," +:+
      Join (map (λ '(k, v), marshal_string k +:+ ":" +:+ v) (m :: ms)) ",") in *.
    rewrite !string_length_app in Hn. cbn [String.length] in Hn. do 2 (destruct n; [lia|]).
    rewrite sapp_assoc, Hone by (lia || (cbn; auto)).
    rewrite sapp_assoc. set (t := Join _ _ +:+ "}" +:+ rest).
    change (skip_ws ("," +:+ t)) with (String "," t). cbv iota. unfold t. by rewrite IH by (done || lia).
Qed.

Lemma written_array k vs js : Forall2 (written k) vs js → written (S k) (marshal_array vs) (JArr js).
Proof.
  intros H. split; [done|]. intros n depth rest _ Hd Hn. unfold marshal_array in *.
  rewrite !string_length_app in Hn. cbn [String.length] in Hn. rewrite !sapp_assoc.
  assert ((10000 <? depth + 1)%Z = false) as Hdepth by lia.
  destruct H as [|v j vs js Hv H].
  { cbn [Join]. change (read_value (S n) depth ("[" +:+ "" +:+ "]" +:+ rest))
      with (if (10000 <? depth + 1)%Z then None else Some (JArr [], rest)). by rewrite Hdepth. }
  pose proof (read_array_elements k (v :: vs) (j :: js) n (depth + 1) rest) as Hr.
  set (body := Join _ _ +:+ "]" +:+ rest) in *.
  assert (∃ t, body = v +:+ t) as [t Ht].
  { unfold body. destruct vs; cbn [Join]; rewrite ?sapp_assoc; eauto. }
  destruct (starts_value_skip v t (written_head _ _ _ Hv)) as (c & r & Ev & Hskip & Hc).
  change (read_value (S n) depth ("[" +:+ body)) with
    (if (10000 <? depth + 1)%Z then None
     else match skip_ws body with
          | String "]" r2 => Some (JArr [], r2)
          | r2 => '(vs, rest) ← read_elements n (depth + 1) r2; Some (JArr vs, rest)
          end).
  assert (match skip_ws body with
     | String "]" r2 => Some (JArr [], r2)
     | r2 => '(vs, rest) ← read_elements n (depth + 1) r2; Some (JArr vs, rest)
     end = '(vs, rest) ← read_elements n (depth + 1) body; Some (JArr vs, rest)) as ->.
  { rewrite Ht, Hskip, Ev. change (String c r +:+ t) with (String c (r +:+ t)).
    destruct c as [[] [] [] [] [] [] [] []]; try done; by exfalso; apply Hc. }
  rewrite Hdepth.
  rewrite Hr; [done|by constructor|done|lia|lia].
Qed.

Lemma written_object k ms js :
  Forall2 (λ m j, j.1 = to_valid m.1 ∧ written k m.2 j.2) ms js → ms ≠ [] →
  starts_value (marshal_object ms) = true ∧
  ∀ n depth rest, (depth + Z.of_nat (S k) ≤ 10000)%Z → String.length (marshal_object ms) ≤ n →
    read_value (S n) depth (marshal_object ms +:+ rest) = Some (JObj js, rest).
Proof.
  intros H Hne. split; [done|]. intros n depth rest Hd Hn. unfold marshal_object in *.
  rewrite !string_length_app in Hn. cbn [String.length] in Hn. rewrite !sapp_assoc.
  pose proof (read_object_members k ms js n (depth + 1) rest H Hne ltac:(lia) ltac:(lia)) as Hr.
  destruct ms as [|[key v] ms]; [done|].
  set (body := Join _ _ +:+ "}" +:+ rest) in *.
  assert (∃ t, body = String quote t) as [t Ht].
  { unfold body. destruct ms; cbn [map Join]; rewrite !sapp_assoc, marshal_string_app; eauto. }
  rewrite Ht in *.
  change (read_value (S n) depth ("{" +:+ String quote t))
    with (if (10000 <? depth + 1)%Z then None
          else '(ms, rest) ← read_members n (depth + 1) (String quote t); Some (JObj ms, rest)).
  assert ((10000 <? depth + 1)%Z = false) as -> by lia. by rewrite Hr.
Qed.

(** A written object, followed by white space, reads as its members. *)
Lemma json_read_object k ms js rest :
  Forall2 (λ m j, j.1 = to_valid m.1 ∧ written k m.2 j.2) ms js → ms ≠ [] → (Z.of_nat k < 10000)%Z →
  skip_ws rest = "" → json_read (marshal_object ms +:+ rest) = Some (JObj js).
Proof.
  intros H Hne Hk Hrest. unfold json_read. destruct (written_object k ms js H Hne) as [_ Hread].
  replace (2 * String.length (marshal_object ms +:+ rest) + 2)
    with (S (2 * String.length (marshal_object ms +:+ rest) + 1)) by lia.
  rewrite Hread; [cbn; by rewrite Hrest|lia|]. rewrite string_length_app. lia.
Qed.

(** ** One line *)

Abbreviation printable s := (sall (λ c, negb (code c <? 32)%Z) s = true).

Lemma quote_rune_printable s piece r : next_rune s = Some (piece, r) → printable (quote_rune s piece).
Proof.
  intros H. destruct (next_rune_view _ _ _ H) as [V _]. unfold quote_rune.
  destruct (HasPrefix s piece) eqn:Hp; cbn [negb]; [|reflexivity].
  destruct V as [c Hc -> -> | -> Hp' | a b t -> -> Ha Hnext]; [|congruence|].
  - clear. destruct c as [[] [] [] [] [] [] [] []]; reflexivity.
  - do 2 (case_bool_decide; [reflexivity|]). eapply sall_impl; [|exact Ha].
    intros c Hc. unfold high in Hc. lia.
Qed.

Lemma marshal_string_printable s : printable (marshal_string s).
Proof.
  unfold marshal_string. cbn [sall]. rewrite sall_app. cbn [sall]. change (code quote) with 34%Z. cbn.
  rewrite andb_true_r. generalize (String.length s) as n. intros n. revert s.
  induction n as [|n IH]; intros s; [done|]. cbn [quote_body].
  destruct (next_rune s) as [[piece r]|] eqn:E; [|done].
  rewrite sall_app, (quote_rune_printable s piece r) by done. apply IH.
Qed.

Lemma Itoa_printable z : printable (Itoa z).
Proof.
  eapply sall_impl; [|apply Itoa_chars]. intros c Hc. unfold is_digit, code_in in Hc.
  apply orb_true_iff in Hc as [Hc|Hc%ascii_eqb_true]; [lia|by subst].
Qed.

Lemma marshal_object_printable ms : Forall (λ m, printable m.2) ms → printable (marshal_object ms).
Proof.
  intros H. unfold marshal_object. rewrite !sall_app.
  set (f := λ '(k, v), marshal_string k +:+ ":" +:+ v).
  assert (printable (Join (map f ms) ",")) as E; [|by rewrite E].
  induction H as [|[k v] ms Hv H IH]; [done|]. cbn in Hv.
  assert (printable (marshal_string k +:+ ":" +:+ v)) as Hm.
  { by rewrite !sall_app, marshal_string_printable, Hv. }
  destruct ms as [|m ms]; [exact Hm|]. change (Join (map f ((k, v) :: m :: ms)) ",")
    with ((marshal_string k +:+ ":" +:+ v) +:+ "," +:+ Join (map f (m :: ms)) ",").
  by rewrite sall_app, Hm, sall_app, IH.
Qed.
