(* ===== verification/GoJsonRaw.v ===== *)
(** * [json.RawMessage]: a value as the text it has in its document

    What [json.Marshal] does to such a text ([compact]) and what it reads as
    then.  A text or a number, however it was written, is still the same one. *)

From S2P Require Import Prelude GoStrings GoEncoding GoJson GoJsonFacts.
From Stdlib Require Import Ascii.
From stdpp Require Import options.

(** [appendCompact], which [json.Marshal] runs over a raw message: white space
    goes outside strings, and what HTML or JavaScript would read is escaped. *)
Definition separator (a b c : ascii) : bool :=
  (code a =? 226)%Z && (code b =? 128)%Z && ((code c =? 168)%Z || (code c =? 169)%Z).

Fixpoint compact (in_string escaped : bool) (s : string) : string :=
  match s with
  | "" => ""
  | String a r =>
      if ascii_eqb a "<" || ascii_eqb a ">" || ascii_eqb a "&"
      then quote_byte a +:+ compact in_string false r
      else
        let copied :=
          if in_string
          then String a (compact (escaped || negb (ascii_eqb a quote)) (negb escaped && ascii_eqb a "\") r)
          else if ascii_eqb a " " || ascii_eqb a "009" || ascii_eqb a "010" || ascii_eqb a "013"
          then compact false false r
          else String a (compact (ascii_eqb a quote) false r) in
        match r with
        | String b (String c rest) =>
            if separator a b c
            then "\u202" +:+ String (hex_char (code c mod 16)) (compact in_string false rest)
            else copied
        | _ => copied
        end
  end.

(** ** One byte at a time *)

(** What [compact] rewrites wherever it stands. *)
Definition special (a : ascii) : bool := ascii_eqb a "<" || ascii_eqb a ">" || ascii_eqb a "&".
Definition separates (s : string) : bool :=
  match s with String a (String b (String c _)) => separator a b c | _ => false end.

Lemma compact_special i e a r : special a = true → compact i e (String a r) = quote_byte a +:+ compact i false r.
Proof. intros H. cbn [compact]. unfold special in H. by rewrite H. Qed.

Lemma compact_copies e a r : special a = false → separates (String a r) = false →
  compact true e (String a r) = String a (compact (e || negb (ascii_eqb a quote)) (negb e && ascii_eqb a "\") r).
Proof.
  intros H Hs. cbn [compact]. unfold special in H. rewrite H. destruct r as [|b [|c r]]; [done..|].
  cbn [separates] in Hs. by rewrite Hs.
Qed.

Lemma compact_outside a r : special a = false → separates (String a r) = false →
  ascii_eqb a " " || ascii_eqb a "009" || ascii_eqb a "010" || ascii_eqb a "013" = false →
  compact false false (String a r) = String a (compact (ascii_eqb a quote) false r).
Proof.
  intros H Hs Hw. cbn [compact]. unfold special in H. rewrite H, Hw. destruct r as [|b [|c r]]; [done..|].
  cbn [separates] in Hs. by rewrite Hs.
Qed.

(** A byte that is copied inside a string and changes nothing there. *)
Definition text_byte (a : ascii) : bool :=
  negb (special a || (code a =? 226)%Z || ascii_eqb a quote || ascii_eqb a "\").

Lemma separates_not a r : (code a =? 226)%Z = false → separates (String a r) = false.
Proof. intros H. destruct r as [|b [|c r]]; [done..|]. cbn. unfold separator. by rewrite H. Qed.

Lemma compact_text w rest : sall text_byte w = true →
  compact true false (w +:+ rest) = w +:+ compact true false rest.
Proof.
  induction w as [|a w IH]; [done|]. cbn [sall]. intros [Ha Hw]%andb_true_iff.
  unfold text_byte in Ha. rewrite !negb_orb, !andb_true_iff, !negb_true_iff in Ha. destruct Ha as [[[H1 H2] H3] H4].
  change (String a w +:+ rest) with (String a (w +:+ rest)).
  rewrite compact_copies by (done || by apply separates_not). rewrite H3, H4. cbn. by rewrite IH.
Qed.

Lemma compact_escape a w rest : special a = false → (code a =? 226)%Z = false → sall text_byte w = true →
  compact true false (String "\" (String a w) +:+ rest) = String "\" (String a w) +:+ compact true false rest.
Proof.
  intros Ha Hs Hw. change (String "\" (String a w) +:+ rest) with (String "\" (String a (w +:+ rest))).
  rewrite compact_copies by (done || by apply separates_not).
  change (ascii_eqb "\" quote) with false. change (ascii_eqb "\" "\") with true. cbn [orb negb andb].
  rewrite compact_copies by (done || by apply separates_not). cbn [orb negb andb]. by rewrite compact_text.
Qed.

(** ** What reading a piece depends on further on *)

(** The bytes that continue a sequence, at the head of a text. *)
Fixpoint continued (s : string) : string :=
  match s with String a r => if continuation a then String a (continued r) else "" | _ => "" end.

(** Whether a text begins with the second half of a surrogate pair. *)
Definition low_escape (s : string) : bool :=
  match s with
  | String "\" (String "u" r) =>
      match hex4 r with Some (v, _) => (56320 <=? v)%Z && (v <=? 57343)%Z | None => false end
  | _ => false
  end.

Definition context (s : string) : string * bool := (continued s, low_escape s).

Lemma hex_nibble_special a : special a = true → hex_nibble a = None.
Proof. destruct a as [[] [] [] [] [] [] [] []]; cbn; by intros. Qed.

(** A hexadecimal digit is copied, and nothing else becomes one. *)
Lemma compact_hex r :
  match r with
  | String a r' => if bool_decide (hex_nibble a = None)
                   then match compact true false r with String b _ => hex_nibble b = None | _ => True end
                   else compact true false r = String a (compact true false r')
  | _ => True
  end.
Proof.
  destruct r as [|a r]; [done|]. case_bool_decide as H.
  - destruct (special a) eqn:Hs.
    + rewrite compact_special by done. unfold special in Hs. rewrite !orb_true_iff, !ascii_eqb_true in Hs.
      by destruct Hs as [[->| ->]| ->].
    + destruct (separates (String a r)) eqn:Hp.
      * destruct r as [|b [|c r]]; [done..|]. cbn [separates] in Hp. cbn [compact]. unfold special in Hs. by rewrite Hs, Hp.
      * by rewrite compact_copies.
  - assert (text_byte a = true) as Ht.
    { destruct a as [[] [] [] [] [] [] [] []]; first [exfalso; apply H; reflexivity|reflexivity]. }
    apply (compact_text (String a "") r). cbn. by rewrite Ht.
Qed.

(** A text that does not begin with a digit, here or after some. *)
Definition no_digit (r : string) : Prop := match r with String a _ => hex_nibble a = None | "" => True end.

Lemma hex4_no_digit r : no_digit r → hex4 r = None ∧ (∀ a, hex4 (String a r) = None) ∧
  (∀ a b, hex4 (String a (String b r)) = None) ∧ (∀ a b c, hex4 (String a (String b (String c r))) = None).
Proof.
  intros H. split_and!; [|intros a|intros a b|intros a b c]; destruct r as [|x [|y [|z [|w r]]]]; cbn in *; try done;
    rewrite ?H; repeat (destruct (hex_nibble _); cbn); done.
Qed.

Lemma hex4_compact r : fst <$> hex4 (compact true false r) = fst <$> hex4 r.
Proof.
  assert (∀ r, (∃ a r', r = String a r' ∧ compact true false r = String a (compact true false r')) ∨
    no_digit r ∧ no_digit (compact true false r)) as H.
  { clear. intros r. pose proof (compact_hex r) as H. destruct r as [|a r]; [by right|].
    case_bool_decide as Ha; [right|left; eauto]. split; [done|]. by destruct (compact true false _). }
  destruct (H r) as [(a & r1 & -> & ->)|[H1 H2]]; [|by rewrite (proj1 (hex4_no_digit _ H1)), (proj1 (hex4_no_digit _ H2))].
  destruct (H r1) as [(b & r2 & -> & ->)|[H1 H2]]; [|by rewrite (proj1 (proj2 (hex4_no_digit _ H1))), (proj1 (proj2 (hex4_no_digit _ H2)))].
  destruct (H r2) as [(c & r3 & -> & ->)|[H1 H2]]; [|by rewrite (proj1 (proj2 (proj2 (hex4_no_digit _ H1)))), (proj1 (proj2 (proj2 (hex4_no_digit _ H2))))].
  destruct (H r3) as [(d & r4 & -> & ->)|[H1 H2]]; [|by rewrite (proj2 (proj2 (proj2 (hex4_no_digit _ H1)))), (proj2 (proj2 (proj2 (hex4_no_digit _ H2))))].
  cbn. by destruct (hex_nibble a), (hex_nibble b), (hex_nibble c), (hex_nibble d).
Qed.

Lemma quote_special a : special a = true → ∃ w, quote_byte a = "\u00" +:+ w ∧ (w = "3c" ∨ w = "3e" ∨ w = "26").
Proof.
  unfold special. rewrite !orb_true_iff, !ascii_eqb_true. intros [[->| ->]| ->]; eexists; (split; [reflexivity|auto]).
Qed.

Lemma separates_inv a r : separates (String a r) = true →
  ∃ c rest, r = String (ascii_of_N 128) (String c rest) ∧ a = ascii_of_N 226 ∧ (c = ascii_of_N 168 ∨ c = ascii_of_N 169).
Proof.
  destruct r as [|b [|c rest]]; [done..|]. cbn [separates]. unfold separator.
  rewrite !andb_true_iff, orb_true_iff, !Z.eqb_eq. intros [[Ha Hb] Hc].
  apply (code_inj a (ascii_of_N 226)) in Ha as ->. apply (code_inj b (ascii_of_N 128)) in Hb as ->.
  exists c, rest. split_and!; [done..|]. destruct Hc as [Hc|Hc]; [left|right]; by apply code_inj.
Qed.

Lemma compact_separates e a r : separates (String a r) = true →
  ∃ c rest, r = String (ascii_of_N 128) (String c rest) ∧ compact true e (String a r) =
    "\u202" +:+ String (if ascii_eqb c (ascii_of_N 168) then "8" else "9") (compact true false rest).
Proof.
  intros H. destruct (separates_inv _ _ H) as (c & rest & -> & -> & Hc). exists c, rest. split; [done|].
  by destruct Hc as [-> | ->].
Qed.

Lemma context_compact r : context (compact true false r) = context r.
Proof.
  unfold context. f_equal.
  - induction r as [|a r IH]; [done|]. destruct (special a) eqn:Hs.
    { rewrite compact_special by done. destruct (quote_special _ Hs) as (w & -> & _).
      unfold special in Hs. rewrite !orb_true_iff, !ascii_eqb_true in Hs. by destruct Hs as [[->| ->]| ->]. }
    destruct (separates (String a r)) eqn:Hp.
    { destruct (compact_separates false _ _ Hp) as (c & rest & _ & ->).
      destruct (separates_inv _ _ Hp) as (? & ? & _ & -> & _). done. }
    rewrite compact_copies by done. cbn [continued orb andb negb]. destruct (continuation a) eqn:Hc; [|done].
    assert (ascii_eqb a quote = false ∧ ascii_eqb a "\" = false) as [-> ->]
      by (split; apply ascii_eqb_false; intros ->; done).
    cbn. by rewrite IH.
  - destruct r as [|a r]; [done|]. destruct (special a) eqn:Hs.
    { rewrite compact_special by done. destruct (quote_special _ Hs) as (w & -> & Hw).
      transitivity false; [by destruct Hw as [->|[->| ->]]|].
      unfold special in Hs. rewrite !orb_true_iff, !ascii_eqb_true in Hs. by destruct Hs as [[->| ->]| ->]. }
    destruct (separates (String a r)) eqn:Hp.
    { destruct (compact_separates false _ _ Hp) as (c & rest & _ & ->).
      destruct (separates_inv _ _ Hp) as (? & ? & _ & -> & _). by destruct (ascii_eqb c _). }
    destruct (decide (a = "\"%char)) as [->|Ha].
    2: { rewrite compact_copies by done. unfold low_escape. destruct a as [[] [] [] [] [] [] [] []]; done. }
    destruct r as [|b r]; [done|].
    destruct (decide (b = "u"%char)) as [->|Hb].
    + change (String "\" (String "u" r)) with (String "\" (String "u" "") +:+ r).
      rewrite compact_escape by done. cbn [String.app low_escape]. pose proof (hex4_compact r) as H.
      destruct (hex4 (compact true false r)) as [[v ?]|], (hex4 r) as [[v' ?]|]; cbn in H; congruence.
    + rewrite compact_copies by done. change (ascii_eqb "\" quote) with false. change (ascii_eqb "\" "\") with true.
      cbn [orb negb andb].
      assert (low_escape (String "\" (String b r)) = false) as -> by (destruct b as [[] [] [] [] [] [] [] []]; done).
      destruct (special b) eqn:Hs'.
      { rewrite compact_special by done. by destruct (quote_special _ Hs') as (w & -> & _). }
      destruct (separates (String b r)) eqn:Hp'.
      { by destruct (compact_separates true _ _ Hp') as (c & rest & _ & ->). }
      rewrite compact_copies by done. destruct b as [[] [] [] [] [] [] [] []]; done.
Qed.

(** A text with a quotation mark in it says all there is to say about how it
    goes on. *)
Definition has_quote (t : string) : Prop := sall (not_byte quote) t = false.

Lemma has_quote_cons a t : has_quote (String a t) → a = quote ∨ has_quote t.
Proof.
  unfold has_quote. cbn [sall]. unfold not_byte at 1. destruct (ascii_eqb a quote) eqn:E; [left; by apply ascii_eqb_true|].
  cbn. by right.
Qed.

Lemma hex4_has_quote t x : has_quote t → fst <$> hex4 (t +:+ x) = fst <$> hex4 t.
Proof.
  intros H. assert (∀ w, hex4 (String quote w) = None ∧ (∀ a, hex4 (String a (String quote w)) = None) ∧
    (∀ a b, hex4 (String a (String b (String quote w))) = None) ∧
    (∀ a b c, hex4 (String a (String b (String c (String quote w)))) = None)) as Hq.
  { intros w. by apply hex4_no_digit. }
  destruct t as [|a t]; [done|]. apply has_quote_cons in H as [->|H]; cbn [String.app]; [by rewrite !(proj1 (Hq _))|].
  destruct t as [|b t]; [done|]. apply has_quote_cons in H as [->|H]; cbn [String.app];
    [by rewrite !(proj1 (proj2 (Hq _)))|].
  destruct t as [|c t]; [done|]. apply has_quote_cons in H as [->|H]; cbn [String.app];
    [by rewrite !(proj1 (proj2 (proj2 (Hq _))))|].
  destruct t as [|d t]; [done|]. apply has_quote_cons in H as [->|H]; cbn [String.app];
    [by rewrite !(proj2 (proj2 (proj2 (Hq _))))|].
  cbn. by destruct (hex_nibble a), (hex_nibble b), (hex_nibble c), (hex_nibble d).
Qed.

Lemma context_has_quote t x : has_quote t → context (t +:+ x) = context t.
Proof.
  intros H. unfold context. f_equal.
  - induction t as [|a t IH]; [done|]. cbn. destruct (continuation a) eqn:E; [|done].
    apply has_quote_cons in H as [->|H]; [done|]. by rewrite IH.
  - destruct t as [|a t]; [done|]. apply has_quote_cons in H as [->|H]; [done|].
    destruct (decide (a = "\"%char)) as [->|Ha].
    2: { destruct a as [[] [] [] [] [] [] [] []]; done. }
    destruct t as [|b t]; [done|]. apply has_quote_cons in H as [->|H]; [done|].
    destruct (decide (b = "u"%char)) as [->|Hb].
    2: { destruct b as [[] [] [] [] [] [] [] []]; done. }
    pose proof (hex4_has_quote t x H) as E. cbn [String.app low_escape].
    change (low_escape (String "\" (String "u" t) +:+ x)) with
      (match hex4 (t +:+ x) with Some (v, _) => (56320 <=? v)%Z && (v <=? 57343)%Z | None => false end).
    cbn [low_escape]. destruct (hex4 (t +:+ x)) as [[v ?]|], (hex4 t) as [[v' ?]|]; cbn in E; congruence.
Qed.

(** ** Pieces of a string *)

Lemma sapp_inj_l s t r : s +:+ r = t +:+ r → s = t.
Proof.
  revert t. induction s as [|a s IH]; intros [|b t] H; [done|..];
    [assert (String.length r = String.length (String b t +:+ r)) as E by (by rewrite <- H)
    |assert (String.length (String a s +:+ r) = String.length r) as E by (by rewrite H)|];
    [rewrite string_length_app in E; cbn in E; lia..|].
  injection H as -> H. f_equal. by apply IH.
Qed.

Lemma continued_split r : ∃ t, r = continued r +:+ t ∧
  match t with String a _ => continuation a = false | "" => True end.
Proof.
  induction r as [|a r (t & E & Ht)]; [by exists ""|]. cbn. destruct (continuation a) eqn:Ha.
  - exists t. split; [|done]. cbn. by rewrite <- E.
  - by exists (String a r).
Qed.

Lemma continued_bytes r : sall continuation (continued r) = true.
Proof. induction r as [|a r IH]; [done|]. cbn. destruct (continuation a) eqn:E; [|done]. cbn. by rewrite E. Qed.

(** How a sequence is read depends on the bytes that continue it. *)
Lemma next_rune_continued a p t : sall continuation p = true →
  match t with String x _ => continuation x = false | "" => True end →
  next_rune (String a (p +:+ t)) = ('(q, r) ← next_rune (String a p); Some (q, r +:+ t)).
Proof.
  intros Hp Ht. destruct t as [|x t].
  { rewrite sapp_nil_r. destruct (next_rune (String a p)) as [[q r]|]; cbn; [by rewrite sapp_nil_r|done]. }
  assert (∀ l h, code_in l h x = true → (128 <=? l)%Z = true → (h <=? 191)%Z = true → False) as Hx.
  { unfold continuation, code_in in *. intros. lia. }
  assert (∀ l h b, ((128 <=? l) && (h <=? 191))%Z = true → b && code_in l h x = false) as Hno.
  { intros l h b [H1 H2]%andb_true_iff. destruct (code_in l h x) eqn:E; [|apply andb_false_r]. exfalso. by eapply Hx. }
  unfold next_rune. destruct (code a <? 128)%Z eqn:E1; [done|].
  destruct p as [|b [|c [|d p]]]; cbn [String.app].
  - rewrite Ht, andb_false_r. destruct t as [|y t]; [done|]. rewrite !Hno by done. cbn [orb]. rewrite !andb_false_r.
    destruct t as [|z t]; [done|]. rewrite ?Hno by done. cbn [orb]. rewrite ?andb_false_r. done.
  - destruct (code_in 194 223 a && continuation b); [done|]. rewrite Ht. cbn [andb].
    destruct t as [|y t]; [done|]. done.
  - destruct (code_in 194 223 a && continuation b); [done|].
    destruct (continuation c && _); [done|]. rewrite Ht, andb_false_r. done.
  - destruct (code_in 194 223 a && continuation b); [done|].
    destruct (continuation c && _); [done|]. destruct (continuation c && continuation d && _); done.
Qed.

Lemma next_rune_invalid a r r' : next_rune (String a r) = Some (replacement, r) → continued r' = continued r →
  next_rune (String a r') = Some (replacement, r').
Proof.
  intros H Hc. destruct (continued_split r) as (t & E & Ht). destruct (continued_split r') as (t' & E' & Ht').
  rewrite Hc in E'. pose proof (continued_bytes r) as Hp. revert Hp E E'. generalize (continued r) as p. intros p Hp -> ->.
  rewrite next_rune_continued in * by done. destruct (next_rune (String a p)) as [[q r0]|]; [|done]. cbn in *.
  injection H as -> H. f_equal. f_equal. f_equal.
  by apply sapp_inj_l in H.
Qed.

(** A text begins with a byte, with one that is invalid, or with a sequence. *)
Lemma next_rune_cases s piece r : next_rune s = Some (piece, r) →
  (∃ c, s = String c r ∧ piece = String c "" ∧ (code c < 128)%Z) ∨
  (∃ a, s = String a r ∧ piece = replacement ∧ high a = true ∧ separates s = false) ∨
  (∃ a b t, piece = String a (String b t) ∧ s = piece +:+ r ∧ high a = true ∧
     sall continuation (String b t) = true ∧ (code a = 226%Z → ∃ c, t = String c "") ∧
     ∀ r', next_rune (piece +:+ r') = Some (piece, r')).
Proof.
  intros H. destruct s as [|a r0]; [done|].
  destruct (code a <? 128)%Z eqn:Ea.
  { left. exists a. unfold next_rune in H. rewrite Ea in H. injection H as <- <-. split_and!; [done..|lia]. }
  assert (high a = true) as Hh by (unfold high; lia).
  destruct (decide (piece = replacement ∧ r = r0)) as [[-> ->]|Hne].
  - right. left. exists a. split_and!; [done..|]. destruct (separates (String a r0)) eqn:Hs; [|done].
    destruct (separates_inv _ _ Hs) as (c & rest & -> & -> & [-> | ->]); cbn in H; injection H; intros; discriminate.
  - right. right. revert H. unfold next_rune. rewrite Ea.
    repeat (case_match; simplify_eq/=); intros [= <- <-]; try (exfalso; by apply Hne).
    all: eexists _, _, _; split; [reflexivity|]; split; [reflexivity|]; split; [done|].
    all: unfold continuation, code_in in *; split; [cbn [sall]; lia|].
    all: split; [intros; try (exfalso; lia); by eexists|].
    all: intros r'; cbn; unfold continuation, code_in.
    all: repeat match goal with |- context [if ?b then _ else _] =>
      first [replace b with true by lia | replace b with false by lia] end; reflexivity.
Qed.

Lemma hex4_inv s v r : hex4 s = Some (v, r) → ∃ h, s = h +:+ r ∧ sall text_byte h = true ∧ ∀ r', hex4 (h +:+ r') = Some (v, r').
Proof.
  assert (∀ a x, hex_nibble a = Some x → text_byte a = true) as Ht.
  { intros a x H. destruct a as [[] [] [] [] [] [] [] []]; first [discriminate H | reflexivity]. }
  destruct s as [|a [|b [|c [|d s]]]]; try done. cbn.
  destruct (hex_nibble a) eqn:Ha; [|done]. destruct (hex_nibble b) eqn:Hb; [|done].
  destruct (hex_nibble c) eqn:Hc; [|done]. destruct (hex_nibble d) eqn:Hd; [|done]. cbn. intros [= <- <-].
  exists (String a (String b (String c (String d "")))). split; [done|]. split.
  - cbn. by rewrite (Ht _ _ Ha), (Ht _ _ Hb), (Ht _ _ Hc), (Ht _ _ Hd).
  - intros r'. cbn. by rewrite Ha, Hb, Hc, Hd.
Qed.

(** The escape a text begins with, if it does. *)
Definition second (s : string) : option (Z * string) :=
  match s with String "\" (String "u" r) => hex4 r | _ => None end.

Lemma low_escape_second s :
  low_escape s = match second s with Some (v, _) => (56320 <=? v)%Z && (v <=? 57343)%Z | None => false end.
Proof.
  destruct s as [|a s]; [done|]. destruct (decide (a = "\"%char)) as [->|Ha];
    [|by destruct a as [[] [] [] [] [] [] [] []]].
  destruct s as [|b s]; [done|]. destruct (decide (b = "u"%char)) as [->|Hb]; [done|].
  by destruct b as [[] [] [] [] [] [] [] []].
Qed.

Lemma unicode_escape_second s : unicode_escape s =
  '(u, r) ← hex4 s;
  if (55296 <=? u)%Z && (u <=? 57343)%Z then
    match second r with
    | Some (v, r3) => if (u <=? 56319)%Z && ((56320 <=? v)%Z && (v <=? 57343)%Z)
        then Some (encode_rune (65536 + (u - 55296) * 1024 + (v - 56320)), r3) else Some (replacement, r)
    | None => Some (replacement, r)
    end
  else Some (encode_rune u, r).
Proof.
  unfold unicode_escape. destruct (hex4 s) as [[u r]|]; [|done]. cbn [mbind option_bind].
  destruct (_ && _); [|done]. destruct r as [|a r]; [done|]. destruct (decide (a = "\"%char)) as [->|Ha];
    [|by destruct a as [[] [] [] [] [] [] [] []]].
  destruct r as [|b r]; [done|]. destruct (decide (b = "u"%char)) as [->|Hb];
    [|by destruct b as [[] [] [] [] [] [] [] []]].
  cbn [second]. destruct (hex4 r) as [[v r3]|]; [|done]. by rewrite <- andb_assoc.
Qed.

Lemma second_inv s v r : second s = Some (v, r) → ∃ h, s = String "\" (String "u" (h +:+ r)) ∧
  sall text_byte h = true ∧ ∀ r', hex4 (h +:+ r') = Some (v, r').
Proof.
  destruct s as [|a s]; [done|]. destruct (decide (a = "\"%char)) as [->|Ha];
    [|by destruct a as [[] [] [] [] [] [] [] []]].
  destruct s as [|b s]; [done|]. destruct (decide (b = "u"%char)) as [->|Hb];
    [|by destruct b as [[] [] [] [] [] [] [] []]].
  cbn [second]. intros (h & -> & ? & ?)%hex4_inv. eauto.
Qed.

(** An escape by number reads the same wherever no second half follows that did
    not follow before; and [compact] copies it. *)
Lemma unicode_escape_inv s p r : unicode_escape s = Some (p, r) → ∃ h, s = h +:+ r ∧
  (∀ r', low_escape r' = low_escape r → unicode_escape (h +:+ r') = Some (p, r')) ∧
  (∀ r', compact true false (h +:+ r') = h +:+ compact true false r').
Proof.
  rewrite unicode_escape_second. destruct (hex4 s) as [[u r1]|] eqn:E; [|done]. cbn [mbind option_bind].
  destruct (hex4_inv _ _ _ E) as (h & -> & Ht & Hh).
  pose proof (λ r', compact_text h r' Ht) as Hc.
  assert (∀ r', unicode_escape (h +:+ r') = _) as Hr
    by (intros r'; rewrite unicode_escape_second, Hh; cbn [mbind option_bind]; reflexivity).
  destruct ((55296 <=? u)%Z && (u <=? 57343)%Z) eqn:Hu.
  2: { intros [= <- <-]. exists h. split; [done|]. split; [|done]. intros r' _. apply Hr. }
  destruct (second r1) as [[v r3]|] eqn:E2; [destruct ((u <=? 56319)%Z && _) eqn:Hv|].
  - intros [= <- <-]. destruct (second_inv _ _ _ E2) as (h2 & -> & Ht2 & Hh2).
    exists (h +:+ String "\" (String "u" h2)). split; [by rewrite sapp_assoc|]. split; intros r'; rewrite !sapp_assoc.
    + intros _. rewrite Hr. change (second (String "\" (String "u" h2) +:+ r')) with (hex4 (h2 +:+ r')). by rewrite Hh2, Hv.
    + by rewrite Hc, compact_escape.
  - intros [= <- <-]. exists h. split; [done|]. split; [|done]. intros r' Hl. rewrite Hr.
    rewrite !low_escape_second, E2 in Hl. destruct (second r') as [[v' r3']|]; [|done].
    destruct (u <=? 56319)%Z; [|done]. cbn [andb] in *. by rewrite Hl, Hv.
  - intros [= <- <-]. exists h. split; [done|]. split; [|done]. intros r' Hl. rewrite Hr.
    rewrite !low_escape_second, E2 in Hl. destruct (second r') as [[v' r3']|]; [|done]. by rewrite Hl, andb_false_r.
Qed.

(** ** String tokens *)

(** [w] before a text that goes on as [r] does reads as [p], and is copied as
    [w']. *)
Definition reads_as (w p r : string) : Prop := ∀ r' n, context r' = context r →
  string_body (S n) (w +:+ r') = then_read p (string_body n r').
Definition copied_as (w w' r : string) : Prop := ∀ r', context r' = context r →
  compact true false (w +:+ r') = w' +:+ compact true false r'.

Record piece (w w' p r : string) : Prop := {
  pc_some : (1 ≤ String.length w)%nat ∧ (1 ≤ String.length w')%nat;
  pc_reads : reads_as w p r;
  pc_reads' : reads_as w' p r;
  pc_copied : copied_as w w' r;
}.

Lemma string_body_rune n a r : ascii_eqb a quote = false → ascii_eqb a "\" = false → (32 ≤ code a)%Z →
  string_body (S n) (String a r) = ('(p, r2) ← next_rune (String a r); then_read p (string_body n r2)).
Proof. intros H1 H2 H3. cbn [string_body]. by rewrite H1, H2, (proj2 (Z.ltb_ge _ _)) by done. Qed.

Lemma high_bytes a : high a = true → ascii_eqb a quote = false ∧ ascii_eqb a "\" = false ∧ (32 ≤ code a)%Z ∧ special a = false.
Proof.
  intros H. unfold high in H. split_and!; [apply ascii_eqb_false; intros ->; done..|lia|].
  unfold special. rewrite !(proj2 (ascii_eqb_false _ _)) by (intros ->; done). done.
Qed.

Lemma low_piece c r : (32 ≤ code c < 128)%Z → ascii_eqb c quote = false → ascii_eqb c "\" = false →
  piece (String c "") (if special c then quote_byte c else String c "") (String c "") r.
Proof.
  intros Hc Hq Hb.
  assert (∀ r' n, string_body (S n) (String c "" +:+ r') = then_read (String c "") (string_body n r')) as Hr.
  { intros r' n. change (String c "" +:+ r') with (String c r'). rewrite string_body_rune by (done || lia).
    unfold next_rune. by rewrite (proj2 (Z.ltb_lt _ _)) by lia. }
  split.
  - split; [cbn; lia|]. destruct (special c) eqn:E; [|cbn; lia]. destruct (quote_special _ E) as (w & -> & _). cbn. lia.
  - by intros r' n _.
  - intros r' n _. destruct (special c); [|done]. apply read_quoted_byte. lia.
  - intros r' _. destruct (special c) eqn:E; [by apply compact_special|]. apply compact_text. cbn.
    unfold text_byte. rewrite E, Hq, Hb. replace (code c =? 226)%Z with false by lia. done.
Qed.

Lemma invalid_piece a r : high a = true → next_rune (String a r) = Some (replacement, r) → separates (String a r) = false →
  piece (String a "") (String a "") replacement r.
Proof.
  intros Hh Hn Hs. destruct (high_bytes a Hh) as (H1 & H2 & H3 & H4).
  assert (reads_as (String a "") replacement r) as Hr.
  { intros r' n [= Hc _]. change (String a "" +:+ r') with (String a r'). rewrite string_body_rune by done.
    by rewrite (next_rune_invalid a r r') by done. }
  split; [by split|done|done|]. intros r' [= Hc _]. change (String a "" +:+ r') with (String a r').
  rewrite compact_copies, H1, H2; [done|done|]. destruct (separates (String a r')) eqn:E; [|done]. exfalso.
  destruct (separates_inv _ _ E) as (c & rest & -> & -> & Hcc). cbn [continued] in Hc.
  change (continuation (ascii_of_N 128)) with true in Hc.
  assert (continuation c = true) as Hcont by by destruct Hcc as [-> | ->]. rewrite Hcont in Hc. clear Hn.
  destruct r as [|b r]; [done|]. cbn [continued] in Hc. destruct (continuation b); [|done]. injection Hc as <- Hc.
  destruct r as [|c' r]; [done|]. cbn [continued] in Hc. destruct (continuation c'); [|done]. injection Hc as <- _.
  by destruct Hcc as [-> | ->].
Qed.

Lemma sequence_piece a b t r : high a = true → sall continuation (String b t) = true →
  (code a = 226%Z → ∃ c, t = String c "") →
  (∀ r', next_rune (String a (String b t) +:+ r') = Some (String a (String b t), r')) →
  ∃ w', piece (String a (String b t)) w' (String a (String b t)) r.
Proof.
  intros Hh Hcont H226 Hn. destruct (high_bytes a Hh) as (H1 & H2 & H3 & H4).
  assert (∀ r' n, string_body (S n) (String a (String b t) +:+ r') = then_read (String a (String b t)) (string_body n r')) as Hr.
  { intros r' n. change (String a (String b t) +:+ r') with (String a (String b t +:+ r')).
    rewrite string_body_rune by done. by rewrite (Hn r' : next_rune (String a (String b t +:+ r')) = _). }
  assert (sall text_byte (String b t) = true) as Ht.
  { revert Hcont. apply sall_impl. intros c. unfold continuation, code_in. intros Hc. unfold text_byte, special.
    rewrite !(proj2 (ascii_eqb_false _ _)) by (intros ->; done). replace (code c =? 226)%Z with false by lia. done. }
  destruct (separates (String a (String b t))) eqn:Hs.
  - destruct (separates_inv _ _ Hs) as (c & rest & E & -> & Hc).
    destruct (H226 eq_refl) as [c' ->]. injection E as -> -> <-.
    exists ("\u202" +:+ String (if ascii_eqb c (ascii_of_N 168) then "8" else "9") "").
    split; [by split; cbn; lia|by intros r' n _| |].
    + intros r' n _. by destruct Hc as [-> | ->].
    + intros r' _. by destruct Hc as [-> | ->].
  - exists (String a (String b t)). split; [by split; cbn; lia|by intros r' n _..|].
    intros r' _. change (String a (String b t) +:+ r') with (String a (String b t +:+ r')).
    rewrite compact_copies, H1, H2; [|done|].
    + cbn [orb andb negb]. by rewrite compact_text.
    + destruct (Z.eqb_spec (code a) 226) as [E|E]; [|by apply separates_not, Z.eqb_neq].
      destruct (H226 E) as [c ->]. exact Hs.
Qed.

Lemma escape_piece s p r : (match s with String "u" r2 => unicode_escape r2
    | String e r2 => p ← simple_escape e; Some (p, r2) | _ => None end) = Some (p, r) →
  ∃ w, s = w +:+ r ∧ piece (String "\" w) (String "\" w) p r.
Proof.
  destruct s as [|e s]; [done|]. destruct (decide (e = "u"%char)) as [->|He].
  - intros (h & -> & Hr & Hc)%unicode_escape_inv. exists (String "u" h). split; [done|].
    assert (reads_as (String "\" (String "u" h)) p r) as H.
    { intros r' n [= _ Hl]. change (String "\" (String "u" h) +:+ r') with (String "\" (String "u" (h +:+ r'))).
      cbn [string_body]. change (ascii_eqb "\" quote) with false. cbn. by rewrite Hr. }
    split; [by split; cbn; lia|done|done|]. intros r' _.
    change (String "\" (String "u" h) +:+ r') with (String "\" (String "u" "") +:+ (h +:+ r')).
    rewrite compact_escape by done. by rewrite Hc.
  - intros H. assert (∃ q, simple_escape e = Some q ∧ p = q ∧ r = s) as (q & Hq & -> & ->).
    { destruct e as [[] [] [] [] [] [] [] []]; try done; cbn in H; injection H as <- <-; eexists; by split_and!. }
    exists (String e ""). split; [done|].
    assert (special e = false ∧ (code e =? 226)%Z = false) as [H1 H2].
    { clear -Hq. by destruct e as [[] [] [] [] [] [] [] []]. }
    assert (reads_as (String "\" (String e "")) q s) as Hr.
    { intros r' n _. change (String "\" (String e "") +:+ r') with (String "\" (String e r')).
      clear -Hq. destruct e as [[] [] [] [] [] [] [] []]; try done; cbn in Hq; injection Hq as <-; reflexivity. }
    split; [by split; cbn; lia|done|done|]. intros r' _. by apply compact_escape.
Qed.

(** The text of a string after its opening quote, and its value. *)
Record token (v tok : string) : Prop := {
  tk_quote : has_quote tok;
  tk_reads : ∀ rest m, (String.length tok ≤ m)%nat → string_body m (tok +:+ rest) = Some (v, rest);
}.

Lemma token_end : token "" (String quote "").
Proof. split; [done|]. intros rest m Hm. destruct m; [cbn in Hm; lia|]. reflexivity. Qed.

Lemma token_piece w p r v tok : (1 ≤ String.length w)%nat → reads_as w p r → context r = context tok →
  token v tok → token (p +:+ v) (w +:+ tok).
Proof.
  intros Hw Hr Hc [Hq Ht]. split.
  - unfold has_quote in *. by rewrite sall_app, Hq, andb_false_r.
  - intros rest m Hm. rewrite string_length_app in Hm. destruct m; [lia|]. rewrite sapp_assoc.
    rewrite Hr by by rewrite context_has_quote, Hc. rewrite Ht by lia. done.
Qed.

(** One round of the reader. *)
Lemma string_body_round n s v rest : string_body (S n) s = Some (v, rest) →
  (s = String quote rest ∧ v = "") ∨
  ∃ w w' p r v', s = w +:+ r ∧ v = p +:+ v' ∧ piece w w' p r ∧ string_body n r = Some (v', rest).
Proof.
  destruct s as [|a s]; [done|]. destruct (ascii_eqb a quote) eqn:Hq.
  { apply ascii_eqb_true in Hq as ->. cbn. intros [= <- <-]. by left. }
  destruct (ascii_eqb a "\") eqn:Hb.
  { apply ascii_eqb_true in Hb as ->. intros H. right.
    change (string_body (S n) (String "\" s)) with ('(p, r2) ← (match s with String "u" r2 => unicode_escape r2
      | String e r2 => p ← simple_escape e; Some (p, r2) | _ => None end); then_read p (string_body n r2)) in H.
    match type of H with (?m ≫= _) = _ => destruct m as [[p r]|] eqn:E; [|done] end. cbn [mbind option_bind] in H.
    apply escape_piece in E as (w & -> & Hp). unfold then_read in H.
    destruct (string_body n r) as [[v' r']|] eqn:Ev; [|done]. injection H as <- <-.
    exists (String "\" w), (String "\" w), p, r, v'. by split_and!. }
  intros H. right. assert (32 ≤ code a)%Z as Ha.
  { destruct (Z.ltb_spec (code a) 32); [|done]. cbn [string_body] in H. rewrite Hq, Hb in H.
    by rewrite (proj2 (Z.ltb_lt _ _)) in H by done. }
  rewrite string_body_rune in H by done. destruct (next_rune (String a s)) as [[p r]|] eqn:E; [|done].
  cbn [mbind option_bind] in H. unfold then_read in H.
  destruct (string_body n r) as [[v' r']|] eqn:Ev; [|done]. injection H as <- <-.
  destruct (next_rune_cases _ _ _ E) as [(c & [= -> ->] & -> & Hc)|[(b & [= -> ->] & -> & Hh & Hs)|
    (b & d & t & -> & Hs & Hh & Hcont & H226 & Hn)]].
  - exists (String c ""), (if special c then quote_byte c else String c ""), (String c ""), r, v'.
    split_and!; [done..| |done]. apply low_piece; [lia|done..].
  - exists (String b ""), (String b ""), replacement, r, v'. split_and!; [done..| |done]. by apply invalid_piece.
  - destruct (sequence_piece b d t r Hh Hcont H226 Hn) as [w' Hp].
    exists (String b (String d t)), w', (String b (String d t)), r, v'. by split_and!.
Qed.

(** Reading finds a token, which reads the same anywhere; and what [compact]
    makes of it is a token of the same value. *)
Lemma string_token n s v rest : string_body n s = Some (v, rest) → ∃ tok tok', s = tok +:+ rest ∧
  token v tok ∧ token v tok' ∧ ∀ r, compact true false (tok +:+ r) = tok' +:+ compact false false r.
Proof.
  revert s v. induction n as [|n IH]; intros s v; [done|]. intros [[-> ->]|H]%string_body_round.
  - exists (String quote ""), (String quote ""). split; [done|]. split; [apply token_end|]. split; [apply token_end|].
    intros r. change (String quote "" +:+ r) with (String quote r). by rewrite compact_copies by by destruct r as [|? [|]].
  - destruct H as (w & w' & p & r & v' & -> & -> & [[Hw Hw'] Hr Hr' Hc] & H).
    destruct (IH _ _ H) as (tok & tok' & -> & Ht & Ht' & Hcopy).
    assert (context (tok +:+ rest) = context tok) as E by apply context_has_quote, Ht.
    assert (context tok = context tok') as E'.
    { rewrite <- (context_has_quote tok "") by apply Ht. rewrite <- context_compact, Hcopy. apply context_has_quote, Ht'. }
    exists (w +:+ tok), (w' +:+ tok'). split; [by rewrite sapp_assoc|].
    split; [eapply token_piece; [done|exact Hr|exact E|done]|].
    split; [eapply token_piece; [done|exact Hr'|congruence|done]|].
    intros x. rewrite !sapp_assoc, Hc; [by rewrite Hcopy|]. rewrite context_has_quote by apply Ht. by symmetry.
Qed.

(** ** Number tokens *)

Definition number_byte (c : ascii) : bool :=
  is_digit c || ascii_eqb c "-" || ascii_eqb c "+" || ascii_eqb c "." || ascii_eqb c "e" || ascii_eqb c "E".

Definition head (s : string) : option ascii := match s with String c _ => Some c | "" => None end.

(** [r'] may stand where [r] does: it begins alike, or closes a value. *)
Definition follows (r r' : string) : Prop := head r' = head r ∨ closes r'.

Lemma follows_app w r r' : follows r r' → follows (w +:+ r) (w +:+ r').
Proof. destruct w; [done|by left]. Qed.

(** A part of a literal: what it takes, and that it takes the same before
    whatever may stand there. *)
Definition taken {A} (part : string → option (A * string)) (s : string) (x : A) (r : string) : Prop :=
  ∃ w, s = w +:+ r ∧ sall number_byte w = true ∧ ∀ r', follows r r' → part (w +:+ r') = Some (x, r').

Lemma span_digits_inv s d r : span_digits s = (d, r) → s = d +:+ r ∧ sall is_digit d = true ∧
  (∀ c, head r = Some c → is_digit c = false).
Proof.
  revert d. induction s as [|c s IH]; intros d; cbn; [by intros [= <- <-]|].
  destruct (is_digit c) eqn:E; [|intros [= <- <-]; split_and!; [done..|by intros ? [= <-]]].
  destruct (span_digits s) as [d' r'] eqn:Es. intros [= <- <-]. destruct (IH _ eq_refl) as (-> & Hd & Hr).
  split; [done|]. split; [cbn; by rewrite E|exact Hr].
Qed.

Lemma closes_head r c : closes r → head r = Some c → c = ","%char ∨ c = "}"%char ∨ c = "]"%char.
Proof. destruct r; [done|]. by intros H [= <-]. Qed.

Lemma span_digits_follows d r r' : sall is_digit d = true → (∀ c, head r = Some c → is_digit c = false) →
  follows r r' → span_digits (d +:+ r') = (d, r').
Proof.
  intros Hd Hr Hf. apply span_digits_app; [done|]. intros c t ->. destruct Hf as [Hf|Hf]; [by apply Hr|].
  by destruct (closes_head _ c Hf eq_refl) as [-> |[-> | ->]].
Qed.

Lemma digits_number d : sall is_digit d = true → sall number_byte d = true.
Proof. apply sall_impl. intros c H. unfold number_byte. by rewrite H. Qed.

Definition some_digits (s : string) : option (string * string) :=
  let '(d, r) := span_digits s in if bool_decide (d = "") then None else Some (d, r).

Lemma some_digits_inv s d r : some_digits s = Some (d, r) → s = d +:+ r ∧ d ≠ "" ∧ sall number_byte d = true ∧
  ∀ r', follows r r' → some_digits (d +:+ r') = Some (d, r').
Proof.
  unfold some_digits. destruct (span_digits s) as [d' r'] eqn:E. case_bool_decide as Hd; [done|]. intros [= <- <-].
  destruct (span_digits_inv _ _ _ E) as (-> & Hs & Hr). split_and!; [done..|by apply digits_number|].
  intros r2 Hf. rewrite (span_digits_follows _ _ _ Hs Hr Hf). by rewrite bool_decide_false.
Qed.

Definition sign_part (s : string) : bool * string := match s with String "-" r => (true, r) | _ => (false, s) end.
Definition int_part (s : string) : option (string * string) :=
  match s with String "0" r => Some ("0", r) | _ => some_digits s end.
Definition frac_part (s : string) : option (string * string) :=
  match s with String "." r => some_digits r | _ => Some ("", s) end.
Definition exp_digits_part (r : string) : option (bool * string * string) :=
  let '(en, r) := match r with String "-" r => (true, r) | String "+" r => (false, r) | _ => (false, r) end in
  '(d, r2) ← some_digits r; Some (en, d, r2).
Definition exp_part (s : string) : option (bool * string * string) :=
  match s with String "e" r => exp_digits_part r | String "E" r => exp_digits_part r | _ => Some (false, "", s) end.

Lemma read_number_parts s : read_number s =
  let '(neg, s1) := sign_part s in
  '(ip, s2) ← int_part s1; '(fp, s3) ← frac_part s2; '(en, ed, s4) ← exp_part s3;
  Some (Number neg ip fp en ed, String.substring 0 (String.length s - String.length s4) s, s4).
Proof.
  unfold read_number. fold (sign_part s). destruct (sign_part s) as [neg s1].
  assert (match s1 with String "0" r => Some ("0", r)
    | _ => let '(d, r) := span_digits s1 in if bool_decide (d = "") then None else Some (d, r) end = int_part s1) as -> by done.
  destruct (int_part s1) as [[ip s2]|]; [|done]. cbn [mbind option_bind].
  assert (match s2 with String "." r => let '(d, r2) := span_digits r in if bool_decide (d = "") then None else Some (d, r2)
    | _ => Some ("", s2) end = frac_part s2) as -> by done.
  destruct (frac_part s2) as [[fp s3]|]; [|done]. cbn [mbind option_bind].
  match goal with |- ?m ≫= _ = _ => assert (m = exp_part s3) as -> end; [|done].
  assert (∀ r, (let '(en, r0) := match r with String "-" r0 => (true, r0) | String "+" r0 => (false, r0) | _ => (false, r) end in
      let '(d, r2) := span_digits r0 in if bool_decide (d = "") then None else Some (en, d, r2)) = exp_digits_part r) as He.
  { intros r. unfold exp_digits_part. destruct (match r with String "-" _ => _ | _ => _ end) as [en r0].
    unfold some_digits. destruct (span_digits r0) as [d r2]. by case_bool_decide. }
  unfold exp_part. destruct s3 as [|c s3]; [done|]. destruct c as [[] [] [] [] [] [] [] []]; try done; apply He.
Qed.

Lemma int_part_taken s x r : int_part s = Some (x, r) → ∃ w, s = w +:+ r ∧ w ≠ "" ∧ sall number_byte w = true ∧
  ∀ r', follows r r' → int_part (w +:+ r') = Some (x, r').
Proof.
  destruct s as [|c s]; [done|]. destruct (decide (c = "0"%char)) as [->|Hc].
  - intros [= <- <-]. by exists "0".
  - assert (∀ t, int_part (String c t) = some_digits (String c t)) as E.
    { intros t. unfold int_part. destruct c as [[] [] [] [] [] [] [] []]; done. }
    rewrite E. intros (Hs & Hne & Hd & H)%some_digits_inv.
    destruct x as [|c' x]; [done|]. cbn in Hs. injection Hs as <- ->. exists (String c x).
    split_and!; [done..|]. intros r' Hr. change (String c x +:+ r') with (String c (x +:+ r')).
    rewrite E. by apply H.
Qed.

Lemma frac_part_taken s x r : frac_part s = Some (x, r) → taken frac_part s x r.
Proof.
  assert (∀ t, head t ≠ Some "."%char → frac_part t = Some ("", t)) as E.
  { intros t H. destruct t as [|c t]; [done|]. unfold frac_part. destruct c as [[] [] [] [] [] [] [] []]; done. }
  destruct (decide (head s = Some "."%char)) as [Hs|Hs].
  - destruct s as [|c s]; [done|]. injection Hs as ->. intros (-> & Hne & Hd & H)%some_digits_inv.
    exists (String "." x). split; [done|]. split; [cbn; by rewrite Hd|]. intros r' Hr. by apply H.
  - rewrite E by done. intros [= <- <-]. exists "". split; [done|]. split; [done|]. intros r' Hf. apply E.
    destruct Hf as [-> |Hf]; [done|]. intros Hh. by destruct (closes_head _ _ Hf Hh) as [|[|]].
Qed.

Lemma exp_digits_taken s x r : exp_digits_part s = Some (x, r) → taken exp_digits_part s x r.
Proof.
  assert (∀ t, head t ≠ Some "-"%char → head t ≠ Some "+"%char →
    exp_digits_part t = '(d, r2) ← some_digits t; Some (false, d, r2)) as E.
  { intros t H1 H2. destruct t as [|c t]; [done|]. unfold exp_digits_part. destruct c as [[] [] [] [] [] [] [] []]; done. }
  assert (∀ b c t, (c = "-" ∧ b = true ∨ c = "+" ∧ b = false)%char →
    exp_digits_part (String c t) = '(d, r2) ← some_digits t; Some (b, d, r2)) as Es.
  { intros b c t [[-> ->]|[-> ->]]; done. }
  destruct (decide (head s = Some "-"%char ∨ head s = Some "+"%char)) as [Hs|Hs].
  - destruct s as [|c s]; [by destruct Hs|].
    assert (∃ b, (c = "-" ∧ b = true ∨ c = "+" ∧ b = false)%char) as [b Hb].
    { destruct Hs as [[= ->]|[= ->]]; eexists; eauto. }
    rewrite (Es b) by done. destruct (some_digits s) as [[d r2]|] eqn:Hd; [|done]. intros [= <- <-].
    apply some_digits_inv in Hd as (-> & _ & Hd & H). exists (String c d). split; [done|]. split.
    + cbn. rewrite Hd, andb_true_r. by destruct Hb as [[-> _]|[-> _]].
    + intros r' Hr. change (String c d +:+ r') with (String c (d +:+ r')). rewrite (Es b) by done. by rewrite H.
  - rewrite E by tauto. destruct (some_digits s) as [[d r2]|] eqn:Hd; [|done]. intros [= <- <-].
    apply some_digits_inv in Hd as (-> & Hne & Hd & H). exists d. split; [done|]. split; [done|].
    intros r' Hr. destruct d as [|c d]; [done|]. rewrite E by (cbn in *; tauto). by rewrite H.
Qed.

Lemma exp_part_taken s x r : exp_part s = Some (x, r) → taken exp_part s x r.
Proof.
  assert (∀ t, head t ≠ Some "e"%char → head t ≠ Some "E"%char → exp_part t = Some (false, "", t)) as E.
  { intros t H1 H2. destruct t as [|c t]; [done|]. unfold exp_part. destruct c as [[] [] [] [] [] [] [] []]; done. }
  assert (∀ c t, (c = "e" ∨ c = "E")%char → exp_part (String c t) = exp_digits_part t) as Es.
  { intros c t [-> | ->]; reflexivity. }
  destruct (decide (head s = Some "e"%char ∨ head s = Some "E"%char)) as [Hs|Hs].
  - destruct s as [|c s]; [by destruct Hs|]. assert ((c = "e" ∨ c = "E")%char) as Hc by (destruct Hs as [[= ->]|[= ->]]; auto).
    rewrite Es by done. intros (w & -> & Hd & H)%exp_digits_taken. exists (String c w). split; [done|]. split.
    + cbn. rewrite Hd, andb_true_r. by destruct Hc as [-> | ->].
    + intros r' Hr. change (String c w +:+ r') with (String c (w +:+ r')). rewrite Es by done. by apply H.
  - rewrite E by tauto. intros [= <- <-]. exists "". split; [done|]. split; [done|].
    intros r' Hf. apply E; destruct Hf as [-> |Hf]; try tauto; intros Hh; by destruct (closes_head _ _ Hf Hh) as [|[|]].
Qed.

(** A number read is a text of its own bytes, which reads the same wherever a
    value may end. *)
Lemma number_token s num lit rest : read_number s = Some (num, lit, rest) →
  s = lit +:+ rest ∧ lit ≠ "" ∧ sall number_byte lit = true ∧
  ∀ rest', closes rest' → read_number (lit +:+ rest') = Some (num, lit, rest').
Proof.
  rewrite read_number_parts. destruct (sign_part s) as [neg s1] eqn:Hsign.
  assert (∃ sg, s = sg +:+ s1 ∧ sall number_byte sg = true ∧
    ∀ t, head t = head s1 → sign_part (sg +:+ t) = (neg, t)) as (sg & -> & Hsg & Hsign').
  { destruct s as [|c s]; [injection Hsign as <- <-; exists ""; split_and!; [done..|by intros [|? ?]]|].
    destruct (decide (c = "-"%char)) as [->|Hc].
    - injection Hsign as <- <-. exists "-". by split_and!.
    - assert (∀ t, sign_part (String c t) = (false, String c t)) as E
        by (intros t; unfold sign_part; destruct c as [[] [] [] [] [] [] [] []]; done).
      rewrite E in Hsign. injection Hsign as <- <-. exists "". split_and!; [done..|]. intros [|c' t] Ht; [done|].
      injection Ht as ->. apply E. }
  destruct (int_part s1) as [[ip s2]|] eqn:Hi; [|done]. cbn [mbind option_bind].
  destruct (frac_part s2) as [[fp s3]|] eqn:Hf; [|done]. cbn [mbind option_bind].
  destruct (exp_part s3) as [[[en ed] s4]|] eqn:He; [|done]. cbn [mbind option_bind]. intros H.
  destruct (int_part_taken _ _ _ Hi) as (w1 & -> & Hne & H1 & T1).
  destruct (frac_part_taken _ _ _ Hf) as (w2 & -> & H2 & T2).
  destruct (exp_part_taken _ _ _ He) as (w3 & -> & H3 & T3).
  rewrite <- !sapp_assoc in H. set (w := ((sg +:+ w1) +:+ w2) +:+ w3) in *. rewrite substring_prefix in H.
  assert (lit = w ∧ s4 = rest ∧ Number neg ip fp en ed = num) as (-> & <- & <-) by (clearbody w; naive_solver).
  assert (sall number_byte w = true) as Hw by (unfold w; by rewrite !sall_app, Hsg, H1, H2, H3).
  split; [unfold w; by rewrite !sapp_assoc|]. split.
  { intros E. apply Hne. unfold w in E. destruct sg; [|done]. by destruct w1. }
  split; [done|]. intros rest' Hc. assert (follows s4 rest') as F3 by by right.
  pose proof (follows_app w3 _ _ F3) as F2. pose proof (follows_app w2 _ _ F2) as F1.
  assert (w +:+ rest' = sg +:+ w1 +:+ w2 +:+ w3 +:+ rest') as E by (unfold w; by rewrite !sapp_assoc).
  rewrite read_number_parts, E, Hsign'.
  2: { by destruct w1. }
  rewrite (T1 _ F1). cbn [mbind option_bind]. rewrite (T2 _ F2). cbn [mbind option_bind].
  rewrite (T3 _ F3). cbn [mbind option_bind]. by rewrite <- E, substring_prefix.
Qed.

(** ** A text, a number or null, as it is written *)

(** What a raw message holds when it is one, with nothing around it. *)
Definition raw_json (raw : string) : json :=
  match read_value (2 * String.length raw + 2) 0 raw with Some (j, _) => j | None => JNull end.
Definition is_scalar (raw : string) : bool :=
  starts_value raw &&
  match read_value (2 * String.length raw + 2) 0 raw with
  | Some (JStr _, "") | Some (JNull, "") => true
  | Some (JNum lit, "") => parse_float_ok lit
  | _ => false
  end.

Inductive scalar_view : string → json → Prop :=
  | view_null : scalar_view "null" JNull
  | view_text v tok : token v tok → (∃ tok', token v tok' ∧ ∀ r, compact true false (tok +:+ r) = tok' +:+ compact false false r) →
      scalar_view (String quote tok) (JStr v)
  | view_number lit : parse_float_ok lit = true → lit ≠ "" → sall number_byte lit = true →
      (∀ rest, closes rest → ∃ num, read_number (lit +:+ rest) = Some (num, lit, rest)) → scalar_view lit (JNum lit).

Lemma number_byte_head lit : lit ≠ "" → sall number_byte lit = true → ∃ c w, lit = String c w ∧
  starts_value lit = true ∧ ascii_eqb c quote = false ∧
  ∀ n depth t, read_value (S n) depth (String c t) = '(_, lit, rest) ← read_number (String c t); Some (JNum lit, rest).
Proof.
  destruct lit as [|c w]; [done|]. cbn [sall]. intros _ [Hc _]%andb_true_iff. exists c, w. split; [done|].
  destruct c as [[] [] [] [] [] [] [] []]; try (exfalso; revert Hc; vm_compute; done); by split_and!.
Qed.

Lemma scalar_number c r n j rest : ascii_eqb c quote = false → c ≠ "{"%char → c ≠ "["%char →
  starts_value (String c r) = true → read_value (S n) 0 (String c r) = Some (j, rest) →
  j = JNull ∧ String c r = "null" +:+ rest ∨ (∃ b, j = JBool b) ∨
  ∃ num lit, j = JNum lit ∧ read_number (String c r) = Some (num, lit, rest).
Proof.
  intros H1 H2%ascii_eqb_false H3%ascii_eqb_false Hs. destruct (starts_value_skip _ "" Hs) as (c' & r' & _ & Hskip & _).
  rewrite sapp_nil_r in Hskip. cbn [read_value]. rewrite Hskip, H1, H2, H3.
  destruct (CutPrefix _ "null") eqn:E1; [apply CutPrefix_Some in E1; intros [= <- <-]; by left|].
  destruct (CutPrefix _ "true"); [intros [= <- <-]; right; left; eauto|].
  destruct (CutPrefix _ "false"); [intros [= <- <-]; right; left; eauto|].
  destruct (read_number _) as [[[num lit] rest']|]; [|done]. intros [= <- <-]. right. right. eauto.
Qed.

Lemma read_object n r j rest : read_value (S n) 0 (String "{" r) = Some (j, rest) → ∃ ms, j = JObj ms.
Proof.
  change (read_value (S n) 0 (String "{" r)) with (match skip_ws r with
    | String "}" r2 => Some (JObj [], r2) | r2 => '(ms, rest) ← read_members n 1 r2; Some (JObj ms, rest) end).
  destruct (skip_ws r) as [|[[] [] [] [] [] [] [] []] t]; try (destruct (read_members _ _ _) as [[ms t']|]; [|done]);
    intros [= <- _]; eauto.
Qed.

Lemma read_array n r j rest : read_value (S n) 0 (String "[" r) = Some (j, rest) → ∃ vs, j = JArr vs.
Proof.
  change (read_value (S n) 0 (String "[" r)) with (match skip_ws r with
    | String "]" r2 => Some (JArr [], r2) | r2 => '(vs, rest) ← read_elements n 1 r2; Some (JArr vs, rest) end).
  destruct (skip_ws r) as [|[[] [] [] [] [] [] [] []] t]; try (destruct (read_elements _ _ _) as [[vs t']|]; [|done]);
    intros [= <- _]; eauto.
Qed.

Lemma scalar_viewed raw : is_scalar raw = true → scalar_view raw (raw_json raw).
Proof.
  unfold is_scalar, raw_json. intros [Hs H]%andb_true_iff.
  destruct raw as [|c r]; [done|]. replace (2 * _ + 2) with (S (2 * String.length (String c r) + 1)) in * by lia.
  remember (2 * String.length (String c r) + 1) as n eqn:En. clear En.
  destruct (ascii_eqb c quote) eqn:Hq.
  { apply ascii_eqb_true in Hq as ->.
    change (read_value (S n) 0 (String quote r)) with ('(v, rest) ← string_body (S (String.length r)) r; Some (JStr v, rest)) in *.
    destruct (string_body _ r) as [[v rest]|] eqn:E; [|done]. cbn in H |- *. destruct rest; [|done].
    destruct (string_token _ _ _ _ E) as (tok & tok' & Hr & Ht & Ht' & Hc). rewrite sapp_nil_r in Hr. subst.
    constructor; eauto. }
  destruct (read_value (S n) 0 (String c r)) as [[j rest]|] eqn:E; [|done].
  assert (c ≠ "{"%char ∧ c ≠ "["%char) as [H1 H2].
  { split; intros ->; [apply read_object in E as [? ->]|apply read_array in E as [? ->]]; done. }
  destruct (scalar_number _ _ _ _ _ Hq H1 H2 Hs E) as [[-> Hn]|[[b ->]|(num & lit & -> & Hn)]]; [|done|].
  - destruct rest; [|done]. rewrite Hn. constructor.
  - destruct rest; [|done]. destruct (number_token _ _ _ _ Hn) as (-> & Hne & Hb & Hr). rewrite sapp_nil_r.
    constructor; [done..|]. eauto.
Qed.

Lemma compact_number w : sall number_byte w = true → compact false false w = w.
Proof.
  induction w as [|c w IH]; [done|]. cbn [sall]. intros [Hc Hw]%andb_true_iff.
  destruct c as [[] [] [] [] [] [] [] []]; try (exfalso; revert Hc; vm_compute; done);
    (rewrite compact_outside by (done || by apply separates_not)); f_equal; by apply IH.
Qed.

(** Copied into a document it is read as what it is. *)
Lemma written_compact raw : is_scalar raw = true → written 0 (compact false false raw) (raw_json raw).
Proof.
  intros H. destruct (scalar_viewed _ H) as [|v tok Ht (tok' & Ht' & Hc)|lit _ Hne Hb Hr].
  - apply written_null.
  - rewrite compact_outside by (done || by apply separates_not). change (ascii_eqb quote quote) with true.
    rewrite <- (sapp_nil_r tok), Hc. cbn [compact]. rewrite sapp_nil_r. split; [done|]. intros n depth rest _ _ _.
    change (read_value (S n) depth (String quote tok' +:+ rest))
      with ('(v, rest) ← string_body (S (String.length (tok' +:+ rest))) (tok' +:+ rest); Some (JStr v, rest)).
    rewrite (tk_reads _ _ Ht') by (rewrite string_length_app; lia). done.
  - rewrite compact_number by done. destruct (number_byte_head _ Hne Hb) as (c & w & -> & Hs & _ & Hread).
    split; [done|]. intros n depth rest Hrest _ _. destruct (Hr rest Hrest) as [num E].
    change (String c w +:+ rest) with (String c (w +:+ rest)) in *. by rewrite Hread, E.
Qed.
