(* ===== verification/Awg.v ===== *)
(** * AmneziaWG configurations: core/internal/awg/config.go

    A [.conf] text becomes a [Config] ([ParseConfig]) and a [Config] becomes
    the UAPI text the device reads ([IPC]).  Keys are kept as the hexadecimal
    text the UAPI wants; obfuscation parameters as the strings they arrived
    as. *)

From S2P Require Import Prelude GoStrings GoEncoding NetAddr.
From Stdlib Require Import Ascii.
From stdpp Require Import options.

(** ** Data *)

Record Peer := mkPeer {
  PublicKey : string;
  PresharedKey : string;
  Endpoint : string;
  AllowedIPs : list string;
  Keepalive : Z;
}.

Record Config := mkConfig {
  PrivateKey : string;
  Addresses : list Addr;
  MTU : Z;
  DNS : list Addr;
  Obfuscation : gmap string string;
  peer : Peer;
}.

Definition zero_peer : Peer := mkPeer "" "" "" [] 0.

(** [&Config{MTU: 1420, Obfuscation: map[string]string{}}]. *)
Definition new_config : Config := mkConfig "" [] 1420 [] ∅ zero_peer.

(** Assignments to one field. *)
Definition set_PrivateKey v c := mkConfig v (Addresses c) (MTU c) (DNS c) (Obfuscation c) (peer c).
Definition set_Addresses v c := mkConfig (PrivateKey c) v (MTU c) (DNS c) (Obfuscation c) (peer c).
Definition set_MTU v c := mkConfig (PrivateKey c) (Addresses c) v (DNS c) (Obfuscation c) (peer c).
Definition set_DNS v c := mkConfig (PrivateKey c) (Addresses c) (MTU c) v (Obfuscation c) (peer c).
Definition set_Obfuscation v c := mkConfig (PrivateKey c) (Addresses c) (MTU c) (DNS c) v (peer c).
Definition set_peer v c := mkConfig (PrivateKey c) (Addresses c) (MTU c) (DNS c) (Obfuscation c) v.

Definition set_PublicKey v p := mkPeer v (PresharedKey p) (Endpoint p) (AllowedIPs p) (Keepalive p).
Definition set_PresharedKey v p := mkPeer (PublicKey p) v (Endpoint p) (AllowedIPs p) (Keepalive p).
Definition set_Endpoint v p := mkPeer (PublicKey p) (PresharedKey p) v (AllowedIPs p) (Keepalive p).
Definition set_AllowedIPs v p := mkPeer (PublicKey p) (PresharedKey p) (Endpoint p) v (Keepalive p).
Definition set_Keepalive v p := mkPeer (PublicKey p) (PresharedKey p) (Endpoint p) (AllowedIPs p) v.

(** The keys of the [obfuscationKeys] map. *)
Definition obfuscationKeys : list string :=
  ["jc"; "jmin"; "jmax"; "s1"; "s2"; "s3"; "s4"; "h1"; "h2"; "h3"; "h4";
   "i1"; "i2"; "i3"; "i4"; "i5";
   "headerprotectionkey"; "contentpaddingaddition"; "rekeyaftertime"; "rekeytimeout";
   "rejectaftertime"; "keepalivetimeout"; "maxhandshakeattempts"; "randomtrailers";
   "disablecookies"].

(** ** Keys and address lists *)

Definition keyToHex (value : string) : result string :=
  match b64_decode value with
  | None => Err [Lit "not valid base64: "; Foreign "base64.StdEncoding.DecodeString" value]
  | Some raw =>
      if bool_decide (length raw = 32) then Ok (hex_encode raw)
      else Err [Lit "expected 32 bytes, got "; Num (Z.of_nat (length raw))]
  end.

(** One comma-separated part: a prefix loses its length, an address is kept. *)
Definition parse_addr_part (addrs : list Addr) (part : string) : result (list Addr) :=
  let part := TrimSpace part in
  if bool_decide (part = "") then Ok addrs
  else match ParsePrefix part with
       | Some (a, _) => Ok (addrs ++ [a])
       | None => match ParseAddr part with
                 | Some a => Ok (addrs ++ [a])
                 | None => Err [Quoted part; Lit " is neither an address nor a prefix"]
                 end
       end.

Definition parseAddrList (value : string) : result (list Addr) :=
  foldM parse_addr_part (Split value ",") [].

(** ** Setting one key *)

Definition SetObfuscation (key value : string) (c : Config) : result Config :=
  if bool_decide (key = "headerprotectionkey") then
    hexKey ← wrap [Lit "HeaderProtectionKey: "] (keyToHex value);
    Ok (set_Obfuscation (<[key := hexKey]> (Obfuscation c)) c)
  else Ok (set_Obfuscation (<[key := value]> (Obfuscation c)) c).

Definition atoi_field (name value : string) : result Z :=
  wrap [Lit name; Lit ": "] (Atoi value).

Definition setInterface (key value : string) (c : Config) : result Config :=
  if bool_decide (key ∈ obfuscationKeys) then SetObfuscation key value c
  else if bool_decide (key = "privatekey") then
    hexKey ← wrap [Lit "PrivateKey: "] (keyToHex value); Ok (set_PrivateKey hexKey c)
  else if bool_decide (key = "address") then
    addrs ← wrap [Lit "Address: "] (parseAddrList value);
    Ok (set_Addresses (Addresses c ++ addrs) c)
  else if bool_decide (key = "dns") then
    addrs ← wrap [Lit "DNS: "] (parseAddrList value);
    Ok (set_DNS (DNS c ++ addrs) c)
  else if bool_decide (key = "mtu") then
    mtu ← atoi_field "MTU" value; Ok (set_MTU mtu c)
  else Ok c.

(** The non-empty trimmed parts of an [AllowedIPs] value. *)
Definition allowed_parts (value : string) : list string :=
  filter (λ s, s ≠ "") (map TrimSpace (Split value ",")).

(** [(p *Peer) set]. *)
Definition peer_set (key value : string) (p : Peer) : result Peer :=
  if bool_decide (key = "publickey") then
    hexKey ← wrap [Lit "PublicKey: "] (keyToHex value); Ok (set_PublicKey hexKey p)
  else if bool_decide (key = "presharedkey") then
    hexKey ← wrap [Lit "PresharedKey: "] (keyToHex value); Ok (set_PresharedKey hexKey p)
  else if bool_decide (key = "endpoint") then Ok (set_Endpoint value p)
  else if bool_decide (key = "allowedips") then
    Ok (set_AllowedIPs (AllowedIPs p ++ allowed_parts value) p)
  else if bool_decide (key = "persistentkeepalive") then
    seconds ← atoi_field "PersistentKeepalive" value; Ok (set_Keepalive seconds p)
  else Ok p.

(** ** Reading a file *)

(** The [switch section] of [ParseConfig]. *)
Definition set_in_section (section key value : string) (c : Config) : result Config :=
  if bool_decide (section = "interface") then setInterface key value c
  else if bool_decide (section = "peer") then
    p ← peer_set key value (peer c); Ok (set_peer p c)
  else Err [Lit "key "; Quoted key; Lit " outside any section"].

(** One round of [ParseConfig]'s loop over the lines. *)
Definition config_line (st : string * Config) (numbered : nat * string)
    : result (string * Config) :=
  let '(section, cfg) := st in
  let '(lineNo, raw) := numbered in
  let line := TrimSpace raw in
  if bool_decide (line = "") || HasPrefix line "#" || HasPrefix line ";" then Ok st
  else if HasPrefix line "[" && HasSuffix line "]" then
    Ok (ToLower (Trim line "[]"), cfg)
  else match Cut line "=" with
       | None => Err [Lit "line "; Num (Z.of_nat lineNo + 1); Lit ": expected key = value, got ";
                      Quoted line]
       | Some (key, value) =>
           let key := ToLower (TrimSpace key) in
           let value := TrimSpace value in
           cfg ← wrap [Lit "line "; Num (Z.of_nat lineNo + 1); Lit ": "]
                   (set_in_section section key value cfg);
           Ok (section, cfg)
       end.

Definition number_lines (ls : list string) : list (nat * string) := imap pair ls.

Definition ParseConfig (text : string) : result Config :=
  '(_, cfg) ← foldM config_line (number_lines (Split text newline)) ("", new_config);
  if bool_decide (PrivateKey cfg = "") then Err [Lit "no PrivateKey in [Interface]"]
  else if bool_decide (PublicKey (peer cfg) = "") then Err [Lit "no PublicKey in [Peer]"]
  else if bool_decide (Addresses cfg = []) then Err [Lit "no Address in [Interface]"]
  else Ok cfg.

(** ** Rendering for the device *)

Definition uapiValue (key value : string) : string :=
  if negb (bool_decide (key = "randomtrailers")) && negb (bool_decide (key = "disablecookies"))
  then value
  else
    let v := ToLower (TrimSpace value) in
    if bool_decide (v ∈ ["on"; "true"; "1"; "yes"]) then "true"
    else if bool_decide (v ∈ ["off"; "false"; "0"; "no"]) then "false"
    else value.

Definition uapiNames : gmap string string := list_to_map
  [("headerprotectionkey", "header_protection_key");
   ("contentpaddingaddition", "content_padding_addition");
   ("rekeyaftertime", "rekey_after_time");
   ("rekeytimeout", "rekey_timeout");
   ("rejectaftertime", "reject_after_time");
   ("keepalivetimeout", "keepalive_timeout");
   ("maxhandshakeattempts", "max_handshake_attempts");
   ("randomtrailers", "random_trailers");
   ("disablecookies", "disable_cookies")].

(** The order in which [IPC] writes the obfuscation parameters. *)
Definition ipc_keys : list string :=
  ["jc"; "jmin"; "jmax"; "s1"; "s2"; "s3"; "s4"; "h1"; "h2"; "h3"; "h4";
   "i1"; "i2"; "i3"; "i4"; "i5";
   "headerprotectionkey"; "contentpaddingaddition"; "rekeyaftertime"; "rekeytimeout";
   "rejectaftertime"; "keepalivetimeout"; "maxhandshakeattempts"; "randomtrailers";
   "disablecookies"].

(** [fmt.Fprintf(&b, "%s=%s\n", name, value)]. *)
Definition uapi_line (name value : string) : string := name +:+ "=" +:+ value +:+ nl.

Definition ipc_obfuscation (c : Config) (key : string) : string :=
  match Obfuscation c !! key with
  | Some value => uapi_line (default key (uapiNames !! key)) (uapiValue key value)
  | None => ""
  end.

Definition IPC (c : Config) : string :=
  uapi_line "private_key" (PrivateKey c) +:+
  sconcat (map (ipc_obfuscation c) ipc_keys) +:+
  uapi_line "public_key" (PublicKey (peer c)) +:+
  (if bool_decide (PresharedKey (peer c) = "") then ""
   else uapi_line "preshared_key" (PresharedKey (peer c))) +:+
  (if bool_decide (Endpoint (peer c) = "") then ""
   else uapi_line "endpoint" (Endpoint (peer c))) +:+
  sconcat (map (uapi_line "allowed_ip") (AllowedIPs (peer c))) +:+
  (if (0 <? Keepalive (peer c))%Z
   then uapi_line "persistent_keepalive_interval" (Itoa (Keepalive (peer c))) else "").
