(* ===== verification/AwgEndpoint.v ===== *)
(** * Subscription nodes: core/internal/awg/endpoint.go

    One endpoint of a sing-box document, read from JSON ([ParseEndpoint]) into
    the same [Config] a [.conf] file gives, and the choice between the two
    forms ([Parse]).  A struct field is decoded from every member whose name
    matches its own up to case, the last one winning, as [json.Unmarshal]
    does (an array that comes again is decoded into what the one before it
    left, as far as that reaches); whichever field fails, [ParseEndpoint] reports one decoding error. *)

From S2P Require Import Prelude GoStrings NetAddr GoJson Awg.
From Stdlib Require Import Ascii.
From stdpp Require Import options.

Definition EndpointType : string := "amneziawg".

(** ** Data *)

Record EndpointPeer := mkEndpointPeer {
  ep_Address : string;
  ep_Port : Z;
  ep_PublicKey : string;
  ep_PreSharedKey : string;
  ep_AllowedIPs : list string;
  ep_PersistentKeepaliveInterval : Z;
}.

(** [Endpoint]; a [Scalar] is the text of a number or a string. *)
Record EndpointNode := mkEndpoint {
  e_Type : string; e_Tag : string;
  e_Address : list string; e_PrivateKey : string; e_MTU : Z; e_DNS : list string;
  e_Peers : list EndpointPeer;
  e_Jc : string; e_Jmin : string; e_Jmax : string;
  e_S1 : string; e_S2 : string; e_S3 : string; e_S4 : string;
  e_H1 : string; e_H2 : string; e_H3 : string; e_H4 : string;
  e_I1 : string; e_I2 : string; e_I3 : string; e_I4 : string; e_I5 : string;
  e_HeaderProtectionKey : string; e_ContentPaddingAddition : string;
  e_RekeyAfterTime : string; e_RekeyTimeout : string; e_RejectAfterTime : string;
  e_KeepaliveTimeout : string; e_MaxHandshakeAttempts : string;
  e_RandomTrailers : string; e_DisableCookies : string;
}.

(** ** Decoding a document *)

(** The case folding under which member names match field names: ASCII case,
    and the two letters that fold to ASCII ones. *)
Fixpoint fold_name (s : string) : string :=
  match s with
  | EmptyString => EmptyString
  | String "226" (String "132" (String "170" r)) => String "k" (fold_name r)
  | String "197" (String "191" r) => String "s" (fold_name r)
  | String c r => String (lower_byte c) (fold_name r)
  end.

Definition decode_error : error := [Foreign "json.Unmarshal" ""].

(** Decode one field: fold [dec] over the members that name it. *)
Definition field {A} (name : string) (dec : A → json → result A) (zero : A)
    (ms : list (string * json)) : result A :=
  foldM (λ acc '(k, v), if bool_decide (fold_name k = name) then dec acc v else Ok acc) ms zero.

Definition dec_string (old : string) (v : json) : result string :=
  match v with JNull => Ok old | JStr s => Ok s | _ => Err decode_error end.

(** A JSON number goes into an [int] only when [strconv.ParseInt] takes it. *)
Definition dec_int (old : Z) (v : json) : result Z :=
  match v with
  | JNull => Ok old
  | JNum lit => match parse_int lit with Some z => Ok z | None => Err decode_error end
  | _ => Err decode_error
  end.

(** The elements of an array go into those the slice has, where it has any. *)
Fixpoint dec_elements {A V} (dec : A → V → result A) (zero : A) (old : list A) (l : list V) : result (list A) :=
  match l with
  | [] => Ok []
  | v :: l => a ← dec (hd zero old) v; rest ← dec_elements dec zero (tl old) l; Ok (a :: rest)
  end.

Definition dec_slice {A} (dec : A → json → result A) (zero : A) (old : list A) (v : json)
    : result (list A) :=
  match v with
  | JNull => Ok []
  | JArr l => dec_elements dec zero old l
  | _ => Err decode_error
  end.

(** [(s *Scalar) UnmarshalJSON]. *)
Definition UnmarshalScalar (old : string) (v : json) : result string :=
  match v with
  | JNull => Ok old
  | JStr s => Ok s
  | JNum lit => if parse_float_ok lit then Ok lit
                else Err [Lit "expected a number or a string, got "; Plain lit]
  | JBool b => Err [Lit "expected a number or a string, got "; Lit (if b then "true" else "false")]
  | _ => Err [Lit "expected a number or a string, got "; Foreign "json" ""]
  end.

(** [(s Scalar) MarshalJSON]. *)
Definition MarshalScalar (s : string) : string := marshal_string s.

Definition zero_endpoint_peer : EndpointPeer := mkEndpointPeer "" 0 "" "" [] 0.

Definition dec_peer (old : EndpointPeer) (v : json) : result EndpointPeer :=
  match v with
  | JNull => Ok old
  | JObj ms =>
      address ← field "address" dec_string (ep_Address old) ms;
      port ← field "port" dec_int (ep_Port old) ms;
      public_key ← field "public_key" dec_string (ep_PublicKey old) ms;
      psk ← field "pre_shared_key" dec_string (ep_PreSharedKey old) ms;
      allowed ← field "allowed_ips" (dec_slice dec_string "") (ep_AllowedIPs old) ms;
      keepalive ← field "persistent_keepalive_interval" dec_int (ep_PersistentKeepaliveInterval old) ms;
      Ok (mkEndpointPeer address port public_key psk allowed keepalive)
  | _ => Err decode_error
  end.

Definition dec_members (ms : list (string * json)) : result EndpointNode :=
  let str name := field name dec_string "" ms in
  let sc name := field name UnmarshalScalar "" ms in
  ty ← str "type"; tag ← str "tag";
  address ← field "address" (dec_slice dec_string "") [] ms;
  private_key ← str "private_key"; mtu ← field "mtu" dec_int 0%Z ms;
  dns ← field "dns" (dec_slice dec_string "") [] ms;
  peers ← field "peers" (dec_slice dec_peer zero_endpoint_peer) [] ms;
  jc ← sc "jc"; jmin ← sc "jmin"; jmax ← sc "jmax";
  s1 ← sc "s1"; s2 ← sc "s2"; s3 ← sc "s3"; s4 ← sc "s4";
  h1 ← sc "h1"; h2 ← sc "h2"; h3 ← sc "h3"; h4 ← sc "h4";
  i1 ← sc "i1"; i2 ← sc "i2"; i3 ← sc "i3"; i4 ← sc "i4"; i5 ← sc "i5";
  hpk ← sc "header_protection_key"; cpa ← sc "content_padding_addition";
  rat ← sc "rekey_after_time"; rt ← sc "rekey_timeout"; rj ← sc "reject_after_time";
  kt ← sc "keepalive_timeout"; mha ← sc "max_handshake_attempts";
  rtr ← sc "random_trailers"; dc ← sc "disable_cookies";
  Ok (mkEndpoint ty tag address private_key mtu dns peers jc jmin jmax s1 s2 s3 s4
        h1 h2 h3 h4 i1 i2 i3 i4 i5 hpk cpa rat rt rj kt mha rtr dc).

(** [json.Unmarshal(data, &endpoint)] once the document has been read; [null]
    leaves the zero endpoint. *)
Definition dec_endpoint (v : json) : result EndpointNode :=
  match v with
  | JNull => dec_members []
  | JObj ms => dec_members ms
  | _ => Err decode_error
  end.

(** ** Conversion *)

Definition joinHostPort (host : string) (port : Z) : string :=
  if Contains host ":" && negb (HasPrefix host "[")
  then "[" +:+ host +:+ "]:" +:+ Itoa port
  else host +:+ ":" +:+ Itoa port.

(** The entries of the map literal [Config] ranges over. *)
Definition scalars (e : EndpointNode) : list (string * string) :=
  [("jc", e_Jc e); ("jmin", e_Jmin e); ("jmax", e_Jmax e);
   ("s1", e_S1 e); ("s2", e_S2 e); ("s3", e_S3 e); ("s4", e_S4 e);
   ("h1", e_H1 e); ("h2", e_H2 e); ("h3", e_H3 e); ("h4", e_H4 e);
   ("i1", e_I1 e); ("i2", e_I2 e); ("i3", e_I3 e); ("i4", e_I4 e); ("i5", e_I5 e);
   ("headerprotectionkey", e_HeaderProtectionKey e);
   ("contentpaddingaddition", e_ContentPaddingAddition e);
   ("rekeyaftertime", e_RekeyAfterTime e);
   ("rekeytimeout", e_RekeyTimeout e);
   ("rejectaftertime", e_RejectAfterTime e);
   ("keepalivetimeout", e_KeepaliveTimeout e);
   ("maxhandshakeattempts", e_MaxHandshakeAttempts e);
   ("randomtrailers", e_RandomTrailers e);
   ("disablecookies", e_DisableCookies e)].

(** The body of the loop over the scalars. *)
Definition scalar_step (c : Config) (entry : string * string) : result Config :=
  let '(key, value) := entry in
  if bool_decide (value = "") then Ok c else SetObfuscation key value c.

(** The two address loops of [Config]. *)
Definition collect_addrs (what : string) (texts : list string) : result (list Addr) :=
  foldM (λ addrs text,
    more ← wrap [Lit what; Lit ": "] (parseAddrList text); Ok (addrs ++ more)) texts [].

(** [Endpoint.Config] with the order in which the map literal is ranged over
    made explicit: Go leaves it unspecified. *)
Definition Config_in_order (entries : list (string * string)) (e : EndpointNode) : result Config :=
  if negb (bool_decide (e_Type e = "")) && negb (bool_decide (e_Type e = EndpointType)) then
    Err [Lit "endpoint type "; Quoted (e_Type e); Lit " is not "; Lit EndpointType]
  else match e_Peers e with
  | [] => Err [Lit "the endpoint has no peers"]
  | _ :: _ :: _ =>
      Err [Lit "the endpoint has "; Num (Z.of_nat (length (e_Peers e)));
           Lit " peers; AmneziaWG describes one"]
  | [p] =>
      let cfg := if (0 <? e_MTU e)%Z then set_MTU (e_MTU e) new_config else new_config in
      privateKey ← wrap [Lit "private_key: "] (keyToHex (e_PrivateKey e));
      let cfg := set_PrivateKey privateKey cfg in
      if bool_decide (e_Address e = []) then Err [Lit "the endpoint has no address"]
      else
        addrs ← collect_addrs "address" (e_Address e);
        let cfg := set_Addresses addrs cfg in
        if bool_decide (addrs = []) then Err [Lit "the endpoint has no address"]
        else
          dns ← collect_addrs "dns" (e_DNS e);
          let cfg := set_DNS dns cfg in
          publicKey ← wrap [Lit "public_key: "] (keyToHex (ep_PublicKey p));
          presharedKey ← (if bool_decide (ep_PreSharedKey p = "") then Ok ""
                          else wrap [Lit "pre_shared_key: "] (keyToHex (ep_PreSharedKey p)));
          if bool_decide (ep_Address p = "") || (ep_Port p =? 0)%Z then
            Err [Lit "the peer has no address and port"]
          else
            let allowed := if bool_decide (ep_AllowedIPs p = []) then ["0.0.0.0/0"]
                           else ep_AllowedIPs p in
            let cfg := set_peer (mkPeer publicKey presharedKey
                                   (joinHostPort (ep_Address p) (ep_Port p))
                                   allowed (ep_PersistentKeepaliveInterval p)) cfg in
            foldM scalar_step entries cfg
  end.

Definition Endpoint_Config (e : EndpointNode) : result Config := Config_in_order (scalars e) e.

(** ** Entry points *)

Definition ParseEndpoint (data : string) : result Config :=
  endpoint ← wrap [Lit "reading the endpoint: "]
    (match json_read data with Some v => dec_endpoint v | None => Err decode_error end);
  Endpoint_Config endpoint.

Definition LooksLikeJSON (text : string) : bool := HasPrefix (TrimSpace text) "{".

Definition Parse (text : string) : result Config :=
  if LooksLikeJSON text then ParseEndpoint text else ParseConfig text.
