(* ===== verification/Fields.v ===== *)
(** * Struct fields, one by one

    How the members of an object give the fields of a struct: members named
    otherwise do not matter ([field_skip], [field_take], [field_block]), and
    what is written for a text or a number is what its field gets. *)

From S2P Require Import Prelude GoStrings GoJson GoJsonFacts AwgEndpoint.
From Stdlib Require Import Ascii.
From stdpp Require Import options.

(** Members with [omitempty], as documents. *)
Definition text_member (name s : string) : list (string * json) :=
  if bool_decide (s = "") then [] else [(name, JStr (to_valid s))].
Definition number_member (name : string) (z : Z) : list (string * json) :=
  if (z =? 0)%Z then [] else [(name, JNum (Itoa z))].


(** Reading a field of members side by side: those named otherwise do not
    matter, the one it names gives its value. *)
Lemma field_other {A} name (dec : A → json → result A) old ms :
  Forall (λ m, fold_name m.1 ≠ name) ms → field name dec old ms = Ok old.
Proof.
  unfold field. induction 1 as [|[k v] ms Hk _ IH]; cbn [foldM]; [done|].
  by rewrite bool_decide_eq_false_2.
Qed.

Lemma field_skip {A} name (dec : A → json → result A) old v ms ms' :
  Forall (λ m, fold_name m.1 ≠ name) ms → field name dec old ms' = Ok v →
  field name dec old (ms ++ ms') = Ok v.
Proof. intros H Hv. pose proof (field_other name dec old ms H). unfold field in *. by rewrite foldM_app, H0. Qed.

Lemma field_take {A} name (dec : A → json → result A) old v ms ms' :
  field name dec old ms = Ok v → Forall (λ m, fold_name m.1 ≠ name) ms' →
  field name dec old (ms ++ ms') = Ok v.
Proof. intros Hv H. pose proof (field_other name dec v ms' H). unfold field in *. by rewrite foldM_app, Hv. Qed.

Lemma result_bind_eq {A B} (m : result A) (k : A → result B) a r : m = Ok a → k a = r → m ≫= k = r.
Proof. by intros ->. Qed.

Lemma field_text name s : fold_name name = name → field name dec_string "" (text_member name s) = Ok (to_valid s).
Proof.
  intros E. unfold text_member. case_bool_decide; [by subst|].
  unfold field. cbn [foldM]. by rewrite bool_decide_eq_true_2.
Qed.

Lemma field_number name z : fold_name name = name → in_int64 z = true →
  field name dec_int 0%Z (number_member name z) = Ok z.
Proof.
  intros E Hz. unfold number_member. destruct (Z.eqb_spec z 0) as [-> |_]; [done|].
  unfold field. cbn [foldM]. rewrite bool_decide_eq_true_2 by done. cbn. by rewrite parse_int_Itoa.
Qed.

Lemma text_member_names name s (P : string → Prop) : P name → Forall (λ m, P m.1) (text_member name s).
Proof. unfold text_member. case_bool_decide; auto. Qed.
Lemma number_member_names name z (P : string → Prop) : P name → Forall (λ m, P m.1) (number_member name z).
Proof. unfold number_member. case_match; auto. Qed.


(** Members in blocks, each of which is all there is under one name. *)
Definition members_of : Type := string * list (string * json).
Definition under_one_name (b : members_of) : Prop := Forall (λ m, fold_name m.1 = b.1) b.2.

Lemma blocks_other {A} name (dec : A → json → result A) old (bs : list members_of) :
  Forall under_one_name bs → name ∉ bs.*1 → field name dec old (flat_map snd bs) = Ok old.
Proof.
  intros H Hn. apply field_other. induction H as [|b bs Hb H IH]; [by constructor|].
  rewrite fmap_cons, not_elem_of_cons in Hn. destruct Hn as [Hne Hn]. cbn. apply list.Forall_app. split; [|by apply IH].
  eapply list.Forall_impl; [exact Hb|]. intros m Hm. congruence.
Qed.

Lemma field_block {A} name (dec : A → json → result A) old v (bs : list members_of) ms :
  Forall under_one_name bs → NoDup bs.*1 → (name, ms) ∈ bs → field name dec old ms = Ok v →
  field name dec old (flat_map snd bs) = Ok v.
Proof.
  intros H Hd Hin Hv. induction H as [|b bs Hb H IH]; [by apply elem_of_nil in Hin|].
  rewrite fmap_cons, list.NoDup_cons in Hd. destruct Hd as [Hn Hd]. cbn [flat_map].
  pose proof (blocks_other name dec v bs H) as Hother.
  apply elem_of_cons in Hin as [<-|Hin].
  - unfold field in *. rewrite foldM_app. cbn [snd] in *. rewrite Hv. by apply Hother.
  - apply field_skip; [|by apply IH]. eapply list.Forall_impl; [exact Hb|]. cbn. intros m Hm E. apply Hn. rewrite <- Hm, E.
    change name with (name, ms).1. by apply list_elem_of_fmap_2.
Qed.

(** Slices. *)
Lemma dec_slice_map {A B} (dec : A → json → result A) zero (f : B → json) (g : B → A) l :
  (∀ b, b ∈ l → dec zero (f b) = Ok (g b)) → dec_slice dec zero [] (JArr (map f l)) = Ok (map g l).
Proof.
  intros H. cbn [dec_slice]. induction l as [|b l IH]; [done|]. cbn [map dec_elements hd tl].
  rewrite H by apply list_elem_of_here. cbn [mbind result_bind].
  rewrite IH by (intros b' Hb; by apply H, list_elem_of_further). done.
Qed.

(** ** Reading back what is written *)

Lemma written_json_read k v j : written k v j → (Z.of_nat k ≤ 10000)%Z → json_read v = Some j.
Proof.
  intros [_ H] Hk. unfold json_read. specialize (H (S (2 * String.length v)) 0%Z "").
  rewrite sapp_nil_r in H. replace (2 * String.length v + 2) with (S (S (2 * String.length v))) by lia.
  rewrite H; [done|done|lia..].
Qed.

Lemma json_read_string s : json_read (marshal_string s) = Some (JStr (to_valid s)).
Proof. apply (written_json_read 0); [apply written_string|done]. Qed.
Lemma json_read_number z : json_read (Itoa z) = Some (JNum (Itoa z)).
Proof. apply (written_json_read 0); [apply written_int|done]. Qed.

(** A scalar reads back what it writes, as far as it is UTF-8. *)
Lemma Scalar_round_trip s old :
  (v ← match json_read (MarshalScalar s) with Some v => Ok v | None => Err decode_error end; UnmarshalScalar old v)
    = Ok (to_valid s).
Proof. unfold MarshalScalar. by rewrite json_read_string. Qed.
