(* ===== verification/AwgFacts.v ===== *)
(** * Properties of AmneziaWG configurations

    What every accepted configuration satisfies ([wf_config]), which of them
    have one-line values ([one_line]), and that the UAPI text of those reads
    back, line by line, as exactly the settings the configuration holds. *)

From S2P Require Import Prelude GoStrings GoEncoding NetAddr Awg.
From Stdlib Require Import Ascii.
From stdpp Require Import options.

(** ** Well-formed configurations *)

(** A Curve25519 key as the UAPI wants it. *)
Definition hex_key (s : string) : Prop :=
  String.length s = 64 ∧ sall is_lower_hex s = true.

Definition int64 (z : Z) : Prop := (int64_min ≤ z ≤ int64_max)%Z.

Record wf_config (c : Config) : Prop := {
  wf_private : hex_key (PrivateKey c);
  wf_public : hex_key (PublicKey (peer c));
  wf_preshared : PresharedKey (peer c) = "" ∨ hex_key (PresharedKey (peer c));
  wf_addresses : Addresses c ≠ [];
  wf_known : ∀ k v, Obfuscation c !! k = Some v → k ∈ obfuscationKeys;
  wf_header_key : ∀ v, Obfuscation c !! "headerprotectionkey" = Some v → hex_key v;
}.

(** Every value that is passed through to the device fits on one line. *)
Record one_line (c : Config) : Prop := {
  ol_obfuscation : ∀ k v, Obfuscation c !! k = Some v → lacks newline v;
  ol_endpoint : lacks newline (Endpoint (peer c));
  ol_allowed : Forall (λ s, lacks newline s) (AllowedIPs (peer c));
}.

(** The same while a file is still being read: keys may be missing. *)
Record wf_partial (c : Config) : Prop := {
  wp_private : PrivateKey c = "" ∨ hex_key (PrivateKey c);
  wp_public : PublicKey (peer c) = "" ∨ hex_key (PublicKey (peer c));
  wp_preshared : PresharedKey (peer c) = "" ∨ hex_key (PresharedKey (peer c));
  wp_known : ∀ k v, Obfuscation c !! k = Some v → k ∈ obfuscationKeys;
  wp_header_key : ∀ v, Obfuscation c !! "headerprotectionkey" = Some v → hex_key v;
}.

Lemma wf_partial_new : wf_partial new_config.
Proof. split; cbn; auto; intros *; rewrite lookup_empty; done. Qed.

Lemma one_line_new : one_line new_config.
Proof. split; cbn; auto. intros k v. by rewrite lookup_empty. Qed.

Lemma hex_key_lacks_newline s : hex_key s → lacks newline s.
Proof.
  intros [_ H]. eapply sall_impl; [|exact H]. intros c Hc.
  unfold not_byte. apply negb_true_iff, ascii_eqb_false. by intros ->.
Qed.

Lemma keyToHex_Ok value h :
  keyToHex value = Ok h ↔
  ∃ raw, b64_decode value = Some raw ∧ length raw = 32 ∧ h = hex_encode raw.
Proof.
  unfold keyToHex. destruct (b64_decode value) as [raw|]; [|naive_solver].
  case_bool_decide; split; naive_solver.
Qed.

Lemma keyToHex_hex_key value h : keyToHex value = Ok h → hex_key h.
Proof.
  intros (raw & Hraw & Hlen & ->)%keyToHex_Ok. split.
  - rewrite hex_encode_length. lia.
  - eauto with caelo.
Qed.
#[export] Hint Resolve keyToHex_hex_key hex_key_lacks_newline wf_partial_new one_line_new : caelo.

(** ** The setters preserve both *)

Lemma SetObfuscation_wf k v c c' :
  k ∈ obfuscationKeys → wf_partial c → SetObfuscation k v c = Ok c' → wf_partial c'.
Proof.
  intros Hk [] H. unfold SetObfuscation in H.
  case_bool_decide; inv_result; split; cbn; auto; intros *;
    rewrite lookup_insert; case_decide; naive_solver eauto with caelo.
Qed.

Lemma SetObfuscation_one_line k v c c' :
  lacks newline v → one_line c → SetObfuscation k v c = Ok c' → one_line c'.
Proof.
  intros Hv [] H. unfold SetObfuscation in H.
  case_bool_decide; inv_result; split; cbn; auto; intros *;
    rewrite lookup_insert; case_decide; naive_solver eauto with caelo.
Qed.

Lemma setInterface_wf k v c c' :
  wf_partial c → setInterface k v c = Ok c' → wf_partial c'.
Proof.
  intros Hc H. unfold setInterface in H. case_bool_decide as Hk.
  { by eapply SetObfuscation_wf. }
  destruct Hc. repeat case_bool_decide; inv_result; split; cbn; eauto with caelo.
Qed.

Lemma setInterface_one_line k v c c' :
  lacks newline v → one_line c → setInterface k v c = Ok c' → one_line c'.
Proof.
  intros Hv Hc H. unfold setInterface in H. case_bool_decide as Hk.
  { by eapply SetObfuscation_one_line. }
  destruct Hc. repeat case_bool_decide; inv_result; split; cbn; eauto with caelo.
Qed.

Lemma allowed_parts_one_line v :
  lacks newline v → Forall (λ s, lacks newline s) (allowed_parts v).
Proof.
  intros H. unfold allowed_parts. apply list.Forall_forall. intros s [_ Hs]%list_elem_of_filter.
  apply list_elem_of_fmap in Hs as (w & -> & Hw). apply TrimSpace_sall.
  pose proof (Split_sall _ v "," H) as Hall. rewrite list.Forall_forall in Hall; auto.
Qed.

Lemma set_in_section_wf s k v c c' :
  wf_partial c → set_in_section s k v c = Ok c' → wf_partial c'.
Proof.
  intros Hc H. unfold set_in_section in H.
  case_bool_decide; [by eapply setInterface_wf|].
  case_bool_decide; inv_result. destruct Hc.
  unfold peer_set in *. repeat case_bool_decide; inv_result; split; cbn; eauto with caelo.
Qed.

Lemma set_in_section_one_line s k v c c' :
  lacks newline v → one_line c → set_in_section s k v c = Ok c' → one_line c'.
Proof.
  intros Hv Hc H. unfold set_in_section in H.
  case_bool_decide; [by eapply setInterface_one_line|].
  case_bool_decide; inv_result. destruct Hc. unfold peer_set in *.
  repeat case_bool_decide; inv_result; split; cbn; auto.
  apply Forall_app; auto using allowed_parts_one_line.
Qed.

(** ** Reading a file preserves both *)

Definition line_ok (numbered : nat * string) : Prop := lacks newline numbered.2.

Lemma config_line_wf st n st' :
  wf_partial st.2 → config_line st n = Ok st' → wf_partial st'.2.
Proof.
  destruct st as [section c], n as [i raw]; cbn. intros Hc H.
  destruct (_ || _); [by inv_result|]. destruct (_ && _); [by inv_result|].
  destruct (Cut _ _) as [[key value]|]; inv_result. cbn. by eapply set_in_section_wf.
Qed.

Lemma config_line_one_line st n st' :
  line_ok n → one_line st.2 → config_line st n = Ok st' → one_line st'.2.
Proof.
  destruct st as [section c], n as [i raw]; unfold line_ok; cbn. intros Hraw Hc H.
  destruct (_ || _); [by inv_result|]. destruct (_ && _); [by inv_result|].
  destruct (Cut _ _) as [[key value]|] eqn:Hcut; inv_result. cbn.
  eapply set_in_section_one_line; [|done..].
  apply TrimSpace_sall. eapply Cut_sall; [|exact Hcut]. by apply TrimSpace_sall.
Qed.

Lemma number_lines_ok ls :
  Forall (λ l, lacks newline l) ls → Forall line_ok (number_lines ls).
Proof.
  intros H. unfold number_lines, line_ok. apply Forall_lookup. intros i x Hi.
  rewrite list_lookup_imap in Hi. destruct (ls !! i) as [l|] eqn:E; cbn in Hi; [|done].
  injection Hi as <-. cbn. by eapply Forall_lookup in H.
Qed.

Lemma ParseConfig_Ok text c :
  ParseConfig text = Ok c →
  (∃ section, foldM config_line (number_lines (Split text newline)) ("", new_config) = Ok (section, c))
  ∧ PrivateKey c ≠ "" ∧ PublicKey (peer c) ≠ "" ∧ Addresses c ≠ [].
Proof.
  unfold ParseConfig. intros H. inv_result. destruct r as [section c'].
  repeat case_bool_decide; inv_result. naive_solver.
Qed.

Lemma ParseConfig_one_line text c : ParseConfig text = Ok c → one_line c.
Proof.
  intros ([section H] & _)%ParseConfig_Ok.
  change c with (section, c).2.
  eapply (foldM_invariant _ (λ st, one_line st.2) line_ok); [| | |exact H].
  3: exact one_line_new.
  - eauto using config_line_one_line.
  - apply number_lines_ok, Split_lacks.
Qed.

Lemma ParseConfig_wf_config text c : ParseConfig text = Ok c → wf_config c.
Proof.
  intros ([section H] & Hpriv & Hpub & Haddr)%ParseConfig_Ok.
  assert (wf_partial (section, c).2) as [].
  { eapply (foldM_invariant _ (λ st, wf_partial st.2) (λ _, True)); [| | |exact H].
    3: exact wf_partial_new.
    - eauto using config_line_wf.
    - by apply Forall_true. }
  cbn in *. split; naive_solver.
Qed.

(** ** The UAPI text as a list of settings *)

Definition uapi_name (key : string) : string := default key (uapiNames !! key).

(** The obfuscation settings a configuration gives the interface. *)
Definition interface_setting (c : Config) (k : string) : option (string * string) :=
  v ← Obfuscation c !! k; Some (uapi_name k, uapiValue k v).
Definition interface_settings (c : Config) : list (string * string) :=
  omap (interface_setting c) ipc_keys.

Definition peer_settings (c : Config) : list (string * string) :=
  let p := peer c in
  (if bool_decide (PresharedKey p = "") then [] else [("preshared_key", PresharedKey p)]) ++
  (if bool_decide (Endpoint p = "") then [] else [("endpoint", Endpoint p)]) ++
  map (pair "allowed_ip") (AllowedIPs p) ++
  (if (0 <? Keepalive p)%Z
   then [("persistent_keepalive_interval", Itoa (Keepalive p))] else []).

(** What the device is to be told: interface first, one peer after it. *)
Definition uapi_settings (c : Config) : list (string * string) :=
  ("private_key", PrivateKey c) :: interface_settings c ++
  ("public_key", PublicKey (peer c)) :: peer_settings c.

(** The device's reader: whole lines, each cut at its first '='. *)
Definition uapi_read (text : string) : option (list (string * string)) :=
  let ls := Split text newline in
  if bool_decide (list.last ls = Some "") then mapM (λ l, Cut l "=") (removelast ls) else None.

Definition setting_line (s : string * string) : string := s.1 +:+ "=" +:+ s.2.

Definition interface_names : list string := uapi_name <$> ipc_keys.
Definition peer_names : list string :=
  ["preshared_key"; "endpoint"; "allowed_ip"; "persistent_keepalive_interval"].

(** No name opens the peer section by accident or needs escaping. *)
Definition plain_name (n : string) : Prop := lacks newline n ∧ lacks "=" n ∧ n ≠ "public_key".

Lemma interface_names_plain : Forall plain_name interface_names.
Proof. repeat (constructor; [split_and!; [reflexivity..|discriminate]|]). constructor. Qed.

Lemma peer_names_plain : Forall plain_name peer_names.
Proof. repeat (constructor; [split_and!; [reflexivity..|discriminate]|]). constructor. Qed.

Lemma uapiValue_lacks_newline k v : lacks newline v → lacks newline (uapiValue k v).
Proof.
  intros H. unfold uapiValue. destruct (_ && _); [done|].
  destruct (bool_decide _); [done|]. by destruct (bool_decide _).
Qed.

Lemma interface_names_once : NoDup interface_names.
Proof. apply (bool_decide_unpack _). vm_compute. exact I. Qed.

(** The device's own table: what a [.conf] calls a parameter in lower case, and
    what the device calls it. *)
Definition device_names : list (string * string) :=
  [("jc", "jc"); ("jmin", "jmin"); ("jmax", "jmax");
   ("s1", "s1"); ("s2", "s2"); ("s3", "s3"); ("s4", "s4");
   ("h1", "h1"); ("h2", "h2"); ("h3", "h3"); ("h4", "h4");
   ("i1", "i1"); ("i2", "i2"); ("i3", "i3"); ("i4", "i4"); ("i5", "i5");
   ("headerprotectionkey", "header_protection_key"); ("contentpaddingaddition", "content_padding_addition");
   ("rekeyaftertime", "rekey_after_time"); ("rekeytimeout", "rekey_timeout");
   ("rejectaftertime", "reject_after_time"); ("keepalivetimeout", "keepalive_timeout");
   ("maxhandshakeattempts", "max_handshake_attempts"); ("randomtrailers", "random_trailers");
   ("disablecookies", "disable_cookies")].

Lemma device_names_keys : device_names = map (λ k, (k, uapi_name k)) ipc_keys ∧ device_names.*1 = obfuscationKeys.
Proof. by vm_compute. Qed.

(** Whether a parameter is a switch, and the words a [.conf] has for its two
    positions. *)
Definition switch (k : string) : Prop := k = "randomtrailers" ∨ k = "disablecookies".
Definition says_on (w : string) : Prop := ToLower (TrimSpace w) ∈ ["on"; "true"; "1"; "yes"].
Definition says_off (w : string) : Prop := ToLower (TrimSpace w) ∈ ["off"; "false"; "0"; "no"].

(** What the device is given for the value [w] of the parameter [k]: [true] or
    [false] for a switch that says so, the value as it is otherwise. *)
Definition device_value (k w v : string) : Prop :=
  (switch k → says_on w → v = "true") ∧ (switch k → says_off w → v = "false") ∧
  (¬ (switch k ∧ (says_on w ∨ says_off w)) → v = w).

Lemma switch_spec k : negb (bool_decide (k = "randomtrailers")) && negb (bool_decide (k = "disablecookies")) = true ↔ ¬ switch k.
Proof. unfold switch. rewrite andb_true_iff, !negb_true_iff, !bool_decide_eq_false. tauto. Qed.

Lemma says_one w : says_on w → says_off w → False.
Proof.
  unfold says_on, says_off. rewrite !elem_of_cons, !elem_of_nil. intros [->|[->|[->|[->|[]]]]]; intros; naive_solver.
Qed.

Lemma device_value_spec k w v : device_value k w v ↔ v = uapiValue k w.
Proof.
  unfold device_value, uapiValue. pose proof (switch_spec k) as Hs. pose proof (says_one w) as Hx.
  destruct (_ && _); [assert (¬ switch k) by (by apply Hs); tauto|].
  assert (switch k) as Hk.
  { unfold switch in *. destruct (decide (k = "randomtrailers")); [by left|].
    destruct (decide (k = "disablecookies")); [by right|]. destruct Hs as [_ Hs]. discriminate Hs. tauto. }
  clear Hs. fold (says_on w) (says_off w). cbv zeta.
  case_bool_decide as H1; [change (says_on w) in H1|change (¬ says_on w) in H1;
    case_bool_decide as H2; [change (says_off w) in H2|change (¬ says_off w) in H2]];
    split; intros; subst; intuition congruence.
Qed.

#[local] Opaque uapi_name uapiValue ipc_keys.

Lemma interface_setting_Some c k s :
  interface_setting c k = Some s ↔
  ∃ v, Obfuscation c !! k = Some v ∧ s = (uapi_name k, uapiValue k v).
Proof.
  unfold interface_setting. destruct (Obfuscation c !! k) as [v|]; cbn; [|naive_solver].
  split; [intros [= <-]; eauto|intros (v' & [= <-] & ->); done].
Qed.

Lemma uapi_line_setting n v : uapi_line n v = setting_line (n, v) +:+ String newline "".
Proof. unfold uapi_line, setting_line; cbn. by rewrite !sapp_assoc. Qed.

(** Settings as text: one line each. *)
Definition settings_text (l : list (string * string)) : string :=
  sconcat (map (λ s, setting_line s +:+ String newline "") l).

Lemma settings_text_cons n v l :
  settings_text ((n, v) :: l) = uapi_line n v +:+ settings_text l.
Proof. unfold settings_text. cbn [map sconcat]. by rewrite uapi_line_setting. Qed.

Lemma settings_text_app l1 l2 : settings_text (l1 ++ l2) = settings_text l1 +:+ settings_text l2.
Proof. unfold settings_text. by rewrite map_app, sconcat_app. Qed.

Lemma settings_text_one n v : settings_text [(n, v)] = uapi_line n v.
Proof. rewrite settings_text_cons. apply sapp_nil_r. Qed.

Lemma settings_text_repeat n vs : settings_text (map (pair n) vs) = sconcat (map (uapi_line n) vs).
Proof.
  induction vs as [|v vs IH]; [done|]. cbn [map sconcat]. by rewrite settings_text_cons, IH.
Qed.

Lemma ipc_obfuscation_setting c k :
  ipc_obfuscation c k =
  match interface_setting c k with Some s => settings_text [s] | None => "" end.
Proof.
  unfold ipc_obfuscation, interface_setting.
  destruct (Obfuscation c !! k) as [v|]; cbn [mbind option_bind]; [|done].
  by rewrite settings_text_one.
Qed.

Lemma settings_text_interface c keys :
  settings_text (omap (interface_setting c) keys) = sconcat (map (ipc_obfuscation c) keys).
Proof.
  induction keys as [|k keys IH]; [done|]. cbn [map sconcat omap list_omap].
  rewrite ipc_obfuscation_setting, <-IH. destruct (interface_setting c k) as [s|]; [|done].
  apply (settings_text_app [s]).
Qed.

(** The text is the settings, one line each, in order. *)
Lemma IPC_lines c : IPC c = settings_text (uapi_settings c).
Proof.
  unfold IPC, uapi_settings, peer_settings, interface_settings.
  rewrite settings_text_cons, settings_text_app, settings_text_interface, settings_text_cons.
  rewrite !settings_text_app, settings_text_repeat. do 3 f_equal.
  f_equal; [case_bool_decide; [done|symmetry; apply settings_text_one]|].
  f_equal; [case_bool_decide; [done|symmetry; apply settings_text_one]|].
  f_equal. destruct (0 <? _)%Z; [symmetry; apply settings_text_one|done].
Qed.

Definition setting_ok (s : string * string) : Prop :=
  lacks newline s.1 ∧ lacks "=" s.1 ∧ lacks newline s.2.

Lemma uapi_read_settings l :
  Forall setting_ok l →
  uapi_read (settings_text l) = Some l.
Proof.
  intros Hl. unfold uapi_read, settings_text.
  rewrite <-(map_map setting_line (λ l, l +:+ String newline "")).
  rewrite Split_lines.
  - rewrite list.last_snoc, bool_decide_eq_true_2 by done. rewrite removelast_last.
    induction Hl as [|[n v] l (Hn & He & Hv) _ IH]; [done|].
    cbn [map mapM]. change (setting_line (n, v)) with (n +:+ String "=" v).
    rewrite Cut_app by done. cbn. by rewrite IH.
  - apply Forall_map. eapply list.Forall_impl; [exact Hl|].
    intros [n v] (Hn & He & Hv). unfold setting_line. cbn [fst snd] in *.
    rewrite sall_app, Hn. cbn. by rewrite Hv.
Qed.

Lemma interface_settings_named c :
  Forall (λ s, s.1 ∈ interface_names) (interface_settings c).
Proof.
  apply list.Forall_forall. intros s (k & Hk & Hs)%list_elem_of_omap.
  apply interface_setting_Some in Hs as (v & _ & ->).
  unfold interface_names. cbn [fst]. by apply (list_elem_of_fmap_2 uapi_name).
Qed.

(** No name is used twice. *)
Lemma interface_settings_once c : NoDup (interface_settings c).*1.
Proof.
  apply (sublist_NoDup _ interface_names); [apply interface_names_once|].
  unfold interface_settings, interface_names. induction ipc_keys as [|k keys IH]; [constructor|].
  cbn [omap list_omap fmap list_fmap]. destruct (interface_setting c k) as [s|] eqn:E; [|by constructor].
  apply interface_setting_Some in E as (v & _ & ->). cbn. by constructor.
Qed.

Lemma peer_settings_named c : Forall (λ s, s.1 ∈ peer_names) (peer_settings c).
Proof.
  assert (∀ n v, n ∈ peer_names → Forall (λ s, s.1 ∈ peer_names) [(n, v : string)]) as Hone.
  { intros n v Hn. by apply Forall_singleton. }
  assert (∀ vs : list string, Forall (λ s, s.1 ∈ peer_names) (map (pair "allowed_ip") vs)) as Hmany.
  { intros vs. apply Forall_map, Forall_true. intros v. unfold peer_names. cbn. set_solver. }
  unfold peer_settings. rewrite !Forall_app. split_and!; [..|apply Hmany|].
  - case_bool_decide; [constructor|]. apply Hone. unfold peer_names. set_solver.
  - case_bool_decide; [constructor|]. apply Hone. unfold peer_names. set_solver.
  - destruct (0 <? _)%Z; [|constructor]. apply Hone. unfold peer_names. set_solver.
Qed.

Lemma uapi_settings_ok c : wf_config c → one_line c → Forall setting_ok (uapi_settings c).
Proof.
  intros [] []. pose proof interface_names_plain as Hi. pose proof peer_names_plain as Hp.
  rewrite list.Forall_forall in Hi, Hp. unfold uapi_settings.
  constructor; [repeat split; cbn; eauto with caelo|]. apply Forall_app; split; [|constructor].
  - apply list.Forall_forall. intros [n v] Hs.
    pose proof (interface_settings_named c) as Hn. rewrite list.Forall_forall in Hn.
    destruct (Hi n) as (? & ? & _); [by apply (Hn (n, v))|]. repeat split; cbn; auto.
    apply list_elem_of_omap in Hs as (k & Hk & Hs).
    apply interface_setting_Some in Hs as (w & Hw & [= -> ->]).
    apply uapiValue_lacks_newline. eauto.
  - repeat split; cbn; eauto with caelo.
  - apply list.Forall_forall. intros [n v] Hs.
    pose proof (peer_settings_named c) as Hn. rewrite list.Forall_forall in Hn.
    destruct (Hp n) as (? & ? & _); [by apply (Hn (n, v))|]. repeat split; cbn; auto.
    unfold peer_settings in Hs. rewrite !elem_of_app in Hs.
    destruct Hs as [Hs|[Hs|[Hs|Hs]]].
    + case_bool_decide; [set_solver|]. apply list_elem_of_singleton in Hs. simplify_eq.
      destruct wf_preshared0; [done|]. auto with caelo.
    + case_bool_decide; [set_solver|]. apply list_elem_of_singleton in Hs. by simplify_eq.
    + apply list_elem_of_fmap in Hs as (w & [= -> ->] & Hw).
      rewrite list.Forall_forall in ol_allowed0. auto.
    + destruct (0 <? _)%Z; [|set_solver]. apply list_elem_of_singleton in Hs. simplify_eq.
      by apply Itoa_lacks.
Qed.

Lemma obfuscationKeys_rendered : obfuscationKeys = ipc_keys.
Proof. reflexivity. Qed.

Lemma interface_settings_spec c n v :
  wf_config c →
  (n, v) ∈ interface_settings c ↔
  ∃ k w, Obfuscation c !! k = Some w ∧ n = uapi_name k ∧ v = uapiValue k w.
Proof.
  intros Hc. unfold interface_settings. rewrite list_elem_of_omap. split.
  - intros (k & _ & (w & ? & [= -> ->])%interface_setting_Some). eauto.
  - intros (k & w & Hw & -> & ->). exists k. split.
    + rewrite <-obfuscationKeys_rendered. by eapply wf_known.
    + apply interface_setting_Some. eauto.
Qed.

Lemma filter_none {A} (P : A → Prop) `{!∀ x, Decision (P x)} (Q : A → Prop) l :
  (∀ x, Q x → ¬ P x) → Forall Q l → filter P l = [].
Proof.
  intros HQ. induction 1 as [|x l Hx _ IH]; [done|]. rewrite filter_cons_False; auto.
Qed.

Definition names_peer (s : string * string) : Prop := s.1 = "public_key".
#[export] Instance names_peer_dec s : Decision (names_peer s).
Proof. unfold names_peer. apply _. Defined.

(** Exactly one setting opens a peer section. *)
Lemma uapi_settings_one_peer c :
  filter names_peer (interface_settings c ++ ("public_key", PublicKey (peer c)) :: peer_settings c)
  = [("public_key", PublicKey (peer c))].
Proof.
  assert (∀ names l, Forall plain_name names → Forall (λ s : string * string, s.1 ∈ names) l →
    filter names_peer l = []) as Hnone.
  { intros names l Hn. apply filter_none. intros s Hs Heq.
    rewrite list.Forall_forall in Hn. by destruct (Hn s.1) as (_ & _ & []). }
  rewrite list.filter_app.
  rewrite filter_cons_True by done.
  rewrite (Hnone interface_names), (Hnone peer_names);
    auto using interface_names_plain, peer_names_plain, interface_settings_named,
      peer_settings_named.
Qed.

(** ** Properties *)

(** A small but complete file, with a parameter of every kind. *)
Definition sample_key (fill : Z) : string := b64_encode (repeat fill 32).
Definition sample_conf : string :=
  "[Interface]" +:+ nl +:+
  "PrivateKey = " +:+ sample_key 1 +:+ nl +:+
  "Address = 10.8.1.23/32, fd00::2" +:+ nl +:+
  "Jc = 6" +:+ nl +:+ "# a comment" +:+ nl +:+
  "HeaderProtectionKey = " +:+ sample_key 3 +:+ nl +:+
  "RandomTrailers = On" +:+ nl +:+
  "[Peer]" +:+ nl +:+
  "PublicKey = " +:+ sample_key 2 +:+ nl +:+
  "Endpoint = 203.0.113.10:51820" +:+ nl +:+
  "AllowedIPs = 0.0.0.0/0, ::/0" +:+ nl +:+
  "PersistentKeepalive = 25" +:+ nl.

Definition sample_config : Config := from_ok new_config (ParseConfig sample_conf).

(** Every configuration [ParseConfig] accepts is well formed: the private
    key, the public key and (when there is one) the preshared key are 64
    lower-case hexadecimal digits, there is an address, every obfuscation
    parameter is a known one and the header protection key is a hexadecimal
    key; and every value handed on to the device fits on one line. *)
Theorem ParseConfig_well_formed (text : string) (c : Config) :
  ParseConfig text = Ok c → wf_config c ∧ one_line c.
Proof. eauto using ParseConfig_wf_config, ParseConfig_one_line. Qed.

Lemma ParseConfig_well_formed_witness :
  ParseConfig sample_conf = Ok sample_config ∧ wf_config sample_config ∧ one_line sample_config.
Proof.
  assert (ParseConfig sample_conf = Ok sample_config) as H by (vm_compute; reflexivity).
  split; [exact H|]. exact (ParseConfig_well_formed _ _ H).
Defined.

Lemma device_names_spec k n : k ∈ ipc_keys → (k, n) ∈ device_names ↔ n = uapi_name k.
Proof.
  intros Hk. rewrite (proj1 device_names_keys), list_elem_of_fmap. split; [by intros (k' & [= -> ->] & _)|intros ->; eauto].
Qed.

Lemma device_names_known k n : (k, n) ∈ device_names → k ∈ ipc_keys.
Proof.
  rewrite <-obfuscationKeys_rendered, <-(proj2 device_names_keys). apply (list_elem_of_fmap_2 fst).
Qed.

(** The UAPI text of [c] reads back as its settings, in their sections: the
    private key, one setting per obfuscation parameter under the device's name
    and spelling and nothing else, the one [public_key] line there is, then only
    peer settings. *)
Definition reads_back (c : Config) : Prop :=
  ∃ before after,
    uapi_read (IPC c) = Some (("private_key", PrivateKey c) :: before ++
                              ("public_key", PublicKey (peer c)) :: after) ∧
    (∀ n v, (n, v) ∈ before ↔
       ∃ k w, Obfuscation c !! k = Some w ∧ (k, n) ∈ device_names ∧ device_value k w v) ∧
    NoDup before.*1 ∧
    dom (Obfuscation c) ⊆ list_to_set device_names.*1 ∧
    after = peer_settings c ∧
    Forall (λ s, s.1 ∈ peer_names) after ∧
    filter names_peer (before ++ ("public_key", PublicKey (peer c)) :: after) =
      [("public_key", PublicKey (peer c))].

Lemma IPC_reads_back c : wf_config c → one_line c → reads_back c.
Proof.
  intros Hwf Hol. exists (interface_settings c), (peer_settings c). split_and!; [|..|].
  - rewrite IPC_lines. apply (uapi_read_settings (uapi_settings c)). by apply uapi_settings_ok.
  - intros n v. rewrite interface_settings_spec by done. split.
    + intros (k & w & Hw & -> & ->). exists k, w. split; [done|]. split; [|by apply device_value_spec].
      apply device_names_spec; [|done]. rewrite <-obfuscationKeys_rendered. by eapply wf_known.
    + intros (k & w & Hw & Hn & ->%device_value_spec). exists k, w. split_and!; [done| |done].
      by apply device_names_spec in Hn; [|by eapply device_names_known].
  - apply interface_settings_once.
  - intros k [w Hw]%elem_of_dom. apply elem_of_list_to_set.
    rewrite (proj2 device_names_keys). by eapply wf_known.
  - done.
  - apply peer_settings_named.
  - apply uapi_settings_one_peer.
Qed.

(** C1: the UAPI text of an accepted [.conf] file reads back as exactly the
    settings of the configuration, in sections: the private key, then one
    setting per obfuscation parameter (each once, under the device's name and
    in the device's spelling, and nothing else), then the only [public_key]
    line there is, then only peer settings.  No value can add a line, open a
    second peer or move a setting into the other section. *)
Theorem ParseConfig_IPC_reads_back (text : string) (c : Config) :
  ParseConfig text = Ok c → reads_back c.
Proof. eauto using IPC_reads_back, ParseConfig_wf_config, ParseConfig_one_line. Qed.

Lemma ParseConfig_IPC_reads_back_witness :
  ∃ before after,
    uapi_read (IPC sample_config) =
      Some (("private_key", PrivateKey sample_config) :: before ++
            ("public_key", PublicKey (peer sample_config)) :: after).
Proof.
  destruct (ParseConfig_IPC_reads_back sample_conf sample_config) as (b & a & H & _).
  { vm_compute. reflexivity. }
  exists b, a. exact H.
Defined.

(** [keyToHex] is a faithful change of notation: the base64 text of any
    32 bytes becomes their hexadecimal text, whatever is accepted decodes to
    32 bytes, and two accepted texts that give the same hexadecimal key stand
    for the same bytes. *)
Theorem keyToHex_faithful :
  (∀ raw, Forall is_byte raw → length raw = 32 → keyToHex (b64_encode raw) = Ok (hex_encode raw))
  ∧ (∀ a b h, keyToHex a = Ok h → keyToHex b = Ok h →
       ∃ raw, b64_decode a = Some raw ∧ b64_decode b = Some raw ∧ length raw = 32).
Proof.
  split.
  - intros raw Hb Hlen. apply keyToHex_Ok. exists raw. by rewrite b64_decode_encode.
  - intros a b h (ra & Ha & Hla & ->)%keyToHex_Ok (rb & Hb & Hlb & Heq)%keyToHex_Ok.
    apply hex_encode_inj in Heq as <-; [|by eapply b64_decode_bytes..].
    eauto.
Qed.

Lemma keyToHex_faithful_witness :
  keyToHex (b64_encode (repeat 7%Z 32)) = Ok (hex_encode (repeat 7%Z 32)).
Proof.
  apply (proj1 keyToHex_faithful); [|reflexivity].
  cbn. repeat (constructor; [split; [discriminate|reflexivity]|]). constructor.
Defined.
