(* ===== verification/AwgEndpointFacts.v ===== *)
(** * Properties of subscription nodes

    The configuration an endpoint gives does not depend on Go's map order and
    is as well formed as one read from a [.conf] file; both forms of the same
    tunnel give the same configuration; which values reach the device unread. *)

From S2P Require Import Prelude GoStrings GoEncoding NetAddr GoJson Awg AwgFacts AwgEndpoint.
From Stdlib Require Import Ascii.
From stdpp Require Import options.

(** ** Map order *)

Lemma scalar_step_comm c x y :
  x.1 ≠ y.1 →
  (scalar_step c x ≫= λ c, scalar_step c y) = (scalar_step c y ≫= λ c, scalar_step c x).
Proof.
  destruct x as [k v], y as [k' v']; cbn [fst]. intros Hk. unfold scalar_step.
  destruct (bool_decide_reflect (v = "")) as [Hv|Hv], (bool_decide_reflect (v' = "")) as [Hv'|Hv'];
    cbn [mbind result_bind]; [done| | |].
  - by destruct (SetObfuscation k' v' c).
  - by destruct (SetObfuscation k v c).
  - unfold SetObfuscation.
    case_bool_decide as H1; case_bool_decide as H2; [congruence|..]; cbn [mbind result_bind];
      repeat match goal with |- context [wrap ?e ?r] => destruct (wrap e r) end;
      cbn [mbind result_bind]; try done; unfold set_Obfuscation; cbn; by rewrite insert_insert_ne.
Qed.

Lemma scalars_NoDup e : NoDup (fst <$> scalars e).
Proof. change (NoDup obfuscationKeys). apply (bool_decide_unpack _). reflexivity. Qed.

Lemma scalar_steps_order entries e c :
  entries ≡ₚ scalars e → foldM scalar_step entries c = foldM scalar_step (scalars e) c.
Proof.
  intros Hp. symmetry. apply (foldM_Permutation _ fst); [|apply scalars_NoDup|done].
  intros. by apply scalar_step_comm.
Qed.

Lemma Config_in_order_irrelevant entries e :
  entries ≡ₚ scalars e → Config_in_order entries e = Endpoint_Config e.
Proof.
  intros Hp. unfold Endpoint_Config, Config_in_order.
  destruct (_ && _); [done|]. destruct (e_Peers e) as [|p [|]]; [done| |done].
  apply bind_ext; intros k. case_bool_decide; [done|].
  apply bind_ext; intros addrs. case_bool_decide; [done|].
  apply bind_ext; intros dns. apply bind_ext; intros pub. apply bind_ext; intros psk.
  destruct (_ || _); [done|]. by apply scalar_steps_order.
Qed.

(** ** Well-formedness *)

(** What an accepted endpoint must have been. *)
Lemma Endpoint_Config_Ok e c :
  Endpoint_Config e = Ok c →
  ∃ p privateKey addrs dns publicKey presharedKey,
    (e_Type e = "" ∨ e_Type e = EndpointType) ∧ e_Peers e = [p] ∧
    keyToHex (e_PrivateKey e) = Ok privateKey ∧
    collect_addrs "address" (e_Address e) = Ok addrs ∧ addrs ≠ [] ∧
    collect_addrs "dns" (e_DNS e) = Ok dns ∧
    keyToHex (ep_PublicKey p) = Ok publicKey ∧
    (if bool_decide (ep_PreSharedKey p = "") then presharedKey = ""
     else keyToHex (ep_PreSharedKey p) = Ok presharedKey) ∧
    ep_Address p ≠ "" ∧ ep_Port p ≠ 0%Z ∧
    foldM scalar_step (scalars e)
      (mkConfig privateKey addrs (if (0 <? e_MTU e)%Z then e_MTU e else 1420%Z) dns ∅
         (mkPeer publicKey presharedKey (joinHostPort (ep_Address p) (ep_Port p))
            (if bool_decide (ep_AllowedIPs p = []) then ["0.0.0.0/0"] else ep_AllowedIPs p)
            (ep_PersistentKeepaliveInterval p))) = Ok c.
Proof.
  unfold Endpoint_Config, Config_in_order. intros H.
  destruct (_ && _) eqn:Hty; [done|]. destruct (e_Peers e) as [|p [|]] eqn:Hp; [done| |done].
  apply bind_Ok in H as (priv & Hpriv & H). case_bool_decide; [done|].
  apply bind_Ok in H as (addrs & Haddr & H). case_bool_decide; [done|].
  apply bind_Ok in H as (dns & Hdns & H). apply bind_Ok in H as (pub & Hpub & H).
  apply bind_Ok in H as (psk & Hpsk & H).
  destruct (_ || _) eqn:Hap; [done|].
  apply orb_false_iff in Hap as [Ha%bool_decide_eq_false Hport%Z.eqb_neq].
  exists p, priv, addrs, dns, pub, psk. apply wrap_Ok in Hpriv, Hpub.
  split_and!; try done.
  - apply andb_false_iff in Hty as [Hty|Hty]; apply negb_false_iff, bool_decide_eq_true in Hty; auto.
  - destruct (bool_decide (ep_PreSharedKey p = "")); [by injection Hpsk|by apply wrap_Ok in Hpsk].
  - by destruct (0 <? e_MTU e)%Z.
Qed.

Lemma scalar_step_frame c x c' :
  scalar_step c x = Ok c' → peer c' = peer c ∧ Addresses c' = Addresses c ∧ PrivateKey c' = PrivateKey c.
Proof.
  destruct x as [k v]. unfold scalar_step. case_bool_decide; [by intros [= <-]|].
  unfold SetObfuscation. case_bool_decide; intros Hs; inv_result; done.
Qed.

Lemma scalar_steps_frame l c c' :
  foldM scalar_step l c = Ok c' →
  peer c' = peer c ∧ Addresses c' = Addresses c ∧ PrivateKey c' = PrivateKey c.
Proof.
  intros H. eapply (foldM_invariant scalar_step
    (λ c', peer c' = peer c ∧ Addresses c' = Addresses c ∧ PrivateKey c' = PrivateKey c) (λ _, True));
    [|by apply Forall_true|done|exact H].
  intros s x s' (? & ? & ?) _ (? & ? & ?)%scalar_step_frame. split_and!; congruence.
Qed.

Lemma scalar_steps_wf l c c' :
  Forall (λ x, x.1 ∈ obfuscationKeys) l → wf_partial c → foldM scalar_step l c = Ok c' → wf_partial c'.
Proof.
  intros Hl Hc. eapply foldM_invariant; [|exact Hl|exact Hc].
  intros s [k v] s' Hs Hk H. cbn in *. case_bool_decide; [by inv_result|].
  by eapply SetObfuscation_wf.
Qed.

Lemma scalar_steps_one_line l c c' :
  Forall (λ x, lacks newline x.2) l → one_line c → foldM scalar_step l c = Ok c' → one_line c'.
Proof.
  intros Hl Hc. eapply foldM_invariant; [|exact Hl|exact Hc].
  intros s [k v] s' Hs Hk H. cbn in *. case_bool_decide; [by inv_result|].
  by eapply SetObfuscation_one_line.
Qed.

Lemma scalars_known e : Forall (λ x, x.1 ∈ obfuscationKeys) (scalars e).
Proof.
  apply list.Forall_forall. intros x Hx. change obfuscationKeys with (fst <$> scalars e).
  by apply list_elem_of_fmap_2.
Qed.

Lemma hex_key_not_empty s : hex_key s → s ≠ "".
Proof. by intros [H _] ->. Qed.

Lemma Endpoint_Config_wf e c : Endpoint_Config e = Ok c → wf_config c.
Proof.
  intros (p & priv & addrs & dns & pub & psk & _ & _ & Hpriv & _ & Hne & _ & Hpub & Hpsk & _ & _ & H)%Endpoint_Config_Ok.
  apply keyToHex_hex_key in Hpriv, Hpub.
  assert (psk = "" ∨ hex_key psk) as Hpsk'.
  { destruct (bool_decide (ep_PreSharedKey p = "")); [by left|]. right. by eapply keyToHex_hex_key. }
  assert (wf_partial c) as [].
  { eapply scalar_steps_wf; [apply scalars_known| |exact H].
    split; cbn; auto; intros *; by rewrite lookup_empty. }
  apply scalar_steps_frame in H as (Hp & Ha & Hk).
  split; rewrite ?Hp, ?Ha, ?Hk; cbn; auto.
Qed.

Lemma Parse_wf text c : AwgEndpoint.Parse text = Ok c → wf_config c.
Proof.
  unfold Parse. destruct (LooksLikeJSON text); [|apply ParseConfig_wf_config].
  unfold ParseEndpoint. intros (e & _ & H)%bind_Ok. by eapply Endpoint_Config_wf.
Qed.

(** The texts of the document that reach the device as they are. *)
Record plain_node (e : EndpointNode) : Prop := {
  pn_scalars : Forall (λ x, lacks newline x.2) (scalars e);
  pn_peers : ∀ p, p ∈ e_Peers e →
    lacks newline (ep_Address p) ∧ Forall (λ s, lacks newline s) (ep_AllowedIPs p);
}.

Lemma joinHostPort_lacks h port : lacks newline h → lacks newline (joinHostPort h port).
Proof.
  intros H. unfold joinHostPort. pose proof (Itoa_lacks newline port eq_refl ltac:(done)) as Hi.
  destruct (_ && _); rewrite !sall_app, H, Hi; done.
Qed.

Lemma Endpoint_Config_one_line e c : plain_node e → Endpoint_Config e = Ok c → one_line c.
Proof.
  intros [Hs Hn]
    (p & priv & addrs & dns & pub & psk & _ & Hp & _ & _ & _ & _ & _ & _ & _ & _ & H)%Endpoint_Config_Ok.
  destruct (Hn p) as [Ha Hall]; [rewrite Hp; by apply list_elem_of_singleton|].
  eapply scalar_steps_one_line; [exact Hs| |exact H]. split; cbn.
  - intros k v. by rewrite lookup_empty.
  - by apply joinHostPort_lacks.
  - case_bool_decide; [|done]. by constructor.
Qed.

(** ** Properties *)

(** Go ranges over the scalars of an endpoint in any order it likes; every
    order gives the same configuration, or the same error. *)
Theorem Config_map_order_irrelevant entries e :
  entries ≡ₚ scalars e → Config_in_order entries e = Endpoint_Config e.
Proof. apply Config_in_order_irrelevant. Qed.

(** A node as a subscription document gives it. *)
Definition sample_node : EndpointNode :=
  mkEndpoint "amneziawg" "node" ["10.8.1.23/32"; "fd00::2"] (sample_key 1) 1280 ["1.1.1.1"]
    [mkEndpointPeer "203.0.113.10" 51820 (sample_key 2) "" ["0.0.0.0/0"; "::/0"] 25]
    "6" "" "" "" "" "" "" "" "" "" "" "" "" "" "" "" (sample_key 3) "" "" "" "" "" "" "On" "".

Lemma Config_map_order_irrelevant_witness :
  Config_in_order (rev (scalars sample_node)) sample_node = Endpoint_Config sample_node.
Proof. apply Config_map_order_irrelevant. symmetry. apply Permutation_rev. Defined.

(** C31: whatever the text is, a subscription document or a [.conf] file, a
    configuration [Parse] accepts is well formed. *)
Theorem Parse_well_formed text c : Parse text = Ok c → wf_config c.
Proof. apply Parse_wf. Qed.

Definition q (s : string) : string := String "034" s +:+ String "034" "".

(** A document, with [i1] given. *)
Definition document (i1 : string) : string :=
  "{" +:+ q "type" +:+ ":" +:+ q "amneziawg" +:+ "," +:+ q "address" +:+ ":[" +:+ q "10.8.1.23/32" +:+ "],"
  +:+ q "private_key" +:+ ":" +:+ q (sample_key 1) +:+ "," +:+ q "jc" +:+ ":6," +:+ q "i1" +:+ ":" +:+ i1
  +:+ "," +:+ q "peers" +:+ ":[{" +:+ q "address" +:+ ":" +:+ q "203.0.113.10" +:+ "," +:+ q "port" +:+ ":51820,"
  +:+ q "public_key" +:+ ":" +:+ q (sample_key 2) +:+ "}]}".
Definition document_config (i1 : string) : Config := from_ok new_config (Parse (document i1)).

Lemma Parse_well_formed_witness : wf_config (document_config (q "<b 0x01>")).
Proof. apply (Parse_well_formed (document (q "<b 0x01>"))). vm_compute. reflexivity. Defined.

(** C32: an accepted node whose scalars, peer address and allowed addresses are
    single lines has a UAPI text that reads back as exactly its settings, as
    that of a [.conf] file does; the proviso is needed, for JSON strings can
    carry a newline: a document with one in [i1] is accepted, and its UAPI text
    has a second [public_key] line, so a peer the document does not list. *)
Theorem Endpoint_IPC_reads_back :
  (∀ e c, plain_node e → Endpoint_Config e = Ok c → reads_back c) ∧
  (∃ i1 c settings, Parse (document i1) = Ok c ∧ uapi_read (IPC c) = Some settings ∧
     length (filter names_peer settings) = 2).
Proof.
  split.
  - intros e c He Hc. apply IPC_reads_back; eauto using Endpoint_Config_wf, Endpoint_Config_one_line.
  - set (i1 := q ("x" +:+ String "092" "npublic_key=00")). exists i1, (document_config i1).
    eexists. split; [vm_compute; reflexivity|]. split; vm_compute; reflexivity.
Qed.

Lemma Endpoint_IPC_reads_back_witness : reads_back (from_ok new_config (Endpoint_Config sample_node)).
Proof.
  apply (proj1 Endpoint_IPC_reads_back sample_node).
  - split; [repeat (constructor; [reflexivity|]); constructor|].
    intros p ->%list_elem_of_singleton. by repeat constructor.
  - vm_compute. reflexivity.
Defined.
