(* ===== verification/AwgConfForm.v ===== *)
(** * The two forms of a tunnel

    A subscription node written out as a [.conf] file: reading the file gives
    the configuration the node gives. *)

From S2P Require Import Prelude GoStrings GoEncoding NetAddr Awg AwgFacts AwgEndpoint AwgEndpointFacts.
From Stdlib Require Import Ascii.
From stdpp Require Import options.

(** ** Reading lines one after the other *)

(** From [st], whatever their numbers, the lines lead to [st']. *)
Definition reads (ls : list string) (st st' : string * Config) : Prop :=
  ∀ n, foldM config_line (imap (λ i l, ((n + i)%nat, l)) ls) st = Ok st'.

Lemma reads_nil st : reads [] st st.
Proof. by intros n. Qed.

Lemma imap_shift {A} (ls : list A) n :
  imap (λ i l, ((n + S i)%nat, l)) ls = imap (λ i l, ((S n + i)%nat, l)) ls.
Proof. apply imap_ext. intros i x _. f_equal. lia. Qed.

Lemma reads_cons l ls st st1 st2 :
  (∀ n, config_line st (n, l) = Ok st1) → reads ls st1 st2 → reads (l :: ls) st st2.
Proof.
  intros H1 H2 n. cbn [imap foldM]. rewrite H1. cbn [mbind result_bind].
  rewrite <- (H2 (S n)). f_equal. apply imap_shift.
Qed.

Lemma reads_app ls1 ls2 st st1 st2 :
  reads ls1 st st1 → reads ls2 st1 st2 → reads (ls1 ++ ls2) st st2.
Proof.
  intros H1 H2 n. rewrite imap_app, foldM_app, H1. cbn [mbind result_bind].
  rewrite <- (H2 (n + length ls1)%nat). f_equal. apply imap_ext. intros i x _. f_equal. lia.
Qed.

Lemma reads_one l st st' : (∀ n, config_line st (n, l) = Ok st') → reads [l] st st'.
Proof. intros H. eapply reads_cons; [exact H|apply reads_nil]. Qed.

(** ** Key lines *)

Definition key_line (name value : string) : string := name +:+ " = " +:+ value.

(** A name that is read back as [key]. *)
Definition names_key (name key : string) : Prop :=
  starts_visible name = true ∧ lacks "=" name ∧
  (match name with String c _ => c ≠ "#" ∧ c ≠ ";" ∧ c ≠ "[" | _ => True end)%char ∧
  TrimSpace (name +:+ " ") = name ∧ ToLower name = key.

Lemma HasPrefix_byte a r b : b ≠ a → HasPrefix (String a r) (String b "") = false.
Proof.
  intros H. unfold HasPrefix. cbn. rewrite (proj2 (ascii_eqb_false b a)) by done.
  by apply bool_decide_eq_false_2; intros [? [=]].
Qed.

Lemma config_line_key section c n name key value :
  names_key name key → ends_visible value = true →
  config_line (section, c) (n, key_line name value) =
    (c' ← wrap [Lit "line "; Num (Z.of_nat n + 1); Lit ": "] (set_in_section section key value c);
     Ok (section, c')).
Proof.
  intros (Hs & He & Hc & Ht & Hk) Hv. unfold config_line.
  rewrite (TrimSpace_visible (key_line name value)) by by apply ends_visible_app.
  destruct name as [|a name]; [done|]. destruct Hc as (H1 & H2 & H3).
  change (key_line (String a name) value) with (String a (name +:+ " = " +:+ value)).
  rewrite !HasPrefix_byte by done. rewrite bool_decide_false by done. cbn [orb andb].
  change (String a (name +:+ " = " +:+ value)) with (String a name +:+ " = " +:+ value).
  replace (String a name +:+ " = " +:+ value)
    with ((String a name +:+ " ") +:+ String "=" (" " +:+ value)) by by rewrite sapp_assoc.
  rewrite Cut_app by by rewrite sall_app, He.
  rewrite Ht, Hk. change (" " +:+ value) with (String " " value).
  by rewrite TrimSpace_space, TrimSpace_visible.
Qed.

Lemma reads_key section c c' name key value :
  names_key name key → ends_visible value = true →
  set_in_section section key value c = Ok c' →
  reads [key_line name value] (section, c) (section, c').
Proof.
  intros Hn Hv H. apply reads_one. intros n. rewrite (config_line_key _ _ _ _ key) by done.
  by rewrite H.
Qed.

Ltac names := unfold names_key; repeat split; first [reflexivity | discriminate].

(** ** A node as a file *)

Definition scalar_line (entry : string * string) : option string :=
  if bool_decide (entry.2 = "") then None else Some (key_line entry.1 entry.2).

Definition node_allowed (p : EndpointPeer) : list string :=
  if bool_decide (ep_AllowedIPs p = []) then ["0.0.0.0/0"] else ep_AllowedIPs p.

Lemma node_allowed_Forall (P : string → Prop) p :
  P "0.0.0.0/0" → Forall P (ep_AllowedIPs p) → Forall P (node_allowed p).
Proof. intros. unfold node_allowed. case_bool_decide; auto. Qed.

Definition interface_lines (e : EndpointNode) : list string :=
  ["[Interface]"; key_line "PrivateKey" (e_PrivateKey e)] ++
  map (key_line "Address") (e_Address e) ++
  (if (0 <? e_MTU e)%Z then [key_line "MTU" (Itoa (e_MTU e))] else []) ++
  map (key_line "DNS") (e_DNS e) ++ omap scalar_line (scalars e).

Definition peer_lines (p : EndpointPeer) : list string :=
  ["[Peer]"; key_line "PublicKey" (ep_PublicKey p)] ++
  (if bool_decide (ep_PreSharedKey p = "") then []
   else [key_line "PresharedKey" (ep_PreSharedKey p)]) ++
  [key_line "Endpoint" (joinHostPort (ep_Address p) (ep_Port p))] ++
  map (key_line "AllowedIPs") (node_allowed p) ++
  [key_line "PersistentKeepalive" (Itoa (ep_PersistentKeepaliveInterval p))].

Definition conf_text (e : EndpointNode) (p : EndpointPeer) : string :=
  sconcat (map (λ l, l +:+ String newline "") (interface_lines e ++ peer_lines p)).

(** A value a file can carry: one line, nothing to trim. *)
Definition text_ok (s : string) : Prop := ends_visible s = true ∧ lacks newline s.

Record file_node (e : EndpointNode) (p : EndpointPeer) : Prop := {
  fn_peer : e_Peers e = [p];
  fn_keys : text_ok (e_PrivateKey e) ∧ text_ok (ep_PublicKey p);
  fn_psk : ep_PreSharedKey p ≠ "" → text_ok (ep_PreSharedKey p);
  fn_host : text_ok (ep_Address p);
  fn_addresses : Forall text_ok (e_Address e);
  fn_dns : Forall text_ok (e_DNS e);
  fn_scalars : Forall (λ x, x.2 ≠ "" → text_ok x.2) (scalars e);
  fn_allowed : Forall (λ s, text_ok s ∧ lacks "," s) (ep_AllowedIPs p);
  fn_mtu : in_int64 (e_MTU e) = true;
  fn_keepalive : in_int64 (ep_PersistentKeepaliveInterval p) = true;
}.

(** ** Its lines, read *)

Lemma reads_addresses texts c addrs :
  Forall text_ok texts →
  foldM (λ addrs text, more ← wrap [Lit "address"; Lit ": "] (parseAddrList text); Ok (addrs ++ more))
    texts (Addresses c) = Ok addrs →
  reads (map (key_line "Address") texts) ("interface", c) ("interface", set_Addresses addrs c).
Proof.
  intros Hok. revert c. induction Hok as [|t texts [Ht _] _ IH]; intros c; cbn [map foldM].
  { intros [= <-]. destruct c. apply reads_nil. }
  intros (acc & H1 & H2)%bind_Ok. apply bind_Ok in H1 as (more & Hm & [= <-]).
  apply wrap_Ok in Hm.
  apply (reads_app [_] _ _ ("interface", set_Addresses (Addresses c ++ more) c)).
  - apply (reads_key _ _ _ _ "address"); [names|done|].
    change (set_in_section _ _ _ _) with
      (addrs ← wrap [Lit "Address: "] (parseAddrList t); Ok (set_Addresses (Addresses c ++ addrs) c)).
    by rewrite Hm.
  - by apply (IH (set_Addresses (Addresses c ++ more) c)).
Qed.

Lemma reads_dns texts c addrs :
  Forall text_ok texts →
  foldM (λ addrs text, more ← wrap [Lit "dns"; Lit ": "] (parseAddrList text); Ok (addrs ++ more))
    texts (DNS c) = Ok addrs →
  reads (map (key_line "DNS") texts) ("interface", c) ("interface", set_DNS addrs c).
Proof.
  intros Hok. revert c. induction Hok as [|t texts [Ht _] _ IH]; intros c; cbn [map foldM].
  { intros [= <-]. destruct c. apply reads_nil. }
  intros (acc & H1 & H2)%bind_Ok. apply bind_Ok in H1 as (more & Hm & [= <-]).
  apply wrap_Ok in Hm.
  apply (reads_app [_] _ _ ("interface", set_DNS (DNS c ++ more) c)).
  - apply (reads_key _ _ _ _ "dns"); [names|done|].
    change (set_in_section _ _ _ _) with
      (addrs ← wrap [Lit "DNS: "] (parseAddrList t); Ok (set_DNS (DNS c ++ addrs) c)).
    by rewrite Hm.
  - by apply (IH (set_DNS (DNS c ++ more) c)).
Qed.

Lemma known_key_names k : k ∈ obfuscationKeys → names_key k k.
Proof.
  assert (Forall (λ k, names_key k k) obfuscationKeys) as H by
    (unfold obfuscationKeys; repeat (constructor; [names|]); constructor).
  rewrite list.Forall_forall in H. auto.
Qed.

Lemma reads_scalars l c c' :
  Forall (λ x, x.1 ∈ obfuscationKeys) l → Forall (λ x, x.2 ≠ "" → text_ok x.2) l →
  foldM scalar_step l c = Ok c' →
  reads (omap scalar_line l) ("interface", c) ("interface", c').
Proof.
  intros Hk Hok. revert c. induction l as [|[k v] l IH]; intros c; cbn [omap list_omap foldM].
  { intros [= <-]. apply reads_nil. }
  inversion_clear Hk as [|?? Hk1 Hk2]. inversion_clear Hok as [|?? Hv1 Hv2]. cbn [fst snd] in *.
  intros (c1 & H1 & H2)%bind_Ok. unfold scalar_step in H1. unfold scalar_line at 1. cbn [fst snd].
  case_bool_decide as Hv; [injection H1 as <-; by apply IH|].
  apply (reads_app [_] _ _ ("interface", c1)); [|by apply IH].
  apply (reads_key _ _ _ _ k); [by apply known_key_names|by apply Hv1|].
  unfold set_in_section, setInterface. rewrite bool_decide_true by done.
  by rewrite (bool_decide_true (k ∈ _)).
Qed.

Lemma reads_allowed texts c :
  Forall (λ s, text_ok s ∧ lacks "," s) texts →
  reads (map (key_line "AllowedIPs") texts) ("peer", c)
    ("peer", set_peer (set_AllowedIPs (AllowedIPs (peer c) ++ texts) (peer c)) c).
Proof.
  intros Hok. revert c. induction Hok as [|t texts [[Ht _] Hc] _ IH]; intros c; cbn [map].
  { rewrite app_nil_r. destruct c as [????? []]. apply reads_nil. }
  assert (allowed_parts t = [t]) as Hp.
  { unfold allowed_parts. rewrite Split_lacks_id by done. cbn [map].
    rewrite TrimSpace_visible by done. rewrite filter_cons_True; [done|]. by intros ->. }
  apply (reads_app [_] _ _ ("peer", set_peer (set_AllowedIPs (AllowedIPs (peer c) ++ [t]) (peer c)) c)).
  - apply (reads_key _ _ _ _ "allowedips"); [names|done|].
    change (set_in_section _ _ _ _) with
      (Ok (set_peer (set_AllowedIPs (AllowedIPs (peer c) ++ allowed_parts t) (peer c)) c)).
    by rewrite Hp.
  - specialize (IH (set_peer (set_AllowedIPs (AllowedIPs (peer c) ++ [t]) (peer c)) c)).
    cbn in IH |- *. by rewrite <- app_assoc in IH.
Qed.

Lemma reads_header section c :
  reads ["[Interface]"] (section, c) ("interface", c) ∧ reads ["[Peer]"] (section, c) ("peer", c).
Proof. split; apply reads_one; reflexivity. Qed.

Lemma reads_private text c hexKey :
  text_ok text → keyToHex text = Ok hexKey →
  reads [key_line "PrivateKey" text] ("interface", c) ("interface", set_PrivateKey hexKey c).
Proof.
  intros [Ht _] H. apply (reads_key _ _ _ _ "privatekey"); [names|done|].
  change (set_in_section _ _ _ _) with
    (hexKey ← wrap [Lit "PrivateKey: "] (keyToHex text); Ok (set_PrivateKey hexKey c)).
  by rewrite H.
Qed.

Lemma reads_mtu mtu c :
  in_int64 mtu = true →
  reads (if (0 <? mtu)%Z then [key_line "MTU" (Itoa mtu)] else []) ("interface", c)
    ("interface", set_MTU (if (0 <? mtu)%Z then mtu else MTU c) c).
Proof.
  intros H. destruct (0 <? mtu)%Z; [|destruct c; apply reads_nil].
  apply (reads_key _ _ _ _ "mtu"); [names|apply Itoa_visible|].
  change (set_in_section _ _ _ _) with (m ← atoi_field "MTU" (Itoa mtu); Ok (set_MTU m c)).
  unfold atoi_field. by rewrite Atoi_Itoa.
Qed.

(** The keys of the peer section that are written once. *)
Lemma reads_peer_key name key value c p' c' :
  names_key name key → ends_visible value = true → peer_set key value (peer c) = Ok p' →
  c' = set_peer p' c → reads [key_line name value] ("peer", c) ("peer", c').
Proof.
  intros Hn Hv H ->. apply (reads_key _ _ _ _ key); [done|done|].
  unfold set_in_section. rewrite bool_decide_false, bool_decide_true by done. by rewrite H.
Qed.

Lemma reads_interface e p c0 (fn : file_node e p) privateKey addrs dns c section :
  keyToHex (e_PrivateKey e) = Ok privateKey →
  collect_addrs "address" (e_Address e) = Ok addrs → collect_addrs "dns" (e_DNS e) = Ok dns →
  c0 = mkConfig privateKey addrs (if (0 <? e_MTU e)%Z then e_MTU e else 1420%Z) dns ∅ zero_peer →
  foldM scalar_step (scalars e) c0 = Ok c →
  reads (interface_lines e) (section, new_config) ("interface", c).
Proof.
  intros Hpriv Haddr Hdns Hc0 H. unfold interface_lines.
  apply (reads_app [_] _ _ _ _ (proj1 (reads_header section new_config))).
  eapply (reads_app [_]); [apply reads_private; [apply fn|exact Hpriv]|].
  eapply reads_app; [apply reads_addresses; [apply fn|exact Haddr]|].
  eapply reads_app; [apply reads_mtu; apply fn|].
  eapply reads_app; [apply reads_dns; [apply fn|exact Hdns]|].
  apply reads_scalars; [apply scalars_known|apply fn|]. rewrite <- H, Hc0. f_equal.
Qed.

Lemma reads_peer e p c (fn : file_node e p) publicKey presharedKey section :
  peer c = zero_peer →
  keyToHex (ep_PublicKey p) = Ok publicKey →
  (if bool_decide (ep_PreSharedKey p = "") then presharedKey = ""
   else keyToHex (ep_PreSharedKey p) = Ok presharedKey) →
  reads (peer_lines p) (section, c)
    ("peer", set_peer (mkPeer publicKey presharedKey (joinHostPort (ep_Address p) (ep_Port p))
       (node_allowed p) (ep_PersistentKeepaliveInterval p)) c).
Proof.
  intros Hz Hpub Hpsk. unfold peer_lines.
  apply (reads_app [_] _ _ _ _ (proj2 (reads_header section c))).
  eapply (reads_app [_]).
  { eapply (reads_peer_key _ "publickey"); [names|apply fn| |reflexivity].
    change (peer_set _ _ _) with
      (k ← wrap [Lit "PublicKey: "] (keyToHex (ep_PublicKey p)); Ok (set_PublicKey k (peer c))).
    by rewrite Hpub. }
  eapply (reads_app _ _ _ ("peer", set_peer (set_PresharedKey presharedKey (set_PublicKey publicKey zero_peer)) c)).
  { rewrite Hz. destruct (bool_decide_reflect (ep_PreSharedKey p = "")) as [He|He].
    { rewrite Hpsk. apply reads_nil. }
    eapply (reads_peer_key _ "presharedkey"); [names|by apply fn| |reflexivity].
    change (peer_set _ _ _) with (k ← wrap [Lit "PresharedKey: "] (keyToHex (ep_PreSharedKey p));
      Ok (set_PresharedKey k (set_PublicKey publicKey zero_peer))).
    by rewrite Hpsk. }
  eapply (reads_app [_]).
  { eapply (reads_peer_key _ "endpoint"); [names| |reflexivity..].
    unfold joinHostPort. destruct (fn_host e p fn) as [[Hh _]%andb_true_iff _].
    destruct (_ && _).
    - rewrite <- (sapp_assoc (ep_Address p)). by apply (ends_visible_app "["), Itoa_visible.
    - by apply (ends_visible_app (ep_Address p) ":"), Itoa_visible. }
  eapply reads_app.
  { apply reads_allowed, node_allowed_Forall; [by repeat split|apply fn]. }
  eapply (reads_peer_key _ "persistentkeepalive"); [names|apply Itoa_visible| |].
  - match goal with |- peer_set _ _ ?q = _ => change (peer_set _ _ q) with
      (s ← atoi_field "PersistentKeepalive" (Itoa (ep_PersistentKeepaliveInterval p));
       Ok (set_Keepalive s q)) end.
    unfold atoi_field. by rewrite Atoi_Itoa by apply fn.
  - reflexivity.
Qed.

(** Setting the peer and setting the obfuscation parameters commute. *)
Lemma scalar_steps_set_peer P l c c' :
  foldM scalar_step l (set_peer P c) = Ok c' →
  ∃ c0, foldM scalar_step l c = Ok c0 ∧ c' = set_peer P c0 ∧ peer c0 = peer c.
Proof.
  revert c. induction l as [|[k v] l IH]; intros c; cbn [foldM].
  { intros [= <-]. eauto. }
  assert (scalar_step (set_peer P c) (k, v) = set_peer P <$> scalar_step c (k, v)) as ->.
  { unfold scalar_step. case_bool_decide; [done|]. unfold SetObfuscation.
    case_bool_decide; [|done]. by destruct (wrap _ (keyToHex v)). }
  destruct (scalar_step c (k, v)) as [c1|] eqn:H1; cbn [fmap result_fmap mbind result_bind]; [|done].
  intros (c0 & H0 & Hc0 & Hp)%IH. exists c0. split_and!; [done..|].
  apply scalar_step_frame in H1 as (? & _). congruence.
Qed.

Lemma lines_of_node e p (fn : file_node e p) :
  Forall (λ l, lacks newline l) (interface_lines e ++ peer_lines p).
Proof.
  assert (∀ name v, lacks newline name → lacks newline v → lacks newline (key_line name v)) as Hk.
  { intros name v Hn Hv. unfold key_line. by rewrite !sall_app, Hn, Hv. }
  assert (∀ z, lacks newline (Itoa z)) as Hi by by intros z; apply Itoa_lacks.
  assert (∀ name l, lacks newline name → Forall text_ok l →
    Forall (λ l, lacks newline l) (map (key_line name) l)) as Hmap.
  { intros name l Hn Hl. apply Forall_map. eapply list.Forall_impl; [exact Hl|].
    intros v [_ Hv]. by apply Hk. }
  destruct (fn_keys e p fn) as [[_ H1] [_ H2]]. destruct (fn_host e p fn) as [_ H3].
  unfold interface_lines, peer_lines. rewrite !list.Forall_app, !list.Forall_cons. split_and!; auto; try done.
  - apply Hmap; [done|apply fn].
  - destruct (_ <? _)%Z; repeat constructor; by apply Hk.
  - apply Hmap; [done|apply fn].
  - apply list.Forall_forall. intros l ([k v] & Hin & Hl)%list_elem_of_omap.
    unfold scalar_line in Hl. cbn [fst snd] in Hl. case_bool_decide as Hv; [done|]. injection Hl as <-.
    pose proof (fn_scalars e p fn) as Hs. rewrite list.Forall_forall in Hs.
    apply Hk; [|by apply (Hs _ Hin)].
    pose proof (scalars_known e) as Hkn. rewrite list.Forall_forall in Hkn.
    specialize (Hkn _ Hin). cbn in Hkn.
    assert (Forall (λ k, lacks newline k) obfuscationKeys) as Ho by (repeat constructor).
    rewrite list.Forall_forall in Ho. by apply Ho.
  - case_bool_decide as Hp; [constructor|]. repeat constructor. apply Hk; [done|by apply fn].
  - repeat constructor. apply Hk; [done|by apply joinHostPort_lacks].
  - apply Hmap; [done|]. apply node_allowed_Forall; [by repeat split|].
    eapply list.Forall_impl; [apply fn|]. by intros v [? _].
Qed.

Lemma reads_blank st : reads [""] st st.
Proof. apply reads_one. intros n. by destruct st. Qed.

(** A file whose lines lead to a complete configuration. *)
Lemma ParseConfig_reads ls section c :
  Forall (λ l, lacks newline l) ls → reads ls ("", new_config) (section, c) →
  PrivateKey c ≠ "" → PublicKey (peer c) ≠ "" → Addresses c ≠ [] →
  ParseConfig (sconcat (map (λ l, l +:+ String newline "") ls)) = Ok c.
Proof.
  intros Hl Hr H1 H2 H3. unfold ParseConfig. rewrite Split_lines by done.
  pose proof (reads_app _ _ _ _ _ Hr (reads_blank _) 0) as H.
  match goal with |- context [number_lines ?ls] =>
    change (number_lines ls) with (imap (λ i l, ((0 + i)%nat, l)) ls) end.
  rewrite H. cbn [mbind result_bind]. by rewrite !bool_decide_false by done.
Qed.

(** C15: The two forms of a tunnel agree: write an accepted node out as a [.conf]
    file (any values a file can carry: single lines with nothing to trim, no
    comma in an allowed address) and [ParseConfig] reads the same
    configuration from it as [Endpoint.Config] makes of the node. *)
Theorem conf_form_agrees e p c :
  file_node e p → Endpoint_Config e = Ok c → ParseConfig (conf_text e p) = Ok c.
Proof.
  intros fn H. pose proof (Endpoint_Config_wf e c H) as Hwf.
  apply Endpoint_Config_Ok in H as (p' & priv & addrs & dns & pub & psk & _ & Hp & Hpriv & Haddr
    & _ & Hdns & Hpub & Hpsk & _ & _ & H).
  rewrite (fn_peer e p fn) in Hp. injection Hp as <-.
  set (P := mkPeer pub psk (joinHostPort (ep_Address p) (ep_Port p)) (node_allowed p)
              (ep_PersistentKeepaliveInterval p)) in *.
  destruct (scalar_steps_set_peer P (scalars e)
    (mkConfig priv addrs (if (0 <? e_MTU e)%Z then e_MTU e else 1420%Z) dns ∅ zero_peer) c H)
    as (c0 & H0 & -> & Hz).
  destruct Hwf. apply (ParseConfig_reads _ "peer"); [by apply lines_of_node| |eauto using hex_key_not_empty..].
  eapply reads_app; [by eapply reads_interface|by eapply reads_peer].
Qed.

Lemma conf_form_agrees_witness :
  ParseConfig (conf_text sample_node (hd zero_endpoint_peer (e_Peers sample_node))) =
    Ok (from_ok new_config (Endpoint_Config sample_node)).
Proof.
  apply conf_form_agrees; [|vm_compute; reflexivity].
  split; try (split; reflexivity); try reflexivity.
  all: repeat first [apply Forall_nil_2 | apply Forall_cons_2 | split]; try reflexivity.
  all: match goal with H : _ ≠ "" |- _ => by destruct H end.
Defined.
