(* ===== verification/Rtt.v ===== *)
(** * The live round-trip meter: core/internal/rtt/rtt.go

    [parseTCP] reads the headers of a packet, [Meter] remembers SYNs and turns
    their answers into samples, [Device] shows a meter what crosses a tun
    device.  Times and durations are nanoseconds; the clock's reading is an
    argument of each operation, which is one critical section of the meter's
    mutex.  [None] stands for a run-time panic. *)

From S2P Require Import Prelude NetAddr.
From stdpp Require Import options.
Local Open Scope Z_scope.

Definition Window : Z := 10 * 1000000000.
Definition pendingFor : Z := 5 * 1000000000.
Definition maxPending : nat := 512.
Definition maxSamples : nat := 256.

(** ** Data *)

Record flow := mkFlow {
  local : Addr; remote : Addr; localPort : Z; remotePort : Z }.

#[export] Instance flow_eq_dec : EqDecision flow.
Proof. solve_decision. Defined.
#[export] Instance flow_countable : Countable flow.
Proof.
  refine (inj_countable'
    (λ f, (local f, remote f, localPort f, remotePort f))
    (λ '(l, r, lp, rp), mkFlow l r lp rp) _).
  by intros [].
Defined.

Record syn := mkSyn { syn_at : Z; syn_seq : Z; again : bool }.
Record sample := mkSample { sample_at : Z; rtt : Z }.

Record Meter := mkMeter {
  pending : gmap flow syn;
  samples : list sample;
  last : Z;
  seen : bool;
}.

Definition New : Meter := mkMeter ∅ [] 0 false.

(** ** Reading packets *)

Definition flagSYN : Z := 2.
Definition flagACK : Z := 16.

(** [binary.BigEndian.Uint16] and [Uint32] of the bytes at [i]. *)
Definition u16 (p : list Z) (i : Z) : option Z := be_combine <$> slice p i (i + 2).
Definition u32 (p : list Z) (i : Z) : option Z := be_combine <$> slice p i (i + 4).

Record tcp := mkTcp { tcp_flow : flow; tcp_flags : Z; tcp_seq : Z; tcp_ack : Z }.

(** The IPv4 branch: the two addresses and the TCP segment. *)
Definition parse_v4 (p : list Z) (b0 : Z) : option (option (Addr * Addr * list Z)) :=
  if len p <? 20 then Some None
  else
    let ihl := Z.land b0 15 * 4 in
    total ← u16 p 2; proto ← index p 9; frag ← u16 p 6;
    if (ihl <? 20) || (len p <? ihl) || negb (proto =? 6) || negb (Z.land frag 8191 =? 0)
    then Some None
    else
      let total := if (len p <? total) || (total <? ihl) then len p else total in
      src ← slice p 12 16; dst ← slice p 16 20; segment ← slice p ihl total;
      Some (Some (AddrFrom4 src, AddrFrom4 dst, segment)).

Definition parse_v6 (p : list Z) : option (option (Addr * Addr * list Z)) :=
  if len p <? 40 then Some None
  else
    next ← index p 6;
    if negb (next =? 6) then Some None
    else
      src ← slice p 8 24; dst ← slice p 24 40; segment ← slice p 40 (len p);
      Some (Some (AddrFrom16 src, AddrFrom16 dst, segment)).

(** The outer option is a panic, the inner one the result [ok]. *)
Definition parseTCP (p : list Z) : option (option tcp) :=
  if len p <? 1 then Some None
  else
    b0 ← index p 0;
    ip ← (if Z.shiftr b0 4 =? 4 then parse_v4 p b0
          else if Z.shiftr b0 4 =? 6 then parse_v6 p
          else Some None);
    match ip with
    | None => Some None
    | Some (src, dst, segment) =>
        if len segment <? 20 then Some None
        else
          sport ← u16 segment 0; dport ← u16 segment 2;
          seq ← u32 segment 4; ack ← u32 segment 8; flags ← index segment 13;
          Some (Some (mkTcp (mkFlow src dst sport dport) flags seq ack))
    end.

(** ** The meter *)

(** The least round trip of a non-empty list; [d] for the empty one. *)
Definition least (d : Z) (l : list sample) : Z :=
  match l with
  | [] => d
  | s :: l => fold_left (λ m s, Z.min m (rtt s)) l (rtt s)
  end.

Definition expireLocked (now : Z) (m : Meter) : Meter :=
  let keep := filter (λ s, now - sample_at s <= Window) (samples m) in
  mkMeter (filter (λ fs, ¬ pendingFor < now - syn_at fs.2) (pending m)) keep
    (if bool_decide (keep = []) && negb (bool_decide (samples m = []))
     then least 0 (samples m) else last m)
    (seen m).

Definition Latency (now : Z) (m : Meter) : (Z * bool) * Meter :=
  if negb (seen m) then ((0, false), m)
  else
    let m := expireLocked now m in
    match samples m with
    | [] => ((last m, true), m)
    | l => let v := least 0 l in ((v, true), mkMeter (pending m) l v (seen m))
    end.

Definition Forget (m : Meter) : Meter := mkMeter (pending m) [] 0 false.

(** [Duration.Milliseconds]. *)
Definition in_ms (d : Z) : Z := d ÷ 1000000.

(** [Milliseconds], on a meter that may be nil. *)
Definition Milliseconds (now : Z) (m : option Meter) : Z * option Meter :=
  match m with
  | None => (0, None)
  | Some m =>
      let '((latency, ok), m) := Latency now m in
      (if ok then Z.max (in_ms latency) 1 else 0, Some m)
  end.

(** The critical section of [Outbound], for a SYN. *)
Definition record_syn (f : flow) (seq now : Z) (m : Meter) : Meter :=
  match pending m !! f with
  | Some earlier =>
      mkMeter (<[f := mkSyn (syn_at earlier) (syn_seq earlier) true]> (pending m))
        (samples m) (last m) (seen m)
  | None =>
      let insert m := mkMeter (<[f := mkSyn now seq false]> (pending m))
                        (samples m) (last m) (seen m) in
      if (maxPending <=? size (pending m))%nat then
        let m := expireLocked now m in
        if (maxPending <=? size (pending m))%nat then m else insert m
      else insert m
  end.

Definition is_syn (t : tcp) : bool := Z.land (tcp_flags t) (Z.lor flagSYN flagACK) =? flagSYN.
Definition is_synack (t : tcp) : bool :=
  Z.land (tcp_flags t) (Z.lor flagSYN flagACK) =? Z.lor flagSYN flagACK.

Definition Outbound (packet : list Z) (now : Z) (m : Meter) : option Meter :=
  parsed ← parseTCP packet;
  match parsed with
  | None => Some m
  | Some t => Some (if is_syn t then record_syn (tcp_flow t) (tcp_seq t) now m else m)
  end.

(** Coming back, the remote end is the source. *)
Definition reverse_flow (f : flow) : flow :=
  mkFlow (remote f) (local f) (remotePort f) (localPort f).

(** The critical section of [Inbound], for a SYN-ACK on the flow as we sent it. *)
Definition record_answer (f : flow) (ack now : Z) (m : Meter) : Meter :=
  match pending m !! f with
  | None => m
  | Some sent =>
      let m := mkMeter (delete f (pending m)) (samples m) (last m) (seen m) in
      if again sent || negb (ack =? wrapu 32 (syn_seq sent + 1)) then m
      else
        let d := now - syn_at sent in
        if (d <=? 0) || (pendingFor <? d) then m
        else
          let kept := if (length (samples m) =? maxSamples)%nat
                      then drop 1 (samples m) else samples m in
          mkMeter (pending m) (kept ++ [mkSample now d]) (last m) true
  end.

Definition Inbound (packet : list Z) (now : Z) (m : Meter) : option Meter :=
  parsed ← parseTCP packet;
  match parsed with
  | None => Some m
  | Some t =>
      Some (if is_synack t then record_answer (reverse_flow (tcp_flow t)) (tcp_ack t) now m else m)
  end.

(** ** The device wrapper *)

(** The loop of [Device.Read] over what the inner device reported: [n]
    packets in [bufs], of [sizes] bytes at [offset].  [clock i] is the clock's
    reading when packet [i] is shown. *)
Fixpoint read_loop (i : nat) (n : Z) (bufs : list (list Z)) (sizes : list Z) (offset : Z)
    (clock : nat → Z) (m : Meter) : option Meter :=
  match bufs, sizes with
  | buf :: bufs, size :: sizes =>
      if Z.of_nat i <? n then
        let stop := offset + size in
        m ← (if (0 <? size) && (stop <=? len buf)
             then packet ← slice buf offset stop; Outbound packet (clock i) m else Some m);
        read_loop (S i) n bufs sizes offset clock m
      else Some m
  | _, _ => Some m
  end.

(** [Device.Read]: the inner device has filled [bufs] and [sizes] and returned
    [n] and [err], which are handed on as they are. *)
Definition Device_Read {E} (bufs : list (list Z)) (sizes : list Z) (offset : Z)
    (inner : Z * option E) (clock : nat → Z) (m : Meter) : option ((Z * option E) * Meter) :=
  m ← read_loop 0 (inner.1) bufs sizes offset clock m; Some (inner, m).

(** [Device.Write]: every packet is shown to the meter, then the buffers are
    handed on, untouched, to the inner device. *)
Fixpoint write_loop (i : nat) (bufs : list (list Z)) (offset : Z) (clock : nat → Z) (m : Meter)
    : option Meter :=
  match bufs with
  | [] => Some m
  | buf :: bufs =>
      m ← (if offset <? len buf
           then packet ← slice buf offset (len buf); Inbound packet (clock i) m else Some m);
      write_loop (S i) bufs offset clock m
  end.

Definition Device_Write {R} (write : list (list Z) → Z → R) (bufs : list (list Z))
    (offset : Z) (clock : nat → Z) (m : Meter) : option (R * Meter) :=
  m ← write_loop 0 bufs offset clock m; Some (write bufs offset, m).
