(* ===== verification/RttFacts.v ===== *)
(** * Properties of the live round-trip meter

    Reading packets never panics and finds exactly the fields that were put
    there; the meter stays within its bounds; every sample it holds is the time
    between a SYN and the one SYN-ACK that answers it; the figure it reports is
    the least of the recent samples. *)

From S2P Require Import Prelude NetAddr Rtt.
From stdpp Require Import options.
Local Open Scope Z_scope.
#[local] Ltac Zify.zify_post_hook ::= Z.to_euclidean_division_equations.

(** ** Reading packets never panics *)

Lemma u16_in_bounds p i : 0 ≤ i → i + 2 ≤ len p → ∃ v, u16 p i = Some v.
Proof.
  intros Hi Hl. unfold u16. destruct (slice_in_bounds p i (i + 2)) as (l & -> & _); [lia..|].
  cbn. eauto.
Qed.

Lemma u32_in_bounds p i : 0 ≤ i → i + 4 ≤ len p → ∃ v, u32 p i = Some v.
Proof.
  intros Hi Hl. unfold u32. destruct (slice_in_bounds p i (i + 4)) as (l & -> & _); [lia..|].
  cbn. eauto.
Qed.

(** Discharge one checked access of the goal. *)
Ltac checked :=
  match goal with
  | |- context [u16 ?p ?i] => let H := fresh in destruct (u16_in_bounds p i) as [? H]; [lia..|rewrite H]
  | |- context [u32 ?p ?i] => let H := fresh in destruct (u32_in_bounds p i) as [? H]; [lia..|rewrite H]
  | |- context [index ?p ?i] => let H := fresh in destruct (index_in_bounds p i) as [? H]; [lia..|rewrite H]
  | |- context [slice ?p ?a ?b] =>
      let H := fresh in destruct (slice_in_bounds p a b) as (? & H & _); [lia..|rewrite H]
  end; cbn [mbind option_bind].

Lemma parse_v4_total p b0 : parse_v4 p b0 ≠ None.
Proof.
  unfold parse_v4. destruct (Z.ltb_spec (len p) 20); [done|].
  do 3 checked.
  destruct (_ || _) eqn:Hg; [done|].
  apply orb_false_iff in Hg as [[[Hihl Hlen]%orb_false_iff _]%orb_false_iff _].
  apply Z.ltb_ge in Hihl, Hlen. do 2 checked.
  match goal with |- context [slice p ?a ?b] =>
    destruct (slice_in_bounds p a b) as (seg & -> & _) end; [..|done].
  - destruct (_ || _) eqn:Ht; [lia|]. apply orb_false_iff in Ht as [?%Z.ltb_ge ?%Z.ltb_ge]. lia.
  - destruct (_ || _) eqn:Ht; [lia|]. apply orb_false_iff in Ht as [?%Z.ltb_ge ?%Z.ltb_ge]. lia.
Qed.

Lemma parse_v6_total p : parse_v6 p ≠ None.
Proof.
  unfold parse_v6. destruct (Z.ltb_spec (len p) 40); [done|].
  checked. destruct (negb _); [done|]. do 3 checked. done.
Qed.

Lemma parseTCP_total p : parseTCP p ≠ None.
Proof.
  unfold parseTCP. destruct (Z.ltb_spec (len p) 1); [done|]. checked.
  match goal with |- context [mbind _ ?ip] => assert (ip ≠ None) as Hip end.
  { destruct (_ =? 4); [apply parse_v4_total|]. by destruct (_ =? 6); [apply parse_v6_total|]. }
  destruct (if _ =? 4 then _ else _) as [[[[src dst] segment]|]|]; cbn [mbind option_bind]; [|done..].
  destruct (Z.ltb_spec (len segment) 20); [done|]. do 5 checked. done.
Qed.

Lemma Outbound_total p now m : ∃ m', Outbound p now m = Some m'.
Proof.
  unfold Outbound. pose proof (parseTCP_total p). destruct (parseTCP p) as [[t|]|]; cbn; eauto. done.
Qed.

Lemma Inbound_total p now m : ∃ m', Inbound p now m = Some m'.
Proof.
  unfold Inbound. pose proof (parseTCP_total p). destruct (parseTCP p) as [[t|]|]; cbn; eauto. done.
Qed.

(** ** Histories *)

(** What can happen to a meter, with the clock's reading. *)
Inductive event :=
  | EOut (packet : list Z) (now : Z)
  | EIn (packet : list Z) (now : Z)
  | ELatency (now : Z)
  | EForget.

Definition apply_event (e : event) (m : Meter) : option Meter :=
  match e with
  | EOut p now => Outbound p now m
  | EIn p now => Inbound p now m
  | ELatency now => Some (Latency now m).2
  | EForget => Some (Forget m)
  end.

(** The meter after a history, from a new one. *)
Definition run (evs : list event) : option Meter :=
  foldl (λ m e, m ← m; apply_event e m) (Some New) evs.

Lemma run_snoc evs e : run (evs ++ [e]) = (m ← run evs; apply_event e m).
Proof. unfold run. by rewrite foldl_app. Qed.

Lemma apply_event_total e m : ∃ m', apply_event e m = Some m'.
Proof. destruct e; cbn; eauto using Outbound_total, Inbound_total. Qed.

Lemma run_total evs : ∃ m, run evs = Some m.
Proof.
  induction evs as [|e evs [m Hm]] using rev_ind; [by exists New|].
  rewrite run_snoc, Hm. apply apply_event_total.
Qed.

(** ** Bounds *)

Definition bounded (m : Meter) : Prop :=
  (size (pending m) ≤ maxPending)%nat ∧ (length (samples m) ≤ maxSamples)%nat.

Lemma expire_pending now m f s :
  pending (expireLocked now m) !! f = Some s → pending m !! f = Some s.
Proof. intros H%map_lookup_filter_Some. apply H. Qed.

Lemma expire_samples now m s : s ∈ samples (expireLocked now m) → s ∈ samples m.
Proof. intros H%list_elem_of_filter. apply H. Qed.

Lemma expire_bounded now m : bounded m → bounded (expireLocked now m).
Proof.
  intros [Hp Hs]. split.
  - etrans; [|exact Hp]. apply map_subseteq_size, map_filter_subseteq.
  - etrans; [|exact Hs]. apply length_filter.
Qed.

Lemma Latency_bounded now m : bounded m → bounded (Latency now m).2.
Proof.
  intros H. unfold Latency. destruct (negb (seen m)); [done|].
  pose proof (expire_bounded now m H) as Hb.
  destruct (samples (expireLocked now m)) eqn:E; cbn; [done|].
  destruct Hb as [? Hs]. rewrite E in Hs. by split.
Qed.

Lemma record_syn_bounded f seq now m : bounded m → bounded (record_syn f seq now m).
Proof.
  intros Hm. unfold record_syn. destruct (pending m !! f) as [s|] eqn:Hf.
  { destruct Hm. split; cbn; [|done]. by rewrite map_size_insert_Some by eauto. }
  assert (∀ m', bounded m' → (size (pending m') < maxPending)%nat →
    bounded (mkMeter (<[f := mkSyn now seq false]> (pending m')) (samples m') (last m') (seen m'))) as Hins.
  { intros m' [? ?] Hlt. split; cbn; [|done]. rewrite map_size_insert. case_match; unfold id; lia. }
  destruct (Nat.leb_spec maxPending (size (pending m))); [|auto].
  pose proof (expire_bounded now m Hm).
  destruct (Nat.leb_spec maxPending (size (pending (expireLocked now m)))); auto.
Qed.

Lemma record_answer_bounded f ack now m : bounded m → bounded (record_answer f ack now m).
Proof.
  intros [Hp Hs]. unfold record_answer. destruct (pending m !! f) as [s|] eqn:Hf; [|by split].
  assert (size (delete f (pending m)) ≤ maxPending)%nat.
  { etrans; [|exact Hp]. apply map_subseteq_size, delete_subseteq. }
  destruct (_ || _); [by split|]. destruct (_ || _); [by split|]. split; cbn; [done|].
  rewrite length_app. cbn. destruct (Nat.eqb_spec (length (samples m)) maxSamples) as [E|E].
  - rewrite length_drop. unfold maxSamples in *. lia.
  - unfold maxSamples in *. lia.
Qed.

Lemma apply_event_bounded e m m' : bounded m → apply_event e m = Some m' → bounded m'.
Proof.
  intros Hm. destruct e as [p now|p now|now|]; cbn.
  - unfold Outbound. destruct (parseTCP p) as [[t|]|]; cbn; [|by intros [= <-]|done].
    intros [= <-]. destruct (is_syn t); auto using record_syn_bounded.
  - unfold Inbound. destruct (parseTCP p) as [[t|]|]; cbn; [|by intros [= <-]|done].
    intros [= <-]. destruct (is_synack t); auto using record_answer_bounded.
  - intros [= <-]. by apply Latency_bounded.
  - intros [= <-]. destruct Hm. split; cbn; [done|]. unfold maxSamples. lia.
Qed.

(** ** Where samples come from *)

(** [e] sends a SYN on [f] at [t]; it is an answer on [f] acknowledging [ack]. *)
Definition syn_event (f : flow) (seq t : Z) (e : event) : Prop :=
  ∃ p h, e = EOut p t ∧ parseTCP p = Some (Some h) ∧ is_syn h = true ∧
         tcp_flow h = f ∧ tcp_seq h = seq.
Definition answer_event (f : flow) (ack t : Z) (e : event) : Prop :=
  ∃ p h, e = EIn p t ∧ parseTCP p = Some (Some h) ∧ is_synack h = true ∧
         reverse_flow (tcp_flow h) = f ∧ tcp_ack h = ack.
Definition sends_syn (f : flow) (e : event) : Prop := ∃ seq t, syn_event f seq t e.

(** A pending entry: its SYN, and no other on the flow since unless marked. *)
Definition waiting (evs : list event) (f : flow) (s : syn) : Prop :=
  ∃ i e, evs !! i = Some e ∧ syn_event f (syn_seq s) (syn_at s) e ∧
    (again s = false → ∀ k e', (i < k)%nat → evs !! k = Some e' → ¬ sends_syn f e').

(** A sample: the time from a SYN to the SYN-ACK acknowledging it, with no
    other SYN on the flow between them, and nothing forgotten since. *)
Definition measured (evs : list event) (s : sample) : Prop :=
  ∃ i j f seq t ei ej, (i < j)%nat ∧
    evs !! i = Some ei ∧ syn_event f seq t ei ∧
    evs !! j = Some ej ∧ answer_event f (wrapu 32 (seq + 1)) (sample_at s) ej ∧
    rtt s = sample_at s - t ∧ 0 < rtt s ≤ pendingFor ∧
    (∀ k e, (i < k < j)%nat → evs !! k = Some e → ¬ sends_syn f e) ∧
    (∀ k, (j < k)%nat → evs !! k ≠ Some EForget).

Definition explained (evs : list event) (m : Meter) : Prop :=
  (∀ f s, pending m !! f = Some s → waiting evs f s) ∧
  (∀ s, s ∈ samples m → measured evs s).

Lemma lookup_snoc_inv {A} (l : list A) x k y :
  (l ++ [x]) !! k = Some y → l !! k = Some y ∨ (k = length l ∧ y = x).
Proof. intros [H|(? & H)]%lookup_app_Some; [auto|]. right. apply list_lookup_singleton_Some in H. lia || (split; [lia|]; naive_solver). Qed.

Lemma waiting_snoc evs e f s : waiting evs f s → ¬ sends_syn f e → waiting (evs ++ [e]) f s.
Proof.
  intros (i & e' & Hi & Hs & Hno) He. exists i, e'. split_and!; [by apply lookup_app_l_Some|done|].
  intros Ha k e'' Hk [Hl|[-> ->]]%lookup_snoc_inv; [by eapply Hno|done].
Qed.

Lemma waiting_again evs e f s t q :
  waiting evs f s → t = syn_at s → q = syn_seq s → waiting (evs ++ [e]) f (mkSyn t q true).
Proof.
  intros (i & e' & Hi & Hs & _) -> ->. exists i, e'. split_and!; [by apply lookup_app_l_Some|done|done].
Qed.

Lemma waiting_new evs e f seq t : syn_event f seq t e → waiting (evs ++ [e]) f (mkSyn t seq false).
Proof.
  intros He. exists (length evs), e. split_and!; [|done|].
  - by rewrite list_lookup_middle.
  - intros _ k e' Hk Hl%lookup_lt_Some. rewrite length_app in Hl. cbn in Hl. lia.
Qed.

Lemma measured_snoc evs e s : measured evs s → e ≠ EForget → measured (evs ++ [e]) s.
Proof.
  intros (i & j & f & seq & t & ei & ej & Hij & Hi & Hsi & Hj & Hsj & Hr & [Hb1 Hb2] & Hno & Hf) He.
  exists i, j, f, seq, t, ei, ej. split_and!; try done; [by apply lookup_app_l_Some..| |].
  - intros k e' Hk Hl. apply lookup_lt_Some in Hj as Hjl.
    rewrite lookup_app_l in Hl by lia. by eapply Hno.
  - intros k Hk [Hl|[-> <-]]%lookup_snoc_inv; [by eapply Hf|done].
Qed.


(** ** Every event keeps the meter explained *)

Lemma expire_explained evs now m : explained evs m → explained evs (expireLocked now m).
Proof.
  intros [Hp Hs]. split.
  - intros f s H%expire_pending. by apply Hp.
  - intros s H%expire_samples. by apply Hs.
Qed.

(** An event whose SYN, if any, is on a flow with nothing pending. *)
Lemma explained_snoc evs e m :
  explained evs m → (∀ f, sends_syn f e → pending m !! f = None) → e ≠ EForget →
  explained (evs ++ [e]) m.
Proof.
  intros [Hp Hs] Hsyn Hf. split; [|by eauto using measured_snoc].
  intros f s H. apply waiting_snoc; [auto|]. intros Hf'%Hsyn. by rewrite H in Hf'.
Qed.

Lemma sends_syn_out f p now :
  sends_syn f (EOut p now) →
  ∃ h, parseTCP p = Some (Some h) ∧ is_syn h = true ∧ tcp_flow h = f.
Proof. intros (seq & t & p' & h & [= -> ->] & Hp & Hs & Hf & _). eauto. Qed.

Lemma sends_syn_not_in f p now : ¬ sends_syn f (EIn p now).
Proof. intros (seq & t & p' & h & [=] & _). Qed.

Lemma insert_explained evs e f s m :
  explained evs m → e ≠ EForget → (∀ f', sends_syn f' e → f' = f) → waiting (evs ++ [e]) f s →
  explained (evs ++ [e]) (mkMeter (<[f := s]> (pending m)) (samples m) (last m) (seen m)).
Proof.
  intros [Hp Hs] He Hf Hw. split; cbn; [|by eauto using measured_snoc].
  intros f' s' [[<- <-]|[Hne H]]%lookup_insert_Some; [done|].
  apply waiting_snoc; [auto|]. intros Hsyn. by apply Hne, eq_sym, Hf.
Qed.

Lemma expire_not_pending now m f : pending m !! f = None → pending (expireLocked now m) !! f = None.
Proof.
  intros H. destruct (pending (expireLocked now m) !! f) eqn:E; [|done].
  apply expire_pending in E. congruence.
Qed.

Lemma record_syn_explained evs p now h m :
  explained evs m → parseTCP p = Some (Some h) → is_syn h = true →
  explained (evs ++ [EOut p now]) (record_syn (tcp_flow h) (tcp_seq h) now m).
Proof.
  intros Hm Hp Hs.
  assert (∀ f, sends_syn f (EOut p now) → f = tcp_flow h) as Hf.
  { intros f (h' & Hp' & _ & <-)%sends_syn_out. congruence. }
  assert (syn_event (tcp_flow h) (tcp_seq h) now (EOut p now)) as He by (exists p, h; eauto).
  unfold record_syn. destruct (pending m !! tcp_flow h) as [s|] eqn:E.
  { apply insert_explained; [done..|]. destruct Hm as [Hm _]. by eapply waiting_again; [apply Hm| |]. }
  pose proof (waiting_new evs _ _ _ _ He) as Hw.
  destruct (_ <=? _)%nat; [|by apply insert_explained].
  pose proof (expire_explained evs now m Hm) as Hm'.
  destruct (_ <=? _)%nat; [|by apply insert_explained].
  apply explained_snoc; [done| |done]. intros f ->%Hf. by apply expire_not_pending.
Qed.

Lemma drop_elem_of {A} n (l : list A) x : x ∈ drop n l → x ∈ l.
Proof. intros H. rewrite <-(take_drop n l). apply elem_of_app. by right. Qed.

Lemma forget_pending evs f m : explained evs m →
  explained evs (mkMeter (delete f (pending m)) (samples m) (last m) (seen m)).
Proof. intros [Hp Hs]. split; cbn; [|done]. intros f' s [_ H]%lookup_delete_Some. by apply Hp. Qed.

Lemma record_answer_explained evs p now h m :
  explained evs m → parseTCP p = Some (Some h) → is_synack h = true →
  explained (evs ++ [EIn p now])
    (record_answer (reverse_flow (tcp_flow h)) (tcp_ack h) now m).
Proof.
  intros Hm Hp Hs. set (f := reverse_flow (tcp_flow h)).
  assert (∀ m, explained evs m → explained (evs ++ [EIn p now]) m) as Hsnoc.
  { intros m' Hm'. apply explained_snoc; [done| |done]. by intros ? []%sends_syn_not_in. }
  unfold record_answer. destruct (pending m !! f) as [sent|] eqn:E; [|auto].
  pose proof (Hsnoc _ (forget_pending evs f m Hm)) as Hdel.
  destruct (again sent || _) eqn:Hg; [done|]. cbn zeta. destruct ((_ <=? 0) || _) eqn:Hd; [done|].
  apply orb_false_iff in Hg as [Ha Hack%negb_false_iff%Z.eqb_eq].
  apply orb_false_iff in Hd as [Hd1%Z.leb_gt Hd2%Z.ltb_ge].
  split; [by apply Hdel|]. cbn. intros s [Hold| ->%list_elem_of_singleton]%elem_of_app.
  { apply Hdel. cbn. destruct (_ =? _)%nat; [by eapply drop_elem_of|done]. }
  destruct Hm as [Hm _]. destruct (Hm _ _ E) as (i & ei & Hi & Hsi & Hno).
  exists i, (length evs), f, (syn_seq sent), (syn_at sent), ei, (EIn p now).
  assert (i < length evs)%nat by by eapply lookup_lt_Some.
  split_and!; cbn; try done.
  - by apply lookup_app_l_Some.
  - by rewrite list_lookup_middle.
  - exists p, h. by rewrite Hack.
  - intros k e' [Hk1 Hk2] Hl. rewrite lookup_app_l in Hl by lia. by eapply (Hno Ha k).
  - intros k Hk Hl%lookup_lt_Some. rewrite length_app in Hl. cbn in Hl. lia.
Qed.

Lemma Latency_explained evs now m : explained evs m → explained evs (Latency now m).2.
Proof.
  intros Hm. unfold Latency. destruct (negb (seen m)); [done|].
  pose proof (expire_explained evs now m Hm) as [Hp Hs].
  destruct (samples (expireLocked now m)) eqn:E; (split; [exact Hp|]); cbn [samples snd]; rewrite ?E in *; done.
Qed.

Lemma apply_event_explained evs e m m' :
  explained evs m → apply_event e m = Some m' → explained (evs ++ [e]) m'.
Proof.
  intros Hm. destruct e as [p now|p now|now|]; cbn.
  - unfold Outbound. destruct (parseTCP p) as [[t|]|] eqn:Hp; cbn; [| |done]; intros [= <-].
    + destruct (is_syn t) eqn:Hs; [by apply record_syn_explained|].
      apply explained_snoc; [done| |done]. intros f (h & ? & ? & _)%sends_syn_out. congruence.
    + apply explained_snoc; [done| |done]. intros f (h & ? & ? & _)%sends_syn_out. congruence.
  - assert (∀ m, explained evs m → explained (evs ++ [EIn p now]) m) as Hsnoc.
    { intros m0 Hm0. apply explained_snoc; [done| |done]. by intros ? []%sends_syn_not_in. }
    unfold Inbound. destruct (parseTCP p) as [[t|]|] eqn:Hp; cbn; [| |done]; intros [= <-]; auto.
    destruct (is_synack t) eqn:Hs; [by apply record_answer_explained|auto].
  - intros [= <-]. apply explained_snoc; [by apply Latency_explained| |done].
    by intros f (? & ? & ? & ? & [=] & _).
  - intros [= <-]. split; cbn; [|by intros s Hs%elem_of_nil].
    intros f s H%Hm. apply waiting_snoc; [done|]. by intros (? & ? & ? & ? & [=] & _).
Qed.

(** ** Packets, built field by field *)

Definition tcp_segment (sport dport seq ack flags : Z) (rest : list Z) : list Z :=
  be_split 2 sport ++ be_split 2 dport ++ be_split 4 seq ++ be_split 4 ack ++
  [80] ++ [flags] ++ be_split 2 64240 ++ [0; 0; 0; 0] ++ rest.

(** [trailer] is what follows the packet in its buffer. *)
Definition ipv4_packet (id df ttl : Z) (opts src dst segment trailer : list Z) : list Z :=
  [64 + (5 + len opts / 4)] ++ [0] ++ be_split 2 (20 + len opts + len segment) ++ be_split 2 id ++
  be_split 2 (df * 16384) ++ [ttl] ++ [6] ++ [0; 0] ++ src ++ dst ++ opts ++ segment ++ trailer.

Definition ipv6_packet (hops : Z) (src dst segment : list Z) : list Z :=
  [96] ++ [0; 0; 0] ++ be_split 2 (len segment) ++ [6] ++ [hops] ++ src ++ dst ++ segment.

Definition tcp_ok (sport dport seq ack : Z) : Prop :=
  0 ≤ sport < 2 ^ 16 ∧ 0 ≤ dport < 2 ^ 16 ∧ 0 ≤ seq < 2 ^ 32 ∧ 0 ≤ ack < 2 ^ 32.

Lemma len_app {A} (l1 l2 : list A) : len (l1 ++ l2) = len l1 + len l2.
Proof. unfold len. rewrite length_app. lia. Qed.
Lemma len_split n z : len (be_split n z) = Z.of_nat n.
Proof. unfold len. by rewrite length_be_split. Qed.
Lemma len_nonneg {A} (l : list A) : 0 ≤ len l.
Proof. unfold len. lia. Qed.

(** Find one field of a concatenation: the pieces before it, itself, the rest. *)
Ltac field_at front mid :=
  first [erewrite (slice_mid _ front mid) | erewrite (index_mid _ front)];
  [|by rewrite <- ?app_assoc|rewrite ?len_app, ?len_split; cbn; lia..].

Lemma u16_mid p front v back i :
  p = front ++ be_split 2 v ++ back → i = len front → 0 ≤ v < 2 ^ 16 → u16 p i = Some v.
Proof.
  intros -> -> Hv. unfold u16. rewrite (slice_mid _ front (be_split 2 v) back) by done.
  cbn [fmap option_fmap option_map]. f_equal. by apply be_combine_split.
Qed.

Lemma u32_mid p front v back i :
  p = front ++ be_split 4 v ++ back → i = len front → 0 ≤ v < 2 ^ 32 → u32 p i = Some v.
Proof.
  intros -> -> Hv. unfold u32. rewrite (slice_mid _ front (be_split 4 v) back) by done.
  cbn [fmap option_fmap option_map]. f_equal. by apply be_combine_split.
Qed.

(** The goal [p = front ++ piece ++ back], [p] a concatenation. *)
Ltac at_field := rewrite ?len_app, ?len_split; first [by rewrite <- ?app_assoc | unfold len; cbn; lia].

Lemma segment_read sport dport seq ack flags rest (s := tcp_segment sport dport seq ack flags rest) :
  tcp_ok sport dport seq ack →
  u16 s 0 = Some sport ∧ u16 s 2 = Some dport ∧ u32 s 4 = Some seq ∧ u32 s 8 = Some ack ∧
  index s 13 = Some flags ∧ 20 ≤ len s.
Proof.
  intros (H1 & H2 & H3 & H4).
  set (f1 := be_split 2 sport). set (f2 := f1 ++ be_split 2 dport).
  set (f3 := f2 ++ be_split 4 seq). set (f4 := f3 ++ be_split 4 ack).
  split_and!.
  - by apply (u16_mid s [] sport (drop 2 s)).
  - by apply (u16_mid s f1 dport (drop 4 s)).
  - by apply (u32_mid s f2 seq (drop 8 s)).
  - by apply (u32_mid s f3 ack (drop 12 s)).
  - by apply (index_mid s (f4 ++ [80]) (drop 14 s)).
  - subst s. unfold tcp_segment. rewrite !len_app, !len_split. unfold len. cbn [length]. lia.
Qed.

Lemma parse_segment src dst sport dport seq ack flags rest :
  tcp_ok sport dport seq ack →
  (let s := tcp_segment sport dport seq ack flags rest in
   if len s <? 20 then Some None
   else sport ← u16 s 0; dport ← u16 s 2; seq ← u32 s 4; ack ← u32 s 8; flags ← index s 13;
        Some (Some (mkTcp (mkFlow src dst sport dport) flags seq ack)))
  = Some (Some (mkTcp (mkFlow src dst sport dport) flags seq ack)).
Proof.
  intros H. cbn zeta.
  destruct (segment_read sport dport seq ack flags rest H) as (-> & -> & -> & -> & -> & ?). by destruct (Z.ltb_spec (len (tcp_segment sport dport seq ack flags rest)) 20); [lia|].
Qed.

Lemma version_nibble n : 0 ≤ n < 16 → Z.shiftr (64 + n) 4 = 4 ∧ Z.land (64 + n) 15 = n.
Proof.
  intros H. split.
  - rewrite Z.shiftr_div_pow2 by lia. change (2 ^ 4) with 16. lia.
  - change 15 with (Z.ones 4). rewrite Z.land_ones by lia. change (2 ^ 4) with 16. lia.
Qed.

Lemma parse_v4_reads id df ttl opts src dst segment trailer
    (p := ipv4_packet id df ttl opts src dst segment trailer) :
  len opts mod 4 = 0 → len opts ≤ 40 → len src = 4 → len dst = 4 → 0 ≤ df ≤ 1 →
  20 + len opts + len segment < 2 ^ 16 →
  parse_v4 p (64 + (5 + len opts / 4)) = Some (Some (AddrFrom4 src, AddrFrom4 dst, segment)).
Proof.
  intros Hmod Hopts Hsrc Hdst Hdf Hlen.
  pose proof (len_nonneg opts). pose proof (len_nonneg segment). pose proof (len_nonneg trailer).
  assert (len p = 20 + len opts + len segment + len trailer) as Hp.
  { subst p. unfold ipv4_packet. rewrite !len_app, !len_split. unfold len in *. cbn. lia. }
  set (a1 := [64 + (5 + len opts / 4)] ++ [0]).
  set (a2 := a1 ++ be_split 2 (20 + len opts + len segment) ++ be_split 2 id).
  set (a3 := a2 ++ be_split 2 (df * 16384) ++ [ttl]).
  set (a4 := a3 ++ [6] ++ [0; 0]).
  assert (Z.land (df * 16384) 8191 = 0) as Hfrag by (assert (df = 0 ∨ df = 1) as [-> | ->] by lia; done).
  unfold parse_v4. destruct (Z.ltb_spec (len p) 20); [lia|].
  destruct (version_nibble (5 + len opts / 4)) as [_ ->]; [lia|].
  replace ((5 + len opts / 4) * 4) with (20 + len opts) by lia.
  rewrite (u16_mid p a1 (20 + len opts + len segment) (drop 4 p) 2) by first [reflexivity|lia].
  rewrite (index_mid p a3 (drop 10 p) 6 9) by reflexivity.
  rewrite (u16_mid p a2 (df * 16384) (drop 8 p) 6) by first [reflexivity|lia].
  cbn [mbind option_bind]. rewrite Hfrag, !(proj2 (Z.ltb_ge _ _)) by lia.
  cbn [orb negb Z.eqb Pos.eqb].
  rewrite (slice_mid p a4 src (dst ++ opts ++ segment ++ trailer) 12 16)
    by (first [done | subst a4 a3 a2 a1; rewrite ?len_app, ?len_split; unfold len in *; cbn; lia]).
  cbn [mbind option_bind].
  rewrite (slice_mid p (a4 ++ src) dst (opts ++ segment ++ trailer) 16 20)
    by (first [by subst p; unfold ipv4_packet; subst a4 a3 a2 a1; rewrite <- !app_assoc
              | subst a4 a3 a2 a1; rewrite ?len_app, ?len_split; unfold len in *; cbn; lia]).
  cbn [mbind option_bind].
  by rewrite (slice_mid p (a4 ++ src ++ dst ++ opts) segment trailer)
    by (first [by subst p; unfold ipv4_packet; subst a4 a3 a2 a1; rewrite <- !app_assoc
              | subst a4 a3 a2 a1; rewrite ?len_app, ?len_split; unfold len in *; cbn; lia]).
Qed.

(** ** The theorems *)

(** C6: Whatever the packets and the clock, no call of the meter panics, and it
    never remembers more than [maxPending] SYNs nor [maxSamples] samples; every
    sample it holds is the time, positive and at most [pendingFor], between an
    outbound SYN and an inbound SYN-ACK on the reversed flow acknowledging its
    sequence number (Karn's rule: with no other SYN on that flow in between),
    taken since the last [Forget]. *)
Theorem meter_sound evs :
  ∃ m, run evs = Some m ∧ bounded m ∧ ∀ s, s ∈ samples m → measured evs s.
Proof.
  enough (∃ m, run evs = Some m ∧ bounded m ∧ explained evs m) as (m & ? & ? & ? & ?) by eauto.
  induction evs as [|e evs (m & Hr & Hb & He)] using rev_ind.
  { exists New. split_and!; [done| |]; split; cbn; [unfold maxPending; rewrite map_size_empty; lia|
      unfold maxSamples; lia|by intros ?? H%lookup_empty_Some|by intros ? ?%elem_of_nil]. }
  destruct (apply_event_total e m) as [m' Hm']. exists m'.
  rewrite run_snoc, Hr. cbn. split_and!; eauto using apply_event_bounded, apply_event_explained.
Qed.

Lemma parse_v6_reads hops src dst segment (p := ipv6_packet hops src dst segment) :
  len src = 16 → len dst = 16 → parse_v6 p = Some (Some (AddrFrom16 src, AddrFrom16 dst, segment)).
Proof.
  intros Hsrc Hdst. pose proof (len_nonneg segment).
  assert (len p = 40 + len segment) as Hp.
  { subst p. unfold ipv6_packet. rewrite !len_app, !len_split. unfold len in *. cbn. lia. }
  set (a1 := [96] ++ [0; 0; 0] ++ be_split 2 (len segment)). set (a2 := a1 ++ [6] ++ [hops]).
  unfold parse_v6. destruct (Z.ltb_spec (len p) 40); [lia|].
  rewrite (index_mid p a1 (drop 7 p) 6 6) by reflexivity. cbn [mbind option_bind negb Z.eqb Pos.eqb].
  rewrite (slice_mid p a2 src (dst ++ segment) 8 24) by
    (first [done | subst a2 a1; rewrite ?len_app, ?len_split; unfold len in *; cbn; lia]).
  cbn [mbind option_bind].
  rewrite (slice_mid p (a2 ++ src) dst segment 24 40)
    by (first [by subst p; unfold ipv6_packet; subst a2 a1; rewrite <- !app_assoc
              | subst a2 a1; rewrite ?len_app, ?len_split; unfold len in *; cbn; lia]).
  cbn [mbind option_bind].
  by rewrite (slice_mid p (a2 ++ src ++ dst) segment [] 40)
    by (first [exact Hp | by subst p; unfold ipv6_packet; subst a2 a1; rewrite app_nil_r, <- !app_assoc
              | subst a2 a1; rewrite ?len_app, ?len_split; unfold len in *; cbn; lia]).
Qed.

(** [parseTCP] reads back exactly the addresses, ports, sequence numbers and
    flags of a TCP segment carried in an IPv4 packet (any options, any bytes
    after the packet in its buffer) or in an IPv6 packet. *)
Theorem parseTCP_reads sport dport seq ack flags rest src dst :
  tcp_ok sport dport seq ack →
  let segment := tcp_segment sport dport seq ack flags rest in
  (∀ id df ttl opts trailer, len opts mod 4 = 0 → len opts ≤ 40 → len src = 4 → len dst = 4 →
     0 ≤ df ≤ 1 → 20 + len opts + len segment < 2 ^ 16 →
     parseTCP (ipv4_packet id df ttl opts src dst segment trailer) =
       Some (Some (mkTcp (mkFlow (AddrFrom4 src) (AddrFrom4 dst) sport dport) flags seq ack))) ∧
  (∀ hops, len src = 16 → len dst = 16 →
     parseTCP (ipv6_packet hops src dst segment) =
       Some (Some (mkTcp (mkFlow (AddrFrom16 src) (AddrFrom16 dst) sport dport) flags seq ack))).
Proof.
  intros Hok segment. split.
  - intros id df ttl opts trailer Hmod Hopts Hsrc Hdst Hdf Hlen. unfold parseTCP.
    destruct (Z.ltb_spec (len (ipv4_packet id df ttl opts src dst segment trailer)) 1) as [Hp|_].
    { unfold ipv4_packet in Hp. rewrite len_app in Hp.
      match goal with H : _ + ?x < 1 |- _ => assert (0 ≤ x) by apply len_nonneg end.
      unfold len at 1 in Hp. cbn [length] in Hp. lia. }
    rewrite (index_mid _ [] (drop 1 (ipv4_packet id df ttl opts src dst segment trailer))
      (64 + (5 + len opts / 4)) 0) by reflexivity.
    cbn [mbind option_bind]. destruct (version_nibble (5 + len opts / 4)) as [-> _].
    { pose proof (len_nonneg opts). lia. }
    cbn [Z.eqb Pos.eqb]. rewrite (parse_v4_reads id df ttl opts src dst segment trailer) by done.
    cbn [mbind option_bind]. by apply parse_segment.
  - intros hops Hsrc Hdst. unfold parseTCP.
    destruct (Z.ltb_spec (len (ipv6_packet hops src dst segment)) 1) as [Hp|_].
    { unfold ipv6_packet in Hp. rewrite len_app in Hp.
      match goal with H : _ + ?x < 1 |- _ => assert (0 ≤ x) by apply len_nonneg end.
      unfold len at 1 in Hp. cbn [length] in Hp. lia. }
    rewrite (index_mid _ [] (drop 1 (ipv6_packet hops src dst segment)) 96 0) by reflexivity.
    cbn [mbind option_bind]. change (Z.shiftr 96 4) with 6. cbn [Z.eqb Pos.eqb].
    rewrite (parse_v6_reads hops src dst segment) by done.
    cbn [mbind option_bind]. by apply parse_segment.
Qed.

Lemma parseTCP_reads_witness :
  parseTCP (ipv4_packet 7 1 64 [1; 1; 1; 0] [10; 8; 0; 2] [93; 184; 216; 34]
      (tcp_segment 50000 443 4294967295 0 2 []) [9; 9]) =
    Some (Some (mkTcp (mkFlow (AddrFrom4 [10; 8; 0; 2]) (AddrFrom4 [93; 184; 216; 34]) 50000 443)
      2 4294967295 0)).
Proof.
  assert (tcp_ok 50000 443 4294967295 0) as H by (unfold tcp_ok; lia).
  refine (proj1 (parseTCP_reads 50000 443 4294967295 0 2 [] [10; 8; 0; 2] [93; 184; 216; 34] H)
    7 1 64 [1; 1; 1; 0] [9; 9] _ _ _ _ _ _).
  all: first [reflexivity | by vm_compute | vm_compute; by split | lia].
Defined.

(** ** A SYN and its answer *)

Definition is_least (v : Z) (l : list sample) : Prop :=
  (∃ s, s ∈ l ∧ rtt s = v) ∧ ∀ s, s ∈ l → v ≤ rtt s.

Lemma least_spec d l : l ≠ [] → is_least (least d l) l.
Proof.
  destruct l as [|s l]; [done|intros _]. unfold least.
  enough (∀ l acc, let v := fold_left (λ m s, Z.min m (rtt s)) l acc in
    (v = acc ∨ ∃ s, s ∈ l ∧ rtt s = v) ∧ v ≤ acc ∧ ∀ s, s ∈ l → v ≤ rtt s) as H.
  { destruct (H l (rtt s)) as ([Hv|(s' & ? & ?)] & Hle & Hall). all: split.
    1, 3: rewrite ?Hv; eauto using list_elem_of_here, list_elem_of_further.
    all: intros s'' [->|?]%elem_of_cons; auto. }
  clear. induction l as [|x l IH]; intros acc; cbn.
  { split_and!; [by left|lia|by intros ? ?%elem_of_nil]. }
  destruct (IH (Z.min acc (rtt x))) as (Hv & Hle & Hall). split_and!; [|lia|].
  - destruct Hv as [Hv|(s & ? & ?)]; [|right; eauto using list_elem_of_further].
    rewrite Hv. destruct (Z.min_spec acc (rtt x)) as [[? ->]|[? ->]]; [by left|].
    right. eauto using list_elem_of_here.
  - intros s [->|?]%elem_of_cons; [lia|auto].
Qed.

Lemma is_least_unique v v' l : is_least v l → is_least v' l → v = v'.
Proof. intros [(s & Hs & <-) H1] [(s' & Hs' & <-) H2]. apply Z.le_antisymm; auto. Qed.

(** The samples of the window that ends at [now]. *)
Definition recent (now : Z) (m : Meter) : list sample :=
  filter (λ s, now - sample_at s <= Window) (samples m).

(** What [Latency] reports: nothing until the first round trip; then the
    least round trip among the samples of the last [Window], or, when those
    have all expired, the least of the ones that expired, or, when there were
    none left, the figure held from before.  What it reports it also holds, and
    only the recent samples remain. *)
Theorem Latency_reports now m v ok m' :
  Latency now m = ((v, ok), m') →
  ok = seen m ∧
  (seen m = false → v = 0 ∧ m' = m) ∧
  (seen m = true →
     samples m' = recent now m ∧ last m' = v ∧ seen m' = true ∧
     (recent now m ≠ [] → is_least v (recent now m)) ∧
     (recent now m = [] → samples m ≠ [] → is_least v (samples m)) ∧
     (samples m = [] → v = last m)).
Proof.
  unfold Latency. destruct (seen m) eqn:Hseen; cbn [negb].
  2: { intros [= <- <- <-]. by split_and!. }
  change (samples (expireLocked now m)) with (recent now m).
  destruct (recent now m) as [|s l] eqn:Hr; intros [= <- <- <-].
  - split; [done|]. split; [done|]. intros _. cbn [samples last seen expireLocked].
    fold (recent now m). rewrite Hr. cbn [bool_decide]. rewrite (bool_decide_true ([] = [])) by done.
    split_and!; try done.
    + intros _ Hne. rewrite bool_decide_false by done. by apply least_spec.
    + intros Hnil. by rewrite Hnil.
  - split; [done|]. split; [done|]. intros _. cbn [samples last seen expireLocked].
    split_and!; try done.
    + intros _. by apply (least_spec 0 (s :: l)).
    + intros Hnil. unfold recent in Hr. by rewrite Hnil in Hr.
Qed.

Lemma Latency_reports_witness :
  Latency (20 * 1000000000) (mkMeter ∅ [mkSample 5000000000 30; mkSample 15000000000 50] 0 true)
    = ((50, true), mkMeter ∅ [mkSample 15000000000 50] 50 true) ∧
  is_least 50 [mkSample 15000000000 50].
Proof.
  assert (Latency (20 * 1000000000) (mkMeter ∅ [mkSample 5000000000 30; mkSample 15000000000 50] 0 true)
    = ((50, true), mkMeter ∅ [mkSample 15000000000 50] 50 true)) as H by reflexivity.
  split; [exact H|].
  exact (proj1 (proj2 (proj2 (proj2 (proj2 (proj2 (Latency_reports _ _ _ _ _ H)) eq_refl)))) ltac:(done)).
Defined.

(** A SYN to a web server through the tunnel, and its answer. *)
Definition syn_packet : list Z :=
  ipv4_packet 7 1 64 [] [10; 8; 0; 2] [93; 184; 216; 34] (tcp_segment 50000 443 4294967295 0 2 []) [].
Definition answer_packet : list Z :=
  ipv4_packet 8 1 55 [] [93; 184; 216; 34] [10; 8; 0; 2] (tcp_segment 443 50000 77 0 18 []) [].

Lemma record_syn_then_answer f seq t d m
    (m2 := record_answer f (wrapu 32 (seq + 1)) (t + d) (record_syn f seq t m)) :
  pending m !! f = None → (size (pending m) < maxPending)%nat → 0 < d ≤ pendingFor →
  mkSample (t + d) d ∈ samples m2 ∧ seen m2 = true.
Proof.
  intros Hnone Hroom Hd. subst m2. unfold record_syn, record_answer.
  rewrite Hnone, (proj2 (Nat.leb_gt _ _)) by done.
  cbn [pending]. rewrite lookup_insert_eq. cbn [again syn_seq syn_at orb].
  rewrite Z.eqb_refl. replace (t + d - t) with d by lia.
  rewrite (proj2 (Z.leb_gt _ _)), (proj2 (Z.ltb_ge _ _)) by lia. cbn [negb orb seen samples].
  split; [|done]. apply elem_of_app. right. by apply list_elem_of_singleton.
Qed.

Lemma Latency_at_most now m s :
  seen m = true → s ∈ samples m → now - sample_at s <= Window →
  ∃ v m', Latency now m = ((v, true), m') ∧ v ≤ rtt s.
Proof.
  intros Hseen Hin Hw. unfold Latency. rewrite Hseen. cbn [negb].
  change (samples (expireLocked now m)) with (recent now m).
  assert (s ∈ recent now m) as Hr by by apply list_elem_of_filter.
  destruct (recent now m) as [|s0 l]; [by apply elem_of_nil in Hr|].
  eexists _, _. split; [done|]. by apply (least_spec 0 (s0 :: l)).
Qed.

(** C33: A SYN shown on its way out and, within [pendingFor], the SYN-ACK that
    acknowledges it shown on its way in are measured: whatever the meter held,
    as long as the flow was not waiting already and there was room for it, the
    round trip becomes a sample and [Latency] then reports a figure no greater
    than it. *)
Theorem syn_then_answer_measured out back h h' t d m :
  parseTCP out = Some (Some h) → is_syn h = true →
  parseTCP back = Some (Some h') → is_synack h' = true →
  reverse_flow (tcp_flow h') = tcp_flow h → tcp_ack h' = wrapu 32 (tcp_seq h + 1) →
  pending m !! tcp_flow h = None → (size (pending m) < maxPending)%nat → 0 < d ≤ pendingFor →
  ∃ m1 m2 v m3, Outbound out t m = Some m1 ∧ Inbound back (t + d) m1 = Some m2 ∧
    mkSample (t + d) d ∈ samples m2 ∧
    Latency (t + d) m2 = ((v, true), m3) ∧ v ≤ d.
Proof.
  intros Hp Hs Hp' Hs' Hf Hack Hnone Hroom Hd.
  destruct (record_syn_then_answer (tcp_flow h) (tcp_seq h) t d m) as (Hin & Hseen); try done.
  set (m1 := record_syn (tcp_flow h) (tcp_seq h) t m) in *.
  set (m2 := record_answer (tcp_flow h) (wrapu 32 (tcp_seq h + 1)) (t + d) m1) in *.
  destruct (Latency_at_most (t + d) m2 (mkSample (t + d) d)) as (v & m3 & HL & Hv); [done|done|cbn [sample_at]; unfold Window; lia|].
  exists m1, m2, v, m3. unfold Outbound, Inbound. rewrite Hp, Hp'. cbn [mbind option_bind].
  by rewrite Hs, Hs', Hf, Hack.
Qed.

Lemma syn_then_answer_measured_witness :
  ∃ m1 m2 v m3, Outbound syn_packet 1000 New = Some m1 ∧
    Inbound answer_packet 31001000 m1 = Some m2 ∧
    mkSample 31001000 31000000 ∈ samples m2 ∧ Latency 31001000 m2 = ((v, true), m3) ∧ v ≤ 31000000.
Proof.
  refine (syn_then_answer_measured syn_packet answer_packet _ _ 1000 31000000 New
    (eq_refl : parseTCP syn_packet = Some (Some _)) eq_refl
    (eq_refl : parseTCP answer_packet = Some (Some _)) eq_refl eq_refl eq_refl eq_refl _ _).
  - apply Nat.ltb_lt. reflexivity.
  - unfold pendingFor. lia.
Defined.

(** ** The device wrapper *)

Lemma read_loop_total i n bufs sizes offset clock m :
  0 ≤ offset → ∃ m', read_loop i n bufs sizes offset clock m = Some m'.
Proof.
  intros Ho. revert i sizes m. induction bufs as [|buf bufs IH]; intros i [|size sizes] m; cbn [read_loop]; eauto.
  destruct (_ <? n); [|eauto].
  destruct ((0 <? size) && _) eqn:E; [|by cbn; apply IH].
  apply andb_true_iff in E as [?%Z.ltb_lt ?%Z.leb_le].
  destruct (slice_in_bounds buf offset (offset + size)) as (p & -> & _); [lia..|].
  cbn [mbind option_bind]. destruct (Outbound_total p (clock i) m) as [m' ->]. apply IH.
Qed.

Lemma write_loop_total i bufs offset clock m :
  0 ≤ offset → ∃ m', write_loop i bufs offset clock m = Some m'.
Proof.
  intros Ho. revert i m. induction bufs as [|buf bufs IH]; intros i m; cbn [write_loop]; eauto.
  destruct (offset <? len buf) eqn:E; [|by cbn; apply IH]. apply Z.ltb_lt in E.
  destruct (slice_in_bounds buf offset (len buf)) as (p & -> & _); [lia..|].
  cbn [mbind option_bind]. destruct (Inbound_total p (clock i) m) as [m' ->]. apply IH.
Qed.

(** The wrapped device changes nothing: for a non-negative offset, and
    whatever the buffers hold and the inner device reports (negative or
    oversized counts and sizes included), [Read] returns what the inner device
    returned and [Write] hands the same buffers on, neither panicking. *)
Theorem Device_transparent {E R} bufs sizes offset (inner : Z * option E)
    (write : list (list Z) → Z → R) clock m :
  0 ≤ offset →
  (∃ m', Device_Read bufs sizes offset inner clock m = Some (inner, m')) ∧
  (∃ m', Device_Write write bufs offset clock m = Some (write bufs offset, m')).
Proof.
  intros Ho. unfold Device_Read, Device_Write.
  destruct (read_loop_total 0 inner.1 bufs sizes offset clock m Ho) as [m1 ->].
  destruct (write_loop_total 0 bufs offset clock m Ho) as [m2 ->]. cbn. eauto.
Qed.

Lemma Device_transparent_witness :
  (∃ m', Device_Read [0 :: syn_packet] [44] 1 (1, @None unit) (λ _, 5) New
     = Some ((1, None), m')) ∧
  (∃ m', Device_Write (λ bufs o, len bufs + o) [0 :: answer_packet] 1 (λ _, 5) New = Some (2, m')).
Proof.
  apply (Device_transparent [0 :: syn_packet] [44] 1 (1, None) (λ bufs o, len bufs + o)
    (λ _, 5) New). lia.
Defined.
