(* ===== verification/Handshake.v ===== *)
(** * When a device last heard from its peer: core/internal/handshake/handshake.go

    A [time.Time] is here the seconds since the year 1 that Go keeps in it,
    so that the zero time is 0 and [time.Unix] wraps at 64 bits as Go's does. *)

From S2P Require Import Prelude GoStrings.
From Stdlib Require Import Ascii.
From stdpp Require Import options.
Local Open Scope Z_scope.

(** [unixToInternal]: the seconds from the year 1 to 1970. *)
Definition unixToInternal : Z := 62135596800.

(** [time.Unix(seconds, 0)]. *)
Definition Unix (seconds : Z) : Z := wrap64 (seconds + unixToInternal).

(** One round of [Parse]'s loop: [latest] after the line. *)
Definition parse_line (latest : Z) (line : string) : Z :=
  match CutPrefix line "last_handshake_time_sec=" with
  | None => latest
  | Some value =>
      match parse_int (TrimSpace value) with
      | None => latest
      | Some seconds =>
          if seconds <=? 0 then latest
          else let at_ := Unix seconds in if latest <? at_ then at_ else latest
      end
  end.

Definition Parse (uapi : string) : Z := fold_left parse_line (Split uapi newline) 0.

(** [Wait]: [read i] is what the [i]th read returns and [now i] the clock after
    it; the loop runs for at most [fuel] rounds. *)
Fixpoint wait_loop {E} (fuel i : nat) (read : nat → string + E) (now : nat → Z) (deadline : Z)
    : option bool :=
  match fuel with
  | O => None
  | S fuel =>
      if match read i with inl uapi => negb (Parse uapi =? 0) | inr _ => false end then Some true
      else if deadline <? now i then Some false
      else wait_loop fuel (S i) read now deadline
  end.

Definition Wait {E} (fuel : nat) (read : nat → string + E) (start : Z) (now : nat → Z)
    (timeout : Z) : option bool :=
  wait_loop fuel 0 read now (start + timeout).

(** The pause between two reads, in nanoseconds. *)
Definition pause : Z := 200000000.

(** ** Parsing *)

(** The handshake a line reports, when it reports one. *)
Definition reported (line : string) : option Z :=
  value ← CutPrefix line "last_handshake_time_sec=";
  seconds ← parse_int (TrimSpace value);
  if seconds <=? 0 then None else Some seconds.

(** The stamps of a dump. *)
Definition stamps (uapi : string) : list Z := omap reported (Split uapi newline).

(** Times [time.Unix] can carry without wrapping. *)
Definition ordinary (seconds : Z) : Prop := seconds ≤ int64_max - unixToInternal.

Lemma reported_positive line s : reported line = Some s → 0 < s.
Proof.
  unfold reported. destruct (CutPrefix _ _); cbn [mbind option_bind]; [|done].
  destruct (parse_int _); cbn [mbind option_bind]; [|done].
  destruct (Z.leb_spec z 0); [done|]. by intros [= <-].
Qed.

Lemma parse_line_reported latest line :
  parse_line latest line =
  match reported line with Some s => Z.max latest (Unix s) | None => latest end.
Proof.
  unfold parse_line, reported. destruct (CutPrefix _ _); cbn [mbind option_bind]; [|done].
  destruct (parse_int _); cbn [mbind option_bind]; [|done].
  destruct (z <=? 0); [done|]. destruct (Z.ltb_spec latest (Unix z)); lia.
Qed.

Lemma Unix_ordinary s : 0 < s → ordinary s → Unix s = s + unixToInternal ∧ 0 < Unix s.
Proof.
  unfold ordinary, Unix. intros H1 H2. rewrite wrap64_id; unfold int64_min, int64_max, unixToInternal in *; lia.
Qed.

Lemma Parse_max uapi :
  let v := Parse uapi in
  (v = 0 ∨ ∃ s, s ∈ stamps uapi ∧ v = Unix s) ∧ 0 ≤ v ∧ ∀ s, s ∈ stamps uapi → Unix s ≤ v.
Proof.
  unfold Parse, stamps.
  enough (∀ ls acc, let v := fold_left parse_line ls acc in
    (v = acc ∨ ∃ s, s ∈ omap reported ls ∧ v = Unix s) ∧ acc ≤ v ∧
    ∀ s, s ∈ omap reported ls → Unix s ≤ v) as H by apply H.
  induction ls as [|l ls IH]; intros acc; cbn [fold_left omap list_omap].
  { split_and!; [by left|lia|by intros ? ?%elem_of_nil]. }
  destruct (IH (parse_line acc l)) as (Hv & Hle & Hall).
  rewrite parse_line_reported in *. destruct (reported l) as [s|].
  - split_and!; [|lia|].
    + destruct Hv as [Hv|(s' & ? & ?)]; [|right; exists s'; split; [by apply list_elem_of_further|done]].
      destruct (Z.max_spec acc (Unix s)) as [[? Hm]|[? Hm]]; rewrite Hv, Hm; [|by left].
      right. exists s. split; [apply list_elem_of_here|done].
    + intros s' [->|?]%elem_of_cons; [lia|auto].
  - split_and!; auto.
Qed.

(** ** Properties *)

(** [Parse] finds the most recent handshake of a dump: the zero time when no
    line reports a positive time, and otherwise the greatest time reported,
    whatever else the dump holds (times [time.Unix] can carry). *)
Theorem Parse_latest uapi :
  Forall ordinary (stamps uapi) →
  (stamps uapi = [] → Parse uapi = 0) ∧
  (stamps uapi ≠ [] → ∃ s, s ∈ stamps uapi ∧ Parse uapi = s + unixToInternal ∧
     (∀ s', s' ∈ stamps uapi → s' ≤ s) ∧ Parse uapi ≠ 0).
Proof.
  intros Ho. rewrite list.Forall_forall in Ho. destruct (Parse_max uapi) as (Hv & Hle & Hall).
  assert (∀ s, s ∈ stamps uapi → Unix s = s + unixToInternal ∧ 0 < Unix s) as Hu.
  { intros s Hs. apply Unix_ordinary; [|by apply Ho].
    apply list_elem_of_omap in Hs as (l & _ & Hl). by eapply reported_positive. }
  split.
  - intros Hnil. destruct Hv as [->|(s & Hs & _)]; [done|]. rewrite Hnil in Hs. by apply elem_of_nil in Hs.
  - intros Hne. destruct Hv as [Hz|(s & Hs & Heq)].
    + destruct (stamps uapi) as [|s l] eqn:E; [done|].
      destruct (Hu s) as [_ ?]; [apply list_elem_of_here|].
      specialize (Hall s (list_elem_of_here _ _)). lia.
    + exists s. destruct (Hu s Hs) as [H1 H2]. split_and!; [done|lia| |lia].
      intros s' Hs'. specialize (Hall s' Hs'). destruct (Hu s' Hs'). lia.
Qed.

Definition sample_dump : string :=
  "protocol_version=1" +:+ nl +:+ "last_handshake_time_sec=0" +:+ nl +:+
  "last_handshake_time_sec=1700000000" +:+ nl +:+ "last_handshake_time_sec= 1600000000" +:+ nl +:+
  "last_handshake_time_sec=never" +:+ nl.

Lemma Parse_latest_witness :
  ∃ s, s ∈ stamps sample_dump ∧ Parse sample_dump = s + unixToInternal ∧
     (∀ s', s' ∈ stamps sample_dump → s' ≤ s) ∧ Parse sample_dump ≠ 0.
Proof.
  refine (proj2 (Parse_latest sample_dump _) _).
  - change (stamps sample_dump) with [1700000000; 1600000000].
    repeat constructor; unfold ordinary; vm_compute; discriminate.
  - change (stamps sample_dump) with [1700000000; 1600000000]. discriminate.
Defined.

(** The [i]th read reports a handshake. *)
Definition reports {E} (read : nat → string + E) (i : nat) : Prop :=
  ∃ uapi, read i = inl uapi ∧ Parse uapi ≠ 0.

Lemma wait_loop_step {E} fuel i (read : nat → string + E) now deadline :
  (reports read i ∧ wait_loop (S fuel) i read now deadline = Some true) ∨
  (¬ reports read i ∧ deadline < now i ∧ wait_loop (S fuel) i read now deadline = Some false) ∨
  (¬ reports read i ∧ now i ≤ deadline ∧
     wait_loop (S fuel) i read now deadline = wait_loop fuel (S i) read now deadline).
Proof.
  cbn [wait_loop]. destruct (read i) as [uapi|e] eqn:Hr.
  - destruct (Z.eqb_spec (Parse uapi) 0) as [Hz|Hz]; cbn [negb].
    + assert (¬ reports read i) by (intros (u & ? & ?); congruence).
      destruct (Z.ltb_spec deadline (now i)); auto.
    + left. split; [by exists uapi|done].
  - assert (¬ reports read i) by (intros (u & ? & ?); congruence).
    destruct (Z.ltb_spec deadline (now i)); auto.
Qed.

Lemma wait_loop_result {E} (read : nat → string + E) now deadline fuel i :
  deadline < now (i + fuel)%nat →
  ∃ b, wait_loop (S fuel) i read now deadline = Some b ∧
    if b then ∃ j, (i ≤ j)%nat ∧ reports read j ∧ ∀ k, (i ≤ k < j)%nat → ¬ reports read k ∧ now k ≤ deadline
    else ∃ j, (i ≤ j)%nat ∧ deadline < now j ∧ ∀ k, (i ≤ k ≤ j)%nat → ¬ reports read k.
Proof.
  revert i. induction fuel as [|fuel IH]; intros i Hnow.
  - rewrite Nat.add_0_r in Hnow.
    destruct (wait_loop_step 0 i read now deadline) as [[Hr ->]|[(Hr & Hd & ->)|(Hr & Hd & _)]]; [| |lia].
    + exists true. split; [done|]. exists i. split; [lia|]. split; [done|]. intros; lia.
    + exists false. split; [done|]. exists i. split; [lia|]. split; [done|]. intros k Hk. by replace k with i by lia.
  - destruct (wait_loop_step (S fuel) i read now deadline) as [[Hr ->]|[(Hr & Hd & ->)|(Hr & Hd & ->)]].
    + exists true. split; [done|]. exists i. split; [lia|]. split; [done|]. intros; lia.
    + exists false. split; [done|]. exists i. split; [lia|]. split; [done|]. intros k Hk. by replace k with i by lia.
    + destruct (IH (S i)) as ([] & -> & j & Hj & Hj1 & Hj2).
      { by replace (S i + fuel)%nat with (i + S fuel)%nat by lia. }
      * exists true. split; [done|]. exists j. split; [lia|]. split; [done|].
        intros k Hk. destruct (decide (k = i)) as [->|]; [done|]. apply Hj2. lia.
      * exists false. split; [done|]. exists j. split; [lia|]. split; [done|].
        intros k Hk. destruct (decide (k = i)) as [->|]; [done|]. apply Hj2. lia.
Qed.

(** [Wait] always comes back, after at most [timeout / 200ms + 2] reads when
    the clock moves on by a pause between two reads: with true at the first
    read that reports a handshake, and with false only once [timeout] has run
    out and no read has reported one; a failing read never ends the wait. *)
Theorem Wait_returns {E} (read : nat → string + E) start now timeout :
  0 ≤ timeout → start ≤ now 0%nat → (∀ i, now i + pause ≤ now (S i)) →
  ∃ b, Wait (Z.to_nat (timeout / pause) + 2) read start now timeout = Some b ∧
    if b then ∃ j, reports read j ∧ ∀ k, (k < j)%nat → ¬ reports read k ∧ now k ≤ start + timeout
    else ∃ j, start + timeout < now j ∧ ∀ k, (k ≤ j)%nat → ¬ reports read k.
Proof.
  intros Ht Hs Hp. unfold pause in *.
  assert (∀ i, start + 200000000 * Z.of_nat i ≤ now i) as Hclock.
  { intros i. induction i as [|i IH]; [lia|]. specialize (Hp i). lia. }
  set (n := S (Z.to_nat (timeout / 200000000))).
  destruct (wait_loop_result read now (start + timeout) n 0) as (b & Hb & Hr).
  { specialize (Hclock n). subst n. rewrite Nat.add_0_l.
    pose proof (Z.mul_succ_div_gt timeout 200000000 ltac:(lia)).
    rewrite Nat2Z.inj_succ, Z2Nat.id in Hclock; [lia|].
    apply Z.div_pos; lia. }
  exists b. split.
  - unfold Wait. rewrite <- Hb. f_equal. subst n. lia.
  - destruct b; destruct Hr as (j & _ & H1 & H2); exists j; split; [done| |done|]; intros k Hk; apply H2; lia.
Qed.

Lemma Wait_returns_witness :
  ∃ b, Wait (Z.to_nat (500000000 / pause) + 2)
      (λ i, if (i =? 0)%nat then inr tt else inl (if (i =? 2)%nat then sample_dump else ""))
      7 (λ i, 7 + pause * Z.of_nat i) 500000000 = Some b ∧ b = true.
Proof.
  destruct (Wait_returns (λ i, if (i =? 0)%nat then inr tt else inl (if (i =? 2)%nat then sample_dump else ""))
    7 (λ i, 7 + pause * Z.of_nat i) 500000000) as (b & Hb & _).
  - lia.
  - lia.
  - intros i. unfold pause. lia.
  - exists b. split; [exact Hb|]. vm_compute in Hb. congruence.
Defined.
