(* ===== verification/Diag.v ===== *)
(** * What the core did recently: core/internal/diag/log.go

    The [secrets] expression as a matcher over bytes (its first alternative
    that matches at a position wins, each quantifier greedy, letters up to the
    case folding of [(?i)]), the redaction built on it, and the buffer of
    lines.  A formatted message and the time stamp are arguments. *)

From S2P Require Import Prelude GoStrings.
From Stdlib Require Import Ascii.
From stdpp Require Import options.

Definition capacity : nat := 400.

(** ** The expression *)

(** What folds to an ASCII letter from outside ASCII: the Kelvin sign and the
    long s. *)
Definition kelvin : string := bytes [226; 132; 170]%Z.
Definition long_s : string := bytes [197; 191]%Z.
Definition upper_byte (c : ascii) : ascii := chr (code c - 32).

(** One letter of the pattern, lower case, under [(?i)]. *)
Definition fold_letter (c : ascii) (s : string) : option string :=
  strip_one ([String c ""; String (upper_byte c) ""] ++
             (if ascii_eqb c "k" then [kelvin] else if ascii_eqb c "s" then [long_s] else [])) s.

Fixpoint fold_word (w s : string) : option string :=
  match w with
  | "" => Some s
  | String c w => r ← fold_letter c s; fold_word w r
  end.

(** [\s], and the white space skipped by [\s*]. *)
Definition re_space (c : ascii) : bool :=
  bool_decide (c ∈ ["009"; "010"; "012"; "013"; " "]%char).
Fixpoint skip_space (s : string) : string :=
  match s with String c r => if re_space c then skip_space r else s | "" => "" end.
Fixpoint skip_nonspace (s : string) : string :=
  match s with String c r => if re_space c then s else skip_nonspace r | "" => "" end.

(** [(?:private|public|preshared)[_ ]?key\s*[=:]\s*], what follows it. *)
Definition label (s : string) : option string :=
  r ← match fold_word "private" s with
      | Some r => Some r
      | None => match fold_word "public" s with
                | Some r => Some r
                | None => fold_word "preshared" s
                end
      end;
  let r := match r with
           | String c r' => if ascii_eqb c "_" || ascii_eqb c " " then r' else r
           | "" => ""
           end in
  r ← fold_word "key" r;
  match skip_space r with
  | String c r => if ascii_eqb c "=" || ascii_eqb c ":" then Some (skip_space r) else None
  | "" => None
  end.

(** The first alternative, label and secret: what follows the match. *)
Definition match_label (s : string) : option string :=
  r ← label s;
  match r with "" => None | _ => Some (skip_nonspace r) end.

(** One character of [A-Za-z0-9+/], folded, as the bytes after it. *)
Definition key_byte (c : ascii) : bool :=
  code_in 65 90 c || code_in 97 122 c || is_digit c || ascii_eqb c "+" || ascii_eqb c "/".
Definition key_char (s : string) : option string :=
  match strip_one [kelvin; long_s] s with
  | Some r => Some r
  | None => match s with
            | String a r => if key_byte a then Some r else None
            | "" => None
            end
  end.
Definition key_or_pad (s : string) : option string :=
  match CutPrefix s "=" with Some r => Some r | None => key_char s end.

Fixpoint repeat_match (n : nat) (m : string → option string) (s : string) : option string :=
  match n with O => Some s | S n => r ← m s; repeat_match n m r end.

(** [[A-Za-z0-9+/]{42}[A-Za-z0-9+/=]{1,2}]. *)
Definition match_base64 (s : string) : option string :=
  r ← repeat_match 42 key_char s;
  r ← key_or_pad r;
  match key_or_pad r with Some r' => Some r' | None => Some r end.

Definition word_byte (c : ascii) : bool :=
  code_in 65 90 c || code_in 97 122 c || is_digit c || ascii_eqb c "_".
Definition word_head (s : string) : bool := match s with String c _ => word_byte c | "" => false end.
Definition hex_char (s : string) : option string :=
  match s with
  | String a r => if is_digit a || code_in 65 70 a || code_in 97 102 a then Some r else None
  | "" => None
  end.

(** [\b[0-9a-f]{64}\b]; the byte before the position decides the first [\b]. *)
Definition match_hex (prev : option ascii) (s : string) : option string :=
  if Bool.eqb (match prev with Some c => word_byte c | None => false end) (word_head s) then None
  else
    r ← repeat_match 64 hex_char s;
    (* the last digit is a word byte *)
    if word_head r then None else Some r.

(** The match at a position, as what follows it. *)
Definition match_at (prev : option ascii) (s : string) : option string :=
  match match_label s with
  | Some r => Some r
  | None => match match_base64 s with Some r => Some r | None => match_hex prev s end
  end.

(** ** Redaction *)

Definition stake (n : nat) (s : string) : string := String.substring 0 n s.

(** [match[:i+1]] for [i] the index of the first '=' or ':', if any. *)
Fixpoint through_assignment (s : string) : option string :=
  match s with
  | "" => None
  | String c r =>
      if ascii_eqb c "=" || ascii_eqb c ":" then Some (String c "")
      else String c <$> through_assignment r
  end.

Definition replace_match (m : string) : string :=
  match through_assignment m with
  | Some kept => kept +:+ "<redacted>"
  | None => "<redacted>"
  end.

Definition last_byte (s : string) : option ascii :=
  match srev s with String c _ => Some c | "" => None end.

(** [ReplaceAllStringFunc]: no match is empty, so [String.length s] rounds are
    enough. *)
Fixpoint redact_go (fuel : nat) (prev : option ascii) (s : string) : string :=
  match fuel with
  | O => s
  | S fuel =>
      match match_at prev s with
      | Some r =>
          let m := stake (String.length s - String.length r) s in
          replace_match m +:+ redact_go fuel (last_byte m) r
      | None =>
          match s with
          | "" => ""
          | String c r => String c (redact_go fuel (Some c) r)
          end
      end
  end.

Definition redact (message : string) : string := redact_go (S (String.length message)) None message.

(** ** The buffer *)

Record Log := mkLog { lines : list string; verbose : bool }.

Definition empty_log : Log := mkLog [] false.

Definition Logf (stamp message : string) (l : Log) : Log :=
  let line := stamp +:+ "  " +:+ redact message in
  let kept := if (length (lines l) =? capacity)%nat then drop 1 (lines l) else lines l in
  mkLog (kept ++ [line]) (verbose l).

Definition Verbosef (stamp message : string) (l : Log) : Log :=
  if verbose l then Logf stamp message l else l.

Definition SetVerbose (stamp : string) (on : bool) (l : Log) : Log :=
  mkLog (lines l ++ [stamp +:+ "  verbose logging " +:+ (if on then "on" else "off")]) on.

Definition Verbose (l : Log) : bool := verbose l.
Definition Lines (l : Log) : list string := lines l.
Definition Clear (l : Log) : Log := mkLog [] (verbose l).

(** ** [DeviceLogger] (logger.go): what the device logs *)

Record Logger := mkLogger { log_Verbosef : string → string → Log → Log; log_Errorf : string → string → Log → Log }.

Definition DeviceLogger : Logger := mkLogger Verbosef (λ stamp message, Logf stamp ("error: " +:+ message)).
