(* ===== verification/DiagFacts.v ===== *)
(** * Properties of the diagnostic log

    What redaction removes and what it leaves, and what the buffer keeps. *)

From S2P Require Import Prelude GoStrings GoEncoding Diag.
From Stdlib Require Import Ascii.
From stdpp Require Import options.

(** ** Matches are proper prefixes *)

(** [r] is what follows a non-empty prefix of [s]. *)
Definition after (s r : string) : Prop := ∃ m, m ≠ "" ∧ s = m +:+ r.

Lemma after_trans s r t : after s r → after r t → after s t.
Proof.
  intros (a & Ha & ->) (b & Hb & ->). exists (a +:+ b). split; [by destruct a|by rewrite sapp_assoc].
Qed.

Lemma after_shorter s r : after s r → (String.length r < String.length s)%nat.
Proof. intros (m & Hm & ->). rewrite string_length_app. destruct m; [done|]. cbn. lia. Qed.

Lemma strip_one_Some ts s r : strip_one ts s = Some r → ∃ t, t ∈ ts ∧ s = t +:+ r.
Proof.
  induction ts as [|t ts IH]; cbn; [done|]. destruct (CutPrefix s t) as [r'|] eqn:E.
  - intros [= <-]. exists t. split; [apply list_elem_of_here|by apply CutPrefix_Some].
  - intros (t' & ? & ?)%IH. exists t'. split; [by apply list_elem_of_further|done].
Qed.

Lemma fold_letter_after c s r : fold_letter c s = Some r → after s r.
Proof.
  intros (t & Ht & ->)%strip_one_Some. exists t. split; [|done].
  intros ->. revert Ht. destruct (ascii_eqb c "k"); [|destruct (ascii_eqb c "s")];
    cbn; rewrite !elem_of_cons, elem_of_nil; intuition discriminate.
Qed.

Lemma fold_word_after w s r : w ≠ "" → fold_word w s = Some r → after s r.
Proof.
  intros Hw. destruct w as [|c w]; [done|]. clear Hw. revert c s.
  induction w as [|c' w IH]; intros c s; cbn [fold_word].
  - destruct (fold_letter c s) eqn:E; cbn; [|done]. intros [= <-]. by eapply fold_letter_after.
  - destruct (fold_letter c s) as [r'|] eqn:E; [|done]. cbn [mbind option_bind]. intros H.
    eapply after_trans; [by eapply fold_letter_after|]. by apply (IH c').
Qed.

Lemma skip_space_suffix s : ∃ m, s = m +:+ skip_space s.
Proof.
  induction s as [|c s [m IH]]; [by exists ""|]. cbn. destruct (re_space c); [|by exists ""].
  exists (String c m). cbn. by f_equal.
Qed.

Lemma skip_nonspace_suffix s : ∃ m, s = m +:+ skip_nonspace s.
Proof.
  induction s as [|c s [m IH]]; [by exists ""|]. cbn. destruct (re_space c); [by exists ""|].
  exists (String c m). cbn. by f_equal.
Qed.

Definition assigns (c : ascii) : bool := ascii_eqb c "=" || ascii_eqb c ":".

(** A label ends at an assignment sign. *)
Lemma label_assigns s r :
  label s = Some r → ∃ m c b, s = m +:+ String c b ∧ assigns c = true ∧ r = skip_space b.
Proof.
  unfold label. intros H.
  assert (∃ r1, after s r1 ∧
    (r ← fold_word "key" match r1 with
       | String c r' => if ascii_eqb c "_" || ascii_eqb c " " then r' else r1
       | "" => "" end;
     match skip_space r with
     | String c r => if ascii_eqb c "=" || ascii_eqb c ":" then Some (skip_space r) else None
     | "" => None
     end) = Some r) as (r1 & (m1 & _ & ->) & H1).
  { destruct (fold_word "private" s) as [r1|] eqn:E1;
      [|destruct (fold_word "public" s) as [r1|] eqn:E2;
        [|destruct (fold_word "preshared" s) as [r1|] eqn:E3; [|done]]];
      exists r1; (split; [by eapply fold_word_after; [|eassumption]|exact H]). }
  clear H. set (r2 := match r1 with "" => "" | _ => _ end) in H1.
  assert (∃ m, r1 = m +:+ r2) as [m2 Hr2].
  { subst r2. destruct r1 as [|c r1]; [by exists ""|]. destruct (_ || _); [by exists (String c "")|by exists ""]. }
  destruct (fold_word "key" r2) as [r3|] eqn:E; [|done]. cbn [mbind option_bind] in H1.
  apply fold_word_after in E as (m3 & _ & E); [|done].
  destruct (skip_space_suffix r3) as [m4 Hr3]. destruct (skip_space r3) as [|c b]; [done|].
  destruct (_ || _) eqn:Hc; [|done]. injection H1 as <-.
  exists (m1 +:+ m2 +:+ m3 +:+ m4), c, b. split; [|done].
  rewrite Hr2, E, Hr3. by rewrite !sapp_assoc.
Qed.

Lemma match_label_after s r : match_label s = Some r → after s r.
Proof.
  unfold match_label. destruct (label s) as [l|] eqn:E; [|done]. cbn [mbind option_bind].
  apply label_assigns in E as (m & c & b & -> & _ & ->).
  destruct (skip_space_suffix b) as [m2 H2]. destruct (skip_space b) as [|d l]; [done|].
  intros [= <-]. change (if re_space d then _ else _) with (skip_nonspace (String d l)).
  destruct (skip_nonspace_suffix (String d l)) as [m3 H3].
  exists (m +:+ String c (m2 +:+ m3)). split; [by destruct m|].
  rewrite H2, H3 at 1. rewrite !sapp_assoc. cbn. by rewrite sapp_assoc.
Qed.

Lemma key_char_after s r : key_char s = Some r → after s r.
Proof.
  unfold key_char. destruct (strip_one _ s) as [r'|] eqn:E.
  - intros [= <-]. apply strip_one_Some in E as (t & Ht & ->). exists t. split; [|done].
    intros ->. revert Ht. rewrite !elem_of_cons, elem_of_nil. intuition discriminate.
  - destruct s as [|a s]; [done|]. destruct (key_byte a); [|done]. intros [= <-]. by exists (String a "").
Qed.

Lemma key_or_pad_after s r : key_or_pad s = Some r → after s r.
Proof.
  unfold key_or_pad. destruct (CutPrefix s "=") as [r'|] eqn:E; [|apply key_char_after].
  intros [= <-]. apply CutPrefix_Some in E as ->. by exists "=".
Qed.

Lemma repeat_match_after n m s r :
  (∀ s r, m s = Some r → after s r) → repeat_match (S n) m s = Some r → after s r.
Proof.
  intros Hm. revert s. induction n as [|n IH]; intros s; cbn [repeat_match].
  - destruct (m s) eqn:E; cbn; [|done]. intros [= <-]. by apply Hm.
  - destruct (m s) as [s'|] eqn:E; [|done]. cbn [mbind option_bind]. intros H.
    eapply after_trans; [by apply Hm|]. by apply IH.
Qed.

Lemma match_base64_after s r : match_base64 s = Some r → after s r.
Proof.
  unfold match_base64. destruct (repeat_match 42 key_char s) as [r1|] eqn:E1; [|done].
  apply repeat_match_after in E1; [|apply key_char_after]. cbn [mbind option_bind].
  destruct (key_or_pad r1) as [r2|] eqn:E2; [|done]. apply key_or_pad_after in E2. cbn [mbind option_bind].
  destruct (key_or_pad r2) as [r3|] eqn:E3; intros [= <-]; eauto using after_trans, key_or_pad_after.
Qed.

Lemma match_at_after p s r : match_at p s = Some r → after s r.
Proof.
  unfold match_at. destruct (match_label s) eqn:E1; [intros [= <-]; by apply match_label_after|].
  destruct (match_base64 s) eqn:E2; [intros [= <-]; by apply match_base64_after|].
  unfold match_hex. destruct (Bool.eqb _ _); [done|].
  destruct (repeat_match 64 hex_char s) as [r'|] eqn:E3; [|done]. cbn [mbind option_bind].
  destruct (word_head r'); [done|]. intros [= <-]. eapply repeat_match_after; [|exact E3].
  intros [|a t] t'; cbn; [done|]. destruct (_ || _); [|done]. intros [= <-]. by exists (String a "").
Qed.

(** ** Fuel and context *)

Lemma redact_go_fuel n m p s :
  (String.length s < n)%nat → (String.length s < m)%nat → redact_go n p s = redact_go m p s.
Proof.
  revert m p s. induction n as [|n IH]; intros m p s Hn Hm; [lia|]. destruct m as [|m]; [lia|].
  cbn [redact_go]. destruct (match_at p s) as [r|] eqn:E.
  - apply match_at_after, after_shorter in E. f_equal. apply IH; lia.
  - destruct s as [|c s]; [done|]. cbn in *. f_equal. apply IH; lia.
Qed.

(** What follows a secret: nothing, or white space. *)
Definition ends_word (s : string) : bool := match s with "" => true | String c _ => re_space c end.

Lemma redact_go_after_word n p s :
  (String.length s < n)%nat → ends_word s = true → redact_go n p s = redact s.
Proof.
  intros Hn Hs. unfold redact. destruct n as [|n]; [lia|].
  transitivity (redact_go (S n) None s); [|apply redact_go_fuel; lia].
  cbn [redact_go]. assert (match_at p s = match_at None s) as ->; [|done].
  unfold match_at. destruct (match_label s), (match_base64 s); try done.
  assert (∀ p, match_hex p s = None) as H; [|by rewrite !H].
  intros p'. unfold match_hex. destruct (Bool.eqb _ _); [done|].
  replace (repeat_match 64 hex_char s) with (@None string); [done|].
  destruct s as [|c s]; [done|]. unfold ends_word, re_space in Hs. apply bool_decide_eq_true in Hs.
  rewrite !elem_of_cons, elem_of_nil in Hs. by repeat destruct Hs as [->|Hs].
Qed.

Lemma stake_app a b : stake (String.length (a +:+ b) - String.length b) (a +:+ b) = a.
Proof.
  unfold stake. rewrite string_length_app, Nat.add_sub.
  induction a as [|c a IH]; [by destruct b|]. cbn. by rewrite IH.
Qed.

(** One match at the start of the text. *)
Lemma redact_match m r :
  match_at None (m +:+ r) = Some r →
  redact (m +:+ r) = replace_match m +:+ redact_go (S (String.length r)) (last_byte m) r.
Proof.
  intros H. pose proof (after_shorter _ _ (match_at_after _ _ _ H)).
  unfold redact. rewrite <- (redact_go_fuel (String.length (m +:+ r)) (S (String.length r)) (last_byte m) r) by lia.
  cbn [redact_go]. by rewrite H, stake_app.
Qed.

(** ** Labelled secrets *)

(** The labels without white space, as the UAPI and a configuration have them. *)
Definition labels : list string :=
  w ← ["private"; "public"; "preshared"]; u ← [""; "_"; " "]; a ← ["="; ":"]; [w +:+ u +:+ "key" +:+ a].

Lemma labels_match l t :
  l ∈ labels → label (l +:+ t) = Some (skip_space t) ∧ through_assignment (l +:+ t) = Some l.
Proof.
  revert l. assert (Forall (λ l, label (l +:+ t) = Some (skip_space t) ∧
    through_assignment (l +:+ t) = Some l) labels) as H.
  { unfold labels. cbn [mbind list_bind app]. repeat (constructor; [split; reflexivity|]). constructor. }
  intros l Hl. rewrite list.Forall_forall in H. by apply H.
Qed.

Lemma skip_nonspace_word w r :
  sall (λ c, negb (re_space c)) w = true → ends_word r = true → skip_nonspace (w +:+ r) = r.
Proof.
  intros Hw Hr. induction w as [|c w IH]; cbn.
  - destruct r as [|c r]; [done|]. cbn in *. by rewrite Hr.
  - cbn in Hw. apply andb_true_iff in Hw as [Hc Hw]. apply negb_true_iff in Hc.
    by rewrite Hc, IH.
Qed.

(** ** Bare keys *)

Lemma key_char_byte a r : key_byte a = true → key_char (String a r) = Some r.
Proof.
  intros Ha. unfold key_char. cbn [strip_one].
  replace (CutPrefix (String a r) kelvin) with (@None string).
  2: { symmetry. cbn. destruct (ascii_eqb "226" a) eqn:E; [|done]. apply ascii_eqb_true in E as <-. done. }
  replace (CutPrefix (String a r) long_s) with (@None string).
  2: { symmetry. cbn. destruct (ascii_eqb "197" a) eqn:E; [|done]. apply ascii_eqb_true in E as <-. done. }
  by rewrite Ha.
Qed.

Lemma repeat_key_chars k r :
  sall key_byte k = true → repeat_match (String.length k) key_char (k +:+ r) = Some r.
Proof.
  induction k as [|a k IH]; [done|]. intros [Ha Hk]%andb_true_iff.
  cbn [String.length repeat_match]. change (String a k +:+ r) with (String a (k +:+ r)).
  rewrite key_char_byte by done. by apply IH.
Qed.

Lemma key_byte_not_assigns a : key_byte a = true → assigns a = false.
Proof.
  intros Ha. apply orb_false_iff; split; apply ascii_eqb_false; by intros ->.
Qed.

(** Text whose only assignment sign, if any, is its last byte has no label. *)
Lemma no_label k r :
  sall key_byte k = true → r = "" ∨ r = "=" → match_label (k +:+ r) = None.
Proof.
  intros Hk Hr. unfold match_label. destruct (label (k +:+ r)) as [l|] eqn:E; [|done].
  apply label_assigns in E as (m & c & b & Heq & Hc & ->).
  enough (b = "") as -> by done. revert k Hk Heq. induction m as [|d m IH]; intros k Hk Heq.
  - destruct k as [|a k]; cbn in Heq.
    + destruct Hr as [-> | ->]; [done|]. by injection Heq.
    + injection Heq as -> _. cbn in Hk. apply andb_true_iff in Hk as [Ha _].
      apply key_byte_not_assigns in Ha. congruence.
  - destruct k as [|a k]; cbn in Heq.
    + destruct Hr as [-> | ->]; [done|]. injection Heq as _ Heq. by destruct m.
    + injection Heq as _ Heq. cbn in Hk. apply andb_true_iff in Hk as [_ Hk]. by apply (IH k).
Qed.

Lemma no_label_key k : sall key_byte k = true → match_label k = None.
Proof. intros Hk. rewrite <- (sapp_nil_r k). by apply no_label; [|left]. Qed.

Lemma through_assignment_key k r :
  sall key_byte k = true →
  through_assignment (k +:+ r) = String.append k <$> through_assignment r.
Proof.
  induction k as [|a k IH]; cbn.
  - by destruct (through_assignment r).
  - intros [Ha%key_byte_not_assigns Hk]%andb_true_iff. unfold assigns in Ha. rewrite Ha, IH by done.
    by destruct (through_assignment r).
Qed.

Lemma b64_char_key v : (0 ≤ v < 64)%Z → key_byte (b64_char v) = true.
Proof.
  intros H.
  assert (Forall (λ v, key_byte (b64_char v) = true) (map Z.of_nat (seq 0 64))) as Hall.
  { repeat (constructor; [reflexivity|]). constructor. }
  rewrite list.Forall_forall in Hall. apply Hall. apply list_elem_of_In, in_map_iff.
  exists (Z.to_nat v). split; [lia|]. apply in_seq. lia.
Qed.

Lemma b64_encode_shape n raw :
  Forall is_byte raw → length raw = (3 * n + 2)%nat →
  ∃ k, b64_encode raw = k +:+ "=" ∧ sall key_byte k = true ∧ String.length k = (4 * n + 3)%nat.
Proof.
  assert (∀ a, (0 ≤ a < 256)%Z → (0 ≤ a / 4 < 64 ∧ 0 ≤ a / 16 < 16 ∧ 0 ≤ a / 64 < 4 ∧
    0 ≤ a mod 4 < 4 ∧ 0 ≤ a mod 16 < 16 ∧ 0 ≤ a mod 64 < 64)%Z) as Hr.
  { intros a Ha. Z.to_euclidean_division_equations. lia. }
  revert raw. induction n as [|n IH]; intros raw Hb Hl.
  - destruct raw as [|a [|b [|]]]; cbn in Hl; try lia.
    inversion_clear Hb as [|?? Ha Hb']. inversion_clear Hb' as [|?? Hb _].
    apply Hr in Ha, Hb. eexists (String _ (String _ (String _ ""))). cbn [b64_encode].
    split; [reflexivity|]. split; [|done]. cbn [sall]. rewrite !b64_char_key by lia. done.
  - destruct raw as [|a [|b [|c raw]]]; cbn in Hl; try lia.
    inversion_clear Hb as [|?? Ha H1]. inversion_clear H1 as [|?? Hb H2]. inversion_clear H2 as [|?? Hc H3].
    destruct (IH raw H3) as (k & Hk1 & Hk2 & Hk3); [lia|]. apply Hr in Ha, Hb, Hc.
    cbn [b64_encode]. rewrite Hk1. eexists (String _ (String _ (String _ (String _ k)))).
    split; [reflexivity|]. split; [|cbn; lia]. cbn [sall]. rewrite !b64_char_key by lia. done.
Qed.

(** A key of [n] characters and what the repetition takes of it. *)
Lemma key_split n k : sall key_byte k = true → (n ≤ String.length k)%nat →
  ∃ a b, k = a +:+ b ∧ String.length a = n ∧ sall key_byte a = true ∧ sall key_byte b = true.
Proof.
  revert k. induction n as [|n IH]; intros k Hk Hn.
  { by exists "", k. }
  destruct k as [|c k]; cbn in *; [lia|]. apply andb_true_iff in Hk as [Hc Hk].
  destruct (IH k Hk) as (a & b & -> & Ha & Ka & Kb); [lia|]. exists (String c a), b.
  split_and!; [done|cbn; lia| |done]. cbn. by rewrite Hc.
Qed.

Lemma match_base64_key a c d r :
  sall key_byte a = true → String.length a = 42 → key_byte c = true →
  key_byte d = true ∨ d = "="%char →
  match_base64 (a +:+ String c (String d r)) = Some r.
Proof.
  intros Ha Hl Hc Hd. unfold match_base64. rewrite <- Hl, repeat_key_chars by done.
  cbn [mbind option_bind].
  assert (∀ c r, key_byte c = true → key_or_pad (String c r) = Some r) as Hk.
  { intros c' r' Hc'. unfold key_or_pad. destruct (CutPrefix (String c' r') "=") as [r''|] eqn:E.
    - apply CutPrefix_Some in E. cbn in E. by injection E as _ ->.
    - by apply key_char_byte. }
  rewrite Hk by done. cbn [mbind option_bind].
  destruct Hd as [Hd| ->]; [by rewrite Hk|done].
Qed.

Lemma repeat_match_short n m s :
  (∀ s r, m s = Some r → after s r) → (String.length s < n)%nat → repeat_match n m s = None.
Proof.
  intros Hm. revert s. induction n as [|n IH]; intros s Hn; [lia|]. cbn [repeat_match].
  destruct (m s) as [r|] eqn:E; [|done]. cbn [mbind option_bind].
  apply Hm, after_shorter in E. apply IH. lia.
Qed.

Lemma hex_char_after s r : hex_char s = Some r → after s r.
Proof. destruct s as [|a s]; cbn; [done|]. destruct (_ || _); [|done]. intros [= <-]. by exists (String a ""). Qed.

(** Fewer than 42 key characters are left as they are. *)
Lemma redact_short n p k :
  sall key_byte k = true → (String.length k < 42)%nat → redact_go n p k = k.
Proof.
  revert p k. induction n as [|n IH]; intros p k Hk Hl; [done|]. cbn [redact_go].
  assert (match_at p k = None) as ->.
  { unfold match_at. rewrite no_label_key by done.
    unfold match_base64. rewrite repeat_match_short by (done || apply key_char_after). cbn [mbind option_bind].
    unfold match_hex. destruct (Bool.eqb _ _); [done|].
    by rewrite repeat_match_short by (lia || apply hex_char_after). }
  destruct k as [|c k]; [done|]. cbn in *. apply andb_true_iff in Hk as [_ Hk]. f_equal. apply IH; [done|lia].
Qed.

(** ** Properties *)

(** A secret that follows a key label is removed from a logged message,
    whatever the secret and whatever follows it: the label stays, the secret
    becomes [<redacted>], and the rest is redacted on its own. *)
Theorem redact_labelled l secret rest :
  l ∈ labels → secret ≠ "" → sall (λ c, negb (re_space c)) secret = true → ends_word rest = true →
  redact (l +:+ secret +:+ rest) = l +:+ "<redacted>" +:+ redact rest.
Proof.
  intros Hl Hs Hw Hr. rewrite <- sapp_assoc.
  destruct (labels_match l (secret +:+ rest) Hl) as [Hlab _].
  destruct (labels_match l secret Hl) as [_ Hkeep].
  assert (match_at None ((l +:+ secret) +:+ rest) = Some rest) as Hm.
  { unfold match_at, match_label. rewrite sapp_assoc, Hlab. cbn [mbind option_bind].
    assert (skip_space (secret +:+ rest) = secret +:+ rest) as ->.
    { destruct secret as [|c w]; [done|]. cbn in Hw |- *. apply andb_true_iff in Hw as [Hc _].
      apply negb_true_iff in Hc. by rewrite Hc. }
    destruct (secret +:+ rest) as [|c t] eqn:E; [by destruct secret|]. rewrite <- E.
    by rewrite skip_nonspace_word. }
  rewrite redact_match by done. unfold replace_match. rewrite Hkeep, sapp_assoc. do 2 f_equal.
  by apply redact_go_after_word; [lia|].
Qed.

Lemma redact_labelled_witness :
  redact ("private_key=" +:+ "00ff" +:+ " and more") = "private_key=" +:+ "<redacted>" +:+ redact " and more".
Proof.
  apply (redact_labelled "private_key=" "00ff" " and more"); [|discriminate|reflexivity|reflexivity].
  change labels with (take 2 labels ++ "private_key=" :: drop 3 labels).
  apply elem_of_app. right. apply list_elem_of_here.
Defined.

(** C39: What redaction leaves of a key that stands without a label: the base64
    text of any 32-byte key stays in the message in full, for the replacement
    keeps everything up to the first '=', which is the key's own padding; and
    the last 20 digits of its hexadecimal text stay, for the base64 alternative
    matches the first 44. *)
Theorem bare_keys_survive raw :
  Forall is_byte raw → length raw = 32 →
  redact (b64_encode raw) = b64_encode raw +:+ "<redacted>" ∧
  ∃ first last, hex_encode raw = first +:+ last ∧ String.length last = 20 ∧
    redact (hex_encode raw) = "<redacted>" +:+ last.
Proof.
  intros Hb Hl. split.
  - destruct (b64_encode_shape 10 raw Hb Hl) as (k & -> & Hk & Hlen).
    destruct (key_split 42 k Hk) as (a & b & -> & Ha & Ka & Kb); [lia|].
    rewrite string_length_app in Hlen. destruct b as [|c [|]]; cbn in Hlen; try lia.
    cbn in Kb. apply andb_true_iff in Kb as [Hc _].
    assert (match_at None (((a +:+ String c "") +:+ "=") +:+ "") = Some "") as Hm.
    { unfold match_at. rewrite sapp_nil_r, no_label by auto. rewrite sapp_assoc.
      cbn [String.append]. by rewrite match_base64_key by auto. }
    apply redact_match in Hm. rewrite sapp_nil_r in Hm. rewrite Hm. clear Hm.
    unfold replace_match. rewrite through_assignment_key by done.
    rewrite redact_short by (done || cbn; lia). rewrite sapp_nil_r.
    change (through_assignment "=") with (Some "="). done.
  - assert (sall key_byte (hex_encode raw) = true) as Hk.
    { eapply sall_impl; [|by apply hex_encode_lower]. intros c Hc. unfold is_lower_hex in Hc.
      unfold key_byte, is_digit, code_in in *. lia. }
    pose proof (hex_encode_length raw) as Hlen. rewrite Hl in Hlen.
    destruct (key_split 44 _ Hk) as (m & r & Heq & Hm & Km & Kr); [lia|]. rewrite Heq in *.
    rewrite string_length_app, Hm in Hlen. exists m, r. split; [done|]. split; [lia|].
    destruct (key_split 42 m Km) as (a & b & -> & Ha & Ka & Kb); [lia|].
    rewrite string_length_app in Hm. destruct b as [|c [|d [|]]]; cbn in Hm; try lia.
    cbn in Kb. apply andb_true_iff in Kb as [Hc Hd]. apply andb_true_iff in Hd as [Hd _].
    assert (match_at None ((a +:+ String c (String d "")) +:+ r) = Some r) as Hmatch.
    { unfold match_at. rewrite no_label_key by (rewrite sall_app, Km; done).
      rewrite sapp_assoc. cbn [String.append]. by rewrite match_base64_key by auto. }
    rewrite redact_match by done. unfold replace_match.
    rewrite <- (sapp_nil_r (a +:+ _)), through_assignment_key by done. cbn [through_assignment fmap option_fmap option_map].
    f_equal. apply redact_short; [done|lia].
Qed.

Lemma bare_keys_survive_witness :
  redact (b64_encode (repeat 7%Z 32)) = b64_encode (repeat 7%Z 32) +:+ "<redacted>".
Proof.
  refine (proj1 (bare_keys_survive (repeat 7%Z 32) _ eq_refl)).
  cbn. repeat (constructor; [split; [discriminate|reflexivity]|]). constructor.
Defined.

(** A log and everything recorded in it since it was last cleared; the switch
    only while there is room. *)
Inductive logged : list string → Log → Prop :=
  | logged_new : logged [] empty_log
  | logged_Logf h l stamp message : logged h l →
      logged (h ++ [stamp +:+ "  " +:+ redact message]) (Logf stamp message l)
  | logged_Verbosef h l stamp message : logged h l →
      logged (if Verbose l then h ++ [stamp +:+ "  " +:+ redact message] else h)
        (Verbosef stamp message l)
  | logged_SetVerbose h l stamp (on : bool) : logged h l → (length (Lines l) < capacity)%nat →
      logged (h ++ [stamp +:+ "  verbose logging " +:+ (if on then "on" else "off")])
        (SetVerbose stamp on l)
  | logged_Clear h l : logged h l → logged [] (Clear l).

(** The last [capacity] lines of a history. *)
Definition kept (h : list string) : list string := drop (length h - capacity) h.

Lemma kept_snoc h x ls :
  ls = kept h →
  (if (length ls =? capacity)%nat then drop 1 ls else ls) ++ [x] = kept (h ++ [x]).
Proof.
  intros ->. unfold kept. rewrite length_app, length_drop. cbn [length].
  destruct (Nat.eqb_spec (length h - (length h - capacity)) capacity) as [E|E].
  - rewrite skipn_skipn, drop_app_le by (unfold capacity in *; lia). do 2 f_equal. unfold capacity in *; lia.
  - rewrite !(proj2 (Nat.sub_0_le _ _)) by (unfold capacity in *; lia). done.
Qed.

Lemma kept_length h : (length (kept h) ≤ capacity)%nat.
Proof. unfold kept. rewrite length_drop. lia. Qed.

(** C35: The log keeps the last [capacity] lines of what was recorded since it was
    cleared, in order, and never more, as long as the verbose switch is not
    touched while the log is full. *)
Theorem log_keeps_last h l :
  logged h l → Lines l = kept h ∧ (length (Lines l) ≤ capacity)%nat.
Proof.
  intros H. enough (Lines l = kept h) as Hk by (split; [done|]; rewrite Hk; apply kept_length).
  induction H as [|h l stamp message _ IH|h l stamp message _ IH|h l stamp on _ IH Hroom|h l _ IH]; [done| | | |done].
  - by apply (kept_snoc h).
  - unfold Verbosef, Verbose, Lines in *. destruct (verbose l); [|done]. by apply (kept_snoc h).
  - rewrite <- (kept_snoc h _ _ IH). unfold Lines in *. by rewrite (proj2 (Nat.eqb_neq _ _)) by lia.
Qed.

(** A full log. *)
Definition full_log : Log := Nat.iter 400 (Logf "12:00:00.000" "keepalive") empty_log.

Lemma log_keeps_last_witness : length (Lines (Logf "s" "m" full_log)) ≤ capacity.
Proof.
  assert (∀ n, ∃ h, logged h (Nat.iter n (Logf "12:00:00.000" "keepalive") empty_log)) as H.
  { intros n. induction n as [|n [h IH]]; [eexists; constructor|]. eexists. by apply logged_Logf. }
  destruct (H 400) as [h Hh].
  exact (proj2 (log_keeps_last _ _ (logged_Logf h full_log "s" "m" Hh))).
Defined.

(** The proviso of the bound is needed: switching verbose logging while the
    log is full adds a line without dropping one, and from then on nothing is
    ever dropped, however many lines follow. *)
Theorem SetVerbose_unbounds l stamp on messages :
  length (Lines l) = capacity →
  length (Lines (fold_left (λ l m, Logf m.1 m.2 l) messages (SetVerbose stamp on l))) =
    (capacity + 1 + length messages)%nat.
Proof.
  intros H.
  enough (∀ l, (capacity < length (Lines l))%nat →
    length (Lines (fold_left (λ l m, Logf m.1 m.2 l) messages l)) = (length (Lines l) + length messages)%nat) as Hm.
  { rewrite Hm; unfold Lines, SetVerbose in *; cbn [lines]; rewrite length_app; cbn [length]; lia. }
  clear. induction messages as [|m ms IH]; intros l Hl; cbn [fold_left length]; [lia|].
  rewrite IH; unfold Lines, Logf in *; cbn [lines];
    rewrite (proj2 (Nat.eqb_neq _ _)) by lia; rewrite length_app; cbn [length]; lia.
Qed.

Lemma SetVerbose_unbounds_witness :
  length (Lines (fold_left (λ l m, Logf m.1 m.2 l) [("a", "b"); ("c", "d")]
    (SetVerbose "12:00:01.000" true full_log))) = 403.
Proof. apply (SetVerbose_unbounds full_log). vm_compute. reflexivity. Defined.
