(* ===== verification/Effects.v ===== *)
(** * Calls to the world outside

    The core runs commands, rewrites files, opens tunnel devices and reads the
    clock.  Such an operation is a function of the calls made so far and of an
    environment ([Env]), which answers each call, knowing what came before, in
    any way it likes: a theorem about every environment is a theorem about
    every behaviour of the machine.  An operation gives a value and the calls
    made, or no value when it panics or has not ended within its fuel. *)

From S2P Require Import Prelude GoStrings NetAddr.
From stdpp Require Import options.

(** ** Calls and answers *)

(** [netip.PrefixFrom] of an address without a zone. *)
Definition prefix : Type := Addr * Z.

(** A row of the routing table: the length of its destination's prefix, its
    adapter, its metric and the router, if that is an address. *)
Record forward_row := mkRow { PrefixLength : Z; InterfaceLUID : Z; Metric : Z; NextHopAddr : option Addr }.

Inductive call :=
  (* os/exec, os *)
  | Exec (name : string) (args : list string)
  | LookPath (name : string)
  | Readlink (path : string)
  | ReadFile (path : string)
  | Remove (path : string)
  | WriteFile (path contents : string)
  | Symlink (target path : string)
  (* the tunnel device and its interface, known by the number of calls made
     before the one that created it *)
  | CreateTUN (name : string) (mtu : Z)
  | TunName (tun : nat)
  | TunClose (tun : nat)
  | IpcSet (device : nat) (text : string)
  | DeviceUp (device : nat)
  | IpcGet (device : nat)
  | DeviceClose (device : nat)
  (* the LUID of the adapter, where the interface is Windows' own *)
  | LUID (tun : nat)
  (* a device on a user-space network stack, or on a descriptor of the host *)
  | CreateNetTUN (addresses dns : list string) (mtu : Z)
  | Adopt (fd : Z)
  | Dup (fd : Z)
  | SetNonblock (fd : Z)
  | CloseFd (fd : Z)
  | TUNFromFile (fd : Z)
  | TunMTU (tun : nat)
  (* the device on a tun, told the MTU that is stated for it, if any *)
  | NewDevice (tun : nat) (stated : option Z)
  | DisableRoaming (device : nat)
  | PeekSocket4 (device : nat)
  | PeekSocket6 (device : nat)
  (* net/http through such a device: the request, its response, its body up to
     a limit, the end of it; and a connection opened and closed again *)
  | NewRequest (url : string)
  | HttpDo (device : nat) (url : string) (timeout : Z)
  | ReadBody (limit : Z)
  | CloseBody
  | Dial (device : nat) (target : string) (timeout : Z)
  (* winipcfg: the routing table, and the adapters, known by their LUID; the
     MTU goes with a fixed metric of zero *)
  | GetIPForwardTable
  | IPInterface (luid : Z)
  | SetIPAddresses (luid : Z) (address : prefix)
  | SetIPInterface (luid mtu : Z)
  | AddRoute (luid : Z) (dst : prefix) (next : Addr)
  | DeleteRoute (luid : Z) (dst : prefix) (next : Addr)
  | SetDNS (luid : Z) (servers : list Addr)
  | FlushDNS (luid : Z)
  | FlushRoutes (luid : Z) (v6 : bool)
  (* the log's switch *)
  | SetVerboseLog (on : bool)
  (* a program's streams, its usage text, and a wait for a signal to stop, or
     at most so long *)
  | Print (text : string)
  | PrintError (text : string)
  | Usage
  | NotifySignals
  | AwaitStop (limit : option Z)
  (* the process *)
  | Geteuid
  | Getpid
  | Getenv (name : string)
  | Executable
  | IsWindowsService
  (* crypto/rand *)
  | RandRead (count : Z)
  (* a listening socket *)
  | MkdirAll (path : string) (mode : Z)
  | Listen (path : string)
  | Chmod (path : string) (mode : Z)
  | CloseListener (socket : nat)
  | CloseOnExec (fd : Z)
  | FileListener (fd : Z)
  | ListenPipe (name security : string)
  | ListenUDP (address : Addr) (port : Z)
  | ListenTCP (device : nat) (address : Addr) (port : Z)
  | ListenAndServe (address : string)
  (* the service control manager; a trigger is its type, action, subtype and
     the one item of data it has *)
  | ConnectManager
  | DisconnectManager (manager : nat)
  | OpenService (manager : nat) (name : string)
  | CreateService (manager : nat) (name executable : string) (start : Z)
  | ChangeTrigger (service : nat) (kind action : Z) (subtype : list Z) (data_type : Z) (data : list Z)
  | QueryService (service : nat)
  | ControlService (service : nat) (control : Z)
  | DeleteService (service : nat)
  | CloseService (service : nat)
  (* a status sent to the control manager, and [go h.work()] *)
  | TellManager (state : Z)
  | GoWork
  (* net, time *)
  | LookupHost (host : string)
  | Now
  | Sleep (ns : Z).

Inductive outcome :=
  | Output (s : string)
  | Hosts (l : list string)
  | Instant (ns : Z)
  (* what the program printed before it failed, the error, and whether it is
     [fs.ErrNotExist] *)
  | Failure (printed : string) (e : error) (missing : bool)
  (* a descriptor or another number *)
  | Number (z : Z)
  | Rows (rows : list forward_row).

Definition failed (o : outcome) : bool := match o with Failure _ _ _ => true | _ => false end.

Definition history := list (call * outcome).

(** What the calls of a history add up to, each one told how many came before. *)
Definition tally {X} (step : nat → X → call * outcome → X) (x : X) (h : history) : X :=
  (foldl (λ p co, (S p.1, step p.1 p.2 co)) (0, x) h).2.

Lemma tally_snoc {X} (step : nat → X → call * outcome → X) x h co :
  tally step x (h ++ [co]) = step (length h) (tally step x h) co.
Proof.
  unfold tally. rewrite foldl_app. cbn. f_equal.
  induction h as [|y h IH] using rev_ind; [done|]. rewrite foldl_app, length_app. cbn. lia.
Qed.

Class Env := answer : history → call → outcome.

(** ** Operations *)

Definition IO (A : Type) : Type := history → option A * history.

#[export] Instance io_ret : MRet IO := λ A a h, (Some a, h).
#[export] Instance io_bind : MBind IO := λ A B k m h,
  match m h with (Some a, h') => k a h' | (None, h') => (None, h') end.

(** A panic, or running out of fuel. *)
Definition diverge {A} : IO A := λ h, (None, h).

(** One call. *)
Definition perform `{Env} (c : call) : IO outcome := λ h, (Some (answer h c), h ++ [(c, answer h c)]).

(** The number of calls so far, which names what the next call creates. *)
Definition next_handle : IO nat := λ h, (Some (length h), h).

(** Go's [if err != nil { return ... }]: the rest runs when [m] succeeded. *)
Definition try {A B} (m : IO (result A)) (k : A → IO (result B)) : IO (result B) :=
  r ← m; match r with Ok a => k a | Err e => mret (Err e) end.

Declare Scope io_scope.
Delimit Scope io_scope with io.
Notation "x ←? m ; k" := (try m (λ x, k))
  (at level 20, m at level 100, k at level 200, only parsing) : io_scope.
Open Scope io_scope.

(** [fmt.Errorf("prefix: %w", err)] of what an operation returned. *)
Definition io_wrap {A} (prefix : error) (m : IO (result A)) : IO (result A) :=
  r ← m; mret (wrap prefix r).

(** A call whose success carries nothing of interest. *)
Definition to_unit (o : outcome) : result unit :=
  match o with Failure _ e _ => Err e | _ => Ok tt end.

(** ** Reasoning *)

(** From [h], [m] gives a value, and the value and the history are in [Q]. *)
Definition wp {A} (m : IO A) (Q : A → history → Prop) (h : history) : Prop :=
  match m h with (Some a, h') => Q a h' | (None, _) => False end.

(** The same when [m] may also diverge. *)
Definition wlp {A} (m : IO A) (Q : A → history → Prop) (h : history) : Prop :=
  match m h with (Some a, h') => Q a h' | (None, _) => True end.

Section Wp.
Context {A B : Type}.
Implicit Types (m : IO A) (k : A → IO B) (h : history).

Lemma wp_ret (a : A) Q h : Q a h → wp (mret a) Q h.
Proof. done. Qed.

Lemma wp_bind m k Q h : wp m (λ a h', wp (k a) Q h') h → wp (m ≫= k) Q h.
Proof. unfold wp, mbind, io_bind. by destruct (m h) as [[a|] h']. Qed.

Lemma wp_mono m (P Q : A → history → Prop) h :
  (∀ a h', P a h' → Q a h') → wp m P h → wp m Q h.
Proof. unfold wp. destruct (m h) as [[a|] h']; auto. Qed.

Lemma wp_conj m (P Q : A → history → Prop) h :
  wp m P h → wp m Q h → wp m (λ a h', P a h' ∧ Q a h') h.
Proof. unfold wp. destruct (m h) as [[a|] h']; auto. Qed.

Lemma wp_perform `{Env} c (Q : outcome → history → Prop) h :
  Q (answer h c) (h ++ [(c, answer h c)]) → wp (perform c) Q h.
Proof. done. Qed.

Lemma wlp_perform `{Env} c (Q : outcome → history → Prop) h :
  Q (answer h c) (h ++ [(c, answer h c)]) → wlp (perform c) Q h.
Proof. done. Qed.

Lemma wlp_ret (a : A) Q h : Q a h → wlp (mret a) Q h.
Proof. done. Qed.

Lemma wp_wlp m Q h : wp m Q h → wlp m Q h.
Proof. unfold wp, wlp. destruct (m h) as [[a|] h']; auto. Qed.

Lemma wlp_bind m k Q h : wlp m (λ a h', wlp (k a) Q h') h → wlp (m ≫= k) Q h.
Proof. unfold wlp, mbind, io_bind. by destruct (m h) as [[a|] h']. Qed.

Lemma wlp_mono m (P Q : A → history → Prop) h :
  (∀ a h', P a h' → Q a h') → wlp m P h → wlp m Q h.
Proof. unfold wlp. destruct (m h) as [[a|] h']; auto. Qed.

Lemma wlp_eq m Q h a h' : wlp m Q h → m h = (Some a, h') → Q a h'.
Proof. unfold wlp. intros H E. by rewrite E in H. Qed.

Lemma wp_eq m Q h : wp m Q h → ∃ a h', m h = (Some a, h') ∧ Q a h'.
Proof. unfold wp. destruct (m h) as [[a|] h']; [eauto|done]. Qed.
End Wp.

(** An operation that comes back satisfies what is shown of it in parts. *)
Lemma wp_all {A} (m : IO A) (P Q : A → history → Prop) h :
  wp m (λ _ _, True) h → wlp m P h → wlp m Q h → wp m (λ a h', P a h' ∧ Q a h') h.
Proof. unfold wp, wlp. by destruct (m h) as [[a|] h']. Qed.

(** The same of what is shown of it when it does. *)
Lemma wp_total_at {A} (m : IO A) (Q : A → history → Prop) h : wp m (λ _ _, True) h → wlp m Q h → wp m Q h.
Proof. unfold wp, wlp. by destruct (m h) as [[a|] h']. Qed.

(** Running step by step. *)
Lemma run_bind {A B} (m : IO A) (k : A → IO B) h a h' : m h = (Some a, h') → (m ≫= k) h = k a h'.
Proof. unfold mbind, io_bind. by intros ->. Qed.
Lemma run_try {A B} (m : IO (result A)) (k : A → IO (result B)) h r h' :
  m h = (Some r, h') → try m k h = match r with Ok a => k a | Err e => mret (Err e) end h'.
Proof. apply run_bind. Qed.

(** An operation whose value is only transformed. *)
Lemma run_map {A B} (m : IO A) (f : A → B) h a h' :
  m h = (Some a, h') → (r ← m; mret (f r)) h = (Some (f a), h').
Proof. unfold mbind, io_bind. by intros ->. Qed.

Lemma wlp_conj {A} (m : IO A) (P Q : A → history → Prop) h :
  wlp m P h → wlp m Q h → wlp m (λ a h', P a h' ∧ Q a h') h.
Proof. unfold wlp. by destruct (m h) as [[a|] h']. Qed.

Lemma wlp_any {A} (m : IO A) h : wlp m (λ _ _, True) h.
Proof. unfold wlp. by destruct (m h) as [[a|] h']. Qed.

(** A call whose failure is handled apart. *)
Lemma wp_checked `{Env} {A} c (bad : error → IO A) (good : IO A) (Q : A → history → Prop) h :
  (∀ e, failed (answer h c) = true → wp (bad e) Q (h ++ [(c, answer h c)])) →
  (failed (answer h c) = false → wp good Q (h ++ [(c, answer h c)])) →
  wp (o ← perform c; match o with Failure _ e _ => bad e | _ => good end) Q h.
Proof. intros H1 H2. apply wp_bind, wp_perform. destruct (answer h c); auto. Qed.

Lemma wlp_checked `{Env} {A} c (bad : error → IO A) (good : IO A) (Q : A → history → Prop) h :
  (∀ e, failed (answer h c) = true → wlp (bad e) Q (h ++ [(c, answer h c)])) →
  (failed (answer h c) = false → wlp good Q (h ++ [(c, answer h c)])) →
  wlp (o ← perform c; match o with Failure _ e _ => bad e | _ => good end) Q h.
Proof. intros H1 H2. apply wlp_bind, wlp_perform. destruct (answer h c); auto. Qed.

Section Try.
Context {A B : Type}.
Implicit Types (m : IO (result A)) (k : A → IO (result B)) (h : history).

Lemma wp_try m k Q h :
  wp m (λ r h', match r with Ok a => wp (k a) Q h' | Err e => Q (Err e) h' end) h →
  wp (try m k) Q h.
Proof. intros H. apply wp_bind. eapply wp_mono; [|exact H]. by intros [a|e] h'. Qed.

Lemma wlp_try m k Q h :
  wlp m (λ r h', match r with Ok a => wlp (k a) Q h' | Err e => Q (Err e) h' end) h →
  wlp (try m k) Q h.
Proof. intros H. apply wlp_bind. eapply wlp_mono; [|exact H]. by intros [a|e] h'. Qed.

Lemma wp_io_wrap p (m : IO (result A)) Q h :
  wp m (λ r h', Q (wrap p r) h') h → wp (io_wrap p m) Q h.
Proof. intros H. apply wp_bind. eapply wp_mono; [|exact H]. auto. Qed.

Lemma wlp_io_wrap p (m : IO (result A)) Q h :
  wlp m (λ r h', Q (wrap p r) h') h → wlp (io_wrap p m) Q h.
Proof. intros H. apply wlp_bind. eapply wlp_mono; [|exact H]. auto. Qed.
End Try.

(** ** What an operation leaves alone *)

(** [m] keeps what [f] observes of the history. *)
Definition keeps {X A} (f : history → X) (m : IO A) : Prop :=
  ∀ h, wlp m (λ _ h', f h' = f h) h.

Section Keeps.
Context {X A B : Type} (f : history → X).

Lemma keeps_ret (a : A) : keeps f (mret a).
Proof. done. Qed.

Lemma keeps_diverge : keeps f (@diverge A).
Proof. done. Qed.

Lemma keeps_bind (m : IO A) (k : A → IO B) : keeps f m → (∀ a, keeps f (k a)) → keeps f (m ≫= k).
Proof.
  intros Hm Hk h. apply wlp_bind. eapply wlp_mono; [|apply Hm]. intros a h1 H1.
  eapply wlp_mono; [|apply Hk]. cbn. congruence.
Qed.

Lemma keeps_perform `{Env} c : (∀ h, f (h ++ [(c, answer h c)]) = f h) → keeps f (perform c).
Proof. intros Hc h. apply wlp_perform, Hc. Qed.

Lemma wlp_keeps (m : IO A) (Q : A → history → Prop) h :
  keeps f m → (∀ a h', f h' = f h → Q a h') → wlp m Q h.
Proof. intros Hm HQ. eapply wlp_mono; [|apply Hm]. auto. Qed.
End Keeps.

Lemma keeps_try {X A B} (f : history → X) (m : IO (result A)) (k : A → IO (result B)) :
  keeps f m → (∀ a, keeps f (k a)) → keeps f (try m k).
Proof. intros Hm Hk. apply keeps_bind; [done|]. intros [a|e]; [apply Hk|apply keeps_ret]. Qed.

Lemma keeps_wrap {X A} (f : history → X) p (m : IO (result A)) : keeps f m → keeps f (io_wrap p m).
Proof. intros Hm. by apply keeps_bind. Qed.

Create HintDb keeps.
#[export] Hint Resolve keeps_ret keeps_diverge keeps_bind keeps_try keeps_wrap : keeps.
#[export] Hint Extern 2 (keeps _ (if ?b then _ else _)) => destruct b : keeps.
#[export] Hint Extern 2 (keeps _ (match ?x with _ => _ end)) => destruct x : keeps.

(** ** Operations only add to what was done *)

Definition extends {A} (m : IO A) : Prop := ∀ h, wlp m (λ _ h', h `prefix_of` h') h.

Section Extends.
Context {A B : Type}.

Lemma extends_ret (a : A) : extends (mret a).
Proof. intros h. apply wlp_ret. reflexivity. Qed.
Lemma extends_diverge : extends (@diverge A).
Proof. done. Qed.
Lemma extends_handle : extends next_handle.
Proof. intros h. unfold wlp. cbn. reflexivity. Qed.
Lemma extends_perform `{Env} c : extends (perform c).
Proof. intros h. apply wlp_perform. by apply prefix_app_r. Qed.
Lemma extends_bind (m : IO A) (k : A → IO B) : extends m → (∀ a, extends (k a)) → extends (m ≫= k).
Proof.
  intros Hm Hk h. apply wlp_bind. eapply wlp_mono; [|apply Hm]. intros a h1 H1.
  eapply wlp_mono; [|apply Hk]. intros b h2 H2. exact (transitivity H1 H2).
Qed.
End Extends.

Lemma extends_try {A B} (m : IO (result A)) (k : A → IO (result B)) : extends m → (∀ a, extends (k a)) → extends (try m k).
Proof. intros Hm Hk. apply extends_bind; [done|]. intros [a|e]; [apply Hk|apply extends_ret]. Qed.
Lemma extends_wrap {A} p (m : IO (result A)) : extends m → extends (io_wrap p m).
Proof. intros Hm. apply extends_bind; [done|]. intros r. apply extends_ret. Qed.

#[export] Hint Resolve extends_ret extends_diverge extends_handle extends_perform extends_bind extends_try extends_wrap : keeps.
#[export] Hint Extern 2 (extends (if ?b then _ else _)) => destruct b : keeps.
#[export] Hint Extern 2 (extends (match ?x with _ => _ end)) => destruct x : keeps.

(** ** Operations that always come back *)

Definition total {A} (m : IO A) : Prop := ∀ h, wp m (λ _ _, True) h.

Section Total.
Context {A B : Type}.

Lemma total_ret (a : A) : total (mret a).
Proof. done. Qed.
Lemma total_perform `{Env} c : total (perform c).
Proof. done. Qed.
Lemma total_bind (m : IO A) (k : A → IO B) : total m → (∀ a, total (k a)) → total (m ≫= k).
Proof. intros Hm Hk h. apply wp_bind. eapply wp_mono; [|apply Hm]. intros a h1 _. apply Hk. Qed.

(** What holds of every result holds, when there is one. *)
Lemma wp_total (m : IO A) Q h : total m → wlp m Q h → wp m Q h.
Proof. unfold total, wp, wlp. intros Ht. specialize (Ht h). by destruct (m h) as [[a|] h']. Qed.
End Total.

Lemma total_try {A B} (m : IO (result A)) (k : A → IO (result B)) :
  total m → (∀ a, total (k a)) → total (try m k).
Proof. intros Hm Hk. apply total_bind; [done|]. intros [a|e]; [apply Hk|apply total_ret]. Qed.
Lemma total_wrap {A} p (m : IO (result A)) : total m → total (io_wrap p m).
Proof. intros Hm. by apply total_bind. Qed.

#[export] Hint Resolve total_ret total_bind total_try total_wrap total_perform : keeps.
#[export] Hint Extern 2 (total (if ?b then _ else _)) => destruct b : keeps.
#[export] Hint Extern 2 (total (match ?x with _ => _ end)) => destruct x : keeps.

(** ** Scripts: the calls an operation makes, in order *)

Definition calls (h : history) : list call := map fst h.

(** The calls made are those of the script, up to some point; success means
    all of them. *)
Definition follows {A} (m : IO (result A)) (script : list call) : Prop :=
  ∀ h, wp m (λ r h', ∃ n, calls h' = calls h ++ take n script ∧ (is_ok r = true → n = length script)) h.

Lemma calls_snoc h c o : calls (h ++ [(c, o)]) = calls h ++ [c].
Proof. unfold calls. by rewrite map_app. Qed.

Lemma follows_ret {A} (a : A) : follows (mret (Ok a)) [].
Proof. intros h. apply wp_ret. exists 0. by rewrite app_nil_r. Qed.

Lemma follows_try {A B} (m : IO (result A)) (k : A → IO (result B)) s1 s2 :
  follows m s1 → (∀ a, follows (k a) s2) → follows (try m k) (s1 ++ s2).
Proof.
  intros Hm Hk h. apply wp_try. eapply wp_mono; [|apply Hm]. intros [a|e] h1 (n & H1 & Hn).
  - specialize (Hn eq_refl) as ->. rewrite firstn_all in H1. eapply wp_mono; [|apply Hk].
    intros r h2 (n2 & H2 & Hn2). exists (length s1 + n2). rewrite H2, H1, <- app_assoc, take_app_add.
    split; [done|]. intros Hr. rewrite length_app. f_equal. auto.
  - exists (min n (length s1)). split; [|done]. rewrite H1. f_equal.
    rewrite take_app_le by lia. destruct (Nat.le_ge_cases n (length s1)).
    + by rewrite Nat.min_l.
    + by rewrite Nat.min_r, !take_ge by lia.
Qed.

(** A script of one call, whatever it answers. *)
Lemma follows_call `{Env} {A} c (k : outcome → IO (result A)) :
  (∀ o, ∃ r, k o = mret r) → follows (perform c ≫= k) [c].
Proof.
  intros Hk h. apply wp_bind, wp_perform. destruct (Hk (answer h c)) as [r ->]. apply wp_ret.
  exists 1. by rewrite calls_snoc.
Qed.

Lemma follows_err {A} (e : error) s : @follows A (mret (Err e)) s.
Proof. intros h. apply wp_ret. exists 0. by rewrite app_nil_r. Qed.

Lemma follows_when (b : bool) (m : IO (result unit)) s :
  follows m s → follows (if b then m else mret (Ok tt)) (if b then s else []).
Proof. intros. destruct b; [done|apply follows_ret]. Qed.

(** A clock that moves forward, and past a pause while sleeping. *)
Class Clock (env : Env) := {
  clock : history → Z;
  now_is h : answer h Now = Instant (clock h);
  clock_mono h co : (clock h ≤ clock (h ++ [co]))%Z;
  clock_sleep h ns : (clock h + ns ≤ clock (h ++ [(Sleep ns, answer h (Sleep ns))]))%Z;
}.
