(* ===== verification/System.v ===== *)
(** * Taking over the machine's routing: core/internal/system, on Linux

    [Snapshot] before touching anything, [Apply], and [Restore] from the
    snapshot (network_linux.go; [Config] is doc.go's). *)

From S2P Require Import Prelude GoStrings NetAddr Effects.
From Stdlib Require Import Ascii.
From stdpp Require Import options.

(** doc.go's [Config]. *)
Record Config := mkConfig {
  Interface : string;
  Handle : Z;
  Address : string;
  MTU : Z;
  EndpointHost : string;
  DNS : list string;
}.

Definition resolvConf : string := "/etc/resolv.conf".

Record State := mkState {
  DefaultGateway : string;
  DefaultInterface : string;
  Resolved : bool;
  PreviousResolvConf : option string;
  ResolvConfLink : string;
}.

Definition defaultHalves : list string := ["0.0.0.0/1"; "128.0.0.0/1"].
Definition v6Halves : list string := ["::/1"; "8000::/1"].

(** [run]. *)
Definition run `{Env} (name : string) (args : list string) : IO (result string) :=
  o ← perform (Exec name args);
  mret match o with
       | Failure printed e _ =>
           Err ([Plain (name +:+ " " +:+ Join args " "); Lit ": "] ++ e ++ [Lit ": "; Plain (TrimSpace printed)])
       | Output s => Ok s
       | _ => Ok ""
       end.

(** ** Snapshot *)

(** The loop over the fields of the first default route. *)
Fixpoint route_fields (fields : list string) (gw dev : string) : string * string :=
  match fields with
  | f :: ((v :: _) as rest) =>
      if bool_decide (f = "via") then route_fields rest v dev
      else if bool_decide (f = "dev") then route_fields rest gw v
      else route_fields rest gw dev
  | _ => (gw, dev)
  end.

(** The first line that is a default route decides. *)
Fixpoint default_route (ls : list string) : string * string :=
  match ls with
  | [] => ("", "")
  | l :: ls =>
      match Fields l with
      | f :: fields => if bool_decide (f = "default") then route_fields (f :: fields) "" ""
                       else default_route ls
      | [] => default_route ls
      end
  end.

Definition resolvedIsAnswering `{Env} : IO bool :=
  o ← perform (LookPath "resolvectl");
  if failed o then mret false
  else r ← run "resolvectl" ["status"]; mret (is_ok r).

Definition Snapshot `{Env} : IO (result State) :=
  output ←? io_wrap [Lit "finding the default route: "] (run "ip" ["-4"; "route"; "show"; "default"]);
  let '(gw, dev) := default_route (Split output newline) in
  if bool_decide (gw = "") || bool_decide (dev = "")
  then mret (Err [Lit "no default route: this machine is not on a network"])
  else
    resolved ← resolvedIsAnswering;
    if resolved : bool then mret (Ok (mkState gw dev true None ""))
    else
      target ← perform (Readlink resolvConf);
      contents ← perform (ReadFile resolvConf);
      mret (Ok (mkState gw dev false
        (match contents with Output s => Some s | _ => None end)
        (match target with Output s => s | _ => "" end))).

(** ** Apply *)

Definition err_about (what : string) (iface : string) : error := [Lit what; Plain iface; Lit ": "].

(** Run a list of steps, stopping at the first that fails. *)
Fixpoint in_turn (steps : list (IO (result unit))) : IO (result unit) :=
  match steps with
  | [] => mret (Ok tt)
  | s :: steps => _ ←? s; in_turn steps
  end.

(** A command whose output is not used. *)
Definition command `{Env} (prefix : error) (name : string) (args : list string) : IO (result unit) :=
  r ← run name args; mret (wrap prefix (const tt <$> r)).

Definition dns_file (servers : list string) : string :=
  "# Written by Caelo while a tunnel is up." +:+ nl +:+
  "# The previous contents are restored when it comes down." +:+ nl +:+
  sconcat (map (λ s, "nameserver " +:+ s +:+ nl) servers).

(** The check of the servers, in order. *)
Fixpoint check_servers (servers : list string) : result unit :=
  match servers with
  | [] => Ok tt
  | s :: servers =>
      match ParseIP s with
      | None => Err [Lit "DNS server "; Quoted s; Lit " is not an address"]
      | Some _ => check_servers servers
      end
  end.

Definition applyDNS `{Env} (state : State) (cfg : Config) : IO (result unit) :=
  if Resolved state then
    _ ←? command (err_about "setting DNS on " (Interface cfg)) "resolvectl"
           (["dns"; Interface cfg] ++ DNS cfg);
    command (err_about "claiming DNS for " (Interface cfg)) "resolvectl"
      ["domain"; Interface cfg; "~."]
  else
    _ ←? mret (check_servers (DNS cfg));
    _ ←? (if bool_decide (ResolvConfLink state = "") then mret (Ok tt)
          else io_wrap (err_about "replacing " resolvConf)
                 (o ← perform (Remove resolvConf); mret (to_unit o)));
    io_wrap (err_about "writing " resolvConf)
      (o ← perform (WriteFile resolvConf (dns_file (DNS cfg))); mret (to_unit o)).

Definition add_half `{Env} (cfg : Config) (half : string) : IO (result unit) :=
  command [Lit "routing "; Plain half; Lit " into the tunnel: "]
    "ip" ["route"; "add"; half; "dev"; Interface cfg].

(** IPv6 is blocked; failure is not fatal. *)
Definition block_v6 `{Env} (half : string) : IO (result unit) :=
  _ ← run "ip" ["-6"; "route"; "add"; "unreachable"; half]; mret (Ok tt).

Definition Apply `{Env} (state : State) (cfg : Config) : IO (result unit) :=
  _ ←? command (err_about "addressing " (Interface cfg))
         "ip" ["address"; "add"; Address cfg +:+ "/32"; "dev"; Interface cfg];
  _ ←? (if (0 <? MTU cfg)%Z
        then command (err_about "setting MTU on " (Interface cfg))
               "ip" ["link"; "set"; "dev"; Interface cfg; "mtu"; Itoa (MTU cfg)]
        else mret (Ok tt));
  _ ←? command (err_about "bringing " (Interface cfg +:+ " up"))
         "ip" ["link"; "set"; "dev"; Interface cfg; "up"];
  _ ←? command [Lit "pinning the endpoint route: "]
         "ip" ["route"; "add"; EndpointHost cfg +:+ "/32"; "via"; DefaultGateway state;
               "dev"; DefaultInterface state];
  _ ←? in_turn (map (add_half cfg) defaultHalves);
  _ ←? in_turn (map block_v6 v6Halves);
  if bool_decide (DNS cfg = []) then mret (Ok tt) else applyDNS state cfg.

(** ** Restore *)

Definition restoreDNS `{Env} (state : State) (cfg : Config) : IO (result unit) :=
  if Resolved state then
    r ← run "resolvectl" ["revert"; Interface cfg]; mret (const tt <$> r)
  else if negb (bool_decide (ResolvConfLink state = "")) then
    o ← perform (Remove resolvConf);
    match o with
    | Failure _ e false => mret (Err e)
    | _ => o ← perform (Symlink (ResolvConfLink state) resolvConf); mret (to_unit o)
    end
  else match PreviousResolvConf state with
  | None =>
      o ← perform (Remove resolvConf);
      mret match o with Failure _ e false => Err e | _ => Ok tt end
  | Some contents =>
      o ← perform (WriteFile resolvConf contents); mret (to_unit o)
  end.

(** [note]: the problems so far and one more. *)
Definition note (what : string) (r : result unit) (problems : list error) : list error :=
  match r with Ok _ => problems | Err e => problems ++ [[Plain what; Lit ": "] ++ e] end.

(** Run every step, whatever fails, and note the problems. *)
Fixpoint attempt_all (steps : list (string * IO (result unit))) (problems : list error)
    : IO (list error) :=
  match steps with
  | [] => mret problems
  | (what, step) :: steps => r ← step; attempt_all steps (note what r problems)
  end.

Definition del_half `{Env} (cfg : Config) (half : string) : string * IO (result unit) :=
  ("removing route " +:+ half, command [] "ip" ["route"; "del"; half; "dev"; Interface cfg]).

Definition unblock_v6 `{Env} (half : string) : string * IO (result unit) :=
  ("", _ ← run "ip" ["-6"; "route"; "del"; "unreachable"; half]; mret (Ok tt)).

(** The texts of the problems, joined. *)
Definition join_problems (problems : list error) : error :=
  concat (map (λ p, Lit (nl +:+ "  ") :: p) problems).

Definition Restore `{Env} (state : State) (cfg : Config) : IO (result unit) :=
  problems ← attempt_all
    (map (del_half cfg) defaultHalves ++
     [("removing the endpoint route", command [] "ip" ["route"; "del"; EndpointHost cfg +:+ "/32"])] ++
     map unblock_v6 v6Halves ++
     [("restoring DNS", restoreDNS state cfg)]) [];
  mret (if bool_decide (problems = []) then Ok tt
        else Err (Lit "the machine was not fully restored:" :: join_problems problems)).
