(* ===== verification/SystemFacts.v ===== *)
(** * Properties of taking over the machine's routing

    What the commands [System] runs are documented to do, as a machine that
    the calls act on and an interface ([Documented]) between the environment
    and it; and that [Restore] brings the machine back, wherever [Apply]
    stopped. *)

From S2P Require Import Prelude GoStrings NetAddr Effects System.
From Stdlib Require Import Ascii.
From stdpp Require Import options.

(** ** The machine *)

Inductive file := Absent | Regular (contents : string) | Link (target : string).
#[export] Instance file_eq_dec : EqDecision file.
Proof. solve_decision. Defined.

(** The IPv4 routes by destination, the IPv6 ranges made unreachable, the
    resolver's file, and the interfaces that have DNS settings. *)
Record machine := mkMachine {
  routes : gmap string string;
  blocked : gset string;
  resolv : file;
  claimed : gset string;
}.

Definition with_routes f m := mkMachine (f (routes m)) (blocked m) (resolv m) (claimed m).
Definition with_blocked f m := mkMachine (routes m) (f (blocked m)) (resolv m) (claimed m).
Definition with_resolv f m := mkMachine (routes m) (blocked m) (f (resolv m)) (claimed m).
Definition with_claimed f m := mkMachine (routes m) (blocked m) (resolv m) (f (claimed m)).

(** [ip route del dst dev iface] removes that route and no other. *)
Definition drop_route (dst iface : string) (r : gmap string string) : gmap string string :=
  if bool_decide (r !! dst = Some iface) then delete dst r else r.

(** What [ip] and [resolvectl] do when they succeed. *)
Definition ip_effect (args : list string) : machine → machine :=
  match args with
  | [a; b; dst] =>
      if bool_decide ([a; b] = ["route"; "del"]) then with_routes (delete dst) else id
  | [a; b; c; d; e] =>
      if bool_decide ([a; b; d] = ["route"; "add"; "dev"]) then with_routes <[c := e]>
      else if bool_decide ([a; b; d] = ["route"; "del"; "dev"]) then with_routes (drop_route c e)
      else if bool_decide ([a; b; c; d] = ["-6"; "route"; "add"; "unreachable"])
           then with_blocked (λ s, {[e]} ∪ s)
      else if bool_decide ([a; b; c; d] = ["-6"; "route"; "del"; "unreachable"])
           then with_blocked (λ s, s ∖ {[e]})
      else id
  | [a; b; dst; c; gw; d; dev] =>
      if bool_decide ([a; b; c; d] = ["route"; "add"; "via"; "dev"]) then with_routes <[dst := dev]>
      else id
  | _ => id
  end.

Definition resolvectl_effect (args : list string) : machine → machine :=
  match args with
  | what :: iface :: _ =>
      if bool_decide (what = "revert") then with_claimed (λ s, s ∖ {[iface]})
      else if bool_decide (what = "dns") || bool_decide (what = "domain")
           then with_claimed (λ s, {[iface]} ∪ s)
      else id
  | _ => id
  end.

Definition effect (c : call) : machine → machine :=
  match c with
  | Exec name args =>
      if bool_decide (name = "ip") then ip_effect args
      else if bool_decide (name = "resolvectl") then resolvectl_effect args else id
  | Remove p => if bool_decide (p = resolvConf) then with_resolv (const Absent) else id
  | Symlink t p => if bool_decide (p = resolvConf) && negb (bool_decide (t = "")) then with_resolv (const (Link t)) else id
  | WriteFile p s =>
      if bool_decide (p = resolvConf)
      then with_resolv (λ f, match f with Link t => Link t | _ => Regular s end) else id
  | _ => id
  end.

(** The machine after a history: calls that failed did nothing. *)
Definition after_call (m : machine) (co : call * outcome) : machine :=
  if failed co.2 then m else effect co.1 m.
Definition machine_after (m : machine) (h : history) : machine := foldl after_call m h.

Lemma machine_after_snoc m h c o :
  machine_after m (h ++ [(c, o)]) = after_call (machine_after m h) (c, o).
Proof. unfold machine_after. by rewrite foldl_app. Qed.

(** ** What the environment is documented to do *)

(** The commands that undo. *)
Definition undoing (c : call) : Prop :=
  (∃ dst dev, c = Exec "ip" ["route"; "del"; dst; "dev"; dev]) ∨
  (∃ dst, c = Exec "ip" ["route"; "del"; dst]) ∨
  (∃ range, c = Exec "ip" ["-6"; "route"; "del"; "unreachable"; range]).

Class Documented (m0 : machine) (env : Env) : Prop := {
  (* deleting fails only when there is nothing to delete *)
  undo_fails h c : undoing c → failed (answer h c) = true →
    effect c (machine_after m0 h) = machine_after m0 h;
  (* a route is added only where there is none *)
  add_fresh h dst rest : failed (answer h (Exec "ip" ("route" :: "add" :: dst :: rest))) = false →
    routes (machine_after m0 h) !! dst = None;
  revert_works h iface : failed (answer h (Exec "resolvectl" ["revert"; iface])) = false;
  (* the resolver's file: reading it is honest, and taking it away, linking it
     and writing back what was in it work *)
  readlink_honest h : match answer h (Readlink resolvConf) with
    | Output t => resolv (machine_after m0 h) = Link t ∧ t ≠ ""
    | _ => ∀ t, resolv (machine_after m0 h) ≠ Link t end;
  readfile_honest h : match answer h (ReadFile resolvConf) with
    | Output s => resolv (machine_after m0 h) ≠ Absent ∧
        ∀ s', resolv (machine_after m0 h) = Regular s' → s' = s
    | _ => ∀ s, resolv (machine_after m0 h) ≠ Regular s end;
  remove_works h : match answer h (Remove resolvConf) with
    | Failure _ _ missing => missing = true ∧ resolv (machine_after m0 h) = Absent
    | _ => True end;
  symlink_works h t : t ≠ "" → resolv (machine_after m0 h) = Absent → failed (answer h (Symlink t resolvConf)) = false;
  write_back_works h s : resolv m0 = Regular s → failed (answer h (WriteFile resolvConf s)) = false;
}.

(** ** Where [Apply] may leave the machine *)

Section Restoring.
Context (state : State) (cfg : Config).

Definition endpoint_route : string := EndpointHost cfg +:+ "/32".

(** What the tunnel adds is not there yet. *)
Record untouched (m : machine) : Prop := {
  un_endpoint : routes m !! endpoint_route = None;
  un_halves half : half ∈ defaultHalves → routes m !! half ≠ Some (Interface cfg);
  un_blocked r : r ∈ v6Halves → r ∉ blocked m;
  un_claimed : Interface cfg ∉ claimed m;
}.

(** The snapshot tells the truth about the resolver's file. *)
Definition recorded (m : machine) : Prop :=
  Resolved state = false →
  match resolv m with
  | Link t => ResolvConfLink state = t ∧ t ≠ ""
  | Regular s => ResolvConfLink state = "" ∧ PreviousResolvConf state = Some s
  | Absent => ResolvConfLink state = "" ∧ PreviousResolvConf state = None
  end.

(** [m'] is [m] with some of the tunnel's changes made. *)
Record perturbed (m m' : machine) : Prop := {
  pt_routes dst : routes m' !! dst = routes m !! dst ∨
    (routes m !! dst = None ∧
      ((dst ∈ defaultHalves ∧ routes m' !! dst = Some (Interface cfg)) ∨
       (dst = endpoint_route ∧ is_Some (routes m' !! dst))));
  pt_blocked r : r ∉ v6Halves → r ∈ blocked m' ↔ r ∈ blocked m;
  pt_claimed i : i ≠ Interface cfg → i ∈ claimed m' ↔ i ∈ claimed m;
  pt_unclaimed : Resolved state = false → claimed m' = claimed m;
  pt_resolv : resolv m' = resolv m ∨
    (Resolved state = false ∧ ∀ t, resolv m' ≠ Link t);
}.

Lemma perturbed_refl m : perturbed m m.
Proof. split; auto. Qed.

Lemma perturbed_route m dst dev m' :
  perturbed m m' → routes m' !! dst = None →
  (dst ∈ defaultHalves ∧ dev = Interface cfg) ∨ dst = endpoint_route →
  perturbed m (with_routes <[dst := dev]> m').
Proof.
  intros [Pr ? ? ? ?] Hnone Hd. split; try done. intros k. cbn.
  destruct (decide (k = dst)) as [->|Hk]; [|rewrite lookup_insert_ne by done; apply Pr].
  rewrite lookup_insert_eq. right. split.
  - destruct (Pr dst) as [<-|[? _]]; done.
  - destruct Hd as [[? ->]| ->]; eauto.
Qed.

Lemma perturbed_claim m m' :
  perturbed m m' → Resolved state = true →
  perturbed m (with_claimed (λ s, {[Interface cfg]} ∪ s) m').
Proof.
  intros [? ? Pc ? ?] Hr. split; try done; cbn.
  - intros i Hi. rewrite <- (Pc i Hi). set_solver.
  - by rewrite Hr.
Qed.

Lemma perturbed_resolv m f m' :
  perturbed m m' → Resolved state = false → (∀ t, f ≠ Link t) →
  perturbed m (with_resolv (const f) m').
Proof. intros [] Hr Hf. split; try done. cbn. by right. Qed.

(** What [Restore] makes of a machine. *)
Definition restored (m : machine) : machine :=
  mkMachine
    (delete endpoint_route (drop_route "128.0.0.0/1" (Interface cfg)
      (drop_route "0.0.0.0/1" (Interface cfg) (routes m))))
    (blocked m ∖ {["::/1"]} ∖ {["8000::/1"]})
    (if Resolved state then resolv m
     else if bool_decide (ResolvConfLink state = "")
     then match PreviousResolvConf state with Some s => Regular s | None => Absent end
     else Link (ResolvConfLink state))
    (if Resolved state then claimed m ∖ {[Interface cfg]} else claimed m).

Lemma last_byte_app s t a : s +:+ String a "" = t → srev t = String a (srev s).
Proof. intros <-. by rewrite srev_sapp. Qed.

Lemma endpoint_not_half : endpoint_route ∉ defaultHalves.
Proof.
  unfold endpoint_route, defaultHalves. intros H. change "/32" with ("/3" +:+ "2") in H.
  rewrite <- sapp_assoc in H. rewrite !elem_of_cons, elem_of_nil in H.
  destruct H as [H|[H|[]]]; apply last_byte_app in H; discriminate.
Qed.

Lemma drop_route_lookup dst i r k :
  drop_route dst i r !! k = if bool_decide (k = dst ∧ r !! dst = Some i) then None else r !! k.
Proof.
  unfold drop_route. case_bool_decide as H1; case_bool_decide as H2; try done.
  - destruct H2 as [-> _]. by rewrite lookup_delete_eq.
  - rewrite lookup_delete_ne; [done|]. naive_solver.
  - naive_solver.
Qed.

(** [Restore] on a machine that has none of the tunnel's changes, the endpoint's
    route and the IPv6 ranges apart. *)
Lemma restored_foreign m :
  recorded m → (∀ half, half ∈ defaultHalves → routes m !! half ≠ Some (Interface cfg)) → Interface cfg ∉ claimed m →
  restored m = mkMachine (delete endpoint_route (routes m)) (blocked m ∖ {["::/1"]} ∖ {["8000::/1"]}) (resolv m) (claimed m).
Proof.
  intros Hr Hh Hc. unfold restored. f_equal.
  - f_equal. unfold drop_route at 2. rewrite bool_decide_false by (apply Hh; unfold defaultHalves; set_solver).
    unfold drop_route. rewrite bool_decide_false; [done|]. apply Hh. unfold defaultHalves. set_solver.
  - unfold recorded in Hr. destruct (Resolved state); [done|]. specialize (Hr eq_refl).
    destruct (resolv m); destruct Hr as [Hl H]; [by rewrite Hl, H..|]. subst. by rewrite bool_decide_false.
  - destruct (Resolved state); [|done]. apply set_eq. set_solver.
Qed.

(** [Restore] undoes whatever [Apply] did. *)
Lemma restored_perturbed m m' :
  untouched m → recorded m → perturbed m m' → restored m' = m.
Proof.
  intros [He Hh Hb Hc] Hr [Pr Pb Pc Pu Pf]. pose proof endpoint_not_half as Hne.
  destruct m as [R B F C], m' as [R' B' F' C']; cbn in *. unfold restored; cbn. f_equal.
  - apply map_eq. intros k. destruct (decide (k = endpoint_route)) as [->|Hk].
    { by rewrite lookup_delete_eq, He. }
    rewrite lookup_delete_ne, !drop_route_lookup by done.
    destruct (Pr k) as [Heq|(HN & [[Hin Hs]|[? _]])]; [| |done].
    + repeat case_bool_decide; try done.
      all: match goal with H : _ ∧ _ |- _ => destruct H as [-> H] end.
      all: rewrite ?drop_route_lookup in *; repeat case_bool_decide; try done.
      all: exfalso; eapply Hh; [|by rewrite <- Heq]; unfold defaultHalves; set_solver.
    + rewrite HN. unfold defaultHalves in Hin. rewrite !elem_of_cons, elem_of_nil in Hin.
      destruct Hin as [->|[->|[]]]; repeat case_bool_decide; naive_solver.
  - apply set_eq. intros r. destruct (decide (r ∈ v6Halves)) as [Hin|Hin].
    + specialize (Hb r Hin). unfold v6Halves in Hin. set_solver.
    + rewrite <- (Pb r Hin). unfold v6Halves in Hin. set_solver.
  - unfold recorded in Hr. cbn in Hr. destruct (Resolved state).
    + by destruct Pf as [?|[? _]].
    + specialize (Hr eq_refl). destruct F as [|s|t]; destruct Hr as [-> H].
      * by rewrite H.
      * by rewrite H.
      * by rewrite bool_decide_false.
  - destruct (Resolved state); [|auto]. apply set_eq. intros i.
    destruct (decide (i = Interface cfg)) as [->|Hi]; [set_solver|]. rewrite <- (Pc i Hi). set_solver.
Qed.
End Restoring.

(** ** The effects of the commands *)

Lemma effect_del_half half cfg :
  effect (Exec "ip" ["route"; "del"; half; "dev"; Interface cfg]) = with_routes (drop_route half (Interface cfg)).
Proof. reflexivity. Qed.
Lemma effect_del_endpoint dst : effect (Exec "ip" ["route"; "del"; dst]) = with_routes (delete dst).
Proof. reflexivity. Qed.
Lemma effect_unblock r :
  effect (Exec "ip" ["-6"; "route"; "del"; "unreachable"; r]) = with_blocked (λ s, s ∖ {[r]}).
Proof. reflexivity. Qed.
Lemma effect_revert i : effect (Exec "resolvectl" ["revert"; i]) = with_claimed (λ s, s ∖ {[i]}).
Proof. reflexivity. Qed.

Section Machine.
Context {env : Env} (m0 : machine) `{Hdoc : !Documented m0 env} (state : State) (cfg : Config).
#[local] Set Default Proof Using "Type*".
Abbreviation M := (machine_after m0).

Lemma after_perform c h :
  M (h ++ [(c, answer h c)]) = if failed (answer h c) then M h else effect c (M h).
Proof. by rewrite machine_after_snoc. Qed.

(** An undoing command always has its effect, and succeeds when it has one. *)
Lemma wp_undo prefix name args h (f : machine → machine) :
  undoing (Exec name args) → effect (Exec name args) = f →
  wp (command prefix name args) (λ r h', M h' = f (M h) ∧ (f (M h) ≠ M h → r = Ok tt)) h.
Proof.
  intros Hu Hf. unfold command, run. do 2 apply wp_bind. apply wp_perform, wp_ret, wp_ret.
  pose proof (after_perform (Exec name args) h) as Ha. rewrite Hf in Ha.
  destruct (failed (answer h (Exec name args))) eqn:E.
  - pose proof (undo_fails h _ Hu E) as Hsame. rewrite Hf in Hsame.
    split; [by rewrite Ha, Hsame|]. by intros [].
  - split; [done|]. intros _. by destruct (answer h (Exec name args)).
Qed.

(** A command that may fail keeps whatever failing and succeeding keep. *)
Lemma wp_command prefix name args h (P : machine → Prop) :
  P (M h) → (failed (answer h (Exec name args)) = false → P (effect (Exec name args) (M h))) →
  wp (command prefix name args) (λ r h', P (M h') ∧
    (r = Ok tt → failed (answer h (Exec name args)) = false ∧ M h' = effect (Exec name args) (M h))) h.
Proof.
  intros H1 H2. unfold command, run. do 2 apply wp_bind. apply wp_perform, wp_ret, wp_ret.
  pose proof (after_perform (Exec name args) h) as Ha.
  destruct (answer h (Exec name args)); cbn [failed] in *.
  4: (split; [by rewrite Ha|]; by intros [=]).
  all: split; [rewrite Ha; by apply H2|]; intros _; by split.
Qed.

Lemma wp_command_id prefix name args h (P : machine → Prop) :
  effect (Exec name args) = id → P (M h) → wp (command prefix name args) (λ _ h', P (M h')) h.
Proof.
  intros He HP. eapply wp_mono; [|apply (wp_command _ _ _ _ P HP); by rewrite He].
  by intros r h' [? _].
Qed.

(** ** Apply *)

Context (m : machine).

Abbreviation ok h := (perturbed state cfg m (M h)).

Lemma wp_add_half half h :
  half ∈ defaultHalves → ok h →
  wp (add_half cfg half) (λ r h', ok h' ∧
    (r = Ok tt → M h' = with_routes <[half := Interface cfg]> (M h))) h.
Proof.
  intros Hin Hok. unfold add_half. eapply wp_mono; [|apply wp_command; [exact Hok|]].
  - intros r h' [? Hr]. split; [done|]. intros [_ E]%Hr. exact E.
  - intros Hs. apply (perturbed_route _ _ _ half (Interface cfg)); [done| |by left].
    by apply (add_fresh h half ["dev"; Interface cfg]).
Qed.

Lemma wp_pin h :
  ok h → wp (command [Lit "pinning the endpoint route: "]
         "ip" ["route"; "add"; EndpointHost cfg +:+ "/32"; "via"; DefaultGateway state;
               "dev"; DefaultInterface state]) (λ r h', ok h' ∧
    (r = Ok tt → M h' = with_routes <[endpoint_route cfg := DefaultInterface state]> (M h))) h.
Proof.
  intros Hok. eapply wp_mono; [|apply wp_command; [exact Hok|]].
  - intros r h' [? Hr]. split; [done|]. intros [_ E]%Hr. exact E.
  - intros Hs. apply (perturbed_route _ _ _ (endpoint_route cfg)); [done| |by right].
    by apply (add_fresh h (endpoint_route cfg) ["via"; DefaultGateway state; "dev"; DefaultInterface state]).
Qed.

Lemma wp_block r h :
  r ∈ v6Halves → ok h →
  wp (block_v6 r) (λ x h', x = Ok tt ∧ ok h' ∧ routes (M h') = routes (M h)) h.
Proof.
  intros Hin [? Pb ? ? ?]. unfold block_v6. apply wp_bind. unfold run. apply wp_bind, wp_perform.
  assert (perturbed state cfg m (M (h ++ [(Exec "ip" ["-6"; "route"; "add"; "unreachable"; r],
    answer h (Exec "ip" ["-6"; "route"; "add"; "unreachable"; r]))]))
    ∧ routes (M (h ++ [(Exec "ip" ["-6"; "route"; "add"; "unreachable"; r],
    answer h (Exec "ip" ["-6"; "route"; "add"; "unreachable"; r]))])) = routes (M h)) as H.
  { rewrite after_perform. destruct (failed _); [by split|].
    change (effect _) with (with_blocked (λ s, {[r]} ∪ s)). split; [|done]. split; try done.
    intros r' Hr'. cbn. rewrite <- (Pb r' Hr'). set_solver. }
  by apply wp_ret, wp_ret.
Qed.

Lemma wp_halves h :
  ok h → wp (in_turn (map (add_half cfg) defaultHalves)) (λ r h', ok h' ∧
    (r = Ok tt → routes (M h') =
       <["128.0.0.0/1" := Interface cfg]> (<["0.0.0.0/1" := Interface cfg]> (routes (M h))))) h.
Proof.
  intros Hok. unfold defaultHalves. cbn [map in_turn].
  apply wp_try. eapply wp_mono; [|apply wp_add_half; [unfold defaultHalves; set_solver|exact Hok]].
  intros [[]|e] h1 [Hok1 H1]; [|done]. specialize (H1 eq_refl).
  apply wp_try. eapply wp_mono; [|apply wp_add_half; [unfold defaultHalves; set_solver|exact Hok1]].
  intros [[]|e] h2 [Hok2 H2]; [|done]. specialize (H2 eq_refl).
  apply wp_ret. split; [done|]. intros _. by rewrite H2, H1.
Qed.

Lemma wp_blocks h :
  ok h → wp (in_turn (map block_v6 v6Halves)) (λ r h', r = Ok tt ∧ ok h' ∧ routes (M h') = routes (M h)) h.
Proof.
  intros Hok. unfold v6Halves. cbn [map in_turn].
  apply wp_try. eapply wp_mono; [|apply wp_block; [unfold v6Halves; set_solver|exact Hok]].
  intros r h1 (-> & Hok1 & H1).
  apply wp_try. eapply wp_mono; [|apply wp_block; [unfold v6Halves; set_solver|exact Hok1]].
  intros r h2 (-> & Hok2 & H2). apply wp_ret. split_and!; [done|done|congruence].
Qed.

Lemma wp_applyDNS h :
  ok h → recorded state m → wp (applyDNS state cfg) (λ r h', ok h' ∧ routes (M h') = routes (M h)) h.
Proof.
  intros Hok Hrec. unfold applyDNS. destruct (Resolved state) eqn:Hres.
  { apply wp_try. eapply wp_mono; [|apply (wp_command _ _ _ _ (λ m', perturbed state cfg m m' ∧ routes m' = routes (M h)))].
    - intros r h1 [[Hok1 Hr1] _]. destruct r; [|done].
      eapply wp_mono; [|apply (wp_command _ _ _ _ (λ m', perturbed state cfg m m' ∧ routes m' = routes (M h)))].
      + by intros r h2 [? _].
      + done.
      + intros _. by split; [apply perturbed_claim|].
    - done.
    - intros _. by split; [apply perturbed_claim|]. }
  apply wp_try, wp_ret. destruct (check_servers (DNS cfg)); [|done].
  apply wp_try. apply (wp_mono _ (λ r h', ok h' ∧ routes (M h') = routes (M h) ∧
    (r = Ok tt → ∀ t, resolv (M h') ≠ Link t))).
  { intros [[]|e] h' (Hok' & Hr' & Hl); [|done]. apply wp_io_wrap, wp_bind, wp_perform, wp_ret.
    rewrite after_perform. destruct (failed _); [done|].
    change (effect _) with (with_resolv (λ f, match f with Link t => Link t | _ => Regular (dns_file (DNS cfg)) end)).
    split; [|done]. specialize (Hl eq_refl).
    assert (with_resolv (λ f, match f with Link t => Link t | _ => Regular (dns_file (DNS cfg)) end) (M h')
      = with_resolv (const (Regular (dns_file (DNS cfg)))) (M h')) as ->.
    { unfold with_resolv. f_equal. destruct (resolv (M h')); [done..|]. by destruct (Hl target). }
    by apply perturbed_resolv. }
  case_bool_decide as Hlink.
  - apply wp_ret. split_and!; [done..|]. intros _ t Ht.
    destruct (pt_resolv _ _ _ _ Hok) as [Heq|[_ Hn]]; [|by eapply Hn].
    rewrite Heq in Ht. specialize (Hrec Hres). rewrite Ht in Hrec. destruct Hrec as [He Hne]. congruence.
  - apply wp_io_wrap, wp_bind, wp_perform, wp_ret. rewrite after_perform.
    destruct (answer h (Remove resolvConf)) as [| | |? ? ?| |] eqn:Ho; cbn [failed to_unit wrap].
    4: by split_and!.
    all: change (effect _) with (with_resolv (const Absent));
      split_and!; [by apply perturbed_resolv|done|done].
Qed.

(** The routes of a machine whose tunnel is fully applied. *)
Definition tunnelled (r : gmap string string) : gmap string string :=
  <["128.0.0.0/1" := Interface cfg]> (<["0.0.0.0/1" := Interface cfg]>
    (<[endpoint_route cfg := DefaultInterface state]> r)).

Lemma effect_address a i : effect (Exec "ip" ["address"; "add"; a; "dev"; i]) = id.
Proof using. reflexivity. Qed.
Lemma effect_mtu i n : effect (Exec "ip" ["link"; "set"; "dev"; i; "mtu"; n]) = id.
Proof using. reflexivity. Qed.
Lemma effect_up i : effect (Exec "ip" ["link"; "set"; "dev"; i; "up"]) = id.
Proof using. reflexivity. Qed.

(** A first step that leaves the machine alone. *)
Lemma wp_first prefix name args h (k : unit → IO (result unit)) Q :
  effect (Exec name args) = id →
  (∀ e h', M h' = M h → Q (Err e) h') → (∀ h', M h' = M h → wp (k tt) Q h') →
  wp (try (command prefix name args) k) Q h.
Proof.
  intros He Hfail Hk. apply wp_try.
  eapply wp_mono; [|apply (wp_command_id _ _ _ _ (λ m', m' = M h) He); done].
  intros [[]|e] h' HM; [by apply Hk|by apply Hfail].
Qed.

Lemma wp_Apply h :
  M h = m → recorded state m →
  wp (Apply state cfg) (λ r h', ok h' ∧ (r = Ok tt → routes (M h') = tunnelled (routes m))) h.
Proof.
  intros Hm Hrec. pose proof (perturbed_refl state cfg m) as Hrefl.
  assert (∀ e h', M h' = M h → ok h' ∧ (Err e = Ok tt → routes (M h') = tunnelled (routes m))) as Hfail.
  { intros e h' ->. by rewrite Hm. }
  unfold Apply. apply wp_first; [apply effect_address|done|intros h1 H1].
  apply wp_try. apply (wp_mono _ (λ _ h', M h' = M h)).
  2: { destruct (0 <? MTU cfg)%Z; [|by apply wp_ret].
       by apply (wp_command_id _ _ _ _ (λ m', m' = M h)); [apply effect_mtu|]. }
  intros [[]|e] h2 H2; [|by apply Hfail].
  apply wp_first; [apply effect_up|intros e h' ->; by apply Hfail|intros h3 H3].
  apply wp_try. eapply wp_mono; [|apply wp_pin; by rewrite H3, H2, Hm].
  intros [[]|e] h4 [Hok4 Hr4]; [|done]. specialize (Hr4 eq_refl).
  apply wp_try. eapply wp_mono; [|apply wp_halves; [exact Hok4]].
  intros [[]|e] h5 [Hok5 Hr5]; [|done]. specialize (Hr5 eq_refl).
  apply wp_try. eapply wp_mono; [|apply wp_blocks; exact Hok5].
  intros r h6 (-> & Hok6 & Hr6).
  assert (routes (M h6) = tunnelled (routes m)) as Hroutes.
  { rewrite Hr6, Hr5, Hr4. cbn. by rewrite H3, H2, Hm. }
  case_bool_decide; [by apply wp_ret|].
  eapply wp_mono; [|apply wp_applyDNS; done]. intros r h7 [? Hr7]. split; [done|]. by rewrite Hr7.
Qed.

(** [Apply] on a machine where the endpoint's route is someone else's: it stops
    at the pin, having changed nothing. *)
Lemma wp_Apply_pinned h dev :
  routes (M h) !! endpoint_route cfg = Some dev →
  wp (Apply state cfg) (λ r h', is_ok r = false ∧ M h' = M h) h.
Proof.
  intros Hpin. unfold Apply. apply wp_first; [apply effect_address|done|intros h1 H1].
  apply wp_try. apply (wp_mono _ (λ _ h', M h' = M h)).
  2: { destruct (0 <? MTU cfg)%Z; [|by apply wp_ret].
       by apply (wp_command_id _ _ _ _ (λ m', m' = M h)); [apply effect_mtu|]. }
  intros [[]|e] h2 H2; [|done].
  apply wp_first; [apply effect_up|intros e h' ->; done|intros h3 H3].
  apply wp_try. eapply wp_mono; [|apply (wp_command _ _ _ _ (λ m', m' = M h)); [congruence|]].
  - intros [[]|e] h4 [H4 Hr4]; [|done]. destruct (Hr4 eq_refl) as [Hs _].
    pose proof (add_fresh h3 (endpoint_route cfg) _ Hs) as Hnone. rewrite H3, H2, Hpin in Hnone. done.
  - intros Hs. pose proof (add_fresh h3 (endpoint_route cfg) _ Hs) as Hnone. rewrite H3, H2, Hpin in Hnone. done.
Qed.

(** ** Restore *)

(** What [restoreDNS] makes of a machine. *)
Definition dns_restored (m : machine) : machine :=
  mkMachine (routes m) (blocked m)
    (if Resolved state then resolv m
     else if bool_decide (ResolvConfLink state = "")
     then match PreviousResolvConf state with Some s => Regular s | None => Absent end
     else Link (ResolvConfLink state))
    (if Resolved state then claimed m ∖ {[Interface cfg]} else claimed m).

(** Taking the file away leaves none, whether or not there was one. *)
Lemma wp_remove (k : outcome → IO (result unit)) Q h :
  (∀ o h', M h' = with_resolv (const Absent) (M h) →
     (match o with Failure _ _ false => False | _ => True end) → wp (k o) Q h') →
  wp (o ← perform (Remove resolvConf); k o) Q h.
Proof.
  intros H. apply wp_bind, wp_perform. pose proof (remove_works h) as Hr.
  pose proof (after_perform (Remove resolvConf) h) as Ha.
  change (effect _) with (with_resolv (const Absent)) in Ha.
  destruct (answer h (Remove resolvConf)) as [s|l|z|p e missing|n|rows]; cbn [failed] in Ha; [by apply H..| |by apply H|by apply H].
  destruct Hr as [-> Habs]. apply H; [|done]. rewrite Ha. destruct (M h); cbn in *. by subst.
Qed.

Lemma wp_restoreDNS h :
  m = m0 → recorded state m →
  resolv (M h) = resolv m ∨ (Resolved state = false ∧ ∀ t, resolv (M h) ≠ Link t) →
  wp (restoreDNS state cfg) (λ r h', M h' = dns_restored (M h) ∧ r = Ok tt) h.
Proof.
  intros Hm0 Hrec Hok. unfold restoreDNS, dns_restored. destruct (Resolved state) eqn:Hres.
  { apply wp_bind. unfold run. apply wp_bind, wp_perform, wp_ret, wp_ret.
    rewrite after_perform, effect_revert. pose proof (revert_works h (Interface cfg)) as Hw.
    rewrite Hw. by destruct (answer h (Exec "resolvectl" ["revert"; Interface cfg])). }
  specialize (Hrec Hres). case_bool_decide as Hlink; cbn [negb].
  - destruct (PreviousResolvConf state) as [s|] eqn:Hprev.
    + assert (resolv m0 = Regular s) as Hreg.
      { rewrite <- Hm0. destruct (resolv m); destruct Hrec; naive_solver. }
      apply wp_bind, wp_perform, wp_ret. rewrite after_perform.
      pose proof (write_back_works h s Hreg) as Hw. rewrite Hw. split; [|by destruct (answer h _)].
      change (effect _) with (with_resolv (λ f, match f with Link t => Link t | _ => Regular s end)).
      unfold with_resolv. f_equal. destruct (resolv (M h)) as [| |t] eqn:Hf; [done..|].
      destruct Hok as [Heq|[_ Hn]]; [|by destruct (Hn t)].
      rewrite <- Heq, ?Hf in Hrec. destruct Hrec. congruence.
    + apply wp_remove. intros o h' HM Ho. apply wp_ret. split; [exact HM|].
      by destruct o as [| | |? ? []| |].
  - apply wp_remove. intros o h' HM Ho.
    assert (wp (o ← perform (Symlink (ResolvConfLink state) resolvConf); mret (to_unit o))
      (λ r h'', M h'' = mkMachine (routes (M h)) (blocked (M h)) (Link (ResolvConfLink state))
        (claimed (M h)) ∧ r = Ok tt) h') as H.
    { apply wp_bind, wp_perform, wp_ret. rewrite after_perform.
      pose proof (symlink_works h' (ResolvConfLink state) Hlink ltac:(by rewrite HM)) as Hw. rewrite Hw.
      split; [|by destruct (answer h' _)]. cbn [effect].
      rewrite (bool_decide_false (_ = "")) by done. by rewrite HM. }
    by destruct o as [| | |? ? []| |].
Qed.

Lemma wp_del_half half h :
  wp (snd (del_half cfg half)) (λ r h', M h' = with_routes (drop_route half (Interface cfg)) (M h) ∧
    (routes (M h) !! half = Some (Interface cfg) → r = Ok tt)) h.
Proof.
  eapply wp_mono; [|apply (wp_undo [] "ip" ["route"; "del"; half; "dev"; Interface cfg] h
    (with_routes (drop_route half (Interface cfg)))); [left; eauto|apply effect_del_half]].
  intros r h' [? Hr]. split; [done|]. intros Hp. apply Hr. intros Heq%(f_equal routes). cbn in Heq.
  unfold drop_route in Heq. rewrite bool_decide_true in Heq by done.
  rewrite <- Heq, lookup_delete_eq in Hp. done.
Qed.

Lemma wp_del_endpoint h :
  wp (command [] "ip" ["route"; "del"; EndpointHost cfg +:+ "/32"]) (λ r h',
    M h' = with_routes (delete (endpoint_route cfg)) (M h) ∧
    (is_Some (routes (M h) !! endpoint_route cfg) → r = Ok tt)) h.
Proof.
  eapply wp_mono; [|apply (wp_undo [] "ip" ["route"; "del"; endpoint_route cfg] h
    (with_routes (delete (endpoint_route cfg)))); [right; left; eauto|apply effect_del_endpoint]].
  intros r h' [? Hr]. split; [done|]. intros [d Hp]. apply Hr. intros Heq%(f_equal routes). cbn in Heq.
  rewrite <- Heq, lookup_delete_eq in Hp. done.
Qed.

Lemma wp_unblock r h :
  wp (snd (unblock_v6 r)) (λ x h', x = Ok tt ∧ M h' = with_blocked (λ s, s ∖ {[r]}) (M h)) h.
Proof.
  cbn [unblock_v6 snd]. apply wp_bind.
  pose proof (wp_undo [] "ip" ["-6"; "route"; "del"; "unreachable"; r] h (with_blocked (λ s, s ∖ {[r]}))
    ltac:(right; right; eauto) (effect_unblock r)) as H.
  unfold command in H. unfold wp at 1. unfold wp, mbind, io_bind in H.
  destruct (run "ip" _ h) as [[a|] h']; [|done]. cbn in H. by destruct H.
Qed.

(** The whole of [Restore]. *)
Lemma wp_Restore h :
  m = m0 → recorded state m → ok h →
  wp (Restore state cfg) (λ r h', M h' = restored state cfg (M h) ∧
    (routes (M h) = tunnelled (routes m) → r = Ok tt)) h.
Proof.
  intros Hm0 Hrec Hok. unfold Restore, defaultHalves, v6Halves. apply wp_bind. cbn [map app attempt_all].
  unfold del_half, unblock_v6. cbn [attempt_all].
  apply wp_bind. eapply wp_mono; [|apply (wp_del_half "0.0.0.0/1")]. intros r1 h1 [H1 E1].
  apply wp_bind. eapply wp_mono; [|apply (wp_del_half "128.0.0.0/1")]. intros r2 h2 [H2 E2].
  apply wp_bind. eapply wp_mono; [|apply wp_del_endpoint]. intros r3 h3 [H3 E3].
  apply wp_bind. eapply wp_mono; [|apply (wp_unblock "::/1")]. intros r4 h4 [-> H4].
  apply wp_bind. eapply wp_mono; [|apply (wp_unblock "8000::/1")]. intros r5 h5 [-> H5].
  assert (M h5 = mkMachine (delete (endpoint_route cfg) (drop_route "128.0.0.0/1" (Interface cfg)
      (drop_route "0.0.0.0/1" (Interface cfg) (routes (M h)))))
    (blocked (M h) ∖ {["::/1"]} ∖ {["8000::/1"]}) (resolv (M h)) (claimed (M h))) as HM.
  { by rewrite H5, H4, H3, H2, H1. }
  apply wp_bind. eapply wp_mono; [|apply wp_restoreDNS; [done..|]].
  2: { rewrite HM. apply Hok. }
  intros r6 h6 [H6 ->]. apply wp_ret, wp_ret. split; [by rewrite H6, HM|].
  intros Hr. pose proof (endpoint_not_half cfg) as Hne.
  assert (endpoint_route cfg ≠ "0.0.0.0/1" ∧ endpoint_route cfg ≠ "128.0.0.0/1") as [Hn1 Hn2].
  { unfold defaultHalves in Hne. set_solver. }
  rewrite E1, E2, E3; [done| | |].
  - rewrite H2, H1. cbn [with_routes routes]. rewrite Hr. unfold tunnelled. rewrite !drop_route_lookup.
    rewrite !bool_decide_false by naive_solver. rewrite !lookup_insert_ne by done.
    rewrite lookup_insert_eq. eauto.
  - rewrite H1. cbn [with_routes routes]. rewrite Hr. unfold tunnelled. rewrite drop_route_lookup.
    rewrite bool_decide_false by naive_solver. by rewrite lookup_insert_eq.
  - rewrite Hr. unfold tunnelled. by rewrite lookup_insert_ne, lookup_insert_eq by done.
Qed.

(** ** Snapshot *)

Lemma wp_run_id name args h Q :
  effect (Exec name args) = id → (∀ r h', M h' = M h → Q r h') → wp (run name args) Q h.
Proof.
  intros He HQ. unfold run. apply wp_bind, wp_perform, wp_ret. apply HQ.
  rewrite after_perform, He. by destruct (failed _).
Qed.

Lemma wp_perform_id c h Q :
  effect c = id → (∀ h', M h' = M h → Q (answer h c) h') → wp (perform c) Q h.
Proof.
  intros He HQ. apply wp_perform, HQ. rewrite after_perform, He. by destruct (failed _).
Qed.

Lemma wp_resolved h : wp resolvedIsAnswering (λ _ h', M h' = M h) h.
Proof.
  unfold resolvedIsAnswering. apply wp_bind, wp_perform_id; [done|]. intros h1 H1.
  destruct (failed _); [done|]. apply wp_bind, wp_run_id; [done|]. intros r h2 H2.
  apply wp_ret. congruence.
Qed.

Lemma wp_Snapshot h :
  M h = m → wp Snapshot (λ r h', M h' = m ∧ ∀ st, r = Ok st → recorded st m ∧
    DefaultGateway st ≠ "" ∧ DefaultInterface st ≠ "") h.
Proof.
  intros Hm. unfold Snapshot. apply wp_try, wp_io_wrap, wp_run_id; [done|].
  intros r h1 H1. destruct r as [output|e]; cbn [wrap]; [|split; [congruence|done]].
  destruct (default_route _) as [gw dev].
  destruct (_ || _) eqn:Hg; [split; [congruence|done]|].
  apply orb_false_iff in Hg as [Hgw%bool_decide_eq_false Hdev%bool_decide_eq_false].
  apply wp_bind. eapply wp_mono; [|apply wp_resolved]. intros [] h2 H2; cbn beta in H2.
  { apply wp_ret. split; [congruence|]. by intros st [= <-]. }
  apply wp_bind, wp_perform_id; [done|]. intros h3 H3. apply wp_bind, wp_perform_id; [done|]. intros h4 H4.
  apply wp_ret. split; [congruence|]. intros st [= <-]. split; [|done]. intros _. cbn.
  pose proof (readlink_honest h2) as Hl. pose proof (readfile_honest h3) as Hf.
  rewrite H2, H1, Hm in Hl. rewrite H3, H2, H1, Hm in Hf.
  destruct (answer h2 (Readlink resolvConf)) as [t| | |? ? ?| |].
  1: by destruct Hl as [-> ?].
  all: destruct (resolv m) as [|s|t]; [| |by destruct (Hl t)].
  all: destruct (answer h3 (ReadFile resolvConf)) as [s'| | |? ? ?| |];
    try (destruct Hf as [Hf1 Hf2]); try done; try (by destruct (Hf s)).
  all: by rewrite (Hf2 s).
Qed.
End Machine.

(** Take over and give back: what a failed start does, and a start with its
    stop. *)
Definition take_over `{Env} (cfg : Config) : IO (result (result unit * result unit)) :=
  state ←? Snapshot; applied ← Apply state cfg; back ← Restore state cfg; mret (Ok (applied, back)).

Lemma wp_take_over {env : Env} m0 `{!Documented m0 env} cfg h :
  machine_after m0 h = m0 → untouched cfg m0 →
  wp (take_over cfg) (λ r h', machine_after m0 h' = m0 ∧
    ∀ back, r = Ok (Ok tt, back) → back = Ok tt) h.
Proof.
  intros Hh Hun. unfold take_over. apply wp_try.
  eapply wp_mono; [|apply (wp_Snapshot m0 m0); done].
  intros [state|e] h1 [H1 Hst]; [|done]. destruct (Hst state eq_refl) as [Hrec _].
  apply wp_bind. eapply wp_mono; [|apply (wp_Apply m0 state cfg m0); done].
  intros ra h2 [Hok Hra].
  apply wp_bind. eapply wp_mono; [|apply (wp_Restore m0 state cfg m0); done].
  intros rr h3 [H3 Hrr]. apply wp_ret. split.
  - rewrite H3. by apply restored_perturbed.
  - intros back [= -> ->]. auto.
Qed.

(** ** Scripts of commands *)

Section Commands.
Context {env : Env}.

Lemma follows_command prefix name args : follows (System.command prefix name args) [Exec name args].
Proof.
  intros h. unfold System.command, run. do 2 apply wp_bind. apply wp_perform, wp_ret, wp_ret.
  exists 1. by rewrite calls_snoc.
Qed.

Lemma follows_in_turn {A} (f : A → IO (result unit)) g l :
  (∀ a, follows (f a) [g a]) → follows (in_turn (map f l)) (map g l).
Proof.
  intros Hf. induction l as [|a l IH]; cbn [map in_turn]; [apply follows_ret|].
  by apply (follows_try _ _ [g a]).
Qed.
End Commands.
