(* ===== verification/Simulated.v ===== *)
(** * A simulated machine

    An environment that behaves as [SystemFacts.Documented] says, for the
    examples: commands succeed when they can, the clock moves with the calls,
    and the device reports the UAPI text it is given. *)

From S2P Require Import Prelude GoStrings NetAddr Effects System SystemFacts.
From Stdlib Require Import Ascii.
From stdpp Require Import options.

Definition gone : outcome := Failure "" [Lit "no such thing"] true.
Definition refused : outcome := Failure "" [Lit "exists"] false.

#[export] Instance machine_eq_dec : EqDecision machine.
Proof. solve_decision. Defined.

(** Every call takes a microsecond, sleeping what it was asked to. *)
Definition cost (co : call * outcome) : Z :=
  match co.1 with Sleep ns => Z.max 0 ns | _ => 1000 end.
Definition sim_clock (h : history) : Z := foldl (λ t co, (t + cost co)%Z) 0%Z h.

(** [ip route add] and [ip ... del]. *)
Definition adds_route (args : list string) : option string :=
  match args with
  | a :: b :: dst :: _ => if bool_decide ([a; b] = ["route"; "add"]) then Some dst else None
  | _ => None
  end.

Definition deletes (args : list string) : bool :=
  match args with
  | [a; b; _] => bool_decide ([a; b] = ["route"; "del"])
  | [a; b; c; d; e] => bool_decide ([a; b] = ["route"; "del"]) || bool_decide ([a; b; c] = ["-6"; "route"; "del"])
  | _ => false
  end.

Definition simulated (m0 : machine) (resolved : bool) (uapi : string) : Env := λ h c,
  let m := machine_after m0 h in
  match c with
  | Exec name args =>
      if bool_decide (args = ["-4"; "route"; "show"; "default"])
      then Output ("default via 192.168.1.1 dev wlan0 proto dhcp" +:+ nl)
      else if bool_decide (name = "ip") then
        match adds_route args with
        | Some dst => if bool_decide (routes m !! dst = None) then Output "" else refused
        | None => if deletes args && bool_decide (effect c m = m) then gone else Output ""
        end
      else Output ""
  | LookPath _ => if resolved then Output "" else gone
  | Readlink _ => match resolv m with Link t => Output t | _ => refused end
  | ReadFile _ => match resolv m with Regular s => Output s | Link _ => Output "" | Absent => gone end
  | Remove _ => match resolv m with Absent => gone | _ => Output "" end
  | Symlink _ _ => match resolv m with Absent => Output "" | _ => refused end
  | TunName _ => Output "caelo0"
  | IpcGet _ => Output uapi
  | LookupHost _ => Hosts ["2001:db8::1"; "203.0.113.10"]
  | Now => Instant (sim_clock h)
  | _ => Output ""
  end.

Lemma never_empty_link m0 h : resolv m0 ≠ Link "" → resolv (machine_after m0 h) ≠ Link "".
Proof.
  intros H0. induction h as [|[c o] h IH] using rev_ind; [done|].
  rewrite machine_after_snoc. unfold after_call. destruct (failed _); [done|]. cbn [fst].
  assert (∀ args m, resolv (ip_effect args m) = resolv m) as Hip.
  { intros args m. unfold ip_effect. repeat case_match; done. }
  assert (∀ args m, resolv (resolvectl_effect args m) = resolv m) as Hres.
  { intros args m. unfold resolvectl_effect. repeat case_match; done. }
  destruct c; cbn [effect]; try done; repeat case_match; rewrite ?Hip, ?Hres; try done; cbn.
  - by destruct (resolv (machine_after m0 h)).
  - apply andb_true_iff in H as [_ Ht%negb_true_iff%bool_decide_eq_false]. congruence.
Qed.

#[export] Instance simulated_documented m0 resolved uapi :
  resolv m0 ≠ Link "" → Documented m0 (simulated m0 resolved uapi).
Proof.
  intros H0. split.
  - intros h c Hu Hf. unfold answer, simulated in Hf.
    destruct Hu as [(dst & dev & ->)|[(dst & ->)|(r & ->)]];
      match type of Hf with context [bool_decide (effect ?c ?m = ?m)] =>
        destruct (bool_decide_reflect (effect c m = m)) as [E|E]; [exact E|] end;
      rewrite andb_false_r in Hf; done.
  - intros h dst rest Hf. unfold answer, simulated in Hf.
    rewrite bool_decide_false in Hf by done. rewrite bool_decide_true in Hf by done.
    change (adds_route _) with (Some dst) in Hf. cbv iota in Hf.
    by destruct (bool_decide_reflect (routes (machine_after m0 h) !! dst = None)).
  - done.
  - intros h. unfold answer, simulated. pose proof (never_empty_link m0 h H0).
    destruct (resolv (machine_after m0 h)) as [| |t] eqn:E; [by intros ? [=]..|]. split; [done|]. by intros ->.
  - intros h. unfold answer, simulated. destruct (resolv (machine_after m0 h)) eqn:E.
    + by intros ? [=].
    + split; [done|]. by intros s [= ->].
    + split; [done|]. by intros s [=].
  - intros h. unfold answer, simulated. by destruct (resolv (machine_after m0 h)) eqn:E.
  - intros h t _ E. unfold answer, simulated. by rewrite E.
  - done.
Qed.

Lemma sim_clock_snoc h co : sim_clock (h ++ [co]) = (sim_clock h + cost co)%Z.
Proof. unfold sim_clock. by rewrite foldl_app. Qed.
Lemma cost_nonneg co : (0 ≤ cost co)%Z.
Proof. destruct co as [c o]. unfold cost. destruct c; cbn; lia. Qed.

#[export] Instance simulated_clock m0 resolved uapi : Clock (simulated m0 resolved uapi).
Proof.
  refine {| clock := sim_clock |}; [done| |]; intros; rewrite sim_clock_snoc;
    [pose proof (cost_nonneg co); lia|cbn; lia].
Defined.

(** ** A tunnel on any simulated machine *)

(** [env], where interfaces have this name and this LUID, devices report
    [uapi], and the clock moves. *)
Definition carrying (name : string) (luid : Z) (uapi : string) (env : Env) : Env := λ h c,
  match c with
  | TunName _ => Output name
  | LUID _ => Number luid
  | IpcGet _ => Output uapi
  | LookupHost _ => Hosts ["2001:db8::1"; "203.0.113.10"]
  | Now => Instant (sim_clock h)
  | _ => env h c
  end.

#[export] Instance carrying_clock name luid uapi env : Clock (carrying name luid uapi env).
Proof.
  refine {| clock := sim_clock |}; [done| |]; intros; rewrite sim_clock_snoc;
    [pose proof (cost_nonneg co); lia|cbn; lia].
Defined.
