(* ===== verification/SystemProps.v ===== *)
(** * The properties of taking over the machine's routing *)

From S2P Require Import Prelude GoStrings NetAddr Effects System SystemFacts Simulated.
From stdpp Require Import options.

(** An ordinary machine, and a tunnel for it. *)
Definition desktop : machine :=
  mkMachine {["10.9.0.0/24" := "eth1"]} ∅ (Regular "nameserver 192.168.1.1") ∅.
Definition sample_network : Config := mkConfig "caelo0" 0 "10.8.1.23" 1420 "203.0.113.10" ["1.1.1.1"].

(** The route an [ip route add] adds, by destination and interface. *)
Definition adds (c : call) : list (string * string) :=
  match c with
  | Exec name (a :: b :: dst :: rest) =>
      if bool_decide ([name; a; b] = ["ip"; "route"; "add"])
      then match list.last rest with Some dev => [(dst, dev)] | None => [] end else []
  | _ => []
  end.

(** The routes added in a history, in order: the commands that succeeded. *)
Definition added_routes (h : history) : list (string * string) :=
  h ≫= λ co, if failed co.2 then [] else adds co.1.

(** ** The order of the routes *)

Section Order.
Context {env : Env}.

Lemma added_snoc h c : added_routes (h ++ [(c, answer h c)]) =
  added_routes h ++ (if failed (answer h c) then [] else adds c).
Proof. unfold added_routes. rewrite bind_app. cbn. by rewrite app_nil_r. Qed.

(** A command adds its route exactly when it succeeds. *)
Lemma wp_command_adds prefix name args h :
  wp (command prefix name args) (λ r h', added_routes h' =
    added_routes h ++ (if is_ok r then adds (Exec name args) else [])) h.
Proof.
  unfold command, run. do 2 apply wp_bind. apply wp_perform, wp_ret, wp_ret.
  rewrite added_snoc. f_equal. by destruct (answer h (Exec name args)).
Qed.

(** A call that adds no route. *)
Lemma wp_perform_adds c h : adds c = [] → wp (perform c) (λ _ h', added_routes h' = added_routes h) h.
Proof. intros Hc. apply wp_perform. rewrite added_snoc, Hc. destruct (failed _); apply app_nil_r. Qed.

Lemma wp_command_none prefix name args h :
  adds (Exec name args) = [] →
  wp (command prefix name args) (λ _ h', added_routes h' = added_routes h) h.
Proof.
  intros Hc. eapply wp_mono; [|apply wp_command_adds]. intros r h' ->. rewrite Hc.
  destruct (is_ok r); apply app_nil_r.
Qed.

Lemma adds_other name args : name ≠ "ip" → adds (Exec name args) = [].
Proof.
  intros Hn. destruct args as [|a [|b [|c args]]]; try done. cbn [adds].
  rewrite bool_decide_false; [done|]. by intros [=].
Qed.

Lemma wp_applyDNS_adds state cfg h :
  wp (applyDNS state cfg) (λ _ h', added_routes h' = added_routes h) h.
Proof.
  unfold applyDNS. destruct (Resolved state).
  - apply wp_try. eapply wp_mono; [|apply wp_command_none; by apply adds_other].
    intros [[]|e] h1 H1; [|done].
    eapply wp_mono; [|apply wp_command_none; by apply adds_other]. intros r h2 H2. congruence.
  - apply wp_try, wp_ret. destruct (check_servers _); [|done].
    apply wp_try. apply (wp_mono _ (λ _ h', added_routes h' = added_routes h)).
    + intros [[]|e] h1 H1; [|done]. apply wp_io_wrap, wp_bind.
      eapply wp_mono; [|by apply wp_perform_adds]. intros o h2 H2. apply wp_ret. congruence.
    + case_bool_decide; [done|]. apply wp_io_wrap, wp_bind.
      eapply wp_mono; [|by apply wp_perform_adds]. intros o h2 H2. by apply wp_ret.
Qed.

Lemma wp_blocks_adds h :
  wp (in_turn (map block_v6 v6Halves)) (λ r h', r = Ok tt ∧ added_routes h' = added_routes h) h.
Proof.
  assert (∀ range h, wp (block_v6 range) (λ r h', r = Ok tt ∧ added_routes h' = added_routes h) h) as Hb.
  { intros range h0. unfold block_v6, run. do 2 apply wp_bind. eapply wp_mono; [|by apply wp_perform_adds].
    intros o h1 H1. by apply wp_ret, wp_ret. }
  unfold v6Halves. cbn [map in_turn].
  apply wp_try. eapply wp_mono; [|apply Hb]. intros r h1 [-> H1].
  apply wp_try. eapply wp_mono; [|apply Hb]. intros r h2 [-> H2]. apply wp_ret. split; congruence.
Qed.

Lemma wp_Apply_adds state cfg h :
  let want := [(EndpointHost cfg +:+ "/32", DefaultInterface state);
               ("0.0.0.0/1", Interface cfg); ("128.0.0.0/1", Interface cfg)] in
  wp (Apply state cfg) (λ r h', ∃ n, added_routes h' = added_routes h ++ take n want ∧
    (r = Ok tt → n = 3)) h.
Proof.
  intros want. unfold Apply, defaultHalves. cbn [map in_turn]. unfold add_half.
  apply wp_try. eapply wp_mono; [|by apply wp_command_none]. intros [[]|e] h1 H1.
  2: { exists 0. by rewrite H1, app_nil_r. }
  apply wp_try. apply (wp_mono _ (λ _ h', added_routes h' = added_routes h)).
  2: { destruct (0 <? MTU cfg)%Z; [|by apply wp_ret]. rewrite <- H1. by apply wp_command_none. }
  intros [[]|e] h2 H2. 2: { exists 0. by rewrite H2, app_nil_r. }
  apply wp_try. eapply wp_mono; [|by apply wp_command_none]. intros [[]|e] h3 H3; rewrite H2 in H3.
  2: { exists 0. by rewrite H3, app_nil_r. }
  apply wp_try. eapply wp_mono; [|apply wp_command_adds]. intros r h4 H4; rewrite H3 in H4.
  destruct r as [[]|e]. 2: { by exists 0. }
  change (adds _) with (take 1 want) in H4.
  apply wp_try. apply (wp_mono _ (λ r h', ∃ n, added_routes h' = added_routes h ++ take n want ∧
    (r = Ok tt → n = 3))).
  - intros [[]|e] h5 (n & H5 & Hn); [|by exists n]. specialize (Hn eq_refl) as ->.
    apply wp_try. eapply wp_mono; [|apply wp_blocks_adds]. intros r h6 [-> H6].
    case_bool_decide; [apply wp_ret; exists 3; split; congruence|].
    eapply wp_mono; [|apply wp_applyDNS_adds]. intros r h7 H7. exists 3. split; congruence.
  - apply wp_try. eapply wp_mono; [|apply wp_command_adds]. intros r h5 H5; rewrite H4 in H5.
    destruct r as [[]|e]. 2: { exists 1. cbn [is_ok] in H5. by rewrite app_nil_r in H5. }
    apply wp_try. eapply wp_mono; [|apply wp_command_adds]. intros r h6 H6; rewrite H5 in H6.
    destruct r as [[]|e].
    + apply wp_ret. exists 3. split; [|done]. by rewrite H6, <- !app_assoc.
    + exists 2. split; [|done]. by rewrite H6, app_nil_r, <- app_assoc.
Qed.
End Order.

(** ** Properties *)

(** C5: Wherever [Apply] stops, [Restore] gives back the machine [Snapshot]
    found: its routes, the IPv6 ranges made unreachable, the resolver's file
    (contents or link) and the DNS settings of interfaces; and when [Apply] had
    succeeded, [Restore] reports no problem.  For every environment that
    behaves as [ip], [resolvectl] and the file system are documented to, on a
    machine that has none of the tunnel's own routes and settings. *)
Theorem Apply_Restore {env : Env} m0 cfg h :
  Documented m0 env → machine_after m0 h = m0 → untouched cfg m0 →
  ∃ r h', take_over cfg h = (Some r, h') ∧ machine_after m0 h' = m0 ∧
    ∀ back, r = Ok (Ok tt, back) → back = Ok tt.
Proof. intros. apply wp_eq. by apply (wp_take_over m0). Qed.

Lemma Apply_Restore_witness :
  ∃ r h', @take_over (simulated desktop true "") sample_network [] = (Some r, h') ∧
    machine_after desktop h' = desktop ∧ ∀ back, r = Ok (Ok tt, back) → back = Ok tt.
Proof.
  apply (@Apply_Restore (simulated desktop true "") desktop sample_network []).
  - by apply simulated_documented.
  - reflexivity.
  - split; [reflexivity| |intros r _; apply not_elem_of_empty|apply not_elem_of_empty].
    intros half [->|[->|[]%elem_of_nil]%elem_of_cons]%elem_of_cons; vm_compute; discriminate.
Defined.

(** C40: The proviso on the endpoint's route is needed.  On any machine that
    already pins a route to the server (another VPN does), whose commands
    behave as documented and that has no half route or DNS settings of the
    tunnel's interface, [Snapshot] changes nothing, and [Apply] then always
    fails, at that route, having changed nothing either.  But the [Restore]
    that unwinds it deletes the route it never added, and any of the two IPv6
    ranges that were unreachable before; the rest of the machine is as it was. *)
Theorem Restore_removes_foreign_routes {env : Env} m0 cfg h dev :
  Documented m0 env → machine_after m0 h = m0 →
  routes m0 !! endpoint_route cfg = Some dev →
  (∀ half, half ∈ defaultHalves → routes m0 !! half ≠ Some (Interface cfg)) →
  Interface cfg ∉ claimed m0 →
  ∃ r h1, Snapshot h = (Some r, h1) ∧ machine_after m0 h1 = m0 ∧
    ∀ state, r = Ok state →
      ∃ e h2, Apply state cfg h1 = (Some (Err e), h2) ∧ machine_after m0 h2 = m0 ∧
        ∃ back h3, Restore state cfg h2 = (Some back, h3) ∧
          machine_after m0 h3 = mkMachine (delete (endpoint_route cfg) (routes m0))
            (blocked m0 ∖ {["::/1"]} ∖ {["8000::/1"]}) (resolv m0) (claimed m0).
Proof.
  intros Hdoc Hm Hpin Hh Hc.
  destruct (wp_eq _ _ _ (wp_Snapshot m0 m0 h Hm)) as (r & h1 & E1 & H1 & Hst).
  exists r, h1. split_and!; [done..|]. intros st ->. destruct (Hst st eq_refl) as [Hrec _].
  destruct (wp_eq _ _ _ (wp_Apply_pinned m0 st cfg h1 dev ltac:(by rewrite H1))) as ([[]|e] & h2 & E2 & Hf & H2); [done|].
  rewrite H1 in H2. exists e, h2. split_and!; [done..|].
  destruct (wp_eq _ _ _ (wp_Restore m0 st cfg m0 h2 eq_refl Hrec ltac:(rewrite H2; apply perturbed_refl))) as (back & h3 & E3 & H3 & _).
  exists back, h3. split; [done|]. rewrite H3, H2. by apply restored_foreign.
Qed.

Definition pinned_machine : machine := mkMachine {["203.0.113.10/32" := "wlan0"]} {["::/1"]} (Regular "") ∅.

Lemma Restore_removes_foreign_routes_witness :
  let env : Env := simulated pinned_machine false "" in
  ∃ state e back h1 h2 h3, Snapshot [] = (Some (Ok state), h1) ∧ Apply state sample_network h1 = (Some (Err e), h2) ∧
    Restore state sample_network h2 = (Some back, h3) ∧
    routes (machine_after pinned_machine h3) = ∅ ∧ blocked (machine_after pinned_machine h3) = ∅.
Proof.
  intros env.
  destruct (@Restore_removes_foreign_routes env pinned_machine sample_network [] "wlan0") as (r & h1 & E1 & _ & Hr).
  - by apply simulated_documented.
  - reflexivity.
  - vm_compute. reflexivity.
  - intros half [->|[->|[]%elem_of_nil]%elem_of_cons]%elem_of_cons; vm_compute; discriminate.
  - apply not_elem_of_empty.
  - assert (Hok : ∃ state, fst (Snapshot []) = Some (Ok state)) by (eexists; vm_compute; reflexivity).
    destruct Hok as (state & Hok). rewrite E1 in Hok. cbn in Hok. injection Hok as ->.
    destruct (Hr state eq_refl) as (e & h2 & E2 & _ & back & h3 & E3 & H3).
    exists state, e, back, h1, h2, h3. rewrite H3. split_and!; [exact E1|exact E2|exact E3|vm_compute; reflexivity..].
Defined.

(** C27: Whatever the machine answers, [Apply] comes back, and the routes it has
    added when it does are the first ones, in this order, of: the endpoint
    pinned to the physical interface, then the two halves of the default route
    into the tunnel.  So no packet is routed into the tunnel before the server
    is reachable outside it; and success means all three are there. *)
Theorem Apply_pins_endpoint_first {env : Env} state cfg h :
  ∃ r h' n, Apply state cfg h = (Some r, h') ∧
    added_routes h' = added_routes h ++ take n
      [(EndpointHost cfg +:+ "/32", DefaultInterface state);
       ("0.0.0.0/1", Interface cfg); ("128.0.0.0/1", Interface cfg)] ∧
    (r = Ok tt → n = 3).
Proof.
  destruct (wp_eq _ _ _ (wp_Apply_adds state cfg h)) as (r & h' & Heq & n & Ha & Hn). eauto 6.
Qed.
