(* ===== verification/SystemDarwin.v ===== *)
(** * Taking over the machine's routing on macOS: network_darwin.go

    The same three operations as on Linux (System.v), said to [route],
    [ifconfig] and [networksetup]; [Config] and [run] are shared. *)

From S2P Require Import Prelude GoStrings NetAddr Effects System.
From Stdlib Require Import Ascii.
From stdpp Require Import options.

Record State := mkState {
  DefaultGateway : string;
  DefaultInterface : string;
  NetworkService : string;
  PreviousDNS : list string;
  IPv6WasEnabled : bool;
}.

(** [fmt.Errorf] of a command's error, as in [System.command]. *)
Definition command `{Env} (prefix : error) (name : string) (args : list string) : IO (result unit) :=
  System.command prefix name args.

(** ** Snapshot *)

(** One line of [route -n get default]. *)
Definition route_line (line : string) (gw dev : string) : string * string :=
  match Cut (TrimSpace line) ":" with
  | None => (gw, dev)
  | Some (key, value) =>
      if bool_decide (TrimSpace key = "gateway") then (TrimSpace value, dev)
      else if bool_decide (TrimSpace key = "interface") then (gw, TrimSpace value)
      else (gw, dev)
  end.

Definition default_route (output : string) : string * string :=
  foldl (λ r line, route_line line r.1 r.2) ("", "") (Split output newline).

(** The loop of [serviceForInterface]: the service named last before the line
    of the device. *)
Fixpoint find_service (device : string) (ls : list string) (current : string) : option string :=
  match ls with
  | [] => None
  | line :: ls =>
      let line := TrimSpace line in
      match (if HasPrefix line "(" then CutString line ") " else None) with
      | Some (_, name) => find_service device ls (TrimSpace name)
      | None =>
          if Contains line ("Device: " +:+ device +:+ ")") then Some current
          else find_service device ls current
      end
  end.

Definition serviceForInterface `{Env} (device : string) : IO (result string) :=
  output ←? run "networksetup" ["-listnetworkserviceorder"];
  mret match find_service device (Split output newline) "" with
       | Some service => Ok service
       | None => Err [Lit "no network service uses "; Plain device]
       end.

(** The fields of the output that are addresses. *)
Definition dns_servers (output : string) : list string :=
  filter (λ s, is_Some (ParseIP s)) (Fields output).

Definition Snapshot `{Env} : IO (result State) :=
  output ←? io_wrap [Lit "finding the default route: "] (run "route" ["-n"; "get"; "default"]);
  let '(gw, dev) := default_route output in
  if bool_decide (gw = "") || bool_decide (dev = "")
  then mret (Err [Lit "no default route: this machine is not on a network"])
  else
    service ←? serviceForInterface dev;
    dns ← run "networksetup" ["-getdnsservers"; service];
    info ← run "networksetup" ["-getinfo"; service];
    mret (Ok (mkState gw dev service
      (match dns with Ok output => dns_servers output | Err _ => [] end)
      (match info with Ok info => negb (Contains info "IPv6: Off") | Err _ => false end))).

(** ** Apply *)

Definition add_half `{Env} (cfg : Config) (half : string) : IO (result unit) :=
  command [Lit "routing "; Plain half; Lit " into the tunnel: "]
    "route" ["-n"; "add"; "-net"; half; "-interface"; Interface cfg].

Definition Apply `{Env} (state : State) (cfg : Config) : IO (result unit) :=
  _ ←? command (err_about "configuring " (Interface cfg)) "ifconfig"
         [Interface cfg; "inet"; Address cfg; Address cfg; "netmask"; "255.255.255.255"; "up"];
  _ ←? (if (0 <? MTU cfg)%Z
        then command (err_about "setting MTU on " (Interface cfg)) "ifconfig"
               [Interface cfg; "mtu"; Itoa (MTU cfg)]
        else mret (Ok tt));
  _ ←? command [Lit "pinning the endpoint route: "] "route"
         ["-n"; "add"; "-host"; EndpointHost cfg; DefaultGateway state];
  _ ←? in_turn (map (add_half cfg) defaultHalves);
  _ ←? (if IPv6WasEnabled state
        then command [Lit "disabling IPv6: "] "networksetup" ["-setv6off"; NetworkService state]
        else mret (Ok tt));
  if bool_decide (DNS cfg = []) then mret (Ok tt)
  else command [Lit "setting DNS: "] "networksetup" (["-setdnsservers"; NetworkService state] ++ DNS cfg).

(** ** Restore *)

Definition attempt `{Env} (what name : string) (args : list string) : string * IO (result unit) :=
  (what, command [] name args).

Definition Restore `{Env} (state : State) (cfg : Config) : IO (result unit) :=
  problems ← attempt_all
    (map (λ half, attempt ("removing route " +:+ half) "route"
            ["-n"; "delete"; "-net"; half; "-interface"; Interface cfg]) defaultHalves ++
     [attempt "removing the endpoint route" "route" ["-n"; "delete"; "-host"; EndpointHost cfg]] ++
     [if bool_decide (PreviousDNS state = [])
      then attempt "clearing DNS" "networksetup" ["-setdnsservers"; NetworkService state; "Empty"]
      else attempt "restoring DNS" "networksetup" (["-setdnsservers"; NetworkService state] ++ PreviousDNS state)] ++
     (if IPv6WasEnabled state
      then [attempt "re-enabling IPv6" "networksetup" ["-setv6automatic"; NetworkService state]] else [])) [];
  mret (if bool_decide (problems = []) then Ok tt
        else Err (Lit "the machine was not fully restored:" :: join_problems problems)).
