(* ===== verification/SystemDarwinFacts.v ===== *)
(** * Properties of taking over the routing of a Mac

    The machine the commands act on, what they are documented to do, and that
    [Restore] brings it back wherever [Apply] stopped. *)

From S2P Require Import Prelude GoStrings NetAddr Effects System SystemFacts SystemDarwin.
From stdpp Require Import options.

(** What [Apply] does, in order. *)
Definition apply_script (state : State) (cfg : Config) : list call :=
  [Exec "ifconfig" [Interface cfg; "inet"; Address cfg; Address cfg; "netmask"; "255.255.255.255"; "up"]] ++
  (if (0 <? MTU cfg)%Z then [Exec "ifconfig" [Interface cfg; "mtu"; Itoa (MTU cfg)]] else []) ++
  [Exec "route" ["-n"; "add"; "-host"; EndpointHost cfg; DefaultGateway state]] ++
  map (λ half, Exec "route" ["-n"; "add"; "-net"; half; "-interface"; Interface cfg]) defaultHalves ++
  (if IPv6WasEnabled state then [Exec "networksetup" ["-setv6off"; NetworkService state]] else []) ++
  (if bool_decide (DNS cfg = []) then [] else [Exec "networksetup" (["-setdnsservers"; NetworkService state] ++ DNS cfg)]).

Lemma follows_Apply `{Env} state cfg : follows (Apply state cfg) (apply_script state cfg).
Proof.
  unfold Apply, apply_script, command, add_half.
  apply follows_try; [apply follows_command|]. intros _.
  apply follows_try; [apply follows_when, follows_command|]. intros _.
  apply follows_try; [apply follows_command|]. intros _.
  apply follows_try; [apply follows_in_turn; intros; apply follows_command|]. intros _.
  apply follows_try; [apply follows_when, follows_command|]. intros _.
  case_bool_decide; [apply follows_ret|apply follows_command].
Qed.

(** ** The machine *)

Inductive v6_mode := Manual | LinkLocal | Off.
#[export] Instance v6_mode_eq_dec : EqDecision v6_mode.
Proof. solve_decision. Defined.

(** Routes by destination; the DNS servers of the services that have their own;
    the IPv6 mode of the services where it is not automatic. *)
Record mac := mkMac {
  mac_routes : gmap string string;
  mac_dns : gmap string (list string);
  mac_v6 : gmap string v6_mode;
}.
#[export] Instance mac_eq_dec : EqDecision mac.
Proof. solve_decision. Defined.

Definition on_routes f m := mkMac (f (mac_routes m)) (mac_dns m) (mac_v6 m).
Definition on_dns f m := mkMac (mac_routes m) (f (mac_dns m)) (mac_v6 m).
Definition on_v6 f m := mkMac (mac_routes m) (mac_dns m) (f (mac_v6 m)).

Definition set_dns (service : string) (servers : list string) (d : gmap string (list string)) :=
  if bool_decide (servers = []) then delete service d else <[service := servers]> d.

Definition route_effect (args : list string) : mac → mac :=
  match args with
  | [n; a; k; dst; i] =>
      if bool_decide ([n; a; k] = ["-n"; "add"; "-host"]) then on_routes <[dst := i]> else id
  | [n; a; k; dst; f; i] =>
      if bool_decide ([n; a; k; f] = ["-n"; "add"; "-net"; "-interface"]) then on_routes <[dst := i]>
      else if bool_decide ([n; a; k; f] = ["-n"; "delete"; "-net"; "-interface"])
           then on_routes (drop_route dst i) else id
  | [n; a; k; dst] =>
      if bool_decide ([n; a; k] = ["-n"; "delete"; "-host"]) then on_routes (delete dst) else id
  | _ => id
  end.

Definition networksetup_effect (args : list string) : mac → mac :=
  match args with
  | what :: service :: rest =>
      if bool_decide (what = "-setv6off") then on_v6 <[service := Off]>
      else if bool_decide (what = "-setv6automatic") then on_v6 (delete service)
      else if bool_decide (what = "-setdnsservers")
           then on_dns (set_dns service (if bool_decide (rest = ["Empty"]) then [] else rest))
      else id
  | _ => id
  end.

Definition mac_effect (c : call) : mac → mac :=
  match c with
  | Exec name args =>
      if bool_decide (name = "route") then route_effect args
      else if bool_decide (name = "networksetup") then networksetup_effect args else id
  | _ => id
  end.

(** Calls that failed did nothing. *)
Definition mac_call (m : mac) (co : call * outcome) : mac :=
  if failed co.2 then m else mac_effect co.1 m.
Definition mac_after (m : mac) (h : history) : mac := foldl mac_call m h.

Lemma mac_after_snoc m h c o :
  mac_after m (h ++ [(c, o)]) = if failed o then mac_after m h else mac_effect c (mac_after m h).
Proof. unfold mac_after. by rewrite foldl_app. Qed.

(** ** What the environment is documented to do *)

Definition add_host dst gw : call := Exec "route" ["-n"; "add"; "-host"; dst; gw].
Definition add_net dst i : call := Exec "route" ["-n"; "add"; "-net"; dst; "-interface"; i].
Definition delete_host dst : call := Exec "route" ["-n"; "delete"; "-host"; dst].
Definition delete_net dst i : call := Exec "route" ["-n"; "delete"; "-net"; dst; "-interface"; i].

(** How [networksetup] is told to go back to these servers. *)
Definition servers_back (servers : list string) : list string :=
  if bool_decide (servers = []) then ["Empty"] else servers.

Class MacDocumented (m0 : mac) (env : Env) : Prop := {
  (* deleting fails only when there is nothing to delete *)
  delete_host_fails h dst : failed (answer h (delete_host dst)) = true →
    mac_routes (mac_after m0 h) !! dst = None;
  delete_net_fails h dst i : failed (answer h (delete_net dst i)) = true →
    mac_routes (mac_after m0 h) !! dst ≠ Some i;
  (* a route is added only where there is none *)
  add_host_fresh h dst gw : failed (answer h (add_host dst gw)) = false →
    mac_routes (mac_after m0 h) !! dst = None;
  add_net_fresh h dst i : failed (answer h (add_net dst i)) = false →
    mac_routes (mac_after m0 h) !! dst = None;
  (* what networksetup prints is so; of the servers, while they are as they were *)
  dns_honest h service : mac_dns (mac_after m0 h) = mac_dns m0 → ∃ s, answer h (Exec "networksetup" ["-getdnsservers"; service]) = Output s ∧
    dns_servers s = default [] (mac_dns (mac_after m0 h) !! service);
  info_honest h service : ∃ s, answer h (Exec "networksetup" ["-getinfo"; service]) = Output s ∧
    Contains s "IPv6: Off" = bool_decide (mac_v6 (mac_after m0 h) !! service = Some Off);
  (* going back works *)
  automatic_works h service : failed (answer h (Exec "networksetup" ["-setv6automatic"; service])) = false;
  dns_back_works h service : failed (answer h (Exec "networksetup"
    ("-setdnsservers" :: service :: servers_back (default [] (mac_dns m0 !! service))))) = false;
}.

(** ** Where [Apply] may leave the machine *)

Section Restoring.
Context (state : State) (cfg : Config).

(** What the tunnel adds is not there yet; no service has an empty list of
    servers, or one that says Empty. *)
Record clear (m : mac) : Prop := {
  cl_host : mac_routes m !! EndpointHost cfg = None;
  cl_halves half : half ∈ defaultHalves → mac_routes m !! half ≠ Some (Interface cfg);
  cl_address : EndpointHost cfg ∉ defaultHalves;
  cl_dns service l : mac_dns m !! service = Some l → l ≠ [] ∧ l ≠ ["Empty"];
}.

(** The snapshot tells the truth about its service. *)
Definition noted (m : mac) : Prop :=
  PreviousDNS state = default [] (mac_dns m !! NetworkService state) ∧
  IPv6WasEnabled state = negb (bool_decide (mac_v6 m !! NetworkService state = Some Off)).

(** The one setting that is not kept: a mode other than automatic or off. *)
Definition plain_v6 (m : mac) : Prop :=
  mac_v6 m !! NetworkService state = None ∨ mac_v6 m !! NetworkService state = Some Off.

(** [m'] is [m] with some of the tunnel's changes made. *)
Record changed (m m' : mac) : Prop := {
  ch_routes dst : mac_routes m' !! dst = mac_routes m !! dst ∨
    (mac_routes m !! dst = None ∧
      ((dst ∈ defaultHalves ∧ mac_routes m' !! dst = Some (Interface cfg)) ∨ dst = EndpointHost cfg));
  ch_dns service : service ≠ NetworkService state → mac_dns m' !! service = mac_dns m !! service;
  ch_v6 service : service ≠ NetworkService state ∨ IPv6WasEnabled state = false →
    mac_v6 m' !! service = mac_v6 m !! service;
}.

Lemma changed_refl m : changed m m.
Proof. split; auto. Qed.

Lemma changed_route m dst via m' :
  changed m m' → mac_routes m' !! dst = None →
  (dst ∈ defaultHalves ∧ via = Interface cfg) ∨ dst = EndpointHost cfg →
  changed m (on_routes <[dst := via]> m').
Proof.
  intros [Cr ? ?] Hnone Hd. split; try done. intros k. cbn.
  destruct (decide (k = dst)) as [->|Hk]; [|rewrite lookup_insert_ne by done; apply Cr].
  rewrite lookup_insert_eq. right. split.
  - destruct (Cr dst) as [<-|[? _]]; done.
  - destruct Hd as [[? ->]| ->]; auto.
Qed.

Lemma changed_dns m servers m' :
  changed m m' → changed m (on_dns (set_dns (NetworkService state) servers) m').
Proof.
  intros [? Cd ?]. split; try done. intros service Hs. cbn. rewrite <- Cd by done. unfold set_dns.
  case_bool_decide; [by rewrite lookup_delete_ne|by rewrite lookup_insert_ne].
Qed.

Lemma changed_v6 m m' :
  changed m m' → IPv6WasEnabled state = true →
  changed m (on_v6 <[NetworkService state := Off]> m').
Proof.
  intros [? ? Cv] He. split; try done. intros service [Hs|Hs]; [|congruence]. cbn. rewrite <- Cv by auto.
  by rewrite lookup_insert_ne.
Qed.

(** What [Restore] makes of a machine. *)
Definition put_back (m : mac) : mac :=
  mkMac
    (delete (EndpointHost cfg) (drop_route "128.0.0.0/1" (Interface cfg)
      (drop_route "0.0.0.0/1" (Interface cfg) (mac_routes m))))
    (set_dns (NetworkService state) (PreviousDNS state) (mac_dns m))
    (if IPv6WasEnabled state then delete (NetworkService state) (mac_v6 m) else mac_v6 m).

Lemma put_back_changed m m' :
  clear m → noted m → plain_v6 m → changed m m' → put_back m' = m.
Proof.
  intros [Hh Hi Ha Hd] [Nd Nv] Hv [Cr Cd Cv].
  destruct m as [R D V], m' as [R' D' V']; cbn in *. unfold put_back; cbn. f_equal.
  - apply map_eq. intros k. destruct (decide (k = EndpointHost cfg)) as [->|Hk].
    { by rewrite lookup_delete_eq, Hh. }
    rewrite lookup_delete_ne, !drop_route_lookup by done.
    destruct (Cr k) as [Heq|(HN & [[Hin Hs]|?])]; [| |done].
    + repeat case_bool_decide; try done.
      all: match goal with H : _ ∧ _ |- _ => destruct H as [-> H] end.
      all: rewrite ?drop_route_lookup in *; repeat case_bool_decide; try done.
      all: exfalso; eapply Hi; [|by rewrite <- Heq]; unfold defaultHalves; set_solver.
    + rewrite HN. unfold defaultHalves in Hin. rewrite !elem_of_cons, elem_of_nil in Hin.
      destruct Hin as [->|[->|[]]]; repeat case_bool_decide; naive_solver.
  - clear Nv. apply map_eq. intros k. unfold set_dns. specialize (Hd k).
    destruct (decide (k = NetworkService state)) as [->|Hk].
    + rewrite Nd. destruct (D !! NetworkService state) as [l|] eqn:E; cbn.
      * case_bool_decide as Hl; [by destruct (Hd _ eq_refl)|]. by rewrite lookup_insert_eq.
      * by rewrite lookup_delete_eq.
    + rewrite <- Cd by done. case_bool_decide; [by rewrite lookup_delete_ne|by rewrite lookup_insert_ne].
  - apply map_eq. intros k. unfold plain_v6 in Hv. cbn in Hv.
    destruct (IPv6WasEnabled state) eqn:E; [|by apply Cv; right].
    destruct (decide (k = NetworkService state)) as [->|Hk]; [|rewrite lookup_delete_ne by done; apply Cv; auto].
    rewrite lookup_delete_eq. symmetry in Nv. apply negb_true_iff, bool_decide_eq_false in Nv. naive_solver.
Qed.
End Restoring.

(** ** The operations on the machine *)

Section Mac.
Context {env : Env} (m0 : mac) `{Hdoc : !MacDocumented m0 env} (state : State) (cfg : Config).
#[local] Set Default Proof Using "Type*".
Abbreviation M := (mac_after m0).

Lemma mac_perform c h :
  M (h ++ [(c, answer h c)]) = if failed (answer h c) then M h else mac_effect c (M h).
Proof. apply mac_after_snoc. Qed.

(** A command keeps whatever failing and succeeding keep. *)
Lemma wp_mac_command prefix name args h (P : mac → Prop) :
  P (M h) → (failed (answer h (Exec name args)) = false → P (mac_effect (Exec name args) (M h))) →
  wp (System.command prefix name args) (λ r h', P (M h') ∧
    (r = Ok tt → M h' = mac_effect (Exec name args) (M h))) h.
Proof.
  intros H1 H2. unfold System.command, run. do 2 apply wp_bind. apply wp_perform, wp_ret, wp_ret.
  rewrite mac_perform. destruct (answer h (Exec name args)); cbn [failed] in *; try by auto.
Qed.

(** A command of [Restore]: it fails only where it would change nothing. *)
Lemma wp_mac_undo prefix name args h (f : mac → mac) :
  mac_effect (Exec name args) = f →
  (failed (answer h (Exec name args)) = true → f (M h) = M h) →
  wp (System.command prefix name args) (λ r h', M h' = f (M h) ∧ (f (M h) ≠ M h → r = Ok tt)) h.
Proof.
  intros He Hf. unfold System.command, run. do 2 apply wp_bind. apply wp_perform, wp_ret, wp_ret.
  rewrite mac_perform, He. destruct (failed (answer h (Exec name args))) eqn:E.
  - by rewrite Hf.
  - split; [done|]. intros _. by destruct (answer h (Exec name args)).
Qed.

(** The machine every change of the tunnel is made to. *)
Definition taken (m : mac) : Prop :=
  is_Some (mac_routes m !! EndpointHost cfg) ∧
  ∀ half, half ∈ defaultHalves → mac_routes m !! half = Some (Interface cfg).

Abbreviation ok m h := (changed state cfg m (M h)).

Lemma wp_mac_pin m h : ok m h →
  wp (System.command [Lit "pinning the endpoint route: "] "route"
        ["-n"; "add"; "-host"; EndpointHost cfg; DefaultGateway state])
    (λ r h', ok m h' ∧ (r = Ok tt → M h' = on_routes <[EndpointHost cfg := DefaultGateway state]> (M h))) h.
Proof.
  intros Hok. apply wp_mac_command; [done|]. intros Hs.
  apply (changed_route state cfg m (EndpointHost cfg) (DefaultGateway state)); [done| |by right].
  by apply (add_host_fresh h (EndpointHost cfg) (DefaultGateway state)).
Qed.

Lemma wp_mac_half m half h : half ∈ defaultHalves → ok m h →
  wp (add_half cfg half) (λ r h', ok m h' ∧ (r = Ok tt → M h' = on_routes <[half := Interface cfg]> (M h))) h.
Proof.
  intros Hin Hok. apply wp_mac_command; [done|]. intros Hs.
  apply (changed_route state cfg m half (Interface cfg)); [done| |by left].
  by apply (add_net_fresh h half (Interface cfg)).
Qed.

(** The last two steps, which leave the routes alone. *)
Lemma wp_mac_settings m h : ok m h →
  wp (_ ←? (if IPv6WasEnabled state
            then System.command [Lit "disabling IPv6: "] "networksetup" ["-setv6off"; NetworkService state]
            else mret (Ok tt));
      if bool_decide (DNS cfg = []) then mret (Ok tt)
      else System.command [Lit "setting DNS: "] "networksetup" (["-setdnsservers"; NetworkService state] ++ DNS cfg))
    (λ r h', ok m h' ∧ mac_routes (M h') = mac_routes (M h)) h.
Proof.
  intros Hok. apply wp_try. apply (wp_mono _ (λ r h', ok m h' ∧ mac_routes (M h') = mac_routes (M h))).
  - intros [[]|e] h1 [H1 E1]; [|done]. case_bool_decide; [done|].
    eapply wp_mono; [|apply (wp_mac_command _ _ _ _ (λ m', changed state cfg m m' ∧ mac_routes m' = mac_routes (M h)))].
    + by intros r h2 [? _].
    + done.
    + intros _. split; [by apply changed_dns|done].
  - destruct (IPv6WasEnabled state) eqn:He; [|done].
    eapply wp_mono; [|apply (wp_mac_command _ _ _ _ (λ m', changed state cfg m m' ∧ mac_routes m' = mac_routes (M h)))].
    + by intros r h2 [? _].
    + done.
    + intros _. split; [by apply changed_v6|done].
Qed.

Lemma wp_mac_Apply m h : EndpointHost cfg ∉ defaultHalves → ok m h →
  wp (Apply state cfg) (λ r h', ok m h' ∧ (r = Ok tt → taken (M h'))) h.
Proof.
  intros Hne H0. assert (∀ prefix name args h, mac_effect (Exec name args) = id → ok m h →
    wp (System.command prefix name args) (λ _ h', ok m h') h) as Hid.
  { intros prefix name args h0 He Hh. eapply wp_mono; [|apply (wp_mac_command _ _ _ _ (changed state cfg m)); [done|by rewrite He]].
    by intros r h' [? _]. }
  unfold Apply, defaultHalves, command. cbn [map in_turn].
  apply wp_try. eapply wp_mono; [|by apply Hid]. intros [[]|e] h1 H1; [|done].
  apply wp_try. apply (wp_mono _ (λ _ h', ok m h')); [|destruct (0 <? MTU cfg)%Z; [by apply Hid|done]].
  intros [[]|e] h2 H2; [|done].
  apply wp_try. eapply wp_mono; [|by apply wp_mac_pin]. intros [[]|e] h3 [H3 E3]; [|done]. specialize (E3 eq_refl).
  apply wp_try. apply wp_try. eapply wp_mono; [|apply (wp_mac_half m); [set_solver|done]].
  intros [[]|e] h4 [H4 E4]; [|done]. specialize (E4 eq_refl).
  apply wp_try. eapply wp_mono; [|apply (wp_mac_half m); [set_solver|done]].
  intros [[]|e] h5 [H5 E5]; [|done]. specialize (E5 eq_refl). apply wp_ret.
  eapply wp_mono; [|by apply wp_mac_settings]. intros r h6 [H6 E6]. split; [done|]. intros _. unfold taken.
  rewrite E6, E5, E4, E3. cbn [on_routes mac_routes]. unfold defaultHalves in *. split.
  - rewrite !lookup_insert_ne by set_solver. by rewrite lookup_insert_eq.
  - intros half Hin. rewrite !elem_of_cons, elem_of_nil in Hin. destruct Hin as [->|[->|[]]].
    + by rewrite lookup_insert_ne, lookup_insert_eq by done.
    + by rewrite lookup_insert_eq.
Qed.

(** A command that is known to work. *)
Lemma wp_mac_works prefix name args h :
  failed (answer h (Exec name args)) = false →
  wp (System.command prefix name args) (λ r h', M h' = mac_effect (Exec name args) (M h) ∧ r = Ok tt) h.
Proof.
  intros Hf. unfold System.command, run. do 2 apply wp_bind. apply wp_perform, wp_ret, wp_ret.
  rewrite mac_perform, Hf. split; [done|]. by destruct (answer h (Exec name args)).
Qed.

Lemma wp_delete_half half h :
  wp (System.command [] "route" ["-n"; "delete"; "-net"; half; "-interface"; Interface cfg])
    (λ r h', M h' = on_routes (drop_route half (Interface cfg)) (M h) ∧
      (mac_routes (M h) !! half = Some (Interface cfg) → r = Ok tt)) h.
Proof.
  eapply wp_mono; [|apply (wp_mac_undo _ _ _ _ (on_routes (drop_route half (Interface cfg)))); [reflexivity|]].
  - intros r h' [-> Hr]. split; [done|]. intros Hs. apply Hr. intros E.
    apply (f_equal (λ m, mac_routes m !! half)) in E. cbn [on_routes mac_routes] in E.
    rewrite drop_route_lookup, bool_decide_true in E by done. congruence.
  - intros Hf%delete_net_fails. unfold on_routes, drop_route. rewrite bool_decide_false by done.
    by destruct (M h).
Qed.

Lemma wp_delete_endpoint h :
  wp (System.command [] "route" ["-n"; "delete"; "-host"; EndpointHost cfg])
    (λ r h', M h' = on_routes (delete (EndpointHost cfg)) (M h) ∧
      (is_Some (mac_routes (M h) !! EndpointHost cfg) → r = Ok tt)) h.
Proof.
  eapply wp_mono; [|apply (wp_mac_undo _ _ _ _ (on_routes (delete (EndpointHost cfg)))); [reflexivity|]].
  - intros r h' [-> Hr]. split; [done|]. intros [v Hs]. apply Hr. intros E.
    apply (f_equal (λ m, mac_routes m !! EndpointHost cfg)) in E. cbn [on_routes mac_routes] in E.
    rewrite lookup_delete_eq in E. congruence.
  - intros Hf%delete_host_fails. unfold on_routes. rewrite delete_id by done. by destruct (M h).
Qed.

Lemma wp_dns_back h :
  PreviousDNS state = default [] (mac_dns m0 !! NetworkService state) → PreviousDNS state ≠ ["Empty"] →
  let step := if bool_decide (PreviousDNS state = [])
      then attempt "clearing DNS" "networksetup" ["-setdnsservers"; NetworkService state; "Empty"]
      else attempt "restoring DNS" "networksetup" ("-setdnsservers" :: NetworkService state :: PreviousDNS state) in
  wp step.2 (λ r h', M h' = on_dns (set_dns (NetworkService state) (PreviousDNS state)) (M h) ∧ r = Ok tt) h.
Proof.
  intros Hdns Hempty. pose proof (dns_back_works h (NetworkService state)) as Hw. rewrite <- Hdns in Hw.
  unfold servers_back in Hw. case_bool_decide as Hn; cbn zeta; unfold attempt, command; cbn [snd].
  - rewrite Hn. eapply wp_mono; [|by apply wp_mac_works]. intros r h' [-> ->]. by split.
  - eapply wp_mono; [|by apply wp_mac_works]. intros r h' [-> ->]. split; [|done].
    change (mac_effect _ (M h)) with (on_dns (set_dns (NetworkService state)
      (if bool_decide (PreviousDNS state = ["Empty"]) then [] else PreviousDNS state)) (M h)).
    by rewrite bool_decide_false by done.
Qed.

Lemma wp_mac_Restore h :
  PreviousDNS state = default [] (mac_dns m0 !! NetworkService state) → PreviousDNS state ≠ ["Empty"] →
  EndpointHost cfg ∉ defaultHalves →
  wp (Restore state cfg) (λ r h', M h' = put_back state cfg (M h) ∧ (taken (M h) → r = Ok tt)) h.
Proof.
  intros Hdns Hempty Hne. unfold Restore. unfold attempt at 1 2, defaultHalves, command. cbn [map app attempt_all].
  assert (EndpointHost cfg ≠ "0.0.0.0/1" ∧ EndpointHost cfg ≠ "128.0.0.0/1") as [Hn1 Hn2].
  { unfold defaultHalves in Hne. set_solver. }
  apply wp_bind.
  apply wp_bind. eapply wp_mono; [|apply wp_delete_half]. intros r1 h1 [H1 Hr1].
  apply wp_bind. eapply wp_mono; [|apply wp_delete_half]. intros r2 h2 [H2 Hr2].
  apply wp_bind. eapply wp_mono; [|apply wp_delete_endpoint]. intros r3 h3 [H3 Hr3].
  destruct (if bool_decide (PreviousDNS state = []) then _ else _) as [what step] eqn:Hstep.
  pose proof (wp_dns_back h3 Hdns Hempty) as Hd. cbv zeta in Hd. rewrite Hstep in Hd. cbn [snd] in Hd.
  apply wp_bind. eapply wp_mono; [|exact Hd]. intros r4 h4 [H4 ->]. cbn [note].
  assert (M h4 = put_back (mkState "" "" (NetworkService state) (PreviousDNS state) false) cfg (M h)) as HM.
  { rewrite H4, H3, H2, H1. done. }
  assert (taken (M h) → note "removing the endpoint route" r3 (note ("removing route " +:+ "128.0.0.0/1") r2
    (note ("removing route " +:+ "0.0.0.0/1") r1 [])) = []) as Hok.
  { intros [Hs Hh]. rewrite Hr1, Hr2, Hr3; [done| | |].
    - rewrite H2, H1. cbn [on_routes mac_routes]. rewrite !drop_route_lookup, !bool_decide_false by naive_solver. done.
    - rewrite H1. cbn [on_routes mac_routes]. rewrite drop_route_lookup, bool_decide_false by naive_solver. apply Hh.
      unfold defaultHalves. set_solver.
    - apply Hh. unfold defaultHalves. set_solver. }
  destruct (IPv6WasEnabled state) eqn:He; cbn [attempt_all].
  - apply wp_bind. unfold attempt, command. cbn [snd].
    eapply wp_mono; [|apply wp_mac_works, automatic_works]. intros r5 h5 [H5 ->].
    apply wp_ret, wp_ret. split; [|intros Ht; cbn [note]; by rewrite (Hok Ht)].
    rewrite H5, HM. unfold put_back. by rewrite He.
  - apply wp_ret, wp_ret. split; [|intros Ht; by rewrite (Hok Ht)]. rewrite HM. unfold put_back. by rewrite He.
Qed.
End Mac.

(** ** Snapshot, and there and back *)

Section Snapshot.
Context {env : Env} (m0 : mac) `{Hdoc : !MacDocumented m0 env}.
#[local] Set Default Proof Using "Type*".
Abbreviation M := (mac_after m0).

Lemma wp_mac_run_id name args h :
  mac_effect (Exec name args) = id → wp (run name args) (λ _ h', M h' = M h) h.
Proof.
  intros He. unfold run. apply wp_bind, wp_perform, wp_ret. rewrite mac_after_snoc, He. by destruct (failed _).
Qed.

(** A question whose answer is known to be honest. *)
Lemma wp_mac_ask name args h (T : string → Prop) :
  mac_effect (Exec name args) = id → (∃ s, answer h (Exec name args) = Output s ∧ T s) →
  wp (run name args) (λ r h', M h' = M h ∧ ∃ s, r = Ok s ∧ T s) h.
Proof.
  intros He (s & Hs & Ht). unfold run. apply wp_bind, wp_perform, wp_ret. rewrite mac_after_snoc, He, Hs. eauto.
Qed.

Lemma wp_mac_Snapshot h :
  M h = m0 → wp Snapshot (λ r h', M h' = m0 ∧ ∀ st, r = Ok st → noted st m0) h.
Proof.
  intros H0. unfold Snapshot. apply wp_try, wp_io_wrap. eapply wp_mono; [|by apply wp_mac_run_id].
  intros [output|e] h1 H1; rewrite H0 in H1; cbn [wrap]; [|done].
  destruct (default_route output) as [gw dev]. destruct (_ || _); [done|].
  apply wp_try. unfold serviceForInterface. apply wp_try. eapply wp_mono; [|by apply wp_mac_run_id].
  intros [out2|e] h2 H2; [|split; [congruence|done]]. apply wp_ret.
  destruct (find_service dev _ "") as [service|]; [|split; [congruence|done]].
  apply wp_bind. eapply wp_mono; [|apply wp_mac_ask; [done|apply dns_honest; congruence]].
  intros r3 h3 (H3 & dns & -> & Hdns).
  apply wp_bind. eapply wp_mono; [|apply wp_mac_ask; [done|apply info_honest]].
  intros r4 h4 (H4 & info & -> & Hinfo). apply wp_ret. split; [congruence|].
  intros st [= <-]. split; cbn [PreviousDNS NetworkService IPv6WasEnabled].
  - by rewrite Hdns, H2, H1.
  - by rewrite Hinfo, H3, H2, H1.
Qed.

(** Take over and give back: what a failed start does, and a start with its stop. *)
Definition mac_take_over (cfg : Config) : IO (result (result unit * result unit)) :=
  state ←? Snapshot; applied ← Apply state cfg; back ← Restore state cfg; mret (Ok (applied, back)).

Lemma wp_mac_take_over cfg h :
  M h = m0 → clear cfg m0 → (∀ service mode, mac_v6 m0 !! service = Some mode → mode = Off) →
  wp (mac_take_over cfg) (λ r h', M h' = m0 ∧ ∀ back, r = Ok (Ok tt, back) → back = Ok tt) h.
Proof.
  intros Hh Hcl Hv6. unfold mac_take_over. apply wp_try. eapply wp_mono; [|by apply wp_mac_Snapshot].
  intros [state|e] h1 [H1 Hst]; [|done]. specialize (Hst state eq_refl).
  pose proof Hst as [Hdns _]. pose proof Hcl as [_ _ Ha Hl].
  apply wp_bind. eapply wp_mono; [|apply (wp_mac_Apply m0 state cfg m0); [done|rewrite H1; apply changed_refl]].
  intros ra h2 [H2 Hra].
  apply wp_bind. eapply wp_mono; [|apply (wp_mac_Restore m0 state cfg); [done| |done]].
  2: { rewrite Hdns. destruct (mac_dns m0 !! NetworkService state) as [l|] eqn:E; [|done]. cbn. by apply (Hl _ _ E). }
  intros rr h3 [H3 Hrr]. apply wp_ret. split.
  - rewrite H3. apply put_back_changed; [done|done| |done]. unfold plain_v6.
    destruct (mac_v6 m0 !! NetworkService state) as [mode|] eqn:E; [right|by left]. by rewrite (Hv6 _ _ E).
  - intros back [= -> ->]. auto.
Qed.
End Snapshot.

(** ** A simulated Mac *)

Definition service_order : string :=
  "An asterisk (*) denotes that a network service is disabled." +:+ nl +:+
  "(1) Ethernet" +:+ nl +:+ "(Hardware Port: Ethernet, Device: en1)" +:+ nl +:+ nl +:+
  "(2) Wi-Fi" +:+ nl +:+ "(Hardware Port: Wi-Fi, Device: en0)" +:+ nl.

Definition mac_simulated (m0 : mac) : Env := λ h c,
  let m := mac_after m0 h in
  match c with
  | Exec name args =>
      if bool_decide (args = ["-n"; "get"; "default"])
      then Output ("   route to: default" +:+ nl +:+ "    gateway: 192.168.1.1" +:+ nl +:+ "  interface: en0" +:+ nl)
      else if bool_decide (args = ["-listnetworkserviceorder"]) then Output service_order
      else match args with
      | [n; a; k; dst; i] =>
          if bool_decide ([n; a; k] = ["-n"; "add"; "-host"]) && negb (bool_decide (mac_routes m !! dst = None))
          then Failure "" [Lit "File exists"] false else Output ""
      | [n; a; k; dst; f; i] =>
          if bool_decide ([n; a; k; f] = ["-n"; "add"; "-net"; "-interface"]) && negb (bool_decide (mac_routes m !! dst = None))
          then Failure "" [Lit "File exists"] false
          else if bool_decide ([n; a; k; f] = ["-n"; "delete"; "-net"; "-interface"]) && negb (bool_decide (mac_routes m !! dst = Some i))
          then Failure "" [Lit "not in table"] false else Output ""
      | [n; a; k; dst] =>
          if bool_decide ([n; a; k] = ["-n"; "delete"; "-host"]) && bool_decide (mac_routes m !! dst = None)
          then Failure "" [Lit "not in table"] false else Output ""
      | [what; service] =>
          if bool_decide (what = "-getdnsservers")
          then Output (Join (default [] (mac_dns m !! service)) nl)
          else if bool_decide (what = "-getinfo") && bool_decide (mac_v6 m !! service = Some Off)
          then Output "IPv6: Off" else Output ""
      | _ => Output ""
      end
  | _ => Output ""
  end.

Lemma mac_simulated_documented m0 :
  (∀ service, dns_servers (Join (default [] (mac_dns m0 !! service)) nl) = default [] (mac_dns m0 !! service)) →
  MacDocumented m0 (mac_simulated m0).
Proof.
  intros Hdns. split.
  - intros h dst Hf. unfold answer, mac_simulated, delete_host in Hf.
    rewrite !bool_decide_false in Hf by done. rewrite bool_decide_true in Hf by done. cbn [andb] in Hf.
    by case_bool_decide.
  - intros h dst i Hf. unfold answer, mac_simulated, delete_net in Hf.
    rewrite !(bool_decide_false (_ = ["-n"; _; _])) in Hf by done. cbn in Hf.
    by destruct (bool_decide_reflect (mac_routes (mac_after m0 h) !! dst = Some i)).
  - intros h dst gw Hf. unfold answer, mac_simulated, add_host in Hf. cbn in Hf.
    by destruct (bool_decide_reflect (mac_routes (mac_after m0 h) !! dst = None)).
  - intros h dst i Hf. unfold answer, mac_simulated, add_net in Hf. cbn in Hf.
    by destruct (bool_decide_reflect (mac_routes (mac_after m0 h) !! dst = None)).
  - intros h service Heq. eexists. split; [reflexivity|]. rewrite Heq. apply Hdns.
  - intros h service. exists (if bool_decide (mac_v6 (mac_after m0 h) !! service = Some Off) then "IPv6: Off" else "").
    change (answer h _) with (if bool_decide (mac_v6 (mac_after m0 h) !! service = Some Off)
      then Output "IPv6: Off" else Output "").
    by destruct (bool_decide_reflect (mac_v6 (mac_after m0 h) !! service = Some Off)).
  - done.
  - intros h service. unfold servers_back. case_bool_decide; [done|].
    generalize (default [] (mac_dns m0 !! service)). intros l.
    by destruct l as [|a [|b [|c [|d [|e l]]]]].
Qed.

(** A laptop on Wi-Fi, and a tunnel for it. *)
Definition macbook : mac := mkMac {["default" := "192.168.1.1"]} {["Wi-Fi" := ["192.168.1.1"; "9.9.9.9"]]} ∅.
Definition mac_tunnel : Config := mkConfig "utun4" 0 "10.8.1.23" 1420 "203.0.113.10" ["1.1.1.1"].

Lemma macbook_clear : clear mac_tunnel macbook.
Proof.
  split; [reflexivity| | |].
  - intros half [->|[->|[]%elem_of_nil]%elem_of_cons]%elem_of_cons; vm_compute; discriminate.
  - unfold defaultHalves. cbn. rewrite !elem_of_cons, elem_of_nil. by intros [|[|[]]].
  - intros service l. cbn. intros [_ <-]%lookup_singleton_Some. done.
Qed.

Lemma macbook_documented : MacDocumented macbook (mac_simulated macbook).
Proof.
  apply mac_simulated_documented. intros service. cbn [macbook mac_dns].
  destruct (decide (service = "Wi-Fi")) as [->|Hs]; [vm_compute; reflexivity|].
  by rewrite lookup_singleton_ne by done.
Qed.

(** ** Properties *)

(** C12: On a Mac too, wherever [Apply] stops, [Restore] gives back what
    [Snapshot] found: the routes, the DNS servers of every network service and
    whether IPv6 is off; and when [Apply] had succeeded, [Restore] reports no
    problem.  For every environment that behaves as [route] and [networksetup]
    are documented to, on a machine that has none of the tunnel's own routes and
    whose services have IPv6 automatic or off. *)
Theorem Mac_gives_back {env : Env} m0 cfg h :
  MacDocumented m0 env → mac_after m0 h = m0 → clear cfg m0 →
  (∀ service mode, mac_v6 m0 !! service = Some mode → mode = Off) →
  ∃ r h', mac_take_over cfg h = (Some r, h') ∧ mac_after m0 h' = m0 ∧
    ∀ back, r = Ok (Ok tt, back) → back = Ok tt.
Proof. intros. apply wp_eq. by apply (wp_mac_take_over m0). Qed.

Lemma Mac_gives_back_witness :
  ∃ r h', @mac_take_over (mac_simulated macbook) mac_tunnel [] = (Some r, h') ∧
    mac_after macbook h' = macbook ∧ ∀ back, r = Ok (Ok tt, back) → back = Ok tt.
Proof.
  apply (@Mac_gives_back (mac_simulated macbook) macbook mac_tunnel [] macbook_documented eq_refl macbook_clear).
  intros service mode Hs. exfalso. cbn in Hs. by rewrite lookup_empty in Hs.
Defined.

(** The proviso on IPv6 is needed.  On a Mac whose IPv6 is configured by
    hand, a tunnel brought up and taken down without any problem leaves it
    automatic: [Restore] only knows that IPv6 was not off. *)
Theorem Mac_forgets_manual_v6 :
  let m := mkMac ∅ ∅ {["Wi-Fi" := Manual]} in
  ∃ h', @mac_take_over (mac_simulated m) mac_tunnel [] = (Some (Ok (Ok tt, Ok tt)), h') ∧
    mac_v6 (mac_after m h') = ∅.
Proof. eexists. split; [vm_compute; reflexivity|]. vm_compute. reflexivity. Qed.

(** The order of [Apply] on a Mac: whatever the machine answers, it comes
    back, and the commands it ran are those of [apply_script], in order, up to
    some point, which is the end if it succeeds.  There the server's own route
    comes before the two halves that take the traffic. *)
Theorem Mac_Apply_in_order {env : Env} state cfg h :
  ∃ r h' n, Apply state cfg h = (Some r, h') ∧ calls h' = calls h ++ take n (apply_script state cfg) ∧
    (r = Ok tt → n = length (apply_script state cfg)).
Proof.
  destruct (wp_eq _ _ _ (follows_Apply state cfg h)) as (r & h' & H1 & n & H2 & H3).
  exists r, h', n. split_and!; [done|done|]. intros ->. by apply H3.
Qed.
