(* ===== verification/SystemWindows.v ===== *)
(** * Taking over the machine's routing on Windows: network_windows.go

    The same three operations through the IP Helper API.  Metrics are 32-bit
    and wrap; an adapter is known by its LUID. *)

From S2P Require Import Prelude GoStrings NetAddr Effects System.
From stdpp Require Import options.
Local Open Scope Z_scope.

(** [NextHop] is [None] for the zero [netip.Addr]. *)
Record State := mkState { DefaultInterface : Z; NextHop : option Addr }.

(** [netip.ParseAddr], and [fmt.Errorf] of its error. *)
Definition parse_addr (before : string) (s : string) : result Addr :=
  match ParseAddr s with
  | Some a => Ok a
  | None => Err [Lit before; Quoted s; Lit " is not an address: "; Foreign "netip.ParseAddr" s]
  end.

(** [netip.PrefixFrom], which drops the zone. *)
Definition PrefixFrom (a : Addr) (bits : Z) : prefix :=
  (match a with Addr4 v => Addr4 v | Addr6 v _ => Addr6 v "" end, bits).

(** A call whose error is wrapped. *)
Definition api `{Env} (before : error) (c : call) : IO (result unit) :=
  o ← perform c; mret (wrap before (to_unit o)).

(** ** Snapshot *)

Definition max_uint32 : Z := 2 ^ 32 - 1.

(** One row of the loop: [best] and the state so far. *)
Definition consider `{Env} (row : forward_row) (acc : Z * State) : IO (Z * State) :=
  if negb (PrefixLength row =? 0) then mret acc
  else
    o ← perform (IPInterface (InterfaceLUID row));
    mret match o with
    | Number ipif_metric =>
        let total := wrapu 32 (Metric row + ipif_metric) in
        if acc.1 <=? total then acc else (total, mkState (InterfaceLUID row) (NextHopAddr row))
    | _ => acc
    end.

Fixpoint choose `{Env} (rows : list forward_row) (acc : Z * State) : IO (Z * State) :=
  match rows with [] => mret acc | row :: rows => acc ← consider row acc; choose rows acc end.

Definition Snapshot `{Env} : IO (result State) :=
  o ← perform GetIPForwardTable;
  match o with
  | Failure _ e _ => mret (Err ([Lit "reading the routing table: "] ++ e))
  | _ =>
      let rows := match o with Rows rows => rows | _ => [] end in
      best ← choose rows (max_uint32, mkState 0 None);
      mret match NextHop best.2 with
           | Some _ => Ok best.2
           | None => Err [Lit "no default route: this machine is not on a network"]
           end
  end.

(** ** Apply *)

Definition unspecified : Addr := Addr4 0.
Definition halves : list (string * prefix) :=
  [("0.0.0.0/1", PrefixFrom unspecified 1); ("128.0.0.0/1", PrefixFrom (AddrFrom4 [128; 0; 0; 0]) 1)].
Definition v6_unspecified : Addr := Addr6 0 "".
Definition v6_halves : list prefix :=
  [PrefixFrom v6_unspecified 1; PrefixFrom (Addr6 (128 * 2 ^ 120) "") 1].

(** The DNS servers, in order, up to the first that is not an address. *)
Definition parse_servers (servers : list string) : result (list Addr) :=
  foldM (λ l s, a ← parse_addr "DNS server " s; Ok (l ++ [a])) servers [].

Definition add_half `{Env} (luid : Z) (half : string * prefix) : IO (result unit) :=
  api [Lit "routing "; Plain half.1; Lit " into the tunnel: "] (AddRoute luid half.2 unspecified).

(** IPv6 is blocked; failure is not fatal. *)
Definition block_v6 `{Env} (luid : Z) (half : prefix) : IO (result unit) :=
  _ ← perform (AddRoute luid half v6_unspecified); mret (Ok tt).

(** [state.NextHop] is valid in every state [Snapshot] returns. *)
Definition next_hop (state : State) : Addr := default unspecified (NextHop state).

Definition Apply `{Env} (state : State) (cfg : Config) : IO (result unit) :=
  let luid := Handle cfg in
  address ←? mret (parse_addr "the tunnel address " (Address cfg));
  endpoint ←? mret (parse_addr "the endpoint " (EndpointHost cfg));
  _ ←? api [Lit "addressing the tunnel adapter: "] (SetIPAddresses luid (PrefixFrom address 32));
  _ ←? (if 0 <? MTU cfg then
          _ ←? api [Lit "reading the adapter's settings: "] (IPInterface luid);
          api [Lit "setting MTU and metric: "] (SetIPInterface luid (wrapu 32 (MTU cfg)))
        else mret (Ok tt));
  _ ←? api [Lit "pinning the endpoint route: "]
         (AddRoute (DefaultInterface state) (PrefixFrom endpoint 32) (next_hop state));
  _ ←? in_turn (map (add_half luid) halves);
  _ ←? in_turn (map (block_v6 luid) v6_halves);
  if bool_decide (DNS cfg = []) then mret (Ok tt)
  else
    servers ←? mret (parse_servers (DNS cfg));
    api [Lit "setting DNS: "] (SetDNS luid servers).

(** ** Restore *)

(** [note] of a call. *)
Definition noting `{Env} (what : string) (c : call) : string * IO (result unit) := (what, api [] c).

Definition Restore `{Env} (state : State) (cfg : Config) : IO (result unit) :=
  let luid := Handle cfg in
  problems ← attempt_all
    (match ParseAddr (EndpointHost cfg) with
     | Some endpoint =>
         [noting "removing the endpoint route"
            (DeleteRoute (DefaultInterface state) (PrefixFrom endpoint 32) (next_hop state))]
     | None => []
     end ++
     [noting "clearing the tunnel's DNS" (FlushDNS luid);
      noting "clearing the tunnel's routes" (FlushRoutes luid false)]) [];
  _ ← perform (FlushRoutes luid true);
  mret (if bool_decide (problems = []) then Ok tt
        else Err (Lit "the machine was not fully restored:" :: join_problems problems)).
