(* ===== verification/SystemWindowsFacts.v ===== *)
(** * Properties of taking over the routing of a Windows machine

    The adapter [Snapshot] chooses, the order [Apply] works in, and that
    [Restore] leaves no trace, on the tunnel's adapter or elsewhere. *)

From S2P Require Import Prelude GoStrings NetAddr Effects System SystemFacts SystemWindows.
From stdpp Require Import options.

(** ** The default route *)

Section Choose.
Context {env : Env} (metric : Z → outcome) (Hmetric : ∀ h luid, answer h (IPInterface luid) = metric luid).
#[local] Set Default Proof Using "Type*".

(** What a row costs, if it is a default route over an adapter that answers. *)
Definition cost_of (row : forward_row) : option Z :=
  if negb (PrefixLength row =? 0)%Z then None
  else match metric (InterfaceLUID row) with
       | Number m => Some (wrapu 32 (Metric row + m)) | _ => None end.

Definition state_of (row : forward_row) : State := mkState (InterfaceLUID row) (NextHopAddr row).

(** The first of the cheapest rows, below [init]. *)
Definition cheapest (init : Z) (rows : list forward_row) (best : Z) (st : State) : Prop :=
  ∃ pre row post, rows = pre ++ row :: post ∧ st = state_of row ∧
    cost_of row = Some best ∧ (best < init)%Z ∧
    (∀ r c, r ∈ pre → cost_of r = Some c → (best < c)%Z) ∧
    (∀ r c, r ∈ post → cost_of r = Some c → (best ≤ c)%Z).

Lemma wp_consider row acc h :
  wp (consider row acc) (λ acc' _, acc' = match cost_of row with
    | Some c => if (acc.1 <=? c)%Z then acc else (c, state_of row) | None => acc end) h.
Proof.
  unfold consider, cost_of. destruct (negb _); [by apply wp_ret|].
  apply wp_bind, wp_perform, wp_ret. rewrite Hmetric. by destruct (metric _).
Qed.

Lemma wp_choose rows acc h :
  wp (choose rows acc) (λ acc' _,
    (acc' = acc ∧ ∀ r c, r ∈ rows → cost_of r = Some c → (acc.1 ≤ c)%Z) ∨ cheapest acc.1 rows acc'.1 acc'.2) h.
Proof.
  revert acc h. induction rows as [|row rows IH]; intros acc h; cbn [choose].
  { apply wp_ret. left. split; [done|]. by intros r c ?%elem_of_nil. }
  apply wp_bind. eapply wp_mono; [|apply wp_consider]. intros acc1 h1 ->.
  eapply wp_mono; [|apply IH]. intros acc2 h2 Hacc.
  destruct (cost_of row) as [c|] eqn:Ec; [destruct (Z.leb_spec acc.1 c) as [Hle|Hlt]|].
  - destruct Hacc as [[-> H]|(pre & r & post & -> & Hs & Hc & Hb & Hpre & Hpost)].
    + left. split; [done|]. intros r c' [->|Hin]%elem_of_cons; [|by apply H]. congruence.
    + right. exists (row :: pre), r, post. split_and!; try done.
      intros r' c' [->|Hin]%elem_of_cons; [|by apply Hpre]. rewrite Ec. intros [= <-]. lia.
  - right. destruct Hacc as [[-> H]|(pre & r & post & -> & Hs & Hc & Hb & Hpre & Hpost)]; cbn [fst snd] in *.
    + exists [], row, rows. split_and!; try done. by intros r c' ?%elem_of_nil.
    + exists (row :: pre), r, post. split_and!; try done; [lia|].
      intros r' c' [->|Hin]%elem_of_cons; [|by apply Hpre]. rewrite Ec. intros [= <-]. lia.
  - destruct Hacc as [[-> H]|(pre & r & post & -> & Hs & Hc & Hb & Hpre & Hpost)].
    + left. split; [done|]. intros r c' [->|Hin]%elem_of_cons; [|by apply H]. congruence.
    + right. exists (row :: pre), r, post. split_and!; try done.
      intros r' c' [->|Hin]%elem_of_cons; [|by apply Hpre]. congruence.
Qed.

Lemma wp_windows_Snapshot h :
  wp Snapshot (λ r _, ∀ st, r = Ok st → ∃ rows best, answer h GetIPForwardTable = Rows rows ∧
    cheapest max_uint32 rows best st ∧ is_Some (NextHop st)) h.
Proof.
  unfold Snapshot. apply wp_bind, wp_perform. destruct (answer h GetIPForwardTable) as [| | |? ? ?| |rows] eqn:E;
    try (by apply wp_ret).
  all: apply wp_bind; eapply wp_mono; [|apply wp_choose]; intros acc h1 Hacc; apply wp_ret;
    destruct (NextHop acc.2) as [a|] eqn:Hn; [|done]; intros st [= <-]; rewrite Hn;
    destruct Hacc as [[-> _]|Hc]; [done|].
  by exists rows, acc.1.
Qed.
End Choose.

(** ** The order of [Apply] *)

Lemma follows_api `{Env} before c : follows (api before c) [c].
Proof. apply follows_call. eauto. Qed.

Lemma follows_parsed {A B} (r : result A) (k : A → IO (result B)) s :
  (∀ a, r = Ok a → follows (k a) s) → follows (a ←? mret r; k a) s.
Proof. intros Hk. destruct r as [a|e]; [exact (Hk a eq_refl)|exact (follows_err e s)]. Qed.

(** What [Apply] does with the addresses it has parsed, in order. *)
Definition apply_script (state : State) (cfg : Config) (address endpoint : Addr) : list call :=
  [SetIPAddresses (Handle cfg) (PrefixFrom address 32)] ++
  (if (0 <? MTU cfg)%Z then [IPInterface (Handle cfg); SetIPInterface (Handle cfg) (wrapu 32 (MTU cfg))] else []) ++
  [AddRoute (DefaultInterface state) (PrefixFrom endpoint 32) (next_hop state)] ++
  map (λ half, AddRoute (Handle cfg) half.2 unspecified) halves ++
  map (λ half, AddRoute (Handle cfg) half v6_unspecified) v6_halves ++
  (if bool_decide (DNS cfg = []) then []
   else match parse_servers (DNS cfg) with Ok servers => [SetDNS (Handle cfg) servers] | Err _ => [] end).

Lemma follows_windows_Apply `{Env} state cfg :
  follows (Apply state cfg) (match ParseAddr (Address cfg), ParseAddr (EndpointHost cfg) with
    | Some address, Some endpoint => apply_script state cfg address endpoint
    | _, _ => []
    end).
Proof.
  unfold Apply, parse_addr. apply follows_parsed. intros address Ha. destruct (ParseAddr (Address cfg)); [|done].
  injection Ha as ->. apply follows_parsed. intros endpoint He. destruct (ParseAddr (EndpointHost cfg)); [|done].
  injection He as ->. unfold apply_script.
  apply follows_try; [apply follows_api|]. intros _.
  apply follows_try; [apply (follows_when _ _ ([_] ++ [_]))|].
  { apply follows_try; [apply follows_api|]. intros _. apply follows_api. } intros _.
  apply follows_try; [apply follows_api|]. intros _.
  apply follows_try; [apply follows_in_turn; intros; apply follows_api|]. intros _.
  apply follows_try; [apply follows_in_turn; intros; apply follows_call; eauto|]. intros _.
  case_bool_decide; [apply follows_ret|]. apply follows_parsed. intros servers ->. apply follows_api.
Qed.

(** ** The machine *)

(** A route: adapter, destination, router. *)
Definition route : Type := Z * prefix * Addr.

(** The routes, and the DNS servers of the adapters that have any. *)
Record windows := mkWindows { w_routes : list route; w_dns : gmap Z (list Addr) }.

Definition is_v6 (r : route) : bool := match r.1.2.1 with Addr6 _ _ => true | Addr4 _ => false end.

Definition flushed (luid : Z) (v6 : bool) (r : route) : Prop := r.1.1 = luid ∧ is_v6 r = v6.
#[export] Instance flushed_dec luid v6 r : Decision (flushed luid v6 r).
Proof. unfold flushed. apply _. Defined.

Definition without (P : route → Prop) `{∀ r, Decision (P r)} (m : windows) : windows :=
  mkWindows (filter (λ r, ¬ P r) (w_routes m)) (w_dns m).

Definition win_effect (c : call) (m : windows) : windows :=
  match c with
  | AddRoute luid dst next => mkWindows (w_routes m ++ [(luid, dst, next)]) (w_dns m)
  | DeleteRoute luid dst next => without (λ r, r = (luid, dst, next)) m
  | FlushRoutes luid v6 => without (flushed luid v6) m
  | SetDNS luid servers => mkWindows (w_routes m) (<[luid := servers]> (w_dns m))
  | FlushDNS luid => mkWindows (w_routes m) (delete luid (w_dns m))
  | _ => m
  end.

Definition win_call (m : windows) (co : call * outcome) : windows :=
  if failed co.2 then m else win_effect co.1 m.
Definition win_after (m : windows) (h : history) : windows := foldl win_call m h.

Lemma win_after_snoc m h c o :
  win_after m (h ++ [(c, o)]) = if failed o then win_after m h else win_effect c (win_after m h).
Proof. unfold win_after. by rewrite foldl_app. Qed.

(** What the API is documented to do: deleting a route fails only when it is
    not there, and clearing an adapter works. *)
Class WinDocumented (m0 : windows) (env : Env) : Prop := {
  delete_fails h luid dst next : failed (answer h (DeleteRoute luid dst next)) = true →
    (luid, dst, next) ∉ w_routes (win_after m0 h);
  flush_dns_works h luid : failed (answer h (FlushDNS luid)) = false;
  flush_works h luid v6 : failed (answer h (FlushRoutes luid v6)) = false;
}.

(** ** Where [Apply] may leave the machine, and what [Restore] makes of it *)

Lemma filter_all {A} (P : A → Prop) `{∀ x, Decision (P x)} (l : list A) : (∀ x, x ∈ l → P x) → filter P l = l.
Proof.
  induction l as [|x l IH]; intros Hl; [done|]. rewrite filter_cons_True by (apply Hl; set_solver).
  f_equal. apply IH. set_solver.
Qed.

Section Windows.
Context {env : Env} (m0 : windows) `{Hdoc : !WinDocumented m0 env} (state : State) (cfg : Config).
#[local] Set Default Proof Using "Type*".
Abbreviation M := (win_after m0).

(** The route that keeps the server reachable. *)
Definition pinned : option route :=
  endpoint ← ParseAddr (EndpointHost cfg);
  Some (DefaultInterface state, PrefixFrom endpoint 32, next_hop state).

(** What the tunnel adds: the pinned route, and all that is on its adapter. *)
Definition ours (r : route) : Prop := pinned = Some r ∨ r.1.1 = Handle cfg.
#[local] Instance ours_dec r : Decision (ours r).
Proof. unfold ours. apply _. Defined.

Definition clean (m : windows) : windows :=
  mkWindows (filter (λ r, ¬ ours r) (w_routes m)) (delete (Handle cfg) (w_dns m)).

Lemma win_perform c h :
  M (h ++ [(c, answer h c)]) = if failed (answer h c) then M h else win_effect c (M h).
Proof. apply win_after_snoc. Qed.

(** Calls that change nothing but what is ours. *)
Lemma wp_ours c h (Q : outcome → history → Prop) :
  clean (win_effect c (M h)) = clean (M h) →
  (∀ o h', clean (M h') = clean (M h) → (failed o = false → M h' = win_effect c (M h)) → Q o h') →
  wp (perform c) Q h.
Proof.
  intros Hc HQ. apply wp_perform, HQ; rewrite win_perform; destruct (failed _); congruence || done.
Qed.

Lemma clean_add luid dst next m : ours (luid, dst, next) →
  clean (win_effect (AddRoute luid dst next) m) = clean m.
Proof.
  intros Ho. unfold clean. cbn. f_equal. rewrite list.filter_app, filter_cons_False, app_nil_r; [done|]. tauto.
Qed.

Lemma clean_dns servers m : clean (win_effect (SetDNS (Handle cfg) servers) m) = clean m.
Proof. unfold clean. cbn. f_equal. by rewrite delete_insert_eq. Qed.

Lemma wp_api before c h : clean (win_effect c (M h)) = clean (M h) →
  wp (api before c) (λ r h', clean (M h') = clean (M h) ∧ (r = Ok tt → M h' = win_effect c (M h))) h.
Proof.
  intros Hc. apply wp_bind, wp_ours; [done|]. intros o h' H1 H2. apply wp_ret. split; [done|].
  intros Hr. apply H2. by destruct o.
Qed.

(** The pinned route is there. *)
Definition pins (m : windows) : Prop := ∀ r, pinned = Some r → r ∈ w_routes m.

Lemma pins_effect c m : pins m → (∀ luid dst next, c ≠ DeleteRoute luid dst next) →
  (∀ luid v6, c ≠ FlushRoutes luid v6) → pins (win_effect c m).
Proof.
  clear Hdoc. intros Hp H1 H2 r Hr. specialize (Hp r Hr). destruct c; try done; cbn; [set_solver|by destruct (H1 luid dst next)|].
  by destruct (H2 luid v6).
Qed.

(** Steps one after the other, each of them within what is ours. *)
Definition stays (m : IO (result unit)) : Prop :=
  ∀ h, wp m (λ _ h', clean (M h') = clean (M h) ∧ (pins (M h) → pins (M h'))) h.

Lemma stays_api before c :
  (∀ m, clean (win_effect c m) = clean m) → (∀ luid dst next, c ≠ DeleteRoute luid dst next) →
  (∀ luid v6, c ≠ FlushRoutes luid v6) → stays (api before c).
Proof.
  intros Hc H1 H2 h. apply wp_bind, wp_perform, wp_ret. rewrite win_perform. destruct (failed _); [done|].
  split; [done|]. intros Hp. by apply pins_effect.
Qed.

Lemma stays_try m (k : unit → IO (result unit)) : stays m → (∀ a, stays (k a)) → stays (try m k).
Proof.
  intros Hm Hk h. apply wp_try. eapply wp_mono; [|apply Hm]. intros [a|e] h1 [H1 H2]; [|done].
  eapply wp_mono; [|apply Hk]. intros r h2 [H3 H4]. split; [congruence|auto].
Qed.

Lemma stays_ok : stays (mret (Ok tt)).
Proof. intros h. by apply wp_ret. Qed.

Lemma stays_in_turn {A} (f : A → IO (result unit)) l : (∀ a, a ∈ l → stays (f a)) → stays (in_turn (map f l)).
Proof.
  induction l as [|a l IH]; intros Hf; cbn [map in_turn]; [apply stays_ok|].
  apply stays_try; [apply Hf; set_solver|]. intros _. apply IH. set_solver.
Qed.

(** [Apply] after the pinned route. *)
Lemma stays_rest :
  stays (_ ←? in_turn (map (add_half (Handle cfg)) halves);
         _ ←? in_turn (map (block_v6 (Handle cfg)) v6_halves);
         if bool_decide (DNS cfg = []) then mret (Ok tt)
         else servers ←? mret (parse_servers (DNS cfg)); api [Lit "setting DNS: "] (SetDNS (Handle cfg) servers)).
Proof.
  apply stays_try; [apply stays_in_turn; intros half _; apply stays_api; [|done|done]|]; intros.
  { apply clean_add. by right. }
  apply stays_try; [apply stays_in_turn; intros half _ h|]; intros.
  { apply wp_bind, wp_perform, wp_ret. rewrite win_perform. destruct (failed _); [done|].
    split; [apply clean_add; by right|]. intros Hp. by apply pins_effect. }
  case_bool_decide; [apply stays_ok|]. destruct (parse_servers (DNS cfg)) as [servers|e]; [|by intros h].
  change (stays (api [Lit "setting DNS: "] (SetDNS (Handle cfg) servers))).
  apply stays_api; [intros; apply clean_dns|done|done].
Qed.

Lemma wp_windows_Apply h :
  wp (Apply state cfg) (λ r h', clean (M h') = clean (M h) ∧ (r = Ok tt → pins (M h'))) h.
Proof.
  unfold Apply, parse_addr. cbv zeta. apply wp_try, wp_ret. destruct (ParseAddr (Address cfg)) as [address|]; [|done].
  apply wp_try, wp_ret. destruct (ParseAddr (EndpointHost cfg)) as [endpoint|] eqn:He; [|done].
  apply wp_try. eapply wp_mono; [|by apply wp_api]. intros [[]|e] h1 [H1 _]; [|done].
  apply wp_try. apply (wp_mono _ (λ _ h', clean (M h') = clean (M h))).
  2: { destruct (0 <? MTU cfg)%Z; [|done]. apply wp_try. eapply wp_mono; [|by apply wp_api].
       intros [[]|e] h2 [H2 _]; [|congruence]. eapply wp_mono; [|by apply wp_api].
       intros r h3 [H3 _]. congruence. }
  intros [[]|e] h2 H2; [|done].
  assert (pinned = Some (DefaultInterface state, PrefixFrom endpoint 32, next_hop state)) as Hp
    by (unfold pinned; by rewrite He).
  apply wp_try. eapply wp_mono; [|apply wp_api, clean_add; by left]. intros [[]|e] h3 [H3 Heff]; [|split; [congruence|done]].
  eapply wp_mono; [|apply stays_rest]. intros r h4 [H4 Hpin]. split; [congruence|]. intros _. apply Hpin.
  rewrite (Heff eq_refl). intros r' Hr'. rewrite Hp in Hr'. injection Hr' as <-. cbn. set_solver.
Qed.

(** A call of [Restore] that works. *)
Lemma wp_noting before c h :
  failed (answer h c) = false → wp (api before c) (λ r h', M h' = win_effect c (M h) ∧ r = Ok tt) h.
Proof. intros Hf. apply wp_bind, wp_perform, wp_ret. rewrite win_perform, Hf. by destruct (answer h c). Qed.

(** Deleting the pinned route. *)
Lemma wp_unpin before luid dst next h :
  wp (api before (DeleteRoute luid dst next)) (λ r h', M h' = win_effect (DeleteRoute luid dst next) (M h) ∧
    ((luid, dst, next) ∈ w_routes (M h) → r = Ok tt)) h.
Proof.
  apply wp_bind, wp_perform, wp_ret. rewrite win_perform.
  destruct (failed (answer h (DeleteRoute luid dst next))) eqn:Hf.
  - pose proof (delete_fails h luid dst next Hf) as Hno. split; [|done]. destruct (M h) as [R D] eqn:E.
    cbn in *. unfold without. cbn. f_equal. symmetry. apply filter_all. by intros r Hr ->.
  - split; [done|]. by destruct (answer h (DeleteRoute luid dst next)).
Qed.

Lemma wp_windows_Restore h :
  wp (Restore state cfg) (λ r h', M h' = clean (M h) ∧ (pins (M h) → r = Ok tt)) h.
Proof.
  unfold Restore. cbv zeta. apply wp_bind.
  apply (wp_mono _ (λ ps h', M h' = mkWindows (filter (λ r, ¬ (pinned = Some r ∨ flushed (Handle cfg) false r)) (w_routes (M h)))
    (delete (Handle cfg) (w_dns (M h))) ∧ (pins (M h) → ps = []))).
  - intros ps h1 [H1 Hps]. apply wp_bind, wp_perform, wp_ret. rewrite win_perform, flush_works, H1. split.
    + unfold clean. cbn [win_effect]. unfold without. cbn. f_equal. rewrite list_filter_filter. apply list_filter_iff. intros r.
      unfold ours, flushed. destruct (is_v6 r); naive_solver.
    + intros Hp. by rewrite Hps.
  - assert (∀ ps h1 (R : list route), w_routes (M h1) = R → w_dns (M h1) = w_dns (M h) →
      wp (attempt_all [noting "clearing the tunnel's DNS" (FlushDNS (Handle cfg));
                       noting "clearing the tunnel's routes" (FlushRoutes (Handle cfg) false)] ps)
        (λ ps' h', M h' = mkWindows (filter (λ r, ¬ flushed (Handle cfg) false r) R) (delete (Handle cfg) (w_dns (M h))) ∧
          ps' = ps) h1) as Hrest.
    { intros ps h1 R HR HD. cbn [attempt_all]. apply wp_bind.
      eapply wp_mono; [|apply wp_noting; by rewrite flush_dns_works]. intros r2 h2 [H2 ->].
      apply wp_bind. eapply wp_mono; [|apply wp_noting; by rewrite flush_works]. intros r3 h3 [H3 ->].
      apply wp_ret. split; [|done]. rewrite H3, H2. cbn [win_effect]. unfold without. cbn. by rewrite HR, HD. }
    unfold pins. destruct (ParseAddr (EndpointHost cfg)) as [endpoint|] eqn:He; unfold pinned; rewrite He; cbn [mbind option_bind].
    + cbn [app attempt_all]. apply wp_bind. eapply wp_mono; [|apply wp_unpin]. intros r1 h1 [H1 Hr1].
      eapply wp_mono; [|apply (Hrest _ _ _ eq_refl); by rewrite H1]. intros ps h2 [H2 ->]. split.
      * rewrite H2, H1. cbn [win_effect]. unfold without. cbn. f_equal. rewrite list_filter_filter. apply list_filter_iff. naive_solver.
      * intros Hp. rewrite Hr1; [done|]. by apply Hp.
    + eapply wp_mono; [|by apply (Hrest _ _ _ eq_refl)]. intros ps h2 [H2 ->]. split; [|done].
      rewrite H2. f_equal. apply list_filter_iff. naive_solver.
Qed.
End Windows.

(** ** There and back *)

Definition win_take_over `{Env} (cfg : Config) : IO (result (result unit * result unit)) :=
  state ←? Snapshot; applied ← Apply state cfg; back ← Restore state cfg; mret (Ok (applied, back)).

(** A machine without the tunnel: nothing on its adapter, and no route to the
    server alone. *)
Record fresh (cfg : Config) (m : windows) : Prop := {
  fr_adapter r : r ∈ w_routes m → r.1.1 ≠ Handle cfg;
  fr_endpoint r a : r ∈ w_routes m → ParseAddr (EndpointHost cfg) = Some a → r.1.2 ≠ PrefixFrom a 32;
  fr_dns : w_dns m !! Handle cfg = None;
}.

Lemma clean_fresh state cfg m : fresh cfg m → clean state cfg m = m.
Proof.
  intros [Ha He Hd]. destruct m as [R D]. unfold clean. cbn in *. f_equal; [|by apply delete_id].
  apply filter_all. intros r Hr [Hp|Hp]; [|by apply (Ha r Hr)].
  unfold pinned in Hp. destruct (ParseAddr (EndpointHost cfg)) as [a|] eqn:E; [|done]. injection Hp as <-.
  by apply (He _ a Hr).
Qed.

Lemma wp_win_Snapshot_keeps {env : Env} m0 h :
  wp Snapshot (λ _ h', win_after m0 h' = win_after m0 h) h.
Proof.
  assert (∀ rows acc h, wp (choose rows acc) (λ _ h', win_after m0 h' = win_after m0 h) h) as Hchoose.
  { induction rows as [|row rows IH]; intros acc h0; cbn [choose]; [by apply wp_ret|].
    apply wp_bind. apply (wp_mono _ (λ _ h', win_after m0 h' = win_after m0 h0)).
    - intros acc1 h1 H1. eapply wp_mono; [|apply IH]. cbn. congruence.
    - unfold consider. destruct (negb _); [by apply wp_ret|]. apply wp_bind, wp_perform, wp_ret.
      rewrite win_after_snoc. by destruct (failed _). }
  unfold Snapshot. apply wp_bind, wp_perform. set (h1 := h ++ _).
  assert (win_after m0 h1 = win_after m0 h) as H1 by (unfold h1; rewrite win_after_snoc; by destruct (failed _)).
  clearbody h1. destruct (answer h GetIPForwardTable); try (by apply wp_ret);
    apply wp_bind; (eapply wp_mono; [|apply Hchoose]); intros acc h2 H2; apply wp_ret; congruence.
Qed.

Lemma wp_win_take_over {env : Env} m0 `{!WinDocumented m0 env} cfg h :
  win_after m0 h = m0 → fresh cfg m0 →
  wp (win_take_over cfg) (λ r h', win_after m0 h' = m0 ∧ ∀ back, r = Ok (Ok tt, back) → back = Ok tt) h.
Proof.
  intros Hh Hf. unfold win_take_over. apply wp_try. eapply wp_mono; [|apply (wp_win_Snapshot_keeps m0)].
  intros [state|e] h1 H1; [|split; [congruence|done]].
  apply wp_bind. eapply wp_mono; [|apply (wp_windows_Apply m0 state cfg)]. intros ra h2 [H2 Hp].
  apply wp_bind. eapply wp_mono; [|apply (wp_windows_Restore m0 state cfg)]. intros rr h3 [H3 Hr].
  apply wp_ret. split; [by rewrite H3, H2, H1, Hh, clean_fresh|]. intros back [= -> ->]. auto.
Qed.

(** ** A simulated Windows machine *)

(** Ethernet over adapter 9 costs less than Wi-Fi over adapter 7, although its
    route's own metric is higher. *)
Definition sample_rows : list forward_row :=
  [mkRow 24 7 0 None; mkRow 0 7 0 (Some (AddrFrom4 [192; 168; 1; 1]%Z));
   mkRow 0 9 10 (Some (AddrFrom4 [10; 0; 0; 1]%Z)); mkRow 0 5 1 None].
Definition sample_metric (luid : Z) : outcome :=
  if (luid =? 7)%Z then Number 50 else if (luid =? 9)%Z then Number 25 else Failure "" [Lit "gone"] true.

Definition win_simulated (m0 : windows) : Env := λ h c,
  match c with
  | GetIPForwardTable => Rows sample_rows
  | IPInterface luid => if (luid =? 77)%Z then Number 0 else sample_metric luid
  | AddRoute luid dst next =>
      if bool_decide ((luid, dst, next) ∈ w_routes (win_after m0 h)) then Failure "" [Lit "exists"] false else Output ""
  | DeleteRoute luid dst next =>
      if bool_decide ((luid, dst, next) ∈ w_routes (win_after m0 h)) then Output "" else Failure "" [Lit "not found"] true
  | _ => Output ""
  end.

Lemma win_simulated_documented m0 : WinDocumented m0 (win_simulated m0).
Proof.
  split; [|done|done]. intros h luid dst next. unfold answer, win_simulated. by case_bool_decide.
Qed.

Definition win_tunnel : Config := mkConfig "Caelo" 77 "10.8.1.23" 1420 "203.0.113.10" ["1.1.1.1"].
Definition office : windows := mkWindows [(7, (Addr4 0, 0), AddrFrom4 [192; 168; 1; 1]%Z)]%Z ∅.

(** ** Properties *)

(** C13: On Windows, wherever [Apply] stops, [Restore] leaves no trace: the routes
    and the DNS servers of every adapter are what they were, those of the
    tunnel's own adapter included, and when [Apply] had succeeded [Restore]
    reports no problem.  For every environment in which deleting a route that
    is there and clearing an adapter work, on a machine that has no route to
    the server alone and nothing on the tunnel's adapter. *)
Theorem Windows_gives_back {env : Env} m0 cfg h :
  WinDocumented m0 env → win_after m0 h = m0 → fresh cfg m0 →
  ∃ r h', win_take_over cfg h = (Some r, h') ∧ win_after m0 h' = m0 ∧
    ∀ back, r = Ok (Ok tt, back) → back = Ok tt.
Proof. intros. apply wp_eq. by apply wp_win_take_over. Qed.

Lemma Windows_gives_back_witness :
  ∃ r h', @win_take_over (win_simulated office) win_tunnel [] = (Some r, h') ∧ win_after office h' = office ∧
    ∀ back, r = Ok (Ok tt, back) → back = Ok tt.
Proof.
  apply (@Windows_gives_back (win_simulated office) office win_tunnel [] (win_simulated_documented office) eq_refl).
  split; [| |reflexivity].
  - intros r ->%list_elem_of_singleton. vm_compute. discriminate.
  - intros r a ->%list_elem_of_singleton _. cbn. intros [=].
Defined.

(** It does bring the tunnel up. *)
Example windows_taken_over :
  fst (@win_take_over (win_simulated office) win_tunnel []) = Some (Ok (Ok tt, Ok tt)).
Proof. vm_compute. reflexivity. Qed.

(** The adapter the server's own packets keep using is the right one: while
    the adapters' metrics stay as they are, [Snapshot] takes the first of the
    cheapest default routes, counting the route's metric and its adapter's
    together, as Windows does, among the adapters that answer; and it takes none
    that has no router. *)
Theorem Windows_takes_cheapest {env : Env} metric h :
  (∀ h luid, answer h (IPInterface luid) = metric luid) →
  ∃ r h', Snapshot h = (Some r, h') ∧ ∀ st, r = Ok st → ∃ rows best,
    answer h GetIPForwardTable = Rows rows ∧ cheapest metric max_uint32 rows best st ∧ is_Some (NextHop st).
Proof. intros Hm. by apply wp_eq, wp_windows_Snapshot. Qed.

Definition metric_env : Env := λ h c,
  match c with GetIPForwardTable => Rows sample_rows | IPInterface luid => sample_metric luid | _ => Output "" end.

Lemma Windows_takes_cheapest_witness :
  ∃ rows best, cheapest sample_metric max_uint32 rows best (mkState 9 (Some (AddrFrom4 [10; 0; 0; 1]%Z))).
Proof.
  destruct (@Windows_takes_cheapest metric_env sample_metric [] (λ _ _, eq_refl)) as (r & h' & H & Hr).
  assert (fst (@Snapshot metric_env []) = Some (Ok (mkState 9 (Some (AddrFrom4 [10; 0; 0; 1]%Z))))) as Hs
    by (vm_compute; reflexivity).
  rewrite H in Hs. injection Hs as Hs. destruct (Hr _ Hs) as (rows & best & _ & Hc & _).
  exists rows, best. exact Hc.
Defined.

(** The order of [Apply] on Windows: whatever the API answers, it comes back,
    and its calls are those of [apply_script] for the two addresses, in order,
    up to some point, which is the end if it succeeds; with an address that
    does not parse it calls nothing.  In the script the server's own route
    comes before the two halves that take the traffic. *)
Theorem Windows_Apply_in_order {env : Env} state cfg h :
  ∃ r h' n, Apply state cfg h = (Some r, h') ∧
    let script := match ParseAddr (Address cfg), ParseAddr (EndpointHost cfg) with
      | Some address, Some endpoint => apply_script state cfg address endpoint | _, _ => [] end in
    calls h' = calls h ++ take n script ∧ (r = Ok tt → n = length script).
Proof.
  destruct (wp_eq _ _ _ (follows_windows_Apply state cfg h)) as (r & h' & H1 & n & H2 & H3).
  exists r, h', n. split; [done|]. cbv zeta. split; [done|]. intros ->. by apply H3.
Qed.
