(* ===== verification/Routing.v ===== *)
(** * The platforms a machine-wide tunnel runs on

    The controller (Systunnel.v) is one program for three systems: what it
    calls of core/internal/system and of name_*.go is chosen by the build.
    [Platform] is that choice; [linux], [darwin] and [windows] are the three
    builds. *)

From S2P Require Import Prelude GoStrings NetAddr Effects System SystemDarwin SystemWindows.
From stdpp Require Import options.

(** What [systunnel] takes from the build: package system's three operations
    on its [State], and the name and the handle of the interface. *)
Class Platform := {
  State : Type;
  deviceName : string;
  deviceHandle : ∀ {env : Env}, nat → IO Z;
  Snapshot : ∀ {env : Env}, IO (result State);
  Apply : ∀ {env : Env}, State → System.Config → IO (result unit);
  Restore : ∀ {env : Env}, State → System.Config → IO (result unit);
}.

(** ** name_linux.go *)

Module Linux.
Definition deviceName : string := "caelo0".
Definition deviceHandle {env : Env} (_ : nat) : IO Z := mret 0%Z.
End Linux.

(** ** name_darwin.go *)

Module Darwin.
Definition deviceName : string := "utun".
Definition deviceHandle {env : Env} (_ : nat) : IO Z := mret 0%Z.
End Darwin.

(** ** name_windows.go *)

Module Windows.
Definition deviceName : string := "Caelo".

(** The adapter's LUID, if the interface is [tun]'s own for Windows: another
    has none to tell. *)
Definition deviceHandle {env : Env} (tun : nat) : IO Z :=
  o ← perform (LUID tun); mret match o with Number luid => luid | _ => 0%Z end.
End Windows.

(** ** The builds *)

#[export] Instance linux : Platform := {|
  State := System.State;
  deviceName := Linux.deviceName;
  deviceHandle := @Linux.deviceHandle;
  Snapshot := @System.Snapshot;
  Apply := @System.Apply;
  Restore := @System.Restore;
|}.

Definition darwin : Platform := {|
  State := SystemDarwin.State;
  deviceName := Darwin.deviceName;
  deviceHandle := @Darwin.deviceHandle;
  Snapshot := @SystemDarwin.Snapshot;
  Apply := @SystemDarwin.Apply;
  Restore := @SystemDarwin.Restore;
|}.

Definition windows : Platform := {|
  State := SystemWindows.State;
  deviceName := Windows.deviceName;
  deviceHandle := @Windows.deviceHandle;
  Snapshot := @SystemWindows.Snapshot;
  Apply := @SystemWindows.Apply;
  Restore := @SystemWindows.Restore;
|}.
