(* ===== verification/RoutingFacts.v ===== *)
(** * What the controller may rely on, whatever platform it is built for

    [opened] is the interfaces a history leaves open, [strays] how often one
    was closed that was not open.  [Orderly] is the part
    of the contract between systunnel and package system that needs nothing of
    the machine: the operations come back, and open and close nothing.
    [Restores] is the rest: what [Snapshot], [Apply] and [Restore] promise each
    other about the machine.  Each of the three builds keeps it, for the
    machine its calls act on. *)

From S2P Require Import Prelude GoStrings NetAddr Effects System SystemFacts.
From S2P Require Import SystemDarwin SystemDarwinFacts SystemWindows SystemWindowsFacts Routing.
From stdpp Require Import options.

(** ** The interfaces that are open *)

(** [i] is the number of calls before this one. *)
Definition open_step (i : nat) (s : gset nat) (co : call * outcome) : gset nat :=
  match co.1 with
  | CreateTUN _ _ | CreateNetTUN _ _ _ | Adopt _ | TUNFromFile _ => if failed co.2 then s else {[i]} ∪ s
  | TunClose t | DeviceClose t => s ∖ {[t]}
  | _ => s
  end.

Definition opened : history → gset nat := tally open_step ∅.

Lemma opened_snoc h c o : opened (h ++ [(c, o)]) = open_step (length h) (opened h) (c, o).
Proof. apply tally_snoc. Qed.

Lemma opened_lt h t : t ∈ opened h → t < length h.
Proof.
  induction h as [|[c o] h IH] using rev_ind; [done|].
  rewrite opened_snoc, length_app. cbn [length]. unfold open_step. cbn [fst snd].
  destruct c; try (intros ?%IH; lia); try (intros [?%IH _]%elem_of_difference; lia).
  all: destruct (failed o); [intros ?%IH; lia|].
  all: intros [->%elem_of_singleton|?%IH]%elem_of_union; lia.
Qed.

(** How often something was closed that was not open at that moment. *)
Definition stray_step (i : nat) (p : gset nat * nat) (co : call * outcome) : gset nat * nat :=
  (open_step i p.1 co,
   match co.1 with
   | TunClose t | DeviceClose t => if bool_decide (t ∈ p.1) then p.2 else S p.2
   | _ => p.2
   end).
Definition strays (h : history) : nat := (tally stray_step (∅, 0) h).2.

Lemma stray_opened h : (tally stray_step (∅, 0) h).1 = opened h.
Proof. induction h as [|co h IH] using rev_ind; [done|]. unfold opened. rewrite !tally_snoc. cbn. by rewrite IH. Qed.

Lemma strays_snoc h c o : strays (h ++ [(c, o)]) =
  match c with
  | TunClose t | DeviceClose t => if bool_decide (t ∈ opened h) then strays h else S (strays h)
  | _ => strays h
  end.
Proof. unfold strays. rewrite tally_snoc, <- stray_opened. by destruct c. Qed.

(** What is done for the service control manager, in order: the statuses sent
    to it, and the start of the service's work. *)
Definition managing (c : call) : bool := match c with TellManager _ | GoWork => true | _ => false end.
Definition reported (h : history) : list call := filter (λ c, managing c = true) (calls h).

Lemma reported_snoc h c o : reported (h ++ [(c, o)]) = reported h ++ (if managing c then [c] else []).
Proof. unfold reported. rewrite calls_snoc, list.filter_app. by destruct c. Qed.

(** What the operations on the tunnel keep account of, besides what is open. *)
Definition rest (h : history) : nat * list call := (strays h, reported h).
Definition books (h : history) : gset nat * (nat * list call) := (opened h, rest h).

(** Calls that open and close nothing, and are not the control manager's. *)
Definition neutral (c : call) : bool :=
  match c with
  | CreateTUN _ _ | CreateNetTUN _ _ _ | Adopt _ | TUNFromFile _ | TunClose _ | DeviceClose _
  | TellManager _ | GoWork => false
  | _ => true
  end.

Lemma books_neutral h c o : neutral c = true → books (h ++ [(c, o)]) = books h.
Proof.
  intros Hc. unfold books, rest. rewrite opened_snoc, strays_snoc, reported_snoc.
  destruct c; cbn; by rewrite ?app_nil_r.
Qed.

Lemma keeps_books {env : Env} c : neutral c = true → keeps books (perform c).
Proof. intros Hc. apply keeps_perform. intros h. by apply books_neutral. Qed.
Lemma keeps_opened {env : Env} c : neutral c = true → keeps opened (perform c).
Proof. intros Hc. apply keeps_perform. intros h. rewrite opened_snoc. by destruct c. Qed.

(** ** Operations that come back, and open and close nothing *)

Definition calm {A} (m : IO A) : Prop := total m ∧ keeps books m.

Section Calm.
Context {env : Env}.

Lemma calm_ret {A} (a : A) : calm (mret a).
Proof. split; [apply total_ret|apply keeps_ret]. Qed.
Lemma calm_perform c : neutral c = true → calm (perform c).
Proof. intros Hc. split; [apply total_perform|by apply keeps_books]. Qed.
Lemma calm_bind {A B} (m : IO A) (k : A → IO B) : calm m → (∀ a, calm (k a)) → calm (m ≫= k).
Proof. intros [Ht Hq] Hk. split; [apply total_bind; [done|apply Hk]|apply keeps_bind; [done|apply Hk]]. Qed.
Lemma calm_try {A B} (m : IO (result A)) (k : A → IO (result B)) : calm m → (∀ a, calm (k a)) → calm (try m k).
Proof. intros [Ht Hq] Hk. split; [apply total_try; [done|apply Hk]|apply keeps_try; [done|apply Hk]]. Qed.
Lemma calm_wrap {A} p (m : IO (result A)) : calm m → calm (io_wrap p m).
Proof. intros [Ht Hq]. split; [by apply total_wrap|by apply keeps_wrap]. Qed.
End Calm.

Create HintDb calm.
#[export] Hint Resolve calm_ret calm_bind calm_try calm_wrap : calm.
#[export] Hint Extern 1 (calm (perform _)) => (apply calm_perform; reflexivity) : calm.
#[export] Hint Extern 2 (calm (if ?b then _ else _)) => destruct b : calm.
#[export] Hint Extern 2 (calm (match ?x with _ => _ end)) => destruct x : calm.

Section CalmSystem.
Context {env : Env}.

Lemma calm_run name args : calm (run name args).
Proof. unfold run. auto with calm. Qed.
Hint Resolve calm_run : calm.
Lemma calm_command p name args : calm (System.command p name args).
Proof. unfold System.command. auto with calm. Qed.
Lemma calm_in_turn {A} (f : A → IO (result unit)) l : (∀ a, calm (f a)) → calm (in_turn (map f l)).
Proof. intros Hf. induction l; cbn [map in_turn]; auto with calm. Qed.
Lemma calm_attempt_all l ps : Forall (λ s, calm s.2) l → calm (attempt_all l ps).
Proof. intros H. revert ps. induction H as [|[w s] l Hs _ IH]; intros ps; cbn [attempt_all]; auto with calm. Qed.
End CalmSystem.
#[export] Hint Resolve calm_run calm_command calm_in_turn : calm.

(** ** The contract *)

Class Orderly (platform : Platform) : Prop := {
  calm_deviceHandle {env : Env} tun : calm (deviceHandle tun);
  calm_Snapshot {env : Env} : calm Snapshot;
  calm_Apply {env : Env} st cfg : calm (Apply st cfg);
  calm_Restore {env : Env} st cfg : calm (Restore st cfg);
}.
#[export] Hint Resolve calm_deviceHandle calm_Snapshot calm_Apply calm_Restore : calm.

(** Calls that act on nothing but the tunnel, the program and its files. *)
Definition own_call (c : call) : bool :=
  match c with
  | Exec _ _ | Remove _ | WriteFile _ _ | Symlink _ _
  | SetIPAddresses _ _ | SetIPInterface _ _ | AddRoute _ _ _ | DeleteRoute _ _ _
  | SetDNS _ _ | FlushDNS _ | FlushRoutes _ _ => false
  | _ => true
  end.

(** [after h] is the machine after [h], and [m0] what it was before anything.
    [recorded]: the snapshot is of [m0].  [perturbed]: what [Apply] may leave,
    wherever it stops; [tunnelled]: what it leaves when it succeeds.
    [handles]: what a handle may be. *)
Class Restores (platform : Platform) (env : Env) {M : Type} (after : history → M) (m0 : M) := {
  recorded : State → Prop;
  perturbed : State → System.Config → M → Prop;
  tunnelled : State → System.Config → M → Prop;
  handles : Z → Prop;
  after_nothing : after [] = m0;
  after_own h c : own_call c = true → after (h ++ [(c, answer h c)]) = after h;
  deviceHandle_law tun h : wp (deviceHandle tun) (λ handle h', after h' = after h ∧ handles handle) h;
  Snapshot_law h : after h = m0 → wp Snapshot (λ r h', after h' = m0 ∧ ∀ st, r = Ok st → recorded st) h;
  Apply_law st cfg h :
    after h = m0 → recorded st → handles (Handle cfg) → is_Some (ParseIP (EndpointHost cfg)) →
    wp (Apply st cfg) (λ r h', perturbed st cfg (after h') ∧ (r = Ok tt → tunnelled st cfg (after h'))) h;
  Restore_law st cfg h :
    recorded st → perturbed st cfg (after h) →
    wp (Restore st cfg) (λ r h', after h' = m0 ∧ (tunnelled st cfg (after h) → r = Ok tt)) h;
}.
Arguments recorded {platform env M after m0 _} _.
Arguments perturbed {platform env M after m0 _} _ _ _.
Arguments tunnelled {platform env M after m0 _} _ _ _.
Arguments handles {platform env M after m0 _} _.

(** ** Linux *)

Section CalmLinux.
Context {env : Env}.
Lemma calm_linux_Snapshot : calm System.Snapshot.
Proof. unfold System.Snapshot, resolvedIsAnswering. auto 20 with calm. Qed.
Lemma calm_linux_Apply st cfg : calm (System.Apply st cfg).
Proof. unfold System.Apply, applyDNS, System.add_half, System.block_v6. auto 30 with calm. Qed.
Lemma calm_linux_Restore st cfg : calm (System.Restore st cfg).
Proof.
  unfold System.Restore. apply calm_bind; [|auto with calm]. apply calm_attempt_all.
  unfold unblock_v6, restoreDNS. cbn [map app]. unfold del_half. repeat (apply Forall_nil_2 || apply Forall_cons_2); cbn [snd]; auto 20 with calm.
Qed.
End CalmLinux.

#[export] Instance linux_orderly : Orderly linux.
Proof.
  split; intros env; [intros; apply calm_ret|apply calm_linux_Snapshot|apply calm_linux_Apply|apply calm_linux_Restore].
Qed.

(** Nothing of what the tunnel will add is on the machine: no host routes, no
    halves of the default route, no ranges blocked, no interface's DNS set. *)
Class pristine (m0 : machine) : Prop := {
  pr_hosts host : routes m0 !! (host +:+ "/32") = None;
  pr_halves half : half ∈ defaultHalves → routes m0 !! half = None;
  pr_blocked r : r ∈ v6Halves → r ∉ blocked m0;
  pr_claimed : claimed m0 = ∅;
}.

Lemma pristine_untouched cfg m0 : pristine m0 → untouched cfg m0.
Proof.
  intros []. split; [apply pr_hosts0| |done|by rewrite pr_claimed0; apply not_elem_of_empty].
  intros half Hh. by rewrite pr_halves0.
Qed.

#[export] Instance linux_restores (m0 : machine) env `{!Documented m0 env} `{!pristine m0} :
  Restores linux env (machine_after m0) m0.
Proof.
  refine {| recorded st := SystemFacts.recorded st m0 : Prop;
            perturbed st cfg m := SystemFacts.perturbed st cfg m0 m;
            tunnelled st cfg m := routes m = SystemFacts.tunnelled st cfg (routes m0);
            handles _ := True |}; cbn [State linux Routing.Snapshot Routing.Apply Routing.Restore].
  - done.
  - intros h c Hc. rewrite machine_after_snoc. unfold after_call. destruct (failed _); [done|]. by destruct c.
  - by intros tun h.
  - intros h Hh. eapply wp_mono; [|by apply (wp_Snapshot m0 m0)].
    intros r h' [H1 H2]. split; [done|]. intros st Hst. by apply H2.
  - intros st cfg h Hh Hrec _ _. by apply (wp_Apply m0 st cfg m0).
  - intros st cfg h Hrec Hpt. eapply wp_mono; [|by apply (wp_Restore m0 st cfg m0)].
    intros r h' [-> Hr]. split; [|done]. apply restored_perturbed; [by apply pristine_untouched|done|done].
Defined.

(** ** macOS *)

Section CalmDarwin.
Context {env : Env}.
Lemma calm_darwin_Snapshot : calm SystemDarwin.Snapshot.
Proof. unfold SystemDarwin.Snapshot, serviceForInterface. auto 20 with calm. Qed.
Lemma calm_darwin_Apply st cfg : calm (SystemDarwin.Apply st cfg).
Proof. unfold SystemDarwin.Apply, SystemDarwin.add_half, SystemDarwin.command. auto 30 with calm. Qed.
Lemma calm_darwin_Restore st cfg : calm (SystemDarwin.Restore st cfg).
Proof.
  unfold SystemDarwin.Restore. apply calm_bind; [|auto with calm]. apply calm_attempt_all.
  unfold attempt, SystemDarwin.command. cbn [map app].
  destruct (bool_decide _), (IPv6WasEnabled st);
    repeat (apply Forall_nil_2 || apply Forall_cons_2); cbn [snd]; auto with calm.
Qed.
End CalmDarwin.

#[export] Instance darwin_orderly : Orderly darwin.
Proof.
  split; intros env; [intros; apply calm_ret|apply calm_darwin_Snapshot|apply calm_darwin_Apply|apply calm_darwin_Restore].
Qed.

(** A Mac without host routes to addresses and without the halves of the
    default route, whose services have DNS servers or none and IPv6 automatic
    or off. *)
Class mac_pristine (m0 : mac) : Prop := {
  mp_hosts host : is_Some (ParseIP host) → mac_routes m0 !! host = None;
  mp_halves half : half ∈ defaultHalves → mac_routes m0 !! half = None;
  mp_dns service l : mac_dns m0 !! service = Some l → l ≠ [] ∧ l ≠ ["Empty"];
  mp_v6 service mode : mac_v6 m0 !! service = Some mode → mode = Off;
}.

Lemma mac_pristine_clear cfg m0 : mac_pristine m0 → is_Some (ParseIP (EndpointHost cfg)) → clear cfg m0.
Proof.
  intros [Hh Hf Hd _] Hip. split; [by apply Hh| | |done].
  - intros half Hin. by rewrite Hf.
  - intros Hin. assert (∀ half, half ∈ defaultHalves → ParseIP half = None) as Hno.
    { intros half. unfold defaultHalves. rewrite !elem_of_cons, elem_of_nil. by intros [->|[->|[]]]. }
    rewrite (Hno _ Hin) in Hip. by destruct Hip.
Qed.

Lemma mac_pristine_plain st m0 : mac_pristine m0 → plain_v6 st m0.
Proof.
  intros Hpr. unfold plain_v6. destruct (mac_v6 m0 !! SystemDarwin.NetworkService st) as [mode|] eqn:E; [right|by left].
  by rewrite (mp_v6 _ _ E).
Qed.

#[export] Instance darwin_restores (m0 : mac) env `{!MacDocumented m0 env} `{!mac_pristine m0} :
  Restores darwin env (mac_after m0) m0.
Proof.
  refine (Build_Restores darwin env mac (mac_after m0) m0
    (λ st : SystemDarwin.State, noted st m0)
    (λ (st : SystemDarwin.State) cfg m, clear cfg m0 ∧ changed st cfg m0 m)
    (λ _ cfg m, taken cfg m) (λ _, True) _ _ _ _ _ _); cbn [State darwin Routing.Snapshot Routing.Apply Routing.Restore].
  - done.
  - intros h c Hc. rewrite mac_after_snoc. destruct (failed _); [done|]. by destruct c.
  - by intros tun h.
  - intros h Hh. by apply (wp_mac_Snapshot m0).
  - intros st cfg h Hh Hrec _ Hip. pose proof (mac_pristine_clear cfg m0 _ Hip) as Hcl.
    eapply wp_mono; [|apply (wp_mac_Apply m0 st cfg m0); [apply Hcl|rewrite Hh; apply changed_refl]].
    by intros r h' [? ?].
  - intros st cfg h Hrec [Hcl Hch]. pose proof Hcl as [_ _ Ha Hl]. pose proof Hrec as [Hdns _].
    eapply wp_mono; [|apply (wp_mac_Restore m0 st cfg); [done| |done]].
    + intros r h' [-> Hr]. split; [|done]. apply put_back_changed; [done|done|by apply mac_pristine_plain|done].
    + rewrite Hdns. destruct (mac_dns m0 !! SystemDarwin.NetworkService st) as [l|] eqn:E; [|done]. cbn. by apply (Hl _ _ E).
Defined.

(** ** Windows *)

Section CalmWindows.
Context {env : Env}.
Lemma calm_choose rows acc : calm (choose rows acc).
Proof.
  revert acc. induction rows as [|row rows IH]; intros acc; cbn [choose]; [apply calm_ret|].
  unfold consider. auto 10 with calm.
Qed.
Hint Resolve calm_choose : calm.
Lemma calm_windows_Snapshot : calm SystemWindows.Snapshot.
Proof. unfold SystemWindows.Snapshot. auto 20 with calm. Qed.
Lemma calm_windows_Apply st cfg : calm (SystemWindows.Apply st cfg).
Proof. unfold SystemWindows.Apply, SystemWindows.add_half, SystemWindows.block_v6, api. auto 30 with calm. Qed.
Lemma calm_windows_Restore st cfg : calm (SystemWindows.Restore st cfg).
Proof.
  unfold SystemWindows.Restore. apply calm_bind; [|auto with calm]. apply calm_attempt_all.
  unfold noting, api. destruct (ParseAddr _); cbn [app];
    repeat (apply Forall_nil_2 || apply Forall_cons_2); cbn [snd]; auto with calm.
Qed.
End CalmWindows.

#[export] Instance windows_orderly : Orderly windows.
Proof.
  split; intros env; [|apply calm_windows_Snapshot|apply calm_windows_Apply|apply calm_windows_Restore].
  intros tun. apply calm_bind; [by apply calm_perform|intros; apply calm_ret].
Qed.

(** What [Snapshot] chooses is a default route of the table. *)
Section Table.
Context {env : Env}.
Definition from_table (rows : list forward_row) (st : SystemWindows.State) : Prop :=
  ∃ row, row ∈ rows ∧ PrefixLength row = 0%Z ∧ NextHop st = NextHopAddr row.

Lemma wp_choose_from rows acc h :
  wp (choose rows acc) (λ acc' _, acc' = acc ∨ from_table rows acc'.2) h.
Proof.
  revert acc h. induction rows as [|row rows IH]; intros acc h; cbn [choose]; [by apply wp_ret; left|].
  apply wp_bind. apply (wp_mono _ (λ acc1 _, acc1 = acc ∨ from_table (row :: rows) acc1.2)).
  - intros acc1 h1 H1. eapply wp_mono; [|apply IH].
    intros acc2 h2 [->|(row' & Hin & Hrow)]; [done|]. right. exists row'. split; [by apply elem_of_cons; right|done].
  - unfold consider. destruct (Z.eqb_spec (PrefixLength row) 0) as [Hp|_]; cbn [negb]; [|by apply wp_ret; left].
    apply wp_bind, wp_perform, wp_ret. destruct (answer h _); try by left.
    destruct (_ <=? _)%Z; [by left|]. right. exists row. split; [by apply elem_of_cons; left|done].
Qed.

Lemma wp_Snapshot_from h : wp SystemWindows.Snapshot (λ r _, ∀ st, r = Ok st →
  ∃ rows, answer h GetIPForwardTable = Rows rows ∧ from_table rows st ∧ is_Some (NextHop st)) h.
Proof.
  unfold SystemWindows.Snapshot. apply wp_bind, wp_perform.
  destruct (answer h GetIPForwardTable) as [| | |? ? ?| |rows]; try (by apply wp_ret).
  all: apply wp_bind; eapply wp_mono; [|apply wp_choose_from]; intros acc h1 Hacc; apply wp_ret;
    destruct (NextHop acc.2) as [a|] eqn:Hn; [|done]; intros st [= <-]; rewrite Hn;
    destruct Hacc as [->|Hc]; [done|]; try (destruct Hc as (? & []%elem_of_nil & _)).
  by exists rows.
Qed.
End Table.

(** Nothing on the machine is on this adapter. *)
Definition off_adapter (m0 : SystemWindowsFacts.windows) (luid : Z) : Prop :=
  (∀ r, r ∈ w_routes m0 → r.1.1 ≠ luid) ∧ w_dns m0 !! luid = None.

(** Zero is no adapter. *)
Class win_pristine (m0 : SystemWindowsFacts.windows) : Prop := { wp_zero : off_adapter m0 0 }.

(** An adapter that is created is a new one; and no route to a single host
    goes through the router of a default route. *)
Class WinPlaced (m0 : SystemWindowsFacts.windows) (env : Env) : Prop := {
  luid_new h tun luid : answer h (LUID tun) = Number luid → off_adapter m0 luid;
  hosts_on_link h rows row a r :
    answer h GetIPForwardTable = Rows rows → row ∈ rows → PrefixLength row = 0%Z → NextHopAddr row = Some a →
    r ∈ w_routes m0 → r.1.2.2 = 32%Z → r.2 ≠ a;
}.

(** [clean] changes nothing on a machine that has nothing of the tunnel's. *)
Definition unpinned (st : SystemWindows.State) (m0 : SystemWindowsFacts.windows) : Prop :=
  ∀ r, r ∈ w_routes m0 → r.1.2.2 = 32%Z → r.2 ≠ next_hop st.

Lemma clean_nothing st cfg m : unpinned st m → off_adapter m (Handle cfg) → clean st cfg m = m.
Proof.
  intros Hu [Ha Hd]. destruct m as [R D]. unfold clean. cbn in *. f_equal; [|by apply delete_id].
  apply filter_all. intros r Hr [Hp|Hp]; [|by apply (Ha r Hr)].
  unfold pinned in Hp. destruct (ParseAddr _) as [a|]; [|done]. injection Hp as <-. by apply (Hu _ Hr).
Qed.

#[export] Instance windows_restores (m0 : SystemWindowsFacts.windows) env
    `{!WinDocumented m0 env} `{!WinPlaced m0 env} `{!win_pristine m0} :
  Restores Routing.windows env (win_after m0) m0.
Proof.
  refine (Build_Restores Routing.windows env SystemWindowsFacts.windows (win_after m0) m0
    (λ st : SystemWindows.State, unpinned st m0)
    (λ (st : SystemWindows.State) cfg m, off_adapter m0 (Handle cfg) ∧ clean st cfg m = m0)
    (λ (st : SystemWindows.State) cfg m, pins st cfg m)
    (off_adapter m0) _ _ _ _ _ _);
    cbn [State Routing.windows Routing.Snapshot Routing.Apply Routing.Restore deviceHandle].
  - done.
  - intros h c Hc. rewrite win_after_snoc. destruct (failed _); [done|]. by destruct c.
  - intros tun h. apply wp_bind, wp_perform, wp_ret. rewrite win_after_snoc. split; [by destruct (failed _)|].
    destruct (answer h (LUID tun)) as [| | |? ? ?|luid|] eqn:E; try apply wp_zero. by eapply luid_new.
  - intros h Hh. apply wp_all; [apply (proj1 calm_windows_Snapshot)| |].
    + apply wp_wlp. eapply wp_mono; [|apply (wp_win_Snapshot_keeps m0)]. cbn. congruence.
    + apply wp_wlp. eapply wp_mono; [|apply wp_Snapshot_from].
      intros r h' Hr st ->. destruct (Hr st eq_refl) as (rows & Ht & (row & Hin & Hl & Hn) & [a Ha]).
      intros r' Hr' H32. unfold next_hop. rewrite Ha. rewrite Hn in Ha. by eapply hosts_on_link.
  - intros st cfg h Hh Hrec Hoff _. eapply wp_mono; [|apply (wp_windows_Apply m0 st cfg)].
    intros r h' [Hc Hp]. split; [|done]. split; [done|]. rewrite Hc, Hh. by apply clean_nothing.
  - intros st cfg h Hrec [Hoff Hc]. eapply wp_mono; [|apply (wp_windows_Restore m0 st cfg)].
    intros r h' [-> Hr]. done.
Defined.
