(* ===== verification/Systunnel.v ===== *)
(** * The tunnel that carries the whole machine: core/internal/systunnel

    The [Controller] of controller.go.  Its methods hold its mutex from start
    to end, so each is one operation on its state; the device it drives, the
    machine and the clock are calls to the environment, and the system it is
    built for is a [Platform]. *)

From S2P Require Import Prelude GoStrings NetAddr Awg AwgEndpoint Handshake Rtt Effects System Routing.
From Stdlib Require Import Ascii.
From stdpp Require Import options.

Record Status := mkStatus {
  Up : bool; st_Interface : string; st_Endpoint : string; Protocol : string;
  Obfuscated : bool; SinceUnix : Z; HandshakeUnix : Z; LatencyMs : Z;
}.
Definition zero_status : Status := mkStatus false "" "" "" false 0 0 0.

Definition HandshakeTimeout : Z := 10 * 1000000000.

Record ControllerOf (S : Type) := mkController {
  device : option nat;
  state : option S;
  network : System.Config;
  status : Status;
  meter : option Meter;
}.
Arguments mkController {S}.
Arguments device {S}.
Arguments state {S}.
Arguments network {S}.
Arguments status {S}.
Arguments meter {S}.

Definition Controller {platform : Platform} : Type := ControllerOf State.

(** A controller with nothing up. *)
Definition New {platform : Platform} : Controller :=
  mkController None None (System.mkConfig "" 0 "" 0 "" []) zero_status None.

(** [New], which turns the log's switch. *)
Definition NewController `{Env, Platform} (verbose : bool) : IO Controller :=
  _ ← perform (SetVerboseLog verbose); mret New.

(** ** The endpoint's address *)

(** The first IPv4 address of a lookup. *)
Fixpoint first_ipv4 (addrs : list string) : option string :=
  match addrs with
  | [] => None
  | a :: addrs =>
      match ParseIP a with
      | Some ip => if is_to4 ip then Some a else first_ipv4 addrs
      | None => first_ipv4 addrs
      end
  end.

Definition EndpointAddress `{Env} (endpoint : string) : IO (result string) :=
  if bool_decide (endpoint = "") then mret (Err [Lit "the configuration has no Endpoint"])
  else match SplitHostPort endpoint with
  | None => mret (Err [Lit "endpoint "; Quoted endpoint; Lit " is not host:port: ";
                       Foreign "net.SplitHostPort" endpoint])
  | Some (host, _) =>
      match ParseIP host with
      | Some _ => mret (Ok host)
      | None =>
          o ← perform (LookupHost host);
          mret match o with
               | Failure _ e _ => Err ([Lit "resolving endpoint "; Quoted host; Lit ": "] ++ e)
               | Hosts addrs =>
                   match first_ipv4 addrs with
                   | Some a => Ok a
                   | None => Err [Lit "endpoint "; Quoted host; Lit " has no IPv4 address"]
                   end
               | _ => Err [Lit "endpoint "; Quoted host; Lit " has no IPv4 address"]
               end
      end
  end.

(** ** Waiting for the handshake *)

(** The clock's reading, in nanoseconds. *)
Definition now `{Env} : IO Z :=
  o ← perform Now; mret match o with Instant z => z | _ => 0%Z end.

(** [IpcGetOperation]: what the device reports, when it does. *)
Definition read_device `{Env} (d : nat) : IO (option string) :=
  o ← perform (IpcGet d); mret match o with Output s => Some s | _ => None end.

(** What a read says is an answer: a handshake that is not at the zero time. *)
Definition answering_uapi (uapi : option string) : bool :=
  match uapi with Some text => negb (Handshake.Parse text =? 0)%Z | None => false end.

(** [handshake.Wait]: [read i] is the [i]-th call of its argument. *)
Fixpoint wait_read `{Env} (fuel i : nat) (read : nat → IO (option string)) (deadline : Z) : IO bool :=
  match fuel with
  | O => diverge
  | S fuel =>
      uapi ← read i;
      if answering_uapi uapi then mret true
      else
        t ← now;
        if (deadline <? t)%Z then mret false
        else _ ← perform (Sleep pause); wait_read fuel (S i) read deadline
  end.

(** ... on a device. *)
Definition wait_device `{Env} (fuel : nat) (d : nat) (deadline : Z) : IO bool :=
  wait_read fuel 0 (λ _, read_device d) deadline.

(** Enough rounds for [HandshakeTimeout]. *)
Definition wait_fuel : nat := 52.

(** ** Stop *)

Definition stopLocked `{Env, Platform} (c : Controller) : IO (result unit * Controller) :=
  match device c with
  | None => mret (Ok tt, c)
  | Some d =>
      match state c with
      | None => diverge (* [Restore] would dereference a nil state *)
      | Some st =>
          err ← Restore st (network c);
          _ ← perform (DeviceClose d);
          mret (err, mkController None None (network c) zero_status None)
      end
  end.

Definition Stop `{Env, Platform} (c : Controller) : IO (result unit * Controller) := stopLocked c.

(** ** Start *)

(** [fail]: close the device and give the error. *)
Definition fail `{Env} {A} (d : nat) (e : error) : IO (result A) :=
  _ ← perform (DeviceClose d); mret (Err e).

(** A step on the device, closing it when the step fails. *)
Definition device_step `{Env} (d : nat) (what : string) (c : call) : IO (result unit) :=
  o ← perform c;
  match o with Failure _ e _ => fail d ([Lit what; Lit ": "] ++ e) | _ => mret (Ok tt) end.

(** The resolvers: the configuration's, or one reachable through any tunnel. *)
Definition resolvers (cfg : Awg.Config) : list string :=
  if bool_decide (Awg.DNS cfg = []) then ["1.1.1.1"] else map Addr_String (Awg.DNS cfg).

Definition protocol (cfg : Awg.Config) : string :=
  if bool_decide (Obfuscation cfg = ∅) then "WireGuard" else "AmneziaWG".

(** The part of [Start] that has no device yet: configuration, endpoint and
    snapshot. *)
Definition prepare `{Env, Platform} (configText : string) : IO (result (Awg.Config * string * State)) :=
  cfg ←? mret (wrap [Lit "reading configuration: "] (AwgEndpoint.Parse configText));
  endpointHost ←? EndpointAddress (Endpoint (peer cfg));
  st ←? Snapshot;
  mret (Ok (cfg, endpointHost, st)).

(** Creating and naming the interface. *)
Definition create_device `{Env, Platform} (mtu : Z) : IO (result (nat * string)) :=
  d ← next_handle;
  created ← perform (CreateTUN deviceName mtu);
  match created with
  | Failure _ e _ => mret (Err ([Lit "creating the tunnel interface: "] ++ e))
  | _ =>
      named ← perform (TunName d);
      match named with
      | Failure _ e _ =>
          _ ← perform (TunClose d); mret (Err ([Lit "naming the tunnel interface: "] ++ e))
      | Output name => mret (Ok (d, name))
      | _ => mret (Ok (d, ""))
      end
  end.

(** Pointing the machine at the device and waiting for the server. *)
Definition take_machine `{Env, Platform} (d : nat) (st : State) (net : System.Config) : IO (result unit) :=
  applied ← Apply st net;
  match applied with
  | Err e => _ ← Restore st net; fail d e
  | Ok _ =>
      start ← now;
      answered ← wait_device wait_fuel d (start + HandshakeTimeout);
      if answered : bool then mret (Ok tt)
      else _ ← Restore st net; fail d [Lit "the server did not answer the handshake"]
  end.

(** [Start] once nothing is up. *)
Definition start_down `{Env, Platform} (configText : string) : IO (result Controller) :=
  p ←? prepare configText;
  let '(cfg, endpointHost, st) := p in
  dn ←? create_device (Awg.MTU cfg);
  let '(d, name) := dn in
  _ ←? device_step d "configuring the device" (IpcSet d (IPC cfg));
  _ ←? device_step d "bringing the device up" (DeviceUp d);
  match Addresses cfg with
  | [] => diverge (* cfg.Addresses[0] is out of range *)
  | a :: _ =>
      handle ← deviceHandle d;
      let net := System.mkConfig name handle (Addr_String a) (Awg.MTU cfg) endpointHost
                   (resolvers cfg) in
      _ ←? take_machine d st net;
      t ← now;
      mret (Ok (mkController (Some d) (Some st) net
        (mkStatus true name (Endpoint (peer cfg)) (protocol cfg)
           (negb (bool_decide (Obfuscation cfg = ∅))) (t / 1000000000) 0 0)
        (Some Rtt.New)))
  end.

Definition Start `{Env, Platform} (configText : string) (c : Controller)
    : IO (result Status * Controller) :=
  c ← (match device c with
       | None => mret c
       | Some _ => stopped ← stopLocked c; mret stopped.2
       end);
  started ← start_down configText;
  mret match started with
       | Ok c' => (Ok (status c'), c')
       | Err e => (Err e, c)
       end.

(** ** Status *)

Definition set_seen (h l : Z) (s : Status) : Status :=
  mkStatus (Up s) (st_Interface s) (st_Endpoint s) (Protocol s) (Obfuscated s) (SinceUnix s) h l.

(** [c.meter.Milliseconds()]: the clock is read only once something was seen. *)
Definition meter_milliseconds `{Env} (m : option Meter) : IO (Z * option Meter) :=
  match m with
  | Some meter =>
      if seen meter then t ← now; mret (Milliseconds t m) else mret (Milliseconds 0 m)
  | None => mret (Milliseconds 0 m)
  end.

Definition Status_of `{Env, Platform} (c : Controller) : IO (Status * Controller) :=
  if negb (Up (status c)) then mret (status c, c)
  else
    handshake ← (match device c with
      | None => mret 0%Z
      | Some d =>
          uapi ← read_device d;
          mret match uapi with
               | Some text => let at_ := Handshake.Parse text in
                   if (at_ =? 0)%Z then 0%Z else (at_ - unixToInternal)%Z
               | None => 0%Z
               end
      end);
    ml ← meter_milliseconds (meter c);
    mret (set_seen handshake ml.1 (status c),
          mkController (device c) (state c) (network c) (status c) ml.2).
