(* ===== verification/SystunnelFacts.v ===== *)
(** * Properties of the machine-wide tunnel

    At most one interface is ever open and none is left behind; the machine is
    as it was whenever no tunnel is up; every operation comes back. *)

From S2P Require Import Prelude GoStrings NetAddr Awg AwgFacts AwgEndpoint AwgEndpointFacts.
From S2P Require Import Handshake Rtt Effects System Routing RoutingFacts Systunnel.
From stdpp Require Import options.

(** ** Operations that open and close nothing, and those on one device *)

Abbreviation quiet := (keeps books).

(** The device's interface, and nothing else. *)
Definition dev_set (d : option nat) : gset nat := match d with Some d => {[d]} | None => ∅ end.

Section Device.
Context {env : Env}.
Hint Extern 1 (keeps books (perform _)) => (apply keeps_books; reflexivity) : keeps.

Lemma quiet_EndpointAddress e : quiet (EndpointAddress e).
Proof. unfold EndpointAddress. auto 20 with keeps. Qed.
Lemma quiet_now : quiet now.
Proof. unfold now. auto with keeps. Qed.
Lemma quiet_read_device d : quiet (read_device d).
Proof. unfold read_device. auto with keeps. Qed.
Hint Resolve quiet_now quiet_read_device : keeps.

(** What is open is a part of the books. *)
Lemma quiet_opened {A} (m : IO A) : quiet m → keeps opened m.
Proof. intros Hm h. eapply wlp_mono; [|apply Hm]. by intros a h' [= -> _]. Qed.
Lemma opened_now : keeps opened now.
Proof. apply quiet_opened, quiet_now. Qed.
Lemma quiet_wait_read n i read t : (∀ i, quiet (read i)) → quiet (wait_read n i read t).
Proof. intros Hr. revert i. induction n as [|n IH]; intros i; cbn [wait_read]; auto 20 with keeps. Qed.
Lemma quiet_wait_device n d t : quiet (wait_device n d t).
Proof. apply quiet_wait_read. auto with keeps. Qed.

(** After a step on device [d]: it is open, or closed if the step failed. *)
Definition held {A} (d : nat) (B : nat * list call) (r : result A) (h : history) : Prop :=
  books h = (if is_ok r then {[d]} else ∅, B).

(** Closing the one interface that is open. *)
Lemma books_close h d B c o : c = DeviceClose d ∨ c = TunClose d → books h = ({[d]}, B) → books (h ++ [(c, o)]) = (∅, B).
Proof.
  unfold books, rest. intros Hc [= Ho <-]. rewrite opened_snoc, strays_snoc, reported_snoc, Ho. unfold open_step.
  destruct Hc as [-> | ->]; cbn; rewrite bool_decide_true, app_nil_r by set_solver; f_equal; set_solver.
Qed.

Lemma wlp_close d B h (Q : outcome → history → Prop) :
  books h = ({[d]}, B) → (∀ o h', books h' = (∅, B) → Q o h') → wlp (perform (DeviceClose d)) Q h.
Proof. intros Hh HQ. unfold wlp. cbn. apply HQ. apply (books_close h d); auto. Qed.

Lemma wlp_fail {A} d B e h : books h = ({[d]}, B) → wlp (@fail _ A d e) (held d B) h.
Proof. intros Hh. apply wlp_bind, (wlp_close d B); [done|]. intros o h' H'. exact H'. Qed.

Lemma wlp_device_step d B what c h :
  neutral c = true → books h = ({[d]}, B) → wlp (device_step d what c) (held d B) h.
Proof.
  intros Hc Hh. apply wlp_bind, (wlp_keeps books); [by apply keeps_books|]. intros o h' H.
  rewrite Hh in H. destruct o; try done. by apply (wlp_fail d B).
Qed.

End Device.

Section Quiet.
Context {env : Env} {platform : Platform} `{!Orderly platform}.
#[local] Set Default Proof Using "Type*".

Hint Resolve quiet_EndpointAddress quiet_now quiet_read_device quiet_wait_device : keeps.

Lemma quiet_Snapshot : quiet Snapshot.
Proof. apply calm_Snapshot. Qed.
Lemma quiet_Apply st cfg : quiet (Apply st cfg).
Proof. apply calm_Apply. Qed.
Lemma quiet_Restore st cfg : quiet (Restore st cfg).
Proof. apply calm_Restore. Qed.
Lemma quiet_deviceHandle tun : quiet (deviceHandle tun).
Proof. apply calm_deviceHandle. Qed.
Hint Resolve quiet_Snapshot : keeps.

Lemma quiet_prepare text : quiet (prepare text).
Proof. unfold prepare. auto 20 with keeps. Qed.
Hint Resolve quiet_prepare : keeps.

(** ** At most one interface, and none left behind *)

(** The fields of a controller belong together. *)
Definition consistent (c : Controller) : Prop :=
  match device c with
  | None => state c = None ∧ status c = zero_status ∧ meter c = None
  | Some _ => is_Some (state c) ∧ Up (status c) = true ∧ is_Some (meter c)
  end.

Definition inv (c : Controller) (h : history) : Prop :=
  opened h = dev_set (device c) ∧ consistent c.

(** The same, with the rest of the books. *)
Definition inv_books (B : nat * list call) (c : Controller) (h : history) : Prop :=
  books h = (dev_set (device c), B) ∧ consistent c.

Lemma inv_has_books c h : inv c h ↔ inv_books (rest h) c h.
Proof. unfold inv, inv_books, books. split; [by intros [-> ?]|by intros [[= ->] ?]]. Qed.
Lemma inv_books_inv B c h : inv_books B c h → inv c h ∧ rest h = B.
Proof. unfold inv, inv_books, books. by intros [[= -> ->] ?]. Qed.

Lemma wlp_create_device mtu B h :
  books h = (∅, B) →
  wlp (create_device mtu) (λ r h', books h' = (match r with Ok (d, _) => {[d]} | Err _ => ∅ end, B)) h.
Proof.
  intros Hh. unfold create_device. apply wlp_bind. unfold wlp at 1. cbn [next_handle].
  apply wlp_bind. unfold wlp at 1. cbn [perform].
  assert (books (h ++ [(CreateTUN deviceName mtu, answer h (CreateTUN deviceName mtu))])
    = (if failed (answer h (CreateTUN deviceName mtu)) then ∅ else {[length h]}, B)) as H1.
  { revert Hh. unfold books, rest. intros [= Ho <-]. rewrite opened_snoc, strays_snoc, reported_snoc, Ho. unfold open_step.
    cbn. rewrite app_nil_r. f_equal. destruct (failed _); [done|set_solver]. }
  set (d := length h) in *. set (h1 := h ++ _) in *.
  destruct (failed (answer h (CreateTUN deviceName mtu))) eqn:E.
  { by destruct (answer h (CreateTUN deviceName mtu)). }
  assert (wlp (named ← perform (TunName d);
      match named with
      | Failure _ e _ =>
          _ ← perform (TunClose d); mret (Err ([Lit "naming the tunnel interface: "] ++ e))
      | Output name => mret (Ok (d, name))
      | _ => mret (Ok (d, ""))
      end) (λ r h', books h' = (match r with Ok (d, _) => {[d]} | Err _ => ∅ end, B)) h1) as H.
  { apply wlp_bind, (wlp_keeps books); [by apply keeps_books|]. intros o h2 H2.
    destruct o; try (unfold wlp; cbn; congruence).
    apply wlp_bind, wlp_perform, wlp_ret. apply (books_close h2 d); [auto|congruence]. }
  by destruct (answer h (CreateTUN deviceName mtu)).
Qed.

Lemma wlp_take_machine d B st net h :
  books h = ({[d]}, B) → wlp (take_machine d st net) (held d B) h.
Proof.
  intros Hh. unfold take_machine. apply wlp_bind, (wlp_keeps books); [apply quiet_Apply|]. intros r h1 H1.
  assert (∀ e h, books h = ({[d]}, B) → wlp (_ ← Restore st net; fail d e) (@held unit d B) h) as Hfail.
  { intros e h' H'. apply wlp_bind, (wlp_keeps books); [apply quiet_Restore|]. intros _ h2 H2.
    apply (wlp_fail d B). congruence. }
  destruct r as [[]|e]; [|apply Hfail; congruence].
  apply wlp_bind, (wlp_keeps books); [apply quiet_now|]. intros t h2 H2.
  apply wlp_bind, (wlp_keeps books); [apply quiet_wait_device|]. intros [] h3 H3.
  - unfold wlp, held. cbn. congruence.
  - apply Hfail. congruence.
Qed.

Lemma wlp_start_down text B h :
  books h = (∅, B) →
  wlp (start_down text) (λ r h', match r with
    | Ok c => inv_books B c h' ∧ is_Some (device c) | Err _ => books h' = (∅, B) end) h.
Proof.
  intros Hh. unfold start_down. apply wlp_try, (wlp_keeps books); [apply quiet_prepare|].
  intros [[[cfg host] st]|e] h1 H1; [|congruence].
  apply wlp_try. eapply wlp_mono; [|apply (wlp_create_device _ B); congruence].
  intros [[d name]|e] h2 H2; [|done].
  apply wlp_try. eapply wlp_mono; [|by apply (wlp_device_step d B)]. intros [[]|e] h3 H3; [|done].
  apply wlp_try. eapply wlp_mono; [|by apply (wlp_device_step d B)]. intros [[]|e] h4 H4; [|done].
  destruct (Addresses cfg) as [|a ?]; [done|].
  apply wlp_bind, (wlp_keeps books); [apply quiet_deviceHandle|]. intros handle h4' H4'.
  apply wlp_try. eapply wlp_mono; [|apply (wlp_take_machine d B); unfold held in H4; cbn in H4; congruence].
  intros [[]|e] h5 H5; [|done].
  apply wlp_bind, (wlp_keeps books); [apply quiet_now|]. intros t h6 H6.
  unfold wlp, inv_books, consistent. cbn. unfold held in H5. cbn in H5. rewrite H6, H5. eauto 10.
Qed.

Lemma wlp_stopLocked_books c B h :
  inv_books B c h → wlp (stopLocked c) (λ r h', inv_books B r.2 h' ∧ device r.2 = None) h.
Proof.
  intros [Ho Hc]. unfold stopLocked. unfold consistent in Hc. destruct (device c) as [d|] eqn:Hd.
  - destruct Hc as ([st ->] & _). apply wlp_bind, (wlp_keeps books); [apply quiet_Restore|]. intros r h1 H1.
    apply wlp_bind, (wlp_close d B); [cbn in Ho; congruence|]. intros o h2 H2.
    unfold wlp, inv_books, consistent. cbn. by rewrite H2.
  - unfold wlp, inv_books, consistent. cbn. by rewrite Hd.
Qed.

Lemma inv_down B c h : device c = None → consistent c → books h = (∅, B) → inv_books B c h.
Proof. intros Hd Hc Ho. split; [by rewrite Hd|done]. Qed.

Lemma wlp_Start_books text c B h :
  inv_books B c h → wlp (Start text c) (λ r h', inv_books B r.2 h' ∧
    (device r.2 = None ↔ is_ok r.1 = false) ∧ (∀ s, r.1 = Ok s → s = status r.2)) h.
Proof.
  intros Hc. unfold Start. apply wlp_bind.
  apply (wlp_mono _ (λ c' h', inv_books B c' h' ∧ device c' = None)).
  - intros c' h1 [[Ho Hcons] Hd]. apply wlp_bind. eapply wlp_mono; [|apply (wlp_start_down text B); by rewrite Ho, Hd].
    intros [c2|e] h2; cbn.
    + intros [Hi [d Hd2]]. unfold wlp. cbn. split_and!; [done| |by intros s [= <-]]. by rewrite Hd2.
    + intros H2. unfold wlp. cbn. split_and!; [by apply inv_down|done|done].
  - destruct (device c) as [d|] eqn:Hd; [|by unfold wlp; cbn].
    apply wlp_bind. eapply wlp_mono; [|by apply wlp_stopLocked_books]. intros r h1 H1. done.
Qed.

Lemma wlp_meter mt h :
  wlp (meter_milliseconds (Some mt)) (λ r h', books h' = books h ∧ is_Some r.2) h.
Proof.
  unfold meter_milliseconds, Milliseconds. destruct (seen mt).
  - apply wlp_bind, (wlp_keeps books); [apply quiet_now|]. intros t h1 H1. unfold wlp. cbn.
    destruct (Latency t mt) as [[v []] m']; cbn; eauto.
  - unfold wlp. cbn. destruct (Latency 0 mt) as [[v []] m']; cbn; eauto.
Qed.

Lemma wlp_Status_books c B h :
  inv_books B c h → wlp (Status_of c) (λ r h', inv_books B r.2 h' ∧ device r.2 = device c ∧
    Up r.1 = Up (status c) ∧ status r.2 = status c) h.
Proof.
  intros [Ho Hc]. unfold Status_of. destruct (negb (Up (status c))) eqn:Hup; [done|].
  apply wlp_bind, (wlp_keeps books).
  { destruct (device c); [apply keeps_bind; [apply quiet_read_device|intros; apply keeps_ret]|apply keeps_ret]. }
  intros hs h1 H1. apply wlp_bind. unfold consistent in Hc.
  destruct (device c) as [d|] eqn:Hd.
  2: { destruct Hc as (_ & Hs & _). by rewrite Hs in Hup. }
  destruct Hc as (? & ? & [mt ->]). eapply wlp_mono; [|apply wlp_meter].
  intros [v m'] h2 [H2 [mt' Hm]]. cbn in Hm. subst m'. unfold wlp, inv_books, consistent. cbn.
  rewrite H2, H1, Ho. eauto 10.
Qed.

(** The invariant alone, and that the rest of the books is kept. *)
Lemma wlp_stopLocked c h : inv c h → wlp (stopLocked c) (λ r h', inv r.2 h' ∧ device r.2 = None) h.
Proof.
  intros Hi%inv_has_books. eapply wlp_mono; [|by apply wlp_stopLocked_books].
  by intros r h' [[? _]%inv_books_inv ?].
Qed.
Lemma wlp_Start text c h :
  inv c h → wlp (Start text c) (λ r h', inv r.2 h' ∧
    (device r.2 = None ↔ is_ok r.1 = false) ∧ (∀ s, r.1 = Ok s → s = status r.2)) h.
Proof.
  intros Hi%inv_has_books. eapply wlp_mono; [|by apply wlp_Start_books].
  by intros r h' [[? _]%inv_books_inv ?].
Qed.
Lemma wlp_Status c h :
  inv c h → wlp (Status_of c) (λ r h', inv r.2 h' ∧ device r.2 = device c ∧
    Up r.1 = Up (status c) ∧ status r.2 = status c) h.
Proof.
  intros Hi%inv_has_books. eapply wlp_mono; [|by apply wlp_Status_books].
  by intros r h' [[? _]%inv_books_inv ?].
Qed.

Lemma rest_stopLocked c h : inv c h → wlp (stopLocked c) (λ _ h', rest h' = rest h) h.
Proof.
  intros Hi%inv_has_books. eapply wlp_mono; [|by apply wlp_stopLocked_books].
  by intros r h' [[_ ?]%inv_books_inv ?].
Qed.
Lemma rest_Start text c h : inv c h → wlp (Start text c) (λ _ h', rest h' = rest h) h.
Proof.
  intros Hi%inv_has_books. eapply wlp_mono; [|by apply wlp_Start_books].
  by intros r h' [[_ ?]%inv_books_inv ?].
Qed.
Lemma rest_Status c h : inv c h → wlp (Status_of c) (λ _ h', rest h' = rest h) h.
Proof.
  intros Hi%inv_has_books. eapply wlp_mono; [|by apply wlp_Status_books].
  by intros r h' [[_ ?]%inv_books_inv ?].
Qed.
End Quiet.
