(* ===== verification/SystunnelMachine.v ===== *)
(** * The machine around the machine-wide tunnel

    Every operation of the controller comes back, and the machine is as it was
    whenever no tunnel is up: what the platform promises
    ([RoutingFacts.Restores]) composed with what the configuration does
    ([AwgFacts.wf_config]). *)

From S2P Require Import Prelude GoStrings NetAddr Awg AwgFacts AwgEndpoint AwgEndpointFacts.
From S2P Require Import Handshake Rtt Effects System Routing RoutingFacts Systunnel SystunnelFacts.
From stdpp Require Import options.

(** ** Everything but the wait comes back *)

Section Total.
Context {env : Env}.

Lemma total_EndpointAddress e : total (EndpointAddress e).
Proof. unfold EndpointAddress. auto 20 with keeps. Qed.
Lemma total_now : total now.
Proof. unfold now. auto with keeps. Qed.
Lemma total_read_device d : total (read_device d).
Proof. unfold read_device. auto with keeps. Qed.
Lemma total_next_handle : total next_handle.
Proof. done. Qed.
Lemma total_device_step d what c : total (device_step d what c).
Proof. unfold device_step, fail. auto 20 with keeps. Qed.
(** ** The wait *)

Context `{!Clock env}.
#[local] Set Default Proof Using "Type*".

(** Reading comes back, and not before it began. *)
Definition reads_on (read : IO (option string)) : Prop :=
  ∀ h, wp read (λ _ h', (clock h ≤ clock h')%Z) h.

Lemma read_device_on d : reads_on (read_device d).
Proof. intros h. apply wp_bind, wp_perform, wp_ret, clock_mono. Qed.

Lemma wp_wait_read fuel i read deadline h :
  (∀ i, reads_on (read i)) → (deadline < clock h + pause * Z.of_nat fuel)%Z →
  wp (wait_read (S fuel) i read deadline) (λ _ _, True) h.
Proof.
  intros Hr. revert i h. induction fuel as [|fuel IH]; intros i h Hd; cbn [wait_read].
  all: apply wp_bind; eapply wp_mono; [|apply Hr]; intros uapi h1 H1; cbv beta in H1.
  all: destruct (answering_uapi uapi); [done|].
  all: apply wp_bind; unfold now; apply wp_bind, wp_perform, wp_ret; rewrite now_is.
  - rewrite (proj2 (Z.ltb_lt _ _)); [done|]. lia.
  - destruct (_ <? _)%Z; [done|]. apply wp_bind, wp_perform.
    pose proof (clock_mono h1 (Now, Instant (clock h1))) as H2. set (h2 := h1 ++ _) in *.
    pose proof (clock_sleep h2 pause) as H3.
    apply (IH (S i) (h2 ++ _)). lia.
Qed.

Lemma wp_wait_device fuel d deadline h :
  (deadline < clock h + pause * Z.of_nat fuel)%Z →
  wp (wait_device (S fuel) d deadline) (λ _ _, True) h.
Proof. apply wp_wait_read. intros i. apply read_device_on. Qed.

Context {platform : Platform} `{!Orderly platform}.

Lemma total_Snapshot : total Snapshot.
Proof. apply calm_Snapshot. Qed.
Lemma total_Apply st cfg : total (Apply st cfg).
Proof. apply calm_Apply. Qed.
Lemma total_Restore st cfg : total (Restore st cfg).
Proof. apply calm_Restore. Qed.
Lemma total_deviceHandle tun : total (deviceHandle tun).
Proof. apply calm_deviceHandle. Qed.
Hint Resolve total_Snapshot total_Apply total_Restore total_deviceHandle total_EndpointAddress total_now
  total_read_device total_next_handle total_device_step : keeps.

Lemma total_prepare text : total (prepare text).
Proof. unfold prepare. auto 20 with keeps. Qed.
Lemma total_create_device mtu : total (create_device mtu).
Proof. unfold create_device. auto 20 with keeps. Qed.
Hint Resolve total_prepare total_create_device : keeps.

Lemma total_take_machine d st net : total (take_machine d st net).
Proof.
  intros h. unfold take_machine. apply wp_bind. eapply wp_mono; [|apply total_Apply].
  assert (∀ e, total (_ ← Restore st net; @fail _ unit d e)) as Hfail.
  { intros e. unfold fail. auto 10 with keeps. }
  intros [[]|e] h1 _; [|apply Hfail].
  apply wp_bind. unfold now. apply wp_bind, wp_perform, wp_ret. rewrite now_is.
  apply wp_bind. eapply wp_mono; [|apply (wp_wait_device 51)].
  - intros [] h2 _; [done|apply Hfail].
  - pose proof (clock_mono h1 (Now, Instant (clock h1))). unfold pause, HandshakeTimeout. lia.
Qed.

(** [cfg.Addresses[0]] never panics: an accepted configuration has an address. *)
Lemma prepare_addresses text h :
  wlp (prepare text) (λ r _, ∀ cfg host st, r = Ok (cfg, host, st) → wf_config cfg) h.
Proof.
  unfold prepare. apply wlp_try, wlp_ret. destruct (AwgEndpoint.Parse text) as [cfg|e] eqn:Hp; cbn [wrap]; [|done].
  apply wlp_try. apply (wlp_keeps (λ _, tt)); [by intros ?; unfold wlp; case_match; case_match|].
  intros [host|e] h1 _; [|done].
  apply wlp_try. apply (wlp_keeps (λ _, tt)); [by intros ?; unfold wlp; case_match; case_match|].
  intros [st|e] h2 _; [|done]. apply wlp_ret. intros ? ? ? [= <- _ _].
  by eapply Parse_wf.
Qed.

Lemma total_start_down text : total (start_down text).
Proof.
  intros h. unfold start_down. apply wp_try.
  eapply wp_mono; [|apply (wp_total _ _ _ (total_prepare text) (prepare_addresses text h))].
  intros [[[cfg host] st]|e] h1 Hwf; [|done]. specialize (Hwf _ _ _ eq_refl).
  destruct (Addresses cfg) as [|a addrs] eqn:Ha; [by destruct Hwf|].
  apply wp_try. eapply wp_mono; [|apply total_create_device]. intros [[d name]|e] h2 _; [|done].
  revert h2. change (total (
    _ ←? device_step d "configuring the device" (IpcSet d (IPC cfg));
    _ ←? device_step d "bringing the device up" (DeviceUp d);
    handle ← deviceHandle d;
    let net := System.mkConfig name handle (Addr_String a) (Awg.MTU cfg) host (resolvers cfg) in
      _ ←? take_machine d st net;
      t ← now;
      mret (Ok (mkController (Some d) (Some st) net
        (mkStatus true name (Endpoint (peer cfg)) (protocol cfg)
           (negb (bool_decide (Obfuscation cfg = ∅))) (t / 1000000000) 0 0)
        (Some Rtt.New))))).
  apply total_try; [apply total_device_step|intros _].
  apply total_try; [apply total_device_step|intros _].
  apply total_bind; [apply total_deviceHandle|intros handle].
  apply total_try; [apply total_take_machine|intros _]. auto with keeps.
Qed.

Lemma total_stopLocked c h : inv c h → wp (stopLocked c) (λ _ _, True) h.
Proof.
  intros [_ Hc]. unfold stopLocked, consistent in *. destruct (device c); [|done].
  destruct Hc as ([st ->] & _). revert h. apply total_bind; auto with keeps.
Qed.

Lemma total_Start text c h : inv c h → wp (Start text c) (λ _ _, True) h.
Proof.
  intros Hc. unfold Start. apply wp_bind. apply (wp_mono _ (λ _ _, True)).
  - intros c' h1 _. revert h1. apply total_bind; [apply total_start_down|auto with keeps].
  - destruct (device c); [|done]. apply wp_bind. eapply wp_mono; [|by apply total_stopLocked]. done.
Qed.

Lemma total_Status c : total (Status_of c).
Proof.
  unfold Status_of. destruct (negb _); [auto with keeps|]. apply total_bind.
  - destruct (device c); auto with keeps.
  - intros hs. apply total_bind; [|auto with keeps]. unfold meter_milliseconds.
    destruct (meter c) as [mt|]; [|auto with keeps]. destruct (seen mt); auto with keeps.
Qed.
End Total.

(** ** The machine is given back *)

Section Machine.
Context {env : Env} {platform : Platform} {M : Type} (after : history → M) (m0 : M).
Context `{Hlaws : !Restores platform env after m0}.
#[local] Set Default Proof Using "Type*".
Abbreviation still := (keeps after).

Lemma still_perform c : own_call c = true → still (perform c).
Proof. intros Hc. apply keeps_perform. intros h. by apply after_own. Qed.
Hint Extern 1 (keeps after (perform _)) => (apply still_perform; reflexivity) : keeps.

Lemma still_EndpointAddress e : still (EndpointAddress e).
Proof. unfold EndpointAddress. auto 20 with keeps. Qed.
Lemma still_now : still now.
Proof. unfold now. auto with keeps. Qed.
Lemma still_read_device d : still (read_device d).
Proof. unfold read_device. auto with keeps. Qed.
Lemma still_next_handle : still next_handle.
Proof. done. Qed.
Hint Resolve still_EndpointAddress still_now still_read_device still_next_handle : keeps.
Lemma still_wait_device n d t : still (wait_device n d t).
Proof.
  unfold wait_device. generalize 0. induction n as [|n IH]; intros i; cbn [wait_read]; auto 20 with keeps.
Qed.
Lemma still_create_device mtu : still (create_device mtu).
Proof. unfold create_device. auto 20 with keeps. Qed.
Lemma still_fail {A} d e : still (@fail _ A d e).
Proof. unfold fail. auto with keeps. Qed.
Hint Resolve still_wait_device still_create_device still_fail : keeps.
Lemma still_device_step d what c : own_call c = true → still (device_step d what c).
Proof. intros He. unfold device_step. apply keeps_bind; [by apply still_perform|]. auto 10 with keeps. Qed.

(** A tunnel is up on the machine, and the snapshot is there to undo it. *)
Definition tunnel_up (st : State) (net : System.Config) (h : history) : Prop :=
  recorded st ∧ perturbed st net (after h) ∧ tunnelled st net (after h).

(** The machine, as the controller's state says. *)
Definition machine_inv (c : Controller) (h : history) : Prop :=
  match device c with
  | None => after h = m0
  | Some _ => ∃ st, state c = Some st ∧ tunnel_up st (network c) h
  end.

Lemma wlp_give_back st net h (Q : result unit → history → Prop) :
  recorded st → perturbed st net (after h) →
  (∀ r h', after h' = m0 → (tunnelled st net (after h) → r = Ok tt) → Q r h') →
  wlp (Restore st net) Q h.
Proof.
  intros Hrec Hpt HQ. apply wp_wlp. eapply wp_mono; [|by apply Restore_law].
  intros r h' [HM Hr]. by apply HQ.
Qed.

Lemma wlp_stopLocked_machine c h :
  machine_inv c h → wlp (stopLocked c) (λ r h', after h' = m0 ∧ device r.2 = None ∧ r.1 = Ok tt) h.
Proof.
  intros Hc. unfold stopLocked, machine_inv in *. destruct (device c) as [d|] eqn:Hd; [|by unfold wlp; cbn].
  destruct Hc as (st & -> & Hrec & Hpt & Hr). apply wlp_bind, wlp_give_back; [done..|].
  intros r h1 H1 Hok. apply wlp_bind, (wlp_keeps after); [by apply still_perform|].
  intros o h2 H2. apply wlp_ret. split; [congruence|]. split; [done|]. by apply Hok.
Qed.

Lemma wlp_take_machine_machine d st net h :
  after h = m0 → recorded st → handles (Handle net) → is_Some (ParseIP (EndpointHost net)) →
  wlp (take_machine d st net) (λ r h', if is_ok r then tunnel_up st net h' else after h' = m0) h.
Proof.
  intros Hh Hrec Hhandle Hip. unfold take_machine. apply wlp_bind, wp_wlp.
  eapply wp_mono; [|by apply Apply_law]. intros r h1 [Hpt Hr].
  assert (∀ e h2, after h2 = after h1 → wlp (_ ← Restore st net; @fail _ unit d e)
    (λ r h', if is_ok r then tunnel_up st net h' else after h' = m0) h2) as Hfail.
  { intros e h2 H2. apply wlp_bind, wlp_give_back; [done|by rewrite H2|]. intros rr h3 H3 _.
    unfold fail. apply wlp_bind, (wlp_keeps after); [by apply still_perform|].
    intros o h4 H4. apply wlp_ret. cbn. congruence. }
  destruct r as [[]|e]; [|by apply Hfail].
  apply wlp_bind, (wlp_keeps after); [apply still_now|]. intros t h2 H2.
  apply wlp_bind, (wlp_keeps after); [apply still_wait_device|]. intros [] h3 H3.
  - apply wlp_ret. cbn. unfold tunnel_up. rewrite H3, H2. auto.
  - apply Hfail. congruence.
Qed.

Lemma first_ipv4_address addrs a : first_ipv4 addrs = Some a → is_Some (ParseIP a).
Proof.
  clear Hlaws. induction addrs as [|x addrs IH]; cbn; [done|].
  destruct (ParseIP x) as [ip|] eqn:E; [|done]. destruct (is_to4 ip); [|done]. intros [= <-]. by rewrite E.
Qed.

(** The endpoint's host, once resolved, is an address. *)
Lemma wlp_EndpointAddress e h :
  wlp (EndpointAddress e) (λ r h', after h' = after h ∧ ∀ host, r = Ok host → is_Some (ParseIP host)) h.
Proof.
  apply wlp_conj; [apply still_EndpointAddress|]. unfold EndpointAddress. case_bool_decide; [by apply wlp_ret|].
  destruct (SplitHostPort e) as [[host port]|]; [|by apply wlp_ret].
  destruct (ParseIP host) as [ip|] eqn:E; [apply wlp_ret; intros ? [= <-]; by rewrite E|].
  apply wlp_bind, wlp_perform, wlp_ret. destruct (answer h (LookupHost host)) as [|addrs| |? ? ?| |]; try done.
  destruct (first_ipv4 addrs) as [a|] eqn:Ha; [|done]. intros ? [= <-]. by eapply first_ipv4_address.
Qed.

Lemma wlp_prepare text h :
  after h = m0 → wlp (prepare text) (λ r h', after h' = m0 ∧
    ∀ cfg host st, r = Ok (cfg, host, st) → recorded st ∧ is_Some (ParseIP host)) h.
Proof.
  intros Hh. unfold prepare. apply wlp_try, wlp_ret.
  destruct (wrap _ _) as [cfg|e]; [|done].
  apply wlp_try. eapply wlp_mono; [|apply wlp_EndpointAddress].
  intros [host|e] h1 [H1 Hip]; [|split; [congruence|done]].
  apply wlp_try, wp_wlp. eapply wp_mono; [|apply Snapshot_law; congruence].
  intros [st|e] h2 [H2 Hst]; [|done]. apply wlp_ret. split; [done|].
  intros ? ? ? [= _ <- <-]. auto.
Qed.

Lemma wlp_start_down_machine text h :
  after h = m0 → wlp (start_down text) (λ r h', match r with
    | Ok c => machine_inv c h' | Err _ => after h' = m0 end) h.
Proof.
  intros Hh. unfold start_down. apply wlp_try. eapply wlp_mono; [|by apply wlp_prepare].
  intros [[[cfg host] st]|e] h1 [H1 Hrec]; [|done]. destruct (Hrec _ _ _ eq_refl) as [Hst Hip].
  apply wlp_try, (wlp_keeps after); [apply still_create_device|].
  intros [[d name]|e] h2 H2; [|congruence].
  apply wlp_try, (wlp_keeps after); [by apply still_device_step|].
  intros [[]|e] h3 H3; [|congruence].
  apply wlp_try, (wlp_keeps after); [by apply still_device_step|].
  intros [[]|e] h4 H4; [|congruence].
  destruct (Addresses cfg) as [|a addrs]; [done|].
  apply wlp_bind, wp_wlp. eapply wp_mono; [|apply deviceHandle_law]. intros handle h4' [H4' Hhandle].
  apply wlp_try. eapply wlp_mono; [|apply wlp_take_machine_machine; [congruence|done..]].
  intros [[]|e] h5 H5; [|done]. cbn [is_ok] in H5.
  apply wlp_bind, (wlp_keeps after); [apply still_now|]. intros t h6 H6.
  apply wlp_ret. exists st. split; [done|]. unfold tunnel_up. by rewrite H6.
Qed.

Lemma wlp_Start_machine text c h :
  machine_inv c h → wlp (Start text c) (λ r h', machine_inv r.2 h') h.
Proof.
  intros Hc. unfold Start. apply wlp_bind.
  apply (wlp_mono _ (λ c' h', after h' = m0 ∧ device c' = None)).
  - intros c' h1 [H1 Hd]. apply wlp_bind. eapply wlp_mono; [|by apply wlp_start_down_machine].
    intros [c2|e] h2 H2; apply wlp_ret; [done|]. unfold machine_inv. cbn. by rewrite Hd.
  - destruct (device c) as [d|] eqn:Hd.
    + apply wlp_bind. eapply wlp_mono; [|by apply wlp_stopLocked_machine]. intros r h1 (? & ? & _). by apply wlp_ret.
    + apply wlp_ret. unfold machine_inv in Hc. by rewrite Hd in Hc.
Qed.

Lemma wlp_Status_machine c h :
  machine_inv c h → wlp (Status_of c) (λ r h', machine_inv r.2 h') h.
Proof.
  intros Hc. unfold Status_of. destruct (negb _); [done|].
  apply wlp_bind, (wlp_keeps after).
  { destruct (device c); [|apply keeps_ret]. apply keeps_bind; [apply still_read_device|intros; apply keeps_ret]. }
  intros hs h1 H1. apply wlp_bind, (wlp_keeps after).
  { unfold meter_milliseconds. destruct (meter c) as [mt|]; [|apply keeps_ret].
    destruct (seen mt); [|apply keeps_ret]. apply keeps_bind; [apply still_now|intros; apply keeps_ret]. }
  intros ml h2 H2. apply wlp_ret. unfold machine_inv, tunnel_up in *. cbn.
  destruct (device c); rewrite H2, H1; done.
Qed.
End Machine.
