(* ===== verification/SystunnelProps.v ===== *)
(** * The properties of the machine-wide tunnel *)

From S2P Require Import Prelude GoStrings NetAddr Awg AwgFacts AwgEndpoint Handshake.
From S2P Require Import Rtt Effects System SystemFacts Simulated SystemDarwinFacts SystemWindowsFacts.
From S2P Require Import Routing RoutingFacts Systunnel SystunnelFacts SystunnelMachine.
From stdpp Require Import options.

(** ** Requests, one after the other *)

Inductive request := RStart (configText : string) | RStop | RStatus.

Definition serve `{Env, Platform} (r : request) (c : Controller) : IO Controller :=
  match r with
  | RStart text => o ← Start text c; mret o.2
  | RStop => o ← Stop c; mret o.2
  | RStatus => o ← Status_of c; mret o.2
  end.

Fixpoint serve_all `{Env, Platform} (rs : list request) (c : Controller) : IO Controller :=
  match rs with [] => mret c | r :: rs => c ← serve r c; serve_all rs c end.

(** An invariant of every request is one of every history. *)
Lemma wlp_serve_all {env : Env} {platform : Platform} (P : Controller → history → Prop) rs c h :
  (∀ text c h, P c h → wlp (Start text c) (λ r h', P r.2 h') h) →
  (∀ c h, P c h → wlp (Stop c) (λ r h', P r.2 h') h) →
  (∀ c h, P c h → wlp (Status_of c) (λ r h', P r.2 h') h) →
  P c h → wlp (serve_all rs c) P h.
Proof.
  intros H1 H2 H3. revert c h. induction rs as [|r rs IH]; intros c h HP; cbn [serve_all]; [done|].
  apply wlp_bind. apply (wlp_mono _ P); [auto|].
  destruct r as [text| |]; cbn [serve]; apply wlp_bind.
  - eapply wlp_mono; [|by apply H1]. by intros [].
  - eapply wlp_mono; [|by apply H2]. by intros [].
  - eapply wlp_mono; [|by apply H3]. by intros [].
Qed.

Lemma inv_New {platform : Platform} : inv New [].
Proof. done. Qed.

Lemma serve_all_inv {env : Env} {platform : Platform} `{!Orderly platform} rs c h : inv c h → wlp (serve_all rs c) inv h.
Proof.
  apply wlp_serve_all.
  - intros text c' h' Hc. eapply wlp_mono; [|by apply wlp_Start]. by intros r h1 [? _].
  - intros c' h' Hc. eapply wlp_mono; [|by apply wlp_stopLocked]. by intros r h1 [? _].
  - intros c' h' Hc. eapply wlp_mono; [|by apply wlp_Status]. by intros r h1 [? _].
Qed.

(** ... and so is what else the books say. *)
Lemma serve_all_books {env : Env} {platform : Platform} `{!Orderly platform} rs c h B :
  inv c h ∧ rest h = B → wlp (serve_all rs c) (λ c' h', inv c' h' ∧ rest h' = B) h.
Proof.
  apply (wlp_serve_all (λ c h, inv c h ∧ rest h = B)).
  - intros text c' h' [Hc <-]. eapply wlp_mono; [|apply wlp_conj; [by apply wlp_Start|by apply rest_Start]].
    by intros r h1 [[? _] ?].
  - intros c' h' [Hc <-]. eapply wlp_mono; [|apply wlp_conj; [by apply wlp_stopLocked|by apply rest_stopLocked]].
    by intros r h1 [[? _] ?].
  - intros c' h' [Hc <-]. eapply wlp_mono; [|apply wlp_conj; [by apply wlp_Status|by apply rest_Status]].
    by intros r h1 [[? _] ?].
Qed.

Lemma serve_all_total {env : Env} `{!Clock env} {platform : Platform} `{!Orderly platform} rs c h : inv c h → wp (serve_all rs c) inv h.
Proof.
  revert c h. induction rs as [|r rs IH]; intros c h Hc; cbn [serve_all]; [done|].
  apply wp_bind. eapply wp_mono; [intros c' h' H'; by apply IH|].
  assert (∀ {B} (m : IO (B * Controller)), wp m (λ _ _, True) h → wlp m (λ r h', inv r.2 h') h →
    wp (o ← m; mret o.2) inv h) as Hop.
  { intros B m Ht Hw. apply wp_bind. unfold wp, wlp in *. by destruct (m h) as [[[]|] ?]. }
  destruct r as [text| |]; cbn [serve]; apply Hop.
  - by apply total_Start.
  - eapply wlp_mono; [|by apply wlp_Start]. by intros r h1 [? _].
  - by apply total_stopLocked.
  - eapply wlp_mono; [|by apply wlp_stopLocked]. by intros r h1 [? _].
  - apply total_Status.
  - eapply wlp_mono; [|by apply wlp_Status]. by intros r h1 [? _].
Qed.

(** ** The server has answered *)

(** Device [d] has reported a handshake. *)
Definition has_answered (d : nat) (h : history) : Prop :=
  ∃ text, (IpcGet d, Output text) ∈ h ∧ Handshake.Parse text ≠ 0%Z.

Section Answered.
Context {env : Env} {platform : Platform}.

(** A wait that succeeds ends with a read that answers. *)
Lemma wlp_wait_read n i read t (Q : history → Prop) h :
  (∀ i h, wlp (read i) (λ uapi h', answering_uapi uapi = true → Q h') h) →
  wlp (wait_read n i read t) (λ b h', b = true → Q h') h.
Proof.
  intros Hr. revert i h. induction n as [|n IH]; intros i h; cbn [wait_read]; [done|].
  apply wlp_bind. eapply wlp_mono; [|apply Hr]. intros uapi h1 H1.
  destruct (answering_uapi uapi) eqn:E; [by apply wlp_ret; auto|].
  apply wlp_bind. eapply wlp_mono; [|apply wlp_any]. intros t' h2 _.
  destruct (_ <? _)%Z; [done|]. apply wlp_bind, wlp_perform, IH.
Qed.

Lemma wlp_read_answering d h : wlp (read_device d) (λ uapi h', answering_uapi uapi = true → has_answered d h') h.
Proof.
  unfold read_device. apply wlp_bind, wlp_perform, wlp_ret.
  destruct (answer h (IpcGet d)) as [text| | |? ? ?| |] eqn:Ha; cbn [answering_uapi]; try done.
  intros Hz%negb_true_iff%Z.eqb_neq. exists text. split; [|done]. apply elem_of_app. right. by apply list_elem_of_singleton.
Qed.

Lemma wlp_wait_answered n d t h :
  wlp (wait_device n d t) (λ b h', b = true → has_answered d h') h.
Proof. apply wlp_wait_read. intros i h1. apply wlp_read_answering. Qed.

Lemma wlp_start_answered text h :
  wlp (start_down text) (λ r h', ∀ c, r = Ok c → ∃ d, device c = Some d ∧ has_answered d h') h.
Proof.
  unfold start_down. apply wlp_try. eapply wlp_mono; [|apply wlp_any].
  intros [[[cfg host] st]|e] h1 _; [|done].
  apply wlp_try. eapply wlp_mono; [|apply wlp_any]. intros [[d name]|e] h2 _; [|done].
  apply wlp_try. eapply wlp_mono; [|apply wlp_any]. intros [[]|e] h3 _; [|done].
  apply wlp_try. eapply wlp_mono; [|apply wlp_any]. intros [[]|e] h4 _; [|done].
  destruct (Addresses cfg) as [|a addrs]; [done|].
  apply wlp_bind. eapply wlp_mono; [|apply wlp_any]. intros handle h4' _.
  apply wlp_try. apply (wlp_mono _ (λ r h', r = Ok tt → has_answered d h')).
  - intros [[]|e] h5 H5; [|done]. destruct (H5 eq_refl) as (t & Hin & Ht).
    apply wlp_bind. unfold now. apply wlp_bind, wlp_perform, wlp_ret, wlp_ret.
    intros c [= <-]. exists d. split; [done|]. exists t. split; [apply elem_of_app; by left|done].
  - unfold take_machine. apply wlp_bind. eapply wlp_mono; [|apply wlp_any].
    assert (∀ st net e h, wlp (_ ← Restore st net; @fail _ unit d e) (λ r h', r = Ok tt → has_answered d h') h) as Hf.
    { intros st' net e h'. apply wlp_bind. eapply wlp_mono; [|apply wlp_any]. intros _ h5 _.
      by apply wlp_bind, wlp_perform, wlp_ret. }
    intros [[]|e] h5 _; [|apply Hf].
    apply wlp_bind. eapply wlp_mono; [|apply wlp_any]. intros t h6 _.
    apply wlp_bind. eapply wlp_mono; [|apply wlp_wait_answered]. intros [] h7 H7; [|apply Hf].
    apply wlp_ret. auto.
Qed.
End Answered.

(** ** The builds, and what is simulated for them *)

Definition builds : list Platform := [linux; darwin; windows].

Lemma builds_orderly platform : platform ∈ builds → Orderly platform.
Proof.
  unfold builds. rewrite !elem_of_cons, elem_of_nil. intros [->|[->|[->|[]]]]; apply _.
Qed.
Lemma linux_built : linux ∈ builds.
Proof. apply list_elem_of_here. Qed.


(** A tunnel whose server is given by address, and a server that answers. *)
Definition tunnel_text : string := sample_conf.
Definition answering : string := "last_handshake_time_sec=1700000000" +:+ nl.
Definition laptop : machine := mkMachine ∅ ∅ (Link "../run/systemd/resolve/stub-resolv.conf") ∅.

#[export] Instance pristine_laptop : pristine laptop.
Proof. by split. Qed.

(** A Mac and a Windows machine a tunnel can come up on. *)
Definition on_mac : Env := carrying "utun4" 0 answering (mac_simulated macbook).
Definition on_windows : Env := carrying "Caelo" 77 answering (win_simulated office).

#[export] Instance on_mac_documented : MacDocumented macbook on_mac.
Proof. destruct macbook_documented. by split. Qed.
#[export] Instance mac_pristine_macbook : mac_pristine macbook.
Proof.
  split.
  - intros host Hip. destruct (decide (host = "default")) as [->|Hne].
    + vm_compute in Hip. by destruct Hip.
    + cbn. by rewrite lookup_singleton_ne.
  - unfold defaultHalves. intros half. rewrite !elem_of_cons, elem_of_nil. by intros [->|[->|[]]].
  - intros service l. cbn. by intros [_ <-]%lookup_singleton_Some.
  - intros service mode. cbn. by rewrite lookup_empty.
Qed.

#[export] Instance on_windows_documented : WinDocumented office on_windows.
Proof. destruct (win_simulated_documented office). by split. Qed.
#[export] Instance on_windows_placed : WinPlaced office on_windows.
Proof.
  split.
  - intros h tun luid [= <-]. split; [|done]. by intros r ->%list_elem_of_singleton.
  - by intros h rows row a r _ _ _ _ ->%list_elem_of_singleton.
Qed.
#[export] Instance win_pristine_office : win_pristine office.
Proof. split. split; [|done]. by intros r ->%list_elem_of_singleton. Qed.

(** ** Properties *)

(** C16: However [Start], [Stop] and [Status] are called and whatever the machine
    answers, at most one interface is open: the one of the tunnel that is up.
    None is left behind by a failed or an unwound [Start]; nothing is closed
    that is not open at that moment, so none is closed twice; and the
    controller's fields agree: its status says "up" exactly when it has a
    device, a snapshot to restore and a meter. *)
Theorem Controller_one_interface {env : Env} {platform : Platform} rs c h :
  platform ∈ builds → serve_all rs New [] = (Some c, h) →
  opened h = dev_set (device c) ∧ strays h = 0 ∧ consistent c.
Proof.
  intros Hb%builds_orderly H.
  assert (inv c h ∧ rest h = (0, [])) as [[Ho Hc] Hr].
  { eapply (wlp_eq _ (λ c h, inv c h ∧ rest h = (0, []))); [|exact H]. by apply serve_all_books. }
  unfold rest in Hr. injection Hr as Hs _. by split_and!.
Qed.

Lemma Controller_one_interface_witness :
  let run := @serve_all (simulated laptop false answering) linux
               [RStart tunnel_text; RStart tunnel_text; RStatus] New [] in
  opened (snd run) = dev_set (device (default New (fst run))) ∧ is_Some (device (default New (fst run))).
Proof.
  assert (∀ (run : option Controller * history) c, fst run = Some c → run = (Some c, snd run)) as Hp.
  { by intros [o h] c; cbn; intros ->. }
  pose (run := @serve_all (simulated laptop false answering) linux
               [RStart tunnel_text; RStart tunnel_text; RStatus] New []).
  assert (fst run = Some (default New (fst run))) as H by (vm_compute; reflexivity).
  split.
  - pose proof (@Controller_one_interface (simulated laptop false answering) linux _ _ _ linux_built (Hp run _ H)) as (Ho & _ & _).
    exact Ho.
  - vm_compute. eauto.
Defined.

(** C28: Every sequence of requests is served to its end when the clock moves: no
    call panics (the configuration's first address and the snapshot are always
    there) and the wait for the handshake ends. *)
Theorem Controller_serves {env : Env} {platform : Platform} rs :
  platform ∈ builds → Clock env → ∃ c h, serve_all rs New [] = (Some c, h).
Proof.
  intros Hb%builds_orderly Hc. destruct (wp_eq _ _ _ (serve_all_total rs New [] inv_New)) as (c & h & ? & _). eauto.
Qed.

Lemma Controller_serves_witness :
  ∃ c h, @serve_all (simulated laptop true "") linux [RStart tunnel_text; RStop] New [] = (Some c, h).
Proof. apply (@Controller_serves (simulated laptop true "") linux _ linux_built (simulated_clock _ _ _)). Defined.

(** What is promised of the machine, whatever is asked of the controller: with
    no tunnel up it is [m0]; with one up it is as [up] says, for the snapshot
    and the network the controller keeps; and [Stop] then succeeds, leaves
    nothing up or open, and gives [m0] back. *)
Definition gives_back {env : Env} {platform : Platform} {M : Type} (after : history → M) (m0 : M)
    (up : State → System.Config → M → Prop) (rs : list request) : Prop :=
  ∀ c h, serve_all rs New [] = (Some c, h) →
  (device c = None → after h = m0) ∧
  (∀ d, device c = Some d → ∃ st, state c = Some st ∧ up st (network c) (after h)) ∧
  (∀ r c' h', Stop c h = (Some (r, c'), h') →
     r = Ok tt ∧ device c' = None ∧ after h' = m0 ∧ opened h' = ∅).

(** What keeps the platform's contract is given back. *)
Lemma contract_gives_back {env : Env} {platform : Platform} `{!Orderly platform} {M} (after : history → M) m0
    `{!Restores platform env after m0} rs : gives_back after m0 tunnelled rs.
Proof.
  intros c h Hrun.
  assert (inv c h) as Hinv by (eapply wlp_eq; [apply (serve_all_inv rs New []), inv_New|done]).
  assert (machine_inv after m0 c h) as Hm.
  { eapply wlp_eq; [apply (wlp_serve_all (machine_inv after m0) rs New [])|done].
    - intros. by apply wlp_Start_machine.
    - intros c1 h1 H1. eapply wlp_mono; [|by apply (wlp_stopLocked_machine after m0)].
      intros r h2 (H2 & Hd & _). unfold machine_inv. by rewrite Hd.
    - intros. by apply wlp_Status_machine.
    - apply after_nothing. }
  split_and!.
  - intros Hd. unfold machine_inv in Hm. by rewrite Hd in Hm.
  - intros d Hd. unfold machine_inv in Hm. rewrite Hd in Hm. destruct Hm as (st & ? & ? & ? & ?). eauto.
  - intros r c' h' Hs.
    destruct (wlp_eq _ _ _ _ _ (wlp_stopLocked_machine after m0 c h Hm) Hs) as (H1 & H2 & H3).
    destruct (wlp_eq _ _ _ _ _ (wlp_stopLocked c h Hinv) Hs) as ([H4 _] & _).
    cbn in *. rewrite H4, H2. by split_and!.
Qed.


(** A run that comes back with a controller. *)
Lemma run_is {A} (run : option A * history) a : fst run = Some a → run = (Some a, snd run).
Proof. destruct run as [o h]. cbn. by intros ->. Qed.


(** C19: [Start] reports the tunnel up only once the server has answered: its
    device has reported a handshake, the status it returns is the one it keeps,
    and says "up".  When it fails nothing is up, whatever was before. *)
Theorem Start_up_means_answered {env : Env} {platform : Platform} text c h r c' h' :
  platform ∈ builds → inv c h → Start text c h = (Some (r, c'), h') →
  match r with
  | Ok s => s = status c' ∧ Up s = true ∧ ∃ d, device c' = Some d ∧ has_answered d h'
  | Err _ => device c' = None ∧ status c' = zero_status ∧ opened h' = ∅
  end.
Proof.
  intros Hb%builds_orderly Hinv Hs.
  destruct (wlp_eq _ _ _ _ _ (wlp_Start text c h Hinv) Hs) as ([Ho Hc] & Hd & Hst). cbn in *.
  destruct r as [s|e].
  - specialize (Hst s eq_refl) as ->. unfold consistent in Hc. destruct (device c') as [d|] eqn:Hdev.
    2: { by destruct Hd as [Hd _]; specialize (Hd eq_refl). }
    destruct Hc as (_ & Hup & _). split_and!; [done|done|]. exists d. split; [done|].
    eapply (wlp_eq (Start text c) (λ r h', ∀ s, r.1 = Ok s → ∀ d, device r.2 = Some d → has_answered d h'));
      [|exact Hs|done|done].
    unfold Start. apply wlp_bind. eapply wlp_mono; [|apply wlp_any]. intros c1 h1 _.
    apply wlp_bind. eapply wlp_mono; [|apply wlp_start_answered]. intros [c2|e] h2 H2; apply wlp_ret; [|done].
    intros s _ d' Hd'. destruct (H2 c2 eq_refl) as (d2 & Hd2 & Ha). cbn in Hd'. congruence.
  - destruct Hd as [_ Hd]. specialize (Hd eq_refl). unfold consistent in Hc. rewrite Hd in Hc, Ho.
    split_and!; [done|apply Hc|done].
Qed.

Lemma Start_up_means_answered_witness :
  let run := @Start (simulated laptop true answering) linux tunnel_text New [] in
  match fst run with
  | Some (Ok s, c') => Up s = true ∧ ∃ d, device c' = Some d ∧ has_answered d (snd run)
  | _ => False
  end.
Proof.
  assert (∀ (run : option (result Status * Controller) * history) r c, fst run = Some (r, c) →
    run = (Some (r, c), snd run)) as Hp.
  { by intros [o h] r c; cbn; intros ->. }
  pose (run := @Start (simulated laptop true answering) linux tunnel_text New []).
  pose (rc := default (Err [], New) (fst run)).
  assert (fst run = Some (fst rc, snd rc)) as H by (vm_compute; reflexivity).
  pose proof (@Start_up_means_answered (simulated laptop true answering) linux _ _ _ _ _ _ linux_built inv_New (Hp _ _ _ H)) as Hs.
  cbv zeta. change (match fst run with
    | Some (Ok s, c') => Up s = true ∧ ∃ d, device c' = Some d ∧ has_answered d (snd run)
    | _ => False end).
  rewrite H. assert (is_ok (fst rc) = true) as Hok by (vm_compute; reflexivity).
  destruct (fst rc) as [s|e]; [|discriminate]. exact (proj2 Hs).
Defined.
