(* ===== verification/Tunnel.v ===== *)
(** * The in-process tunnel: core/internal/tunnel/session.go

    A [Session] is used from several goroutines.  A call of [Connect] or
    [Disconnect] is a thread that goes through the phases between the
    session's mutex and the device's own calls; the events of a [world] are the
    atomic steps of all threads, in any order.  What the device library
    answers is part of the event. *)

From S2P Require Import Prelude GoStrings NetAddr Awg AwgEndpoint.
From Stdlib Require Import Ascii.
From stdpp Require Import options.

(** ** Data *)

(** A device is known by a number; the netstack it runs on has the same one. *)
Record Session := mkSession {
  device : option nat;
  net : option nat;
  endpoint : string;
  upSince : Z;
}.

Definition New : Session := mkSession None None "" 0.

Record Info := mkInfo { i_Endpoint : string; i_MTU : Z; i_Obfuscated : bool; i_Protocol : string }.

Definition ErrNotConnected : error := [Lit "no tunnel is up"].

(** What a call returns. *)
Inductive reply := Connected (r : result Info) | Disconnected.

(** Where a call is. *)
Inductive phase :=
  | Configuring (dev : nat) (cfg : Config)   (* before [dev.IpcSet] *)
  | Starting (dev : nat) (cfg : Config)      (* before [dev.Up] *)
  | Swapping (dev : nat) (cfg : Config)      (* before the mutex *)
  | Closing (dev : nat) (r : reply)          (* before [Close] *)
  | Done (r : reply).

Record world := mkWorld {
  session : Session;
  threads : list phase;
  next : nat;              (* the number of the next device *)
  open : gset nat;         (* devices that run *)
  closes : list nat;       (* calls of [Close], latest first *)
}.

Definition start : world := mkWorld New [] 0 ∅ [].

Inductive event :=
  | EConnect (configText : string) (tun : result unit)
  | EIpcSet (t : nat) (r : result unit)
  | EUp (t : nat) (r : result unit)
  | ESwap (t : nat) (now : Z)
  | EClose (t : nat)
  | EDisconnect.

(** ** The steps *)

Definition info (cfg : Config) : Info :=
  mkInfo (Endpoint (peer cfg)) (MTU cfg) (negb (bool_decide (Obfuscation cfg = ∅)))
    (if bool_decide (Obfuscation cfg = ∅) then "WireGuard" else "AmneziaWG").

Definition spawn (p : phase) (w : world) : world :=
  mkWorld (session w) (threads w ++ [p]) (next w) (open w) (closes w).
Definition goto (t : nat) (p : phase) (w : world) : world :=
  mkWorld (session w) (<[t := p]> (threads w)) (next w) (open w) (closes w).
Definition set_session (s : Session) (w : world) : world :=
  mkWorld s (threads w) (next w) (open w) (closes w).

(** [Connect] up to its device: parse, create the netstack, start the device. *)
Definition Connect_create (configText : string) (tun : result unit) (w : world) : world :=
  match wrap [Lit "reading configuration: "] (Parse configText) with
  | Err e => spawn (Done (Connected (Err e))) w
  | Ok cfg =>
      match wrap [Lit "creating netstack device: "] tun with
      | Err e => spawn (Done (Connected (Err e))) w
      | Ok _ =>
          let d := next w in
          mkWorld (session w) (threads w ++ [Configuring d cfg]) (S d) ({[d]} ∪ open w) (closes w)
      end
  end.

(** The critical section of [Connect], and what is left to do after it. *)
Definition Connect_swap (t d : nat) (cfg : Config) (now : Z) (w : world) : world :=
  let previous := device (session w) in
  let w := set_session (mkSession (Some d) (Some d) (Endpoint (peer cfg)) now) w in
  goto t (match previous with
          | Some p => Closing p (Connected (Ok (info cfg)))
          | None => Done (Connected (Ok (info cfg)))
          end) w.

(** The critical section of [Disconnect]. *)
Definition Disconnect_take (w : world) : world :=
  let dev := device (session w) in
  let w := set_session (mkSession None None "" (upSince (session w))) w in
  spawn (match dev with Some d => Closing d Disconnected | None => Done Disconnected end) w.

(** A step that is not its thread's next one does not happen. *)
Definition exec (e : event) (w : world) : world :=
  match e with
  | EConnect configText tun => Connect_create configText tun w
  | EIpcSet t r =>
      match threads w !! t with
      | Some (Configuring d cfg) =>
          goto t (match wrap [Lit "configuring device: "] r with
                  | Ok _ => Starting d cfg
                  | Err e => Closing d (Connected (Err e))
                  end) w
      | _ => w
      end
  | EUp t r =>
      match threads w !! t with
      | Some (Starting d cfg) =>
          goto t (match wrap [Lit "bringing device up: "] r with
                  | Ok _ => Swapping d cfg
                  | Err e => Closing d (Connected (Err e))
                  end) w
      | _ => w
      end
  | ESwap t now =>
      match threads w !! t with
      | Some (Swapping d cfg) => Connect_swap t d cfg now w
      | _ => w
      end
  | EClose t =>
      match threads w !! t with
      | Some (Closing d r) =>
          mkWorld (session w) (<[t := Done r]> (threads w)) (next w) (open w ∖ {[d]}) (d :: closes w)
      | _ => w
      end
  | EDisconnect => Disconnect_take w
  end.

Definition exec_all (es : list event) (w : world) : world := fold_left (λ w e, exec e w) es w.

(** [Up]. *)
Definition Up (s : Session) : bool * string :=
  (match device s with Some _ => true | None => false end, endpoint s).

(** ** Check *)

(** [probe.MaxBody]. *)
Definition MaxBody : Z := 256 * 1024.

Record Reachability := mkReachability { Address : string; CheckStatus : string; ElapsedMs : Z }.

(** What the HTTP client gave: no response, or a status, the body and whether
    reading it failed along the way. *)
Definition response := result (string * string * option error).

(** [io.ReadAll] of an [io.LimitReader]: an error beyond the limit is not met. *)
Definition read_limited (limit : Z) (body : string) (broken : option error) : result string :=
  if (limit <=? slen body)%Z then Ok (String.substring 0 (Z.to_nat limit) body)
  else match broken with Some e => Err e | None => Ok body end.

(** [Check]: [newRequest url] is [http.NewRequestWithContext],
    [fetch tnet url timeout] is the request through the netstack, and
    [elapsed] the time it took. *)
Definition Check (newRequest : string → result unit) (fetch : nat → string → Z → response) (elapsed : Z) (url : string) (timeout : Z)
    (s : Session) : result Reachability :=
  match net s with
  | None => Err ErrNotConnected
  | Some tnet =>
      let url := if bool_decide (url = "") then "https://ifconfig.me/ip" else url in
      let timeout := if (timeout <=? 0)%Z then (20 * 1000000000)%Z else timeout in
      _ ← newRequest url;
      match fetch tnet url timeout with
      | Err e => Err ([Lit "reaching "; Plain url; Lit " through the tunnel: "] ++ e)
      | Ok (status, body, broken) =>
          body ← wrap [Lit "reading response: "] (read_limited (MaxBody + 1) body broken);
          if (MaxBody <? slen body)%Z
          then Err [Lit "response from "; Plain url; Lit " is larger than "; Num MaxBody; Lit " bytes"]
          else Ok (mkReachability (TrimSpace body) status (elapsed ÷ 1000000)%Z)
      end
  end.
