(* ===== verification/TunnelFacts.v ===== *)
(** * Properties of the in-process tunnel

    Whatever the order in which calls interleave, every device has one owner
    and is closed once. *)

From S2P Require Import Prelude GoStrings NetAddr Awg AwgFacts AwgEndpoint Tunnel.
From stdpp Require Import options.

(** ** Owners *)

(** The device a call is responsible for. *)
Definition phase_device (p : phase) : option nat :=
  match p with
  | Configuring d _ | Starting d _ | Swapping d _ | Closing d _ => Some d
  | Done _ => None
  end.

(** The session's device and those of the calls in flight. *)
Definition owners (w : world) : list nat :=
  option_list (device (session w)) ++ omap phase_device (threads w).

Record sound (w : world) : Prop := {
  so_once : NoDup (owners w);
  so_open d : d ∈ open w ↔ d ∈ owners w;
  so_next d : d < next w ↔ d ∈ owners w ∨ d ∈ closes w;
  so_closed_once : NoDup (closes w);
  so_closed d : d ∈ closes w → d ∉ owners w;
}.

Lemma omap_snoc_list {A B} (f : A → option B) l x : omap f (l ++ [x]) = omap f l ++ option_list (f x).
Proof. rewrite omap_app. cbn. by destruct (f x). Qed.

(** The devices of the threads other than [t]. *)
Lemma omap_insert_perm {A B} (f : A → option B) l t p :
  l !! t = Some p →
  ∃ rest, omap f l ≡ₚ option_list (f p) ++ rest ∧
    ∀ p', omap f (<[t := p']> l) ≡ₚ option_list (f p') ++ rest.
Proof.
  intros Ht. exists (omap f (take t l) ++ omap f (drop (S t) l)).
  assert (∀ x, omap f (take t l ++ x :: drop (S t) l) ≡ₚ
    option_list (f x) ++ omap f (take t l) ++ omap f (drop (S t) l)) as H.
  { intros x. rewrite omap_app. cbn. destruct (f x); cbn; [|done]. by rewrite Permutation_middle. }
  split.
  - rewrite <- H. by rewrite take_drop_middle.
  - intros p'. rewrite <- H. rewrite insert_take_drop; [done|]. by eapply lookup_lt_Some.
Qed.

(** A step that only hands devices from one owner to another. *)
Lemma sound_handover w w' :
  sound w → owners w' ≡ₚ owners w → next w' = next w → open w' = open w → closes w' = closes w →
  sound w'.
Proof.
  intros [H1 H2 H3 H4 H5] Hp Hn Ho Hc. split; rewrite ?Hn, ?Ho, ?Hc.
  - by rewrite Hp.
  - intros d. by rewrite Hp.
  - intros d. by rewrite Hp.
  - done.
  - intros d. rewrite Hp. auto.
Qed.

Lemma sound_goto w t p p' :
  sound w → threads w !! t = Some p → phase_device p' = phase_device p → sound (goto t p' w).
Proof.
  intros Hw Ht Hp. apply (sound_handover w); try done. unfold owners, goto. cbn.
  destruct (omap_insert_perm phase_device _ _ _ Ht) as (rest & E1 & E2). by rewrite E2, E1, Hp.
Qed.

Lemma sound_spawn w r : sound w → sound (spawn (Done r) w).
Proof.
  intros Hw. apply (sound_handover w); try done. unfold owners, spawn. cbn.
  rewrite omap_snoc_list. cbn. by rewrite app_nil_r.
Qed.

Lemma sound_create w cfg :
  sound w →
  sound (mkWorld (session w) (threads w ++ [Configuring (next w) cfg]) (S (next w))
           ({[next w]} ∪ open w) (closes w)).
Proof.
  intros [H1 H2 H3 H4 H5].
  assert ((next w ∉ owners w) ∧ (next w ∉ closes w)) as [Hn1 Hn2].
  { split; intros Hin; assert (next w < next w) by (apply H3; auto); lia. }
  assert (owners (mkWorld (session w) (threads w ++ [Configuring (next w) cfg]) (S (next w))
    ({[next w]} ∪ open w) (closes w)) ≡ₚ (next w :: owners w)) as Hp.
  { unfold owners. cbn. rewrite omap_snoc_list, app_assoc. cbn. by rewrite <- Permutation_cons_append. }
  split; cbn [open next closes]; rewrite ?Hp.
  - by constructor.
  - intros d. rewrite Hp. set_solver.
  - intros d. rewrite Hp, elem_of_cons. specialize (H3 d). destruct (decide (d = next w)); [subst; split; [auto|lia]|].
    split; [intros; assert (d < next w) as ?%H3 by lia; tauto|]. intros [[?|?]|?]; [done|..].
    + assert (d < next w) by (apply H3; auto). lia.
    + assert (d < next w) by (apply H3; auto). lia.
  - done.
  - intros d Hd. rewrite Hp. intros [->|?]%elem_of_cons; [done|]. by eapply H5.
Qed.

Lemma sound_close w t d r :
  sound w → threads w !! t = Some (Closing d r) →
  sound (mkWorld (session w) (<[t := Done r]> (threads w)) (next w) (open w ∖ {[d]}) (d :: closes w)).
Proof.
  intros [H1 H2 H3 H4 H5] Ht.
  destruct (omap_insert_perm phase_device _ _ _ Ht) as (rest & E1 & E2).
  specialize (E2 (Done r)). cbn in E1, E2.
  set (w' := mkWorld _ _ _ _ _).
  assert (owners w ≡ₚ (d :: owners w')) as Hp.
  { unfold owners, w'. cbn. rewrite E1, E2. by rewrite Permutation_middle. }
  rewrite Hp in H1. apply list.NoDup_cons in H1 as [Hd H1].
  assert (∀ x, x ∈ owners w ↔ x = d ∨ x ∈ owners w') as Hin by (intros x; rewrite Hp; set_solver).
  assert (d ∉ closes w) as Hdc by (intros Hc%H5; apply Hc, Hin; auto).
  split; cbn [open next closes w'].
  - done.
  - intros x. specialize (H2 x). rewrite Hin in H2. destruct (decide (x = d)); set_solver.
  - intros x. rewrite H3, Hin, elem_of_cons. tauto.
  - by constructor.
  - intros x [->|Hx]%elem_of_cons; [done|]. intros Ho. apply (H5 x Hx), Hin. auto.
Qed.

Lemma sound_swap w t d cfg now :
  sound w → threads w !! t = Some (Swapping d cfg) → sound (Connect_swap t d cfg now w).
Proof.
  intros Hw Ht. apply (sound_handover w); try done. unfold owners, Connect_swap. cbn.
  destruct (omap_insert_perm phase_device _ _ _ Ht) as (rest & E1 & E2).
  rewrite E1. destruct (device (session w)) as [p|]; cbn; rewrite E2; cbn; [|done]. apply perm_swap.
Qed.

Lemma sound_Disconnect w : sound w → sound (Disconnect_take w).
Proof.
  intros Hw. apply (sound_handover w); try done. unfold owners, Disconnect_take. cbn.
  rewrite omap_snoc_list. destruct (device (session w)) as [p|]; cbn; [|by rewrite app_nil_r].
  by rewrite <- Permutation_cons_append.
Qed.

Lemma sound_exec e w : sound w → sound (exec e w).
Proof.
  intros Hw. destruct e as [text tun|t r|t r|t now|t|]; cbn [exec].
  - unfold Connect_create. destruct (wrap _ (Parse text)) as [cfg|e]; [|by apply sound_spawn].
    destruct (wrap _ tun); [by apply sound_create|by apply sound_spawn].
  - destruct (threads w !! t) as [[]|] eqn:Ht; try done.
    apply (sound_goto w t _ _ Hw Ht). by destruct (wrap _ r).
  - destruct (threads w !! t) as [[]|] eqn:Ht; try done.
    apply (sound_goto w t _ _ Hw Ht). by destruct (wrap _ r).
  - destruct (threads w !! t) as [[]|] eqn:Ht; try done. by apply sound_swap.
  - destruct (threads w !! t) as [[]|] eqn:Ht; try done. by apply sound_close.
  - by apply sound_Disconnect.
Qed.

Lemma sound_start : sound start.
Proof.
  split; cbn; try (intros; set_solver); try constructor.
  - lia.
  - intros [H|H]; by apply elem_of_nil in H.
Qed.

Lemma exec_all_snoc es e w : exec_all (es ++ [e]) w = exec e (exec_all es w).
Proof. unfold exec_all. by rewrite fold_left_app. Qed.

Lemma sound_exec_all es : sound (exec_all es start).
Proof.
  induction es as [|e es IH] using rev_ind; [apply sound_start|]. rewrite exec_all_snoc. by apply sound_exec.
Qed.

Lemma substring_length n s :
  (n ≤ String.length s)%nat → String.length (String.substring 0 n s) = n.
Proof.
  revert n. induction s as [|c s IH]; intros [|n] H; cbn in *; try lia. rewrite IH; lia.
Qed.

(** ** Properties *)

(** No call is in flight. *)
Definition quiescent (w : world) : Prop := omap phase_device (threads w) = [].

(** C10: In every interleaving of [Connect] and [Disconnect] calls, whatever the
    device library answers: each device has exactly one owner, the session or
    one call; it runs as long as it is owned and is closed exactly once, when
    its owner is done with it; so the session's device always runs, and once no
    call is in flight nothing else does. *)
Theorem Session_devices (es : list event) :
  let w := exec_all es start in
  NoDup (owners w) ∧ NoDup (closes w) ∧
  (∀ d, d ∈ open w ↔ d ∈ owners w) ∧
  (∀ d, d < next w ↔ d ∈ open w ∨ d ∈ closes w) ∧
  (∀ d, ¬ (d ∈ open w ∧ d ∈ closes w)) ∧
  (quiescent w → open w = list_to_set (option_list (device (session w)))).
Proof.
  intros w. destruct (sound_exec_all es) as [H1 H2 H3 H4 H5]. fold w in H1, H2, H3, H4, H5. split_and!.
  - done.
  - done.
  - done.
  - intros d. rewrite H2. apply H3.
  - intros d [Ho%H2 Hc%H5]. done.
  - intros Hq. apply set_eq. intros d. rewrite H2, elem_of_list_to_set. unfold owners.
    by rewrite Hq, app_nil_r.
Qed.

(** ** How a call gets to the mutex *)

(** Call [t], which has device [d], was made for a text that parses as [cfg],
    on a netstack that was created, and its device took the configuration and
    came up, in this order and each without an error. *)
Definition created (es : list event) (t d : nat) (cfg : Config) : Prop :=
  ∃ es1 text es2, es = es1 ++ EConnect text (Ok tt) :: es2 ∧ Parse text = Ok cfg ∧
    t = length (threads (exec_all es1 start)) ∧ d = next (exec_all es1 start).
Definition configured (es : list event) (t d : nat) (cfg : Config) : Prop :=
  ∃ es1 es2, es = es1 ++ EIpcSet t (Ok tt) :: es2 ∧ created es1 t d cfg.
Definition brought_up (es : list event) (t d : nat) (cfg : Config) : Prop :=
  ∃ es1 es2, es = es1 ++ EUp t (Ok tt) :: es2 ∧ configured es1 t d cfg.

(** What is established stays. *)
Lemma created_snoc es e t d cfg : created es t d cfg → created (es ++ [e]) t d cfg.
Proof. intros (es1 & text & es2 & -> & H). exists es1, text, (es2 ++ [e]). by rewrite <- app_assoc. Qed.
Lemma configured_snoc es e t d cfg : configured es t d cfg → configured (es ++ [e]) t d cfg.
Proof. intros (es1 & es2 & -> & H). exists es1, (es2 ++ [e]). by rewrite <- app_assoc. Qed.
Lemma brought_up_snoc es e t d cfg : brought_up es t d cfg → brought_up (es ++ [e]) t d cfg.
Proof. intros (es1 & es2 & -> & H). exists es1, (es2 ++ [e]). by rewrite <- app_assoc. Qed.

Definition got_there (es : list event) (t : nat) (p : phase) : Prop :=
  match p with
  | Configuring d cfg => created es t d cfg
  | Starting d cfg => configured es t d cfg
  | Swapping d cfg => brought_up es t d cfg
  | _ => True
  end.

Lemma got_there_snoc es e t p : got_there es t p → got_there (es ++ [e]) t p.
Proof. destruct p; cbn; eauto using created_snoc, configured_snoc, brought_up_snoc. Qed.

(** Every call, on the way through its phases: what a step changes is one
    thread, or a thread is added. *)
Lemma goto_lookup w t p t' p' : threads (goto t p w) !! t' = Some p' → t' = t ∧ p' = p ∨ threads w !! t' = Some p'.
Proof.
  unfold goto. cbn. destruct (decide (t' = t)) as [->|Hne]; [|rewrite list_lookup_insert_ne by done; by right].
  intros H. left. split; [done|]. destruct (decide (t < length (threads w))).
  - rewrite list_lookup_insert_eq in H by done. congruence.
  - rewrite list_insert_ge in H by lia. apply lookup_lt_Some in H. lia.
Qed.

Lemma spawn_lookup w p t p' : threads (spawn p w) !! t = Some p' → threads w !! t = Some p' ∨ t = length (threads w) ∧ p' = p.
Proof.
  unfold spawn. cbn. intros [H|[Hl H]]%lookup_app_Some; [by left|right]. apply list_lookup_singleton_Some in H as [? ->].
  split; [lia|done].
Qed.

Lemma got_there_step es e t p : (∀ t p, threads (exec_all es start) !! t = Some p → got_there es t p) →
  threads (exec_all (es ++ [e]) start) !! t = Some p → got_there (es ++ [e]) t p.
Proof.
  intros IH. rewrite exec_all_snoc. set (w := exec_all es start) in *.
  assert (∀ t p, threads w !! t = Some p → got_there (es ++ [e]) t p) as Hold by (intros; apply got_there_snoc; auto).
  destruct e as [text tun|u r|u r|u now|u|]; cbn [exec].
  - unfold Connect_create. destruct (wrap _ (Parse text)) as [cfg|] eqn:Hp; [|intros [?|[_ ->]]%spawn_lookup; [auto|done]].
    destruct (wrap _ tun) as [[]|] eqn:Ht; [|intros [?|[_ ->]]%spawn_lookup; [auto|done]].
    apply wrap_Ok in Hp, Ht. subst tun. cbn [threads]. intros [H|[Hl H]]%lookup_app_Some; [auto|].
    apply list_lookup_singleton_Some in H as [? <-]. exists es, text, []. split_and!; [done..| |done]. fold w. lia.
  - destruct (threads w !! u) as [[d cfg| | | |]|] eqn:Hu; try apply Hold.
    intros [[-> ->]|?]%goto_lookup; [|auto]. destruct r as [[]|]; [|done]. exists es, []. split; [done|]. exact (IH _ _ Hu).
  - destruct (threads w !! u) as [[|d cfg| | |]|] eqn:Hu; try apply Hold.
    intros [[-> ->]|?]%goto_lookup; [|auto]. destruct r as [[]|]; [|done]. exists es, []. split; [done|]. exact (IH _ _ Hu).
  - destruct (threads w !! u) as [[| |d cfg| |]|] eqn:Hu; try apply Hold.
    unfold Connect_swap. intros [[-> ->]|?]%goto_lookup; [by case_match|]. by apply Hold.
  - destruct (threads w !! u) as [[| | |d r|]|] eqn:Hu; try apply Hold.
    change (threads _) with (threads (goto u (Done r) w)). intros [[-> ->]|?]%goto_lookup; [done|auto].
  - unfold Disconnect_take. intros [H|[_ ->]]%spawn_lookup; [by apply Hold|]. by case_match.
Qed.

Lemma got_there_all es t p : threads (exec_all es start) !! t = Some p → got_there es t p.
Proof.
  revert t p. induction es as [|e es IH] using rev_ind; [done|]. intros t p. by apply got_there_step.
Qed.

(** C30: A failed [Connect] leaves the working tunnel alone, in every
    interleaving: the session changes only when a call swaps its own device in,
    after that device took the configuration its text parses as and came up,
    each without an error, and the call then reports a success; or when a
    [Disconnect] takes it out; and closing the device of a failed call never
    closes the session's. *)
Theorem failed_Connect_spares_session es e :
  let w := exec_all es start in
  let w' := exec e w in
  (session w' ≠ session w →
     (∃ t now d cfg, e = ESwap t now ∧ brought_up es t d cfg ∧
        session w' = mkSession (Some d) (Some d) (Endpoint (peer cfg)) now ∧
        (threads w' !! t = Some (Done (Connected (Ok (info cfg)))) ∨
         ∃ p, device (session w) = Some p ∧
              threads w' !! t = Some (Closing p (Connected (Ok (info cfg)))))) ∨
     (e = EDisconnect ∧ device (session w') = None)) ∧
  (∀ t d r, threads w !! t = Some (Closing d r) → device (session w) ≠ Some d).
Proof.
  intros w w'. pose proof (sound_exec_all es) as Hs. fold w in Hs. split.
  - subst w'. destruct e as [text tun|t r|t r|t now|t|]; cbn [exec].
    + unfold Connect_create. by repeat case_match.
    + by repeat case_match.
    + by repeat case_match.
    + destruct (threads w !! t) as [[| |d cfg| |]|] eqn:Ht; try done. intros _. left.
      exists t, now, d, cfg. split; [done|]. split; [exact (got_there_all es t _ Ht)|].
      unfold Connect_swap. cbn. rewrite list_lookup_insert_eq by by eapply lookup_lt_Some.
      destruct (device (session w)) as [p|]; split_and!; try done; [right|left]; eauto.
    + by repeat case_match.
    + intros _. by right.
  - intros t d r Ht Hd. destruct Hs as [Hnd _ _ _ _]. unfold owners in Hnd. rewrite Hd in Hnd.
    apply list.NoDup_cons in Hnd as [Hn _]. apply Hn, list_elem_of_omap.
    exists (Closing d r). split; [by eapply list_elem_of_lookup_2|done].
Qed.

Lemma failed_Connect_spares_session_witness :
  let es := [EConnect sample_conf (Ok tt); EIpcSet 0 (Ok tt); EUp 0 (Ok tt)] in
  let w := exec_all es start in
  session (exec (ESwap 0 7) w) ≠ session w ∧ ∃ d cfg, brought_up es 0 d cfg ∧ device (session (exec (ESwap 0 7) w)) = Some d.
Proof.
  set (es := [EConnect sample_conf (Ok tt); EIpcSet 0 (Ok tt); EUp 0 (Ok tt)]).
  assert (session (exec (ESwap 0 7) (exec_all es start)) ≠ session (exec_all es start)) as H.
  { intros Heq%(f_equal device). vm_compute in Heq. discriminate. }
  split; [exact H|].
  destruct (proj1 (failed_Connect_spares_session es (ESwap 0 7)) H) as [(t & n & d & cfg & He & Ht & Hd & _)|[He _]].
  - injection He as <- <-. exists d, cfg. split; [exact Ht|]. by rewrite Hd.
  - discriminate He.
Defined.

(** A world whose last call is in phase [p]. *)
Definition last_world (s : Session) (l : list phase) (p : phase) (n : nat) (o : gset nat) (c : list nat)
    : world := mkWorld s (l ++ [p]) n o c.

Lemma lookup_last {A} (l : list A) p : (l ++ [p]) !! length l = Some p.
Proof. by apply list_lookup_middle. Qed.

Lemma insert_last {A} (l : list A) p p' : <[length l := p']> (l ++ [p]) = l ++ [p'].
Proof. rewrite <- (Nat.add_0_r (length l)). by rewrite insert_app_r. Qed.

Section Last.
Context (s : Session) (l : list phase) (p : phase) (n : nat) (o : gset nat) (c : list nat).

Ltac last_step :=
  unfold last_world; cbn [exec threads]; rewrite lookup_last;
  destruct p; unfold goto; cbn [session threads next open closes]; rewrite ?insert_last; try done.

Lemma exec_last_ipc r :
  exec (EIpcSet (length l) r) (last_world s l p n o c) =
  last_world s l (match p with
    | Configuring d cfg => match wrap [Lit "configuring device: "] r with
                           | Ok _ => Starting d cfg | Err e => Closing d (Connected (Err e)) end
    | _ => p end) n o c.
Proof. last_step. Qed.

Lemma exec_last_up r :
  exec (EUp (length l) r) (last_world s l p n o c) =
  last_world s l (match p with
    | Starting d cfg => match wrap [Lit "bringing device up: "] r with
                        | Ok _ => Swapping d cfg | Err e => Closing d (Connected (Err e)) end
    | _ => p end) n o c.
Proof. last_step. Qed.

Lemma exec_last_swap now :
  exec (ESwap (length l) now) (last_world s l p n o c) =
  match p with
  | Swapping d cfg =>
      last_world (mkSession (Some d) (Some d) (Endpoint (peer cfg)) now) l
        (match device s with
         | Some p => Closing p (Connected (Ok (info cfg))) | None => Done (Connected (Ok (info cfg))) end) n o c
  | _ => last_world s l p n o c
  end.
Proof. last_step. unfold Connect_swap, goto. cbn. by rewrite insert_last. Qed.

Lemma exec_last_close :
  exec (EClose (length l)) (last_world s l p n o c) =
  match p with
  | Closing d r => last_world s l (Done r) n (o ∖ {[d]}) (d :: c)
  | _ => last_world s l p n o c
  end.
Proof. last_step. Qed.
End Last.

(** The events of one call of [Connect], as thread [t]. *)
Definition connect_events (text : string) (configured up : result unit) (t : nat) (now : Z) : list event :=
  [EConnect text (Ok tt); EIpcSet t configured; EUp t up; ESwap t now; EClose t].

(** What one call of [Connect] does when nothing interferes: with a device
    that can be configured and started, the session is the new tunnel, the
    call reports it, and exactly the previous device is closed; when a step on
    the device fails the session is as it was and exactly the new device is
    closed. *)
Theorem Connect_alone w text cfg configured up now :
  Parse text = Ok cfg →
  let t := length (threads w) in
  let w' := exec_all (connect_events text configured up t now) w in
  (configured = Ok tt → up = Ok tt →
     session w' = mkSession (Some (next w)) (Some (next w)) (Endpoint (peer cfg)) now ∧
     threads w' = threads w ++ [Done (Connected (Ok (info cfg)))] ∧
     closes w' = option_list (device (session w)) ++ closes w) ∧
  (is_ok configured && is_ok up = false →
     session w' = session w ∧ closes w' = next w :: closes w ∧
     ∃ e, threads w' = threads w ++ [Done (Connected (Err e))]).
Proof.
  intros Hp t w'.
  subst w' t. unfold exec_all, connect_events. cbn [fold_left].
  change (exec (EConnect text (Ok tt)) w) with (Connect_create text (Ok tt) w).
  unfold Connect_create. rewrite Hp. cbn [wrap].
  change (mkWorld (session w) (threads w ++ [Configuring (next w) cfg]) (S (next w)) ({[next w]} ∪ open w)
    (closes w)) with (last_world (session w) (threads w) (Configuring (next w) cfg) (S (next w))
    ({[next w]} ∪ open w) (closes w)).
  rewrite exec_last_ipc, exec_last_up, exec_last_swap. split.
  - intros -> ->. cbn [wrap].
    destruct (device (session w)) as [p|] eqn:Hd; rewrite exec_last_close; cbn; by rewrite ?Hd.
  - destruct configured as [[]|e]; cbn [wrap is_ok andb].
    + destruct up as [|e]; [done|]. intros _. cbn [wrap]. rewrite exec_last_close. cbn. eauto.
    + intros _. rewrite exec_last_close. cbn. eauto.
Qed.

Lemma Connect_alone_witness :
  closes (exec_all (connect_events sample_conf (Ok tt) (Err [Lit "no"]) 0 9) start) = [0].
Proof.
  assert (Parse sample_conf = Ok (from_ok new_config (Parse sample_conf))) as H by (vm_compute; reflexivity).
  exact (proj1 (proj2 (proj2 (Connect_alone start sample_conf _ (Ok tt) (Err [Lit "no"]) 9 H) eq_refl))).
Defined.

(** [Check] reports only a whole answer: when it succeeds there was a tunnel,
    the response was read to its end without an error, and is at most
    [MaxBody] bytes; without a tunnel it makes no request. *)
Theorem Check_whole newRequest fetch elapsed url timeout s :
  (net s = None → Check newRequest fetch elapsed url timeout s = Err ErrNotConnected) ∧
  (∀ r, Check newRequest fetch elapsed url timeout s = Ok r →
     ∃ tnet url' timeout' status body,
       net s = Some tnet ∧ (timeout' > 0)%Z ∧ newRequest url' = Ok tt ∧
       fetch tnet url' timeout' = Ok (status, body, None) ∧ (slen body ≤ MaxBody)%Z ∧
       Address r = TrimSpace body ∧ CheckStatus r = status).
Proof.
  unfold Check. split; [by intros ->|]. intros r. destruct (net s) as [tnet|]; [|done].
  set (url' := if bool_decide _ then _ else _). set (timeout' := if (_ <=? _)%Z then _ else _).
  intros ([] & Hnew & H)%bind_Ok.
  destruct (fetch tnet url' timeout') as [[[status body] broken]|e] eqn:Hf; [|done].
  apply bind_Ok in H as (b & Hb%wrap_Ok & H).
  destruct (Z.ltb_spec MaxBody (slen b)) as [|Hle]; [done|]. injection H as <-.
  unfold read_limited in Hb. destruct (Z.leb_spec (MaxBody + 1) (slen body)) as [Hlong|Hshort].
  - injection Hb as <-. exfalso. unfold slen in *. rewrite substring_length in Hle by (unfold MaxBody in *; lia).
    unfold MaxBody in *. lia.
  - destruct broken; [done|]. injection Hb as ->. exists tnet, url', timeout', status, b.
    split_and!; try done. subst timeout'. destruct (Z.leb_spec timeout 0); lia.
Qed.
