(* ===== verification/Release.v ===== *)
(** * Release signatures: core/internal/release/verify.go

    [crypto/ed25519] is standard library code the package only calls: its
    verification is an argument, a panic for a key of the wrong size its
    documented behaviour. *)

From S2P Require Import Prelude GoStrings GoEncoding.
From stdpp Require Import options.

Definition PublicKeySize : nat := 32.
Definition SignatureSize : nat := 64.

Definition ErrUntrusted : error := [Lit "this file was not signed by Caelo"].

Definition Trusted := list (list Z).

(** One round of [ParseTrusted]'s loop. *)
Definition parse_key (keys : Trusted) (value : string) : result Trusted :=
  match b64_decode value with
  | None => Err [Lit "key "; Quoted value; Lit " is not base64: ";
                 Foreign "base64.StdEncoding.DecodeString" value]
  | Some raw =>
      if bool_decide (length raw = PublicKeySize) then Ok (keys ++ [raw])
      else Err [Lit "key "; Quoted value; Lit " is "; Num (Z.of_nat (length raw)); Lit " bytes, want 32"]
  end.

Definition ParseTrusted (encoded : list string) : result Trusted :=
  keys ← foldM parse_key encoded [];
  if bool_decide (keys = []) then Err [Lit "no trusted keys"] else Ok keys.

Section Verify.
Context (ed25519 : list Z → list Z → list Z → bool).

(** [ed25519.Verify]: panics unless the key has its size. *)
Definition ed25519_Verify (key message sig : list Z) : option bool :=
  if bool_decide (length key = PublicKeySize) then Some (ed25519 key message sig) else None.

(** The loop over the keys, which tries every one. *)
Fixpoint try_keys (keys : Trusted) (message sig : list Z) (accepted : bool) : option bool :=
  match keys with
  | [] => Some accepted
  | key :: keys => ok ← ed25519_Verify key message sig; try_keys keys message sig (if ok : bool then true else accepted)
  end.

(** [None] is a panic. *)
Definition Verify (message : list Z) (signature : string) (keys : Trusted) : option (result unit) :=
  match b64_decode signature with
  | None => Some (Err ErrUntrusted)
  | Some raw =>
      if negb (bool_decide (length raw = SignatureSize)) then Some (Err ErrUntrusted)
      else
        accepted ← try_keys keys message raw false;
        Some (if accepted : bool then Ok tt else Err ErrUntrusted)
  end.

(** [VerifyFile]: [contents] is what opening and reading the file gave. *)
Definition VerifyFile (contents : result (list Z)) (signature : string) (keys : Trusted)
    : option (result unit) :=
  match contents with
  | Err e => Some (Err e)
  | Ok message => Verify message signature keys
  end.

(** ** Lemmas *)

Lemma try_keys_spec keys message sig accepted :
  Forall (λ k, length k = PublicKeySize) keys →
  try_keys keys message sig accepted = Some (accepted || existsb (λ k, ed25519 k message sig) keys).
Proof.
  intros H. revert accepted. induction H as [|k keys Hk _ IH]; intros accepted; cbn; [by rewrite orb_false_r|].
  unfold ed25519_Verify. rewrite bool_decide_true by done. cbn. rewrite IH.
  by destruct accepted, (ed25519 k message sig).
Qed.

Lemma Verify_spec message signature keys :
  Forall (λ k, length k = PublicKeySize) keys →
  Verify message signature keys = Some
    match b64_decode signature with
    | Some sig => if bool_decide (length sig = SignatureSize) && existsb (λ k, ed25519 k message sig) keys
                  then Ok tt else Err ErrUntrusted
    | None => Err ErrUntrusted
    end.
Proof.
  intros Hk. unfold Verify. destruct (b64_decode signature) as [sig|]; [|done].
  case_bool_decide; cbn [negb andb]; [|done]. by rewrite try_keys_spec.
Qed.

Lemma existsb_elem {A} (f : A → bool) l : existsb f l = true ↔ ∃ x, x ∈ l ∧ f x = true.
Proof. rewrite existsb_exists. by setoid_rewrite <- list_elem_of_In. Qed.

Lemma parse_keys_spec encoded keys keys' :
  foldM parse_key encoded keys = Ok keys' →
  ∃ raws, keys' = keys ++ raws ∧ Forall2 (λ v raw, b64_decode v = Some raw ∧ length raw = PublicKeySize) encoded raws.
Proof.
  revert keys. induction encoded as [|v encoded IH]; intros keys; cbn [foldM].
  { intros [= <-]. exists []. by rewrite app_nil_r. }
  intros (k1 & H1 & H2)%bind_Ok. unfold parse_key in H1.
  destruct (b64_decode v) as [raw|] eqn:Hv; [|done]. case_bool_decide; [|done]. injection H1 as <-.
  destruct (IH _ H2) as (raws & -> & Hr). exists (raw :: raws). rewrite <- app_assoc. split; [done|].
  by constructor.
Qed.

(** The keys that are accepted: all of them base64, 32 bytes each, at least one. *)
Lemma ParseTrusted_spec encoded keys :
  ParseTrusted encoded = Ok keys ↔
    keys ≠ [] ∧ mapM b64_decode encoded = Some keys ∧ Forall (λ k, length k = PublicKeySize) keys.
Proof.
  unfold ParseTrusted. split.
  - intros (ks & Hks & H)%bind_Ok. case_bool_decide as Hne; [done|]. injection H as <-.
    apply parse_keys_spec in Hks as (raws & -> & Hr). split; [done|]. clear Hne. cbn [app]. split.
    + apply mapM_Some. eapply list.Forall2_impl; [exact Hr|]. by intros ? ? [? _].
    + induction Hr as [|v raw vs raws [_ ?] _ IH]; by constructor.
  - intros (Hne & Hm & Hl). apply mapM_Some in Hm.
    enough (∀ acc, foldM parse_key encoded acc = Ok (acc ++ keys)) as ->; [cbn; by rewrite bool_decide_false|].
    clear Hne. induction Hm as [|v raw vs raws Hv _ IH]; intros acc; cbn [foldM]; [by rewrite app_nil_r|].
    inversion_clear Hl. unfold parse_key. rewrite Hv, bool_decide_true by done. cbn.
    rewrite IH by done. by rewrite <- app_assoc.
Qed.

(** ** Properties *)

(** [Verify], with keys [ParseTrusted] accepted, never panics and accepts
    exactly the messages that carry a 64-byte signature which one of those
    keys verifies; every other way of failing is the one error
    [ErrUntrusted].  The accepted keys are the given ones, in order, and there
    is at least one. *)
Theorem Verify_exact encoded keys message signature :
  ParseTrusted encoded = Ok keys →
  keys ≠ [] ∧ mapM b64_decode encoded = Some keys ∧
  (Verify message signature keys = Some (Ok tt) ↔
     ∃ sig key, b64_decode signature = Some sig ∧ length sig = SignatureSize ∧ key ∈ keys ∧
       ed25519 key message sig = true) ∧
  (Verify message signature keys = Some (Ok tt) ∨ Verify message signature keys = Some (Err ErrUntrusted)).
Proof.
  intros (Hne & Hm & Hlen)%ParseTrusted_spec. split; [done|]. split; [done|].
  rewrite Verify_spec by done. destruct (b64_decode signature) as [sig|]; [|naive_solver].
  case_bool_decide as Hs; cbn [andb]; [|naive_solver].
  destruct (existsb _ keys) eqn:E.
  - apply existsb_elem in E as (k & Hin & Hk). split; [|auto]. split; [|done]. eauto 8.
  - split; [|auto]. split; [done|]. intros (sig' & key & [= <-] & _ & Hin & Hk). exfalso.
    assert (existsb (λ k, ed25519 k message sig) keys = true) as Ht; [|congruence].
    apply existsb_elem. eauto.
Qed.
End Verify.

Lemma Verify_exact_witness :
  Verify (λ key message sig, bool_decide (hd 0%Z key = 2%Z ∧ hd 0%Z message = hd 0%Z sig)) [9; 8]%Z
    (b64_encode (repeat 9%Z 64)) [repeat 1%Z 32; repeat 2%Z 32] = Some (Ok tt).
Proof.
  apply (Verify_exact (λ key message sig, bool_decide (hd 0%Z key = 2%Z ∧ hd 0%Z message = hd 0%Z sig))
    [b64_encode (repeat 1%Z 32); b64_encode (repeat 2%Z 32)]).
  - vm_compute. reflexivity.
  - exists (repeat 9%Z 64), (repeat 2%Z 32). split_and!; [vm_compute; reflexivity|reflexivity| |reflexivity].
    apply list_elem_of_further, list_elem_of_here.
Defined.
