(* ===== verification/Probe.v ===== *)
(** * One tunnel, one request: core/internal/probe

    [handshakeClock] (handshake.go) times a handshake from the words the device
    logs; [Run] (probe.go) brings up a device on a user-space network stack,
    fetches a page through it and, when asked, measures the round trip in the
    best way that answers.

    What the device does meanwhile is [Traffic]: the lines it logs and the
    packets that cross it, in the order and at the times the outside chooses.
    The operations catch up with it before they read the clock or the meter. *)

From S2P Require Import Prelude GoStrings NetAddr Awg AwgEndpoint Rtt Effects System Systunnel Tunnel.
From stdpp Require Import options.

(** ** The clock on the device's log *)

Definition sendingInitiation : string := "%v - Sending handshake initiation".
Definition receivedResponse : string := "%v - Received handshake response".

(** [None] is the zero [time.Time]. *)
Record handshakeClock := mkClock { sent : option Z; clock_rtt : Z; clock_done : bool }.

Definition newHandshakeClock : handshakeClock := mkClock None 0 false.

Definition observe (format : string) (now : Z) (c : handshakeClock) : handshakeClock :=
  if bool_decide (format = sendingInitiation) then mkClock (Some now) (clock_rtt c) (clock_done c)
  else if bool_decide (format = receivedResponse) then
    match sent c with
    | Some at_ => mkClock None (now - at_) true
    | None => c
    end
  else c.

Definition roundTrip (c : handshakeClock) : Z * bool := (clock_rtt c, clock_done c).

(** ** What the device does meanwhile *)

Inductive observation :=
  | Logged (format : string) (at_ : Z)
  | Outgoing (packet : list Z) (at_ : Z)
  | Incoming (packet : list Z) (at_ : Z).

(** What happened on the device just after these calls. *)
Class Traffic := traffic : history → list observation.

(** The clock, the meter, and how many calls they have caught up with. *)
Record instruments := mkInstruments { clock : handshakeClock; probe_meter : Meter; noticed : nat }.

Definition notice (o : observation) (p : instruments) : option instruments :=
  match o with
  | Logged format at_ => Some (mkInstruments (observe format at_ (clock p)) (probe_meter p) (noticed p))
  | Outgoing packet at_ =>
      m ← Outbound packet at_ (probe_meter p); Some (mkInstruments (clock p) m (noticed p))
  | Incoming packet at_ =>
      m ← Inbound packet at_ (probe_meter p); Some (mkInstruments (clock p) m (noticed p))
  end.

Fixpoint notice_all (os : list observation) (p : instruments) : option instruments :=
  match os with [] => Some p | o :: os => p' ← notice o p; notice_all os p' end.

Definition since (k : nat) `{Traffic} (h : history) : list observation :=
  concat (map (λ i, traffic (take (S i) h)) (seq k (length h - k))).

Definition catch_up `{Traffic} (p : instruments) : IO instruments := λ h,
  (p' ← notice_all (since (noticed p) h) p;
   Some (mkInstruments (clock p') (probe_meter p') (length h)), h).

(** ** One request: [fetch] *)

Definition text_of (o : outcome) : string := match o with Output s => s | _ => "" end.

(** The body, if it was read to its end, fits and was closed. *)
Definition whole (url : string) (body closed : outcome) : result string :=
  match body with
  | Failure _ e _ => Err ([Lit "reading response: "] ++ e)
  | _ =>
      if (MaxBody <? slen (text_of body))%Z
      then Err [Lit "response from "; Plain url; Lit " is larger than "; Num MaxBody; Lit " bytes"]
      else match closed with
      | Failure _ e _ => Err ([Lit "closing response: "] ++ e)
      | _ => Ok (text_of body)
      end
  end.

Definition fetch `{Env} (d : nat) (url : string) (timeout : Z) : IO (result (string * string * Z)) :=
  made ← perform (NewRequest url);
  match made with
  | Failure _ e _ => mret (Err e)
  | _ =>
      started ← now;
      response ← perform (HttpDo d url timeout);
      match response with
      | Failure _ e _ => mret (Err ([Lit "fetching "; Plain url; Lit " through the tunnel: "] ++ e))
      | _ =>
          body ← perform (ReadBody (MaxBody + 1));
          closed ← perform CloseBody;
          text ←? mret (whole url body closed);
          ended ← now;
          mret (Ok (text_of response, TrimSpace text, (ended - started)%Z))
      end
  end.

(** ** The round trip *)

Definition exitDialTimeout : Z := 3 * 1000000000.

(** [timeExit]; the connection made is closed at once. *)
Definition timeExit `{Env, Traffic} (d : nat) (target : string) (p : instruments)
    : IO ((Z * bool) * instruments) :=
  p ← catch_up p;
  let p := mkInstruments (clock p) (Forget (probe_meter p)) (noticed p) in
  dialled ← perform (Dial d target exitDialTimeout);
  match dialled with
  | Failure _ _ _ => mret ((0%Z, false), p)
  | _ =>
      t ← now;
      p ← catch_up p;
      let '(figure, m) := Latency t (probe_meter p) in
      mret (figure, mkInstruments (clock p) m (noticed p))
  end.

(** [max(d.Milliseconds(), 1)]. *)
Definition figure_ms (d : Z) : Z := Z.max (in_ms d) 1.

(** [measureLatency]: the sources in turn, the next one only when the one
    before gave nothing. *)
Definition measureLatency {S} (exit : IO ((Z * bool) * S)) (handshake : S → IO (Z * bool))
    (request : IO (result Z)) : IO (result Z) :=
  e ← exit;
  let '((rtt, ok), s) := e in
  if ok : bool then mret (Ok (figure_ms rtt))
  else
    r ← handshake s;
    let '(rtt, ok) := r in
    if ok : bool then mret (Ok (figure_ms rtt))
    else
      latency ←? io_wrap [Lit "measuring latency: "] request;
      mret (Ok (figure_ms latency)).

(** ** [Run] *)

Record Result := mkResult {
  rs_Endpoint : string; rs_MTU : Z; rs_Obfuscated : bool; rs_Status : string; rs_Body : string;
  rs_Elapsed : Z; rs_ElapsedMs : Z; rs_LatencyMs : option Z;
}.

Record Options := mkOptions {
  URL : string; Timeout : Z; Verbose : bool; MeasureLatency : bool; LatencyTarget : string;
}.

Definition DefaultLatencyTarget : string := "1.1.1.1:443".

(** A step on the device: [fmt.Errorf("what: %w", err)] when it fails. *)
Definition attempt_step `{Env} (what : string) (c : call) : IO (result unit) :=
  o ← perform c;
  mret match o with Failure _ e _ => Err ([Lit what; Lit ": "] ++ e) | _ => Ok tt end.

(** [Run] between the device's creation and its deferred [Close]. *)
Definition run_device `{Env, Traffic} (d : nat) (cfg : Awg.Config) (url : string) (timeout : Z)
    (opts : Options) : IO (result Result) :=
  k ← next_handle;
  let p := mkInstruments newHandshakeClock Rtt.New k in
  _ ←? attempt_step "configuring device" (IpcSet d (IPC cfg));
  _ ←? attempt_step "bringing device up" (DeviceUp d);
  fetched ←? fetch d url timeout;
  let '(status, body, elapsed) := fetched in
  latencyMs ←?
    (if MeasureLatency opts then
       let target := if bool_decide (LatencyTarget opts = "") then DefaultLatencyTarget
                     else LatencyTarget opts in
       measured ←? measureLatency (timeExit d target p)
                     (λ p, p ← catch_up p; mret (roundTrip (clock p)))
                     (again ←? fetch d url timeout; mret (Ok again.2));
       mret (Ok (Some measured))
     else mret (Ok None));
  mret (Ok (mkResult (Endpoint (peer cfg)) (Awg.MTU cfg) (negb (bool_decide (Obfuscation cfg = ∅)))
              status body elapsed (in_ms elapsed) latencyMs)).

Definition Run `{Env, Traffic} (configText : string) (opts : Options) : IO (result Result) :=
  let url := if bool_decide (URL opts = "") then "https://ifconfig.me/ip" else URL opts in
  let timeout := if (Timeout opts <=? 0)%Z then (30 * 1000000000)%Z else Timeout opts in
  cfg ←? mret (wrap [Lit "reading configuration: "] (AwgEndpoint.Parse configText));
  d ← next_handle;
  created ← perform (CreateNetTUN (map Addr_String (Addresses cfg)) (resolvers cfg) (Awg.MTU cfg));
  match created with
  | Failure _ e _ => mret (Err ([Lit "creating netstack device: "] ++ e))
  | _ =>
      _ ← perform (SetVerboseLog (Verbose opts));
      r ← run_device d cfg url timeout opts;
      _ ← perform (DeviceClose d);
      mret r
  end.
