(* ===== verification/ProbeFacts.v ===== *)
(** * Properties of the one-shot probe

    The handshake clock pairs an initiation with its own response; every run
    ends, leaves no device behind, and reports only a whole answer; and what
    the exit's figure may be besides the exit's. *)

From S2P Require Import Prelude GoStrings NetAddr Awg AwgEndpoint Rtt RttFacts Effects System.
From S2P Require Import RoutingFacts Systunnel SystunnelFacts SystunnelMachine Tunnel Probe.
From stdpp Require Import options.

(** ** The clock *)

(** The initiations and responses of a log, the other lines left out. *)
Inductive mark := Initiation (at_ : Z) | Answer (at_ : Z).

Definition mark_of (line : string * Z) : option mark :=
  if bool_decide (line.1 = sendingInitiation) then Some (Initiation line.2)
  else if bool_decide (line.1 = receivedResponse) then Some (Answer line.2) else None.
Definition marks (log : list (string * Z)) : list mark := omap mark_of log.

Definition clock_after (log : list (string * Z)) : handshakeClock :=
  foldl (λ c line, observe line.1 line.2 c) newHandshakeClock log.

(** An initiation and, next, a response. *)
Definition paired (l : list mark) : Prop :=
  ∃ pre a b post, l = pre ++ Initiation a :: Answer b :: post.

Lemma paired_snoc l m : paired (l ++ [m]) →
  paired l ∨ ∃ l' a b, l = l' ++ [Initiation a] ∧ m = Answer b.
Proof.
  intros (pre & a & b & post & H). destruct post as [|x post _] using rev_ind.
  - right. change (Initiation a :: [Answer b]) with ([Initiation a] ++ [Answer b]) in H.
    rewrite app_assoc in H. apply app_inj_tail in H as [-> ->]. eauto.
  - left. rewrite !app_comm_cons, app_assoc in H. apply app_inj_tail in H as [-> _]. by exists pre, a, b, post.
Qed.

Lemma not_paired_nil : ¬ paired [].
Proof. intros (pre & a & b & post & H). by destruct pre. Qed.

(** What the clock holds after some marks. *)
Definition clock_ok (l : list mark) (c : handshakeClock) : Prop :=
  sent c = match list.last l with Some (Initiation a) => Some a | _ => None end ∧
  if clock_done c then
    ∃ pre a b post, l = pre ++ Initiation a :: Answer b :: post ∧ clock_rtt c = (b - a)%Z ∧ ¬ paired post
  else clock_rtt c = 0%Z ∧ ¬ paired l.

(** A mark that answers nothing leaves the figure as it is. *)
Lemma clock_ok_figure l m c s :
  clock_ok l c → (∀ l' a, l = l' ++ [Initiation a] → ∀ b, m ≠ Answer b) →
  s = match m with Initiation a => Some a | _ => None end →
  clock_ok (l ++ [m]) (mkClock s (clock_rtt c) (clock_done c)).
Proof.
  intros [Hs Hd] Hm ->. split; [by rewrite last_snoc; destruct m|]. cbn [clock_done clock_rtt].
  assert (∀ l', (∃ p, l = p ++ l') → ¬ paired l' → ¬ paired (l' ++ [m])) as Hext.
  { intros l' [p ->] Hn [?|(l2 & a & b & -> & ->)]%paired_snoc; [done|].
    by apply (Hm (p ++ l2) a (app_assoc _ _ _) b). }
  destruct (clock_done c).
  - destruct Hd as (pre & a & b & post & -> & Hr & Hn). exists pre, a, b, (post ++ [m]).
    split; [by rewrite <- app_assoc|]. split; [done|]. apply Hext; [|done].
    exists (pre ++ [Initiation a; Answer b]). by rewrite <- app_assoc.
  - destruct Hd as [? Hn]. split; [done|]. apply Hext; [by exists []|done].
Qed.

Lemma clock_ok_after log : clock_ok (marks log) (clock_after log).
Proof.
  induction log as [|[f t] log IH] using rev_ind; [split; [done|split; [done|apply not_paired_nil]]|].
  unfold clock_after. rewrite foldl_app. cbn [foldl fst snd]. fold (clock_after log).
  unfold marks. rewrite omap_app. fold (marks log). cbn [omap list_omap mark_of fst snd].
  generalize dependent (clock_after log). generalize (marks log). intros l c IH. unfold observe, mark_of. cbn [fst snd].
  case_bool_decide as H1.
  { apply clock_ok_figure; [done|by intros|done]. }
  case_bool_decide as H2; [|by rewrite app_nil_r].
  destruct (sent c) as [a|] eqn:Hsent.
  - pose proof IH as [Hs _]. rewrite Hsent in Hs. destruct (list.last l) as [[a'|]|] eqn:Hl; try done.
    injection Hs as ->. apply last_Some in Hl as [l' ->]. split; [by rewrite last_snoc|].
    exists l', a', t, []. split; [by rewrite <- app_assoc|]. split; [done|apply not_paired_nil].
  - replace c with (mkClock None (clock_rtt c) (clock_done c)) by (destruct c; cbn in *; congruence).
    apply clock_ok_figure; [done| |done]. intros l' a -> b _. destruct IH as [Hs _].
    rewrite last_snoc in Hs. congruence.
Qed.

(** ** Runs *)

Section Runs.
Context {env : Env} {tr : Traffic}.

Lemma notice_all_total os p : ∃ p', notice_all os p = Some p'.
Proof.
  revert p. induction os as [|o os IH]; intros p; cbn [notice_all]; [eauto|].
  destruct o as [f t|packet t|packet t]; cbn [notice].
  - apply IH.
  - destruct (Outbound_total packet t (probe_meter p)) as [m ->]. apply IH.
  - destruct (Inbound_total packet t (probe_meter p)) as [m ->]. apply IH.
Qed.

Lemma total_catch_up p : total (catch_up p).
Proof.
  intros h. unfold wp, catch_up. by destruct (notice_all_total (since (noticed p) h) p) as [p' ->].
Qed.

Lemma quiet_catch_up p : keeps opened (catch_up p).
Proof. intros h. cbn. by destruct (notice_all (since (noticed p) h) p). Qed.

#[local] Hint Extern 1 (keeps opened (perform _)) => (apply keeps_opened; reflexivity) : keeps.
#[local] Hint Resolve total_catch_up quiet_catch_up opened_now total_now total_next_handle : keeps.

Lemma total_fetch d url timeout : total (fetch d url timeout).
Proof. unfold fetch. auto 30 with keeps. Qed.
Lemma quiet_fetch d url timeout : keeps opened (fetch d url timeout).
Proof. unfold fetch. auto 30 with keeps. Qed.

Lemma total_timeExit d target p : total (timeExit d target p).
Proof. unfold timeExit. auto 30 with keeps. Qed.
Lemma quiet_timeExit d target p : keeps opened (timeExit d target p).
Proof. unfold timeExit. auto 30 with keeps. Qed.
#[local] Hint Resolve total_fetch quiet_fetch total_timeExit quiet_timeExit : keeps.

(** A figure is a whole number of milliseconds, and at least one. *)
Lemma measureLatency_positive {S} (exit : IO ((Z * bool) * S)) handshake request h :
  wlp (measureLatency exit handshake request) (λ r _, ∀ ms, r = Ok ms → (1 ≤ ms)%Z) h.
Proof.
  assert (∀ d ms, Ok (figure_ms d) = Ok ms → (1 ≤ ms)%Z) as Hf.
  { intros d ms [= <-]. unfold figure_ms. lia. }
  unfold measureLatency. apply wlp_bind. eapply wlp_mono; [|by apply (wlp_any _ h)].
  intros [[rtt []] s] h1 _; [apply wlp_ret, Hf|].
  apply wlp_bind. eapply wlp_mono; [|by apply wlp_any]. intros [rtt2 []] h2 _; [apply wlp_ret, Hf|].
  apply wlp_try. eapply wlp_mono; [|by apply wlp_any]. intros [z|e] h3 _; [apply wlp_ret, Hf|done].
Qed.

Lemma total_measureLatency {S} (exit : IO ((Z * bool) * S)) handshake request :
  total exit → (∀ s, total (handshake s)) → total request → total (measureLatency exit handshake request).
Proof. intros. unfold measureLatency. auto 30 with keeps. Qed.
Lemma quiet_measureLatency {S} (exit : IO ((Z * bool) * S)) handshake request :
  keeps opened exit → (∀ s, keeps opened (handshake s)) → keeps opened request →
  keeps opened (measureLatency exit handshake request).
Proof. intros. unfold measureLatency. auto 30 with keeps. Qed.
Lemma quiet_next_handle : keeps opened next_handle.
Proof. done. Qed.
#[local] Hint Resolve total_measureLatency quiet_measureLatency quiet_next_handle : keeps.

Lemma total_attempt_step what c : total (attempt_step what c).
Proof. unfold attempt_step. auto with keeps. Qed.
Lemma quiet_attempt_step what c : neutral c = true → keeps opened (attempt_step what c).
Proof. intros. unfold attempt_step. apply keeps_bind; [by apply keeps_opened|auto with keeps]. Qed.
#[local] Hint Resolve total_attempt_step : keeps.
#[local] Hint Extern 1 (keeps opened (attempt_step _ _)) => (apply quiet_attempt_step; reflexivity) : keeps.

Lemma total_run_device d cfg url timeout opts : total (run_device d cfg url timeout opts).
Proof. unfold run_device. auto 40 with keeps. Qed.
Lemma quiet_run_device d cfg url timeout opts : keeps opened (run_device d cfg url timeout opts).
Proof. unfold run_device. auto 40 with keeps. Qed.

Lemma whole_fits url body closed text : whole url body closed = Ok text →
  failed body = false ∧ failed closed = false ∧ text = text_of body ∧ (slen text ≤ MaxBody)%Z.
Proof.
  unfold whole. intros H. repeat case_match; simplify_eq; (split_and!; [done..|by apply Z.ltb_ge]).
Qed.

(** A response in a history: what the client answered, its body, read to the
    end or to a byte past the largest that fits, and its end, one after the
    other; none of them failed, and the body fits. *)
Definition read_whole (status body : string) (h : history) : Prop :=
  ∃ before after d url timeout response read closed,
    h = before ++ (HttpDo d url timeout, response) :: (ReadBody (MaxBody + 1), read) :: (CloseBody, closed) :: after ∧
    failed response = false ∧ failed read = false ∧ failed closed = false ∧
    status = text_of response ∧ body = TrimSpace (text_of read) ∧ (slen (text_of read) ≤ MaxBody)%Z.

Lemma read_whole_within status body h h0 h1 : read_whole status body h → read_whole status body (h0 ++ h ++ h1).
Proof.
  intros (b & a & d & u & t & o1 & o2 & o3 & -> & H). exists (h0 ++ b), (a ++ h1), d, u, t, o1, o2, o3.
  split; [|done]. by rewrite <- !app_assoc.
Qed.

(** Forgets how a call was answered. *)
#[local] Ltac answered c := match goal with |- context [answer ?h c] => generalize (answer h c) end.

(** What [fetch] returns was read whole. *)
Lemma fetch_whole d url timeout h :
  wlp (fetch d url timeout) (λ r h', ∀ status body elapsed, r = Ok (status, body, elapsed) →
    ∃ new, h' = h ++ new ∧ read_whole status body new) h.
Proof.
  unfold fetch, now. apply wlp_bind, wlp_perform.
  assert (∀ Q : result (string * string * Z) → history → Prop, (∀ e h', Q (Err e) h') →
    (∀ o1 t0 o2 o3 o4 t1 z, failed o2 = false → failed o3 = false → failed o4 = false → (slen (text_of o3) ≤ MaxBody)%Z →
       Q (Ok (text_of o2, TrimSpace (text_of o3), z))
         (h ++ (NewRequest url, o1) :: (Now, t0) :: [(HttpDo d url timeout, o2); (ReadBody (MaxBody + 1), o3); (CloseBody, o4); (Now, t1)])) →
    ∀ o1, wlp (started ← (o ← perform Now; mret match o with Instant z => z | _ => 0%Z end);
       response ← perform (HttpDo d url timeout);
       match response with
       | Failure _ e _ => mret (Err ([Lit "fetching "; Plain url; Lit " through the tunnel: "] ++ e))
       | _ =>
           body ← perform (ReadBody (MaxBody + 1));
           closed ← perform CloseBody;
           text ←? mret (whole url body closed);
           ended ← (o ← perform Now; mret match o with Instant z => z | _ => 0%Z end);
           mret (Ok (text_of response, TrimSpace text, (ended - started)%Z))
       end) Q (h ++ [(NewRequest url, o1)])) as Hrest.
  { intros Q Hbad Hgood o1. do 2 apply wlp_bind. apply wlp_perform, wlp_ret. answered Now. intros t0.
    apply wlp_checked; [intros; apply wlp_ret, Hbad|]. answered (HttpDo d url timeout). intros o2 Hf2.
    apply wlp_bind, wlp_perform. answered (ReadBody (MaxBody + 1)). intros o3.
    apply wlp_bind, wlp_perform, wlp_try, wlp_ret. answered CloseBody. intros o4.
    destruct (whole _ _ _) as [text|e] eqn:Hw; [|apply Hbad]. apply whole_fits in Hw as (Hf3 & Hf4 & -> & Hl).
    do 2 apply wlp_bind. apply wlp_perform, wlp_ret, wlp_ret. answered Now. intros t1.
    rewrite <- !app_assoc. by apply Hgood. }
  set (Q := λ (r : result (string * string * Z)) h', ∀ status body elapsed, r = Ok (status, body, elapsed) →
    ∃ new, h' = h ++ new ∧ read_whole status body new).
  assert (∀ o1 t0 o2 o3 o4 t1 z, failed o2 = false → failed o3 = false → failed o4 = false → (slen (text_of o3) ≤ MaxBody)%Z →
    Q (Ok (text_of o2, TrimSpace (text_of o3), z)) (h ++ (NewRequest url, o1) :: (Now, t0) ::
      [(HttpDo d url timeout, o2); (ReadBody (MaxBody + 1), o3); (CloseBody, o4); (Now, t1)])) as Hgood.
  { intros o1 t0 o2 o3 o4 t1 z H2 H3 H4 Hl ? ? ? [= <- <- _]. eexists. split; [reflexivity|].
    exists [(NewRequest url, o1); (Now, t0)], [(Now, t1)], d, url, timeout, o2, o3, o4. by split_and!. }
  specialize (Hrest Q ltac:(done) Hgood). destruct (answer h (NewRequest url)); try apply Hrest. by apply wlp_ret.
Qed.

Lemma extends_fetch d url timeout : extends (fetch d url timeout).
Proof. unfold fetch, now. auto 30 with keeps. Qed.

(** What a finished run reports of its configuration and its figures. *)
Definition reported (opts : Options) (cfg : Awg.Config) (r : Result) (new : history) : Prop :=
  rs_Endpoint r = Endpoint (peer cfg) ∧ rs_MTU r = Awg.MTU cfg ∧
  (rs_Obfuscated r = true ↔ Obfuscation cfg ≠ ∅) ∧
  read_whole (rs_Status r) (rs_Body r) new ∧
  rs_ElapsedMs r = in_ms (rs_Elapsed r) ∧
  (is_Some (rs_LatencyMs r) ↔ MeasureLatency opts = true) ∧
  (∀ ms, rs_LatencyMs r = Some ms → (1 ≤ ms)%Z).

#[local] Hint Extern 1 (extends (λ _, _)) => (intros ?; reflexivity) : keeps.
Lemma extends_catch_up p : extends (catch_up p).
Proof. intros h. unfold wlp, catch_up. cbn. destruct (notice_all _ p); [|done]. exists []. by rewrite app_nil_r. Qed.
Lemma extends_measured d target p url timeout :
  extends (measureLatency (timeExit d target p) (λ p, p ← catch_up p; mret (roundTrip (clock p)))
             (again ←? fetch d url timeout; mret (Ok again.2))).
Proof. pose proof extends_catch_up. unfold measureLatency, timeExit, fetch, now. auto 40 with keeps. Qed.
Lemma extends_attempt_step what c : extends (attempt_step what c).
Proof. unfold attempt_step. auto with keeps. Qed.

Lemma run_device_reports d cfg url timeout opts h :
  wlp (run_device d cfg url timeout opts) (λ r h', ∃ new, h' = h ++ new ∧ ∀ res, r = Ok res → reported opts cfg res new) h.
Proof.
  unfold run_device. apply wlp_bind. apply (wlp_mono _ (λ _ h', h' = h)); [|done]. intros k h0 ->.
  apply wlp_try. eapply wlp_mono; [|apply extends_attempt_step]. intros [[]|e] h1 [n1 ->]; [|by exists n1].
  apply wlp_try. eapply wlp_mono; [|apply extends_attempt_step].
  intros [[]|e] h2 [n2 ->]; [|exists (n1 ++ n2); by rewrite app_assoc].
  apply wlp_try. eapply wlp_mono; [|apply wlp_conj; [apply fetch_whole|apply extends_fetch]].
  intros [[[status body] elapsed]|e] h3 [Hw [n3 ->]]; [|exists (n1 ++ n2 ++ n3); by rewrite !app_assoc].
  specialize (Hw _ _ _ eq_refl) as (n & En & Hw). apply (inj (app _)) in En as <-. apply wlp_try.
  apply (wlp_mono _ (λ l h', (((h ++ n1) ++ n2) ++ n3) `prefix_of` h' ∧ ∀ ms, l = Ok ms → (is_Some ms ↔ MeasureLatency opts = true) ∧
    ∀ z, ms = Some z → (1 ≤ z)%Z)).
  - intros l h4 [[n4 ->] Hl].
    destruct l as [ms|e]; [|by exists (n1 ++ n2 ++ n3 ++ n4); rewrite !app_assoc].
    specialize (Hl ms eq_refl) as [Hl1 Hl2]. apply wlp_ret.
    exists (n1 ++ n2 ++ n3 ++ n4). split; [by rewrite !app_assoc|]. intros res [= <-].
    unfold reported. cbn. rewrite negb_true_iff, bool_decide_eq_false.
    refine (conj eq_refl (conj eq_refl (conj (iff_refl _) (conj _ (conj eq_refl (conj Hl1 Hl2)))))).
    apply (read_whole_within _ _ _ (n1 ++ n2) n4) in Hw. by rewrite <- app_assoc in Hw.
  - destruct (MeasureLatency opts).
    + apply wlp_try. eapply wlp_mono; [|apply wlp_conj; [apply measureLatency_positive|apply extends_measured]].
      intros [z|e] h4 [Hz Hp]; [|done]. apply wlp_ret. split; [done|]. intros ms [= <-]. split; [done|].
      intros z' [= <-]. by apply Hz.
    + apply wlp_ret. split; [done|]. intros ms [= <-]. split; [by split; [intros []|]|done].
Qed.

#[local] Hint Resolve total_run_device : keeps.
Lemma total_Run text opts : total (Run text opts).
Proof. unfold Run. auto 20 with keeps. Qed.

Lemma Run_closes text opts h : wlp (Run text opts) (λ _ h', opened h' = opened h) h.
Proof.
  unfold Run. apply wlp_try, wlp_ret. destruct (wrap _ _) as [cfg|e]; [|done].
  apply wlp_bind. change (wlp next_handle ?Q h) with (Q (length h) h). cbv beta.
  apply wlp_bind, wlp_perform. set (c := CreateNetTUN _ _ _).
  assert (length h ∉ opened h) as Hfresh by (intros ?%opened_lt; lia).
  destruct (failed (answer h c)) eqn:Hf.
  { destruct (answer h c) eqn:Ho; try done. apply wlp_ret. by rewrite opened_snoc. }
  assert (wlp (_ ← perform (SetVerboseLog (Verbose opts)); r ← run_device (length h) cfg
      (if bool_decide (URL opts = "") then "https://ifconfig.me/ip" else URL opts)
      (if (Timeout opts <=? 0)%Z then (30 * 1000000000)%Z else Timeout opts) opts;
      _ ← perform (DeviceClose (length h)); mret r) (λ _ h', opened h' = opened h)
      (h ++ [(c, answer h c)])) as Hrest.
  { apply wlp_bind, (wlp_keeps opened); [by apply keeps_opened|]. intros o h1 H1.
    apply wlp_bind, (wlp_keeps opened); [apply quiet_run_device|]. intros r h2 H2.
    apply wlp_bind, wlp_perform, wlp_ret. rewrite opened_snoc, H2, H1, opened_snoc. cbn. rewrite Hf. set_solver. }
  destruct (answer h c) eqn:Ho; try done.
Qed.

Lemma Run_reports text opts h :
  wlp (Run text opts) (λ r h', ∃ new, h' = h ++ new ∧
    ∀ res, r = Ok res → ∃ cfg, AwgEndpoint.Parse text = Ok cfg ∧ reported opts cfg res new) h.
Proof.
  unfold Run. apply wlp_try, wlp_ret. destruct (AwgEndpoint.Parse text) as [cfg|e]; cbn [wrap].
  2: { exists []. by rewrite app_nil_r. }
  apply wlp_bind. apply (wlp_mono _ (λ _ h', h' = h)); [|done]. intros d h0 ->.
  apply wlp_checked; [intros e _; apply wlp_ret; by eexists|]. intros _.
  apply wlp_bind, wlp_perform, wlp_bind. eapply wlp_mono; [|apply run_device_reports]. intros r h1 (new & -> & Hr).
  apply wlp_bind, wlp_perform, wlp_ret. eexists. rewrite <- !app_assoc. split; [done|]. intros res Hres.
  exists cfg. split; [done|]. specialize (Hr res Hres). destruct Hr as (H1 & H2 & H3 & H4 & H5).
  refine (conj H1 (conj H2 (conj H3 (conj _ H5)))). rewrite (app_assoc [_] [_]). by apply read_whole_within.
Qed.

(** *** The log's switch *)

(** How the log's switch was set, in order. *)
Definition switches (h : history) : list bool :=
  omap (λ co, match co.1 with SetVerboseLog on => Some on | _ => None end) h.
Definition silent (c : call) : bool := match c with SetVerboseLog _ => false | _ => true end.

Lemma switches_snoc h c o : switches (h ++ [(c, o)]) =
  switches h ++ match c with SetVerboseLog on => [on] | _ => [] end.
Proof. unfold switches. rewrite omap_app. cbn. by destruct c. Qed.

Lemma silent_perform c : silent c = true → keeps switches (perform c).
Proof. intros Hc. apply keeps_perform. intros h. rewrite switches_snoc. destruct c; try done; apply app_nil_r. Qed.
#[local] Hint Extern 1 (keeps switches (perform _)) => (apply silent_perform; reflexivity) : keeps.

Lemma silent_catch_up p : keeps switches (catch_up p).
Proof. intros h. cbn. by destruct (notice_all (since (noticed p) h) p). Qed.
Lemma silent_next_handle : keeps switches next_handle.
Proof. done. Qed.
Lemma silent_now : keeps switches now.
Proof. unfold now. auto with keeps. Qed.
#[local] Hint Resolve silent_catch_up silent_next_handle silent_now : keeps.

Lemma silent_fetch d url timeout : keeps switches (fetch d url timeout).
Proof. unfold fetch. auto 30 with keeps. Qed.
Lemma silent_timeExit d target p : keeps switches (timeExit d target p).
Proof. unfold timeExit. auto 30 with keeps. Qed.
#[local] Hint Resolve silent_fetch silent_timeExit : keeps.

Lemma silent_run_device d cfg url timeout opts : keeps switches (run_device d cfg url timeout opts).
Proof. unfold run_device, measureLatency, attempt_step. auto 60 with keeps. Qed.

(** A run sets the switch at most once, to what its options say. *)
Lemma Run_switches text opts h :
  wlp (Run text opts) (λ _ h', ∀ on, on ∈ switches h' → on ∈ switches h ∨ on = Verbose opts) h.
Proof.
  unfold Run. apply wlp_try, wlp_ret. destruct (wrap _ _) as [cfg|e]; [|auto].
  apply wlp_bind, (wlp_keeps switches); [apply silent_next_handle|]. intros d h0 H0.
  apply wlp_bind, (wlp_keeps switches); [by apply silent_perform|]. intros created h1 H1.
  assert (∀ Q : result Result → history → Prop, (∀ r h', switches h' = switches h ++ [Verbose opts] → Q r h') →
    wlp (_ ← perform (SetVerboseLog (Verbose opts));
      r ← run_device d cfg (if bool_decide (URL opts = "") then "https://ifconfig.me/ip" else URL opts)
        (if (Timeout opts <=? 0)%Z then (30 * 1000000000)%Z else Timeout opts) opts;
      _ ← perform (DeviceClose d); mret r) Q h1) as Hrest.
  { intros Q HQ. apply wlp_bind, wlp_perform, wlp_bind, (wlp_keeps switches); [apply silent_run_device|].
    intros r h2 H2. apply wlp_bind, (wlp_keeps switches); [by apply silent_perform|]. intros o h3 H3.
    apply wlp_ret, HQ. by rewrite H3, H2, switches_snoc, H1, H0. }
  destruct created; try (apply wlp_ret; rewrite H1, H0; auto); apply Hrest; intros r h' -> on;
    rewrite elem_of_app, list_elem_of_singleton; tauto.
Qed.
End Runs.

(** ** Properties *)

(** The handshake clock times an initiation and its own response: of the
    initiations and responses the device has logged, the figure is that of the
    last initiation that a response comes right after, and there is none
    exactly when no response ever did. *)
Theorem handshake_clock_pairs (log : list (string * Z)) :
  match roundTrip (clock_after log) with
  | (d, true) => ∃ pre a b post, marks log = pre ++ Initiation a :: Answer b :: post ∧
                   d = (b - a)%Z ∧ ¬ paired post
  | (d, false) => d = 0%Z ∧ ¬ paired (marks log)
  end.
Proof.
  destruct (clock_ok_after log) as [_ H]. unfold roundTrip. by destruct (clock_done (clock_after log)).
Qed.

(** C9: A probe ends, whatever the network and the device do, and closes the
    device it made on every path; a result has its configuration's parameters,
    the status and the text of a response this run got (the client answered,
    its body was read without an error to its end, which came within [MaxBody]
    bytes, and was closed without one), and a latency exactly when one was asked
    for, of at least a millisecond. *)
Theorem Run_leaves_nothing {env : Env} {tr : Traffic} text opts h :
  ∃ r new, Run text opts h = (Some r, h ++ new) ∧ opened (h ++ new) = opened h ∧
    ∀ res, r = Ok res → ∃ cfg, AwgEndpoint.Parse text = Ok cfg ∧ reported opts cfg res new.
Proof.
  destruct (wp_eq _ _ _ (wp_all _ _ _ h (total_Run text opts h) (Run_closes text opts h) (Run_reports text opts h)))
    as (r & h' & H1 & H2 & new & -> & H3). eauto.
Qed.

(** A network on which a connection opened before the exit is timed, whose
    answer was slow, answers while the exit is dialled; nothing else crosses. *)
Definition slow_network : Env := λ _ c, match c with Now => Instant 31001000 | _ => Output "" end.
Definition slow_traffic : Traffic := λ h,
  match h with [(Dial _ _ _, _)] => [Incoming answer_packet 31001000] | _ => [] end.
Definition after_request : instruments :=
  mkInstruments newHandshakeClock (default Rtt.New (Outbound syn_packet 1000 Rtt.New)) 0.

(** The exit's figure can be another connection's: [Forget] keeps the
    openings that wait for an answer, so one made before [timeExit], to
    wherever, is measured if its answer comes while the exit is dialled.
    Here no packet of the exit's own connection crosses the device at all. *)
Theorem timeExit_counts_others :
  (∀ h o, o ∈ slow_traffic h → o = Incoming answer_packet 31001000) ∧
  fst <$> fst (@timeExit slow_network slow_traffic 0 DefaultLatencyTarget after_request [])
    = Some (31000000, true)%Z.
Proof.
  split; [|vm_compute; reflexivity].
  intros h o. unfold slow_traffic. destruct h as [|[[] ?] []]; try (by intros ?%elem_of_nil).
  by intros ->%list_elem_of_singleton.
Qed.
