(* ===== verification/Fdtun.v ===== *)
(** * The tunnel on a device the host made: core/internal/fdtun

    [Session] of session.go, on a descriptor the platform hands over; how the
    descriptor is adopted (adopt_linux.go, adopt_darwin.go) and what MTU the
    device is told (mtu.go).

    [Start] and [Stop] hold the session's mutex from start to end.  The other
    operations take it only to read a field or two, so they are given the
    session as it was at each of those moments.  A meter is an object shared by
    pointer: it lives in a store, under the device it was made for. *)

From S2P Require Import Prelude GoStrings NetAddr Awg AwgEndpoint Handshake Rtt Effects Systunnel Tunnel Probe.
From stdpp Require Import options.

(** ** Adopting a descriptor *)

(** A platform's [adopt]: the tun behind a descriptor. *)
Class Platform := adopt : Z → IO (result nat).

(** adopt_linux.go. *)
Definition adopt_linux `{Env} : Platform := λ fd,
  d ← next_handle;
  o ← perform (Adopt fd);
  mret match o with Failure _ e _ => Err e | _ => Ok d end.

Definition number_of (o : outcome) : Z := match o with Number z => z | _ => 0 end.

(** adopt_darwin.go: a duplicate is adopted, and closed if it cannot be. *)
Definition adopt_darwin `{Env} : Platform := λ fd,
  o ← perform (Dup fd);
  match o with
  | Failure _ e _ => mret (Err ([Lit "duplicating the descriptor: "] ++ e))
  | _ =>
      let duplicate := number_of o in
      o ← perform (SetNonblock duplicate);
      match o with
      | Failure _ e _ =>
          _ ← perform (CloseFd duplicate);
          mret (Err ([Lit "setting the descriptor non-blocking: "] ++ e))
      | _ =>
          d ← next_handle;
          o ← perform (TUNFromFile duplicate);
          match o with
          | Failure _ e _ => _ ← perform (CloseFd duplicate); mret (Err e)
          | _ => mret (Ok d)
          end
      end
  end.

(** ** The MTU *)

(** [withMTU]: the MTU stated for the tun, if any; asking the device for its
    own is only for the log. *)
Definition withMTU `{Env} (d : nat) (mtu : Z) : IO (option Z) :=
  if (mtu <=? 0)%Z then mret None
  else _ ← perform (TunMTU d); mret (Some mtu).

(** ** The session *)

Record Status := mkStatus {
  Up : bool; fd_Endpoint : string; fd_Protocol : string; fd_Obfuscated : bool;
  fd_SinceUnix : Z; fd_HandshakeUnix : Z; fd_LatencyMs : Z;
}.
Definition zero_status : Status := mkStatus false "" "" false 0 0 0.

Record Session := mkSession {
  device : option nat;
  bind : option nat;
  status : Status;
  meter : option nat;
}.

Definition New : Session := mkSession None None zero_status None.

Abbreviation meters := (gmap nat Meter).

Definition stopLocked `{Env} (s : Session) : IO Session :=
  match device s with
  | None => mret s
  | Some d => _ ← perform (DeviceClose d); mret New
  end.

Definition Stop `{Env} (s : Session) : IO Session := stopLocked s.

(** [Start] once nothing is up and the descriptor is adopted as [d]. *)
Definition start_on `{Env} (cfg : Awg.Config) (d : nat) : IO (result Session) :=
  stated ← withMTU d (Awg.MTU cfg);
  _ ← perform (NewDevice d stated);
  _ ←? device_step d "configuring the device" (IpcSet d (IPC cfg));
  _ ←? device_step d "bringing the device up" (DeviceUp d);
  _ ← perform (DisableRoaming d);
  t ← now;
  mret (Ok (mkSession (Some d) (Some d)
    (mkStatus true (Endpoint (peer cfg)) (protocol cfg) (negb (bool_decide (Obfuscation cfg = ∅)))
       (t / 1000000000) 0 0)
    (Some d))).

Definition Start `{Env, Platform} (fd : Z) (configText : string) (s : Session) (ms : meters)
    : IO (result Status * (Session * meters)) :=
  s ← stopLocked s;
  started ←
    (cfg ←? mret (wrap [Lit "reading configuration: "] (AwgEndpoint.Parse configText));
     d ←? io_wrap [Lit "adopting the tun descriptor: "] (adopt fd);
     start_on cfg d);
  mret match started with
       | Ok s' => (Ok (status s'), (s', match device s' with Some d => <[d := Rtt.New]> ms | None => ms end))
       | Err e => (Err e, (s, ms))
       end.

(** ** Reading *)

Definition no_tunnel : error := [Lit "no tunnel is up"].

(** [uapi], with the session as it is when the device is picked. *)
Definition uapi `{Env} (s : Session) : IO (option string) :=
  match device s with None => mret None | Some d => read_device d end.

(** [WaitForHandshake]: [sessions i] is the session at the [i]-th read. *)
Definition WaitForHandshake `{Env} (fuel : nat) (sessions : nat → Session) (timeout : Z) : IO bool :=
  start ← now;
  wait_read fuel 0 (λ i, uapi (sessions i)) (start + timeout).

(** [SocketFds]: -1 for a socket that cannot be found. *)
Definition peek `{Env} (c : call) : IO Z :=
  o ← perform c; mret match o with Number z => z | _ => (-1)%Z end.

Definition SocketFds `{Env} (s : Session) : IO (Z * Z) :=
  match bind s with
  | None => mret (-1, -1)%Z
  | Some b => v4 ← peek (PeekSocket4 b); v6 ← peek (PeekSocket6 b); mret (v4, v6)
  end.

(** [Milliseconds] of a meter in the store, which it may trim. *)
Definition store_milliseconds `{Env} (m : option nat) (ms : meters) : IO (Z * meters) :=
  match m ≫= λ d, ms !! d with
  | None => mret (0%Z, ms)
  | Some meter =>
      r ← meter_milliseconds (Some meter);
      mret (r.1, match m, r.2 with Some d, Some meter' => <[d := meter']> ms | _, _ => ms end)
  end.

(** [Status]: [s1] is the session when its status and meter are copied, [s2]
    when its device is picked for [uapi]. *)
Definition Status_of `{Env} (s1 s2 : Session) (ms : meters) : IO (Status * meters) :=
  if negb (Up (status s1)) then mret (status s1, ms)
  else
    l ← store_milliseconds (meter s1) ms;
    text ← uapi s2;
    let handshake := match text with
      | Some text => let at_ := Handshake.Parse text in
          if (at_ =? 0)%Z then 0%Z else (at_ - unixToInternal)%Z
      | None => 0%Z
      end in
    mret (mkStatus (Up (status s1)) (fd_Endpoint (status s1)) (fd_Protocol (status s1))
            (fd_Obfuscated (status s1)) (fd_SinceUnix (status s1)) handshake l.1, l.2).
