(* ===== verification/FdtunFacts.v ===== *)
(** * Properties of the tunnel on a device the host made

    At most one device is ever open, the session says "up" exactly when it has
    one, and a start that fails leaves none; both platforms adopt a descriptor
    as the session expects ([Adopter]); and what the reading operations may
    say. *)

From S2P Require Import Prelude GoStrings NetAddr Awg AwgEndpoint Handshake Rtt RttFacts Effects System.
From S2P Require Import RoutingFacts Systunnel SystunnelFacts SystunnelMachine SystunnelProps Simulated Tunnel Probe ProbeFacts Fdtun.
From stdpp Require Import options.

(** ** Platforms *)

(** What a session relies on: adopting comes back, with a new open device or
    with none. *)
Class Adopter (env : Env) (P : Platform) :=
  adopt_opens fd h : wp (adopt fd) (λ r h', match r with
    | Ok d => opened h' = {[d]} ∪ opened h ∧ d ∉ opened h
    | Err _ => opened h' = opened h
    end) h.

Lemma fresh_handle h : length h ∉ opened h.
Proof. intros ?%opened_lt. lia. Qed.

Lemma opened_perform `{Env} c h : neutral c = true → opened (h ++ [(c, answer h c)]) = opened h.
Proof. intros Hc. rewrite opened_snoc. by destruct c. Qed.

#[export] Instance linux_adopter (env : Env) : Adopter env adopt_linux.
Proof.
  intros fd h. apply wp_bind. change (wp next_handle ?Q h) with (Q (length h) h). cbv beta.
  apply wp_bind, wp_perform, wp_ret. pose proof (fresh_handle h) as Hf.
  destruct (answer h (Adopt fd)) eqn:Ho; rewrite opened_snoc; cbn; done || by split.
Qed.

#[export] Instance darwin_adopter (env : Env) : Adopter env adopt_darwin.
Proof.
  intros fd h. unfold adopt, adopt_darwin.
  apply wp_bind, wp_perform. set (o1 := answer h (Dup fd)). set (h1 := h ++ _).
  assert (opened h1 = opened h) as H1 by by apply opened_perform. clearbody h1.
  assert (wp (o ← perform (SetNonblock (number_of o1));
      match o with
      | Failure _ e _ =>
          _ ← perform (CloseFd (number_of o1));
          mret (Err ([Lit "setting the descriptor non-blocking: "] ++ e))
      | _ =>
          d ← next_handle;
          o ← perform (TUNFromFile (number_of o1));
          match o with
          | Failure _ e _ => _ ← perform (CloseFd (number_of o1)); mret (Err e)
          | _ => mret (Ok d)
          end
      end) (λ r h', match r with
      | Ok d => opened h' = {[d]} ∪ opened h ∧ d ∉ opened h | Err _ => opened h' = opened h end) h1) as Hrest.
  { apply wp_checked.
    - intros e _. apply wp_bind, wp_perform, wp_ret. by rewrite !opened_perform.
    - intros _. set (h2 := h1 ++ _).
      assert (opened h2 = opened h) as H2 by (unfold h2; by rewrite opened_perform).
      clearbody h2. apply wp_bind. change (wp next_handle ?Q h2) with (Q (length h2) h2). cbv beta.
      pose proof (fresh_handle h2) as Hf. apply wp_checked.
      + intros e Hfail. apply wp_bind, wp_perform, wp_ret. rewrite opened_perform, opened_snoc by done. cbn.
        by rewrite Hfail.
      + intros Hok. apply wp_ret. rewrite opened_snoc. cbn. rewrite Hok, <- H2. by split. }
  by destruct o1.
Qed.

(** ** The session *)

(** The fields of a session belong together. *)
Definition consistent (s : Session) : Prop :=
  match device s with
  | None => s = New
  | Some d => bind s = Some d ∧ meter s = Some d ∧ Up (status s) = true ∧ fd_HandshakeUnix (status s) = 0%Z
  end.

Definition inv (s : Session) (ms : meters) (h : history) : Prop :=
  opened h = dev_set (device s) ∧ consistent s ∧ ∀ d, device s = Some d → is_Some (ms !! d).

Lemma inv_new_session ms h : opened h = ∅ → inv New ms h.
Proof. intros Ho. by split_and!. Qed.

(** What MTU each device was told when it was made. *)
Definition told (h : history) : list (nat * option Z) :=
  omap (λ co, match co.1 with NewDevice d m => Some (d, m) | _ => None end) h.

Lemma told_snoc h c o : told (h ++ [(c, o)]) = told h ++ match c with NewDevice d m => [(d, m)] | _ => [] end.
Proof. unfold told. rewrite omap_app. cbn. by destruct c. Qed.

Section Sessions.
Context {env : Env} {P : Platform} `{!Adopter env P}.
#[local] Set Default Proof Using "Type*".

Lemma wp_stopLocked s ms h : inv s ms h → wp (stopLocked s) (λ s' h', s' = New ∧ opened h' = ∅) h.
Proof.
  intros (Ho & Hc & _). unfold stopLocked, consistent in *. destruct (device s) as [d|]; [|by apply wp_ret].
  apply wp_bind, wp_perform, wp_ret. split; [done|]. rewrite opened_snoc, Ho. cbn. set_solver.
Qed.

Lemma wp_withMTU d mtu h :
  wp (withMTU d mtu) (λ stated h', opened h' = opened h ∧ ((0 < mtu)%Z → stated = Some mtu)) h.
Proof.
  unfold withMTU. destruct (Z.leb_spec mtu 0); [apply wp_ret; split; [done|lia]|].
  apply wp_bind, wp_perform, wp_ret. split; [by apply opened_perform|done].
Qed.

(** A device that is open, or closed by the step that failed. *)
Lemma wp_device_step d what c h (Q : result unit → history → Prop) :
  neutral c = true → opened h = {[d]} → (∀ e h', opened h' = ∅ → Q (Err e) h') →
  Q (Ok tt) (h ++ [(c, answer h c)]) → wp (device_step d what c) Q h.
Proof.
  intros Hc Hh Hbad Hgood. apply wp_checked; [|by intros _].
  intros e _. apply wp_bind, wp_perform, wp_ret, Hbad. rewrite opened_snoc, opened_perform, Hh by done. cbn. set_solver.
Qed.

Lemma wp_start_on cfg d h :
  opened h = {[d]} →
  wp (start_on cfg d) (λ r h', match r with
    | Ok s => device s = Some d ∧ consistent s ∧ opened h' = {[d]} ∧
              ∃ stated, (d, stated) ∈ told h' ∧ ((0 < Awg.MTU cfg)%Z → stated = Some (Awg.MTU cfg))
    | Err _ => opened h' = ∅
    end) h.
Proof.
  intros Hh. unfold start_on. apply wp_bind. eapply wp_mono; [|apply wp_withMTU].
  intros stated h1 [H1 Hst]. rewrite Hh in H1. apply wp_bind, wp_perform.
  set (h2 := h1 ++ _). assert (opened h2 = {[d]}) as H2 by (unfold h2; by rewrite opened_perform).
  assert ((d, stated) ∈ told h2) as Ht.
  { unfold h2. rewrite told_snoc. apply elem_of_app. right. by apply list_elem_of_singleton. }
  clearbody h2.
  apply wp_try, wp_device_step; [done|done|by intros|].
  apply wp_try, wp_device_step; [done|by rewrite opened_perform|by intros|].
  apply wp_bind, wp_perform, wp_bind. unfold now. apply wp_bind, wp_perform, wp_ret, wp_ret.
  rewrite !opened_perform, !told_snoc, !app_nil_r by done. split_and!; [done|done|done|eauto].
Qed.

Lemma wp_Start fd text s ms h :
  inv s ms h → wp (Start fd text s ms) (λ r h', inv r.2.1 r.2.2 h' ∧
    match r.1 with
    | Ok st => st = status r.2.1 ∧ Up st = true ∧ ∃ cfg d stated, AwgEndpoint.Parse text = Ok cfg ∧
        device r.2.1 = Some d ∧ (d, stated) ∈ told h' ∧ ((0 < Awg.MTU cfg)%Z → stated = Some (Awg.MTU cfg))
    | Err _ => r.2.1 = New ∧ opened h' = ∅
    end) h.
Proof.
  intros Hs. unfold Start. apply wp_bind. eapply wp_mono; [|by apply (wp_stopLocked s ms)].
  intros s1 h1 [-> Ho1]. apply wp_bind.
  apply (wp_mono _ (λ r h', match r with
    | Ok s => consistent s ∧ opened h' = dev_set (device s) ∧ ∃ cfg d stated, AwgEndpoint.Parse text = Ok cfg ∧
        device s = Some d ∧ (d, stated) ∈ told h' ∧ ((0 < Awg.MTU cfg)%Z → stated = Some (Awg.MTU cfg))
    | Err _ => opened h' = ∅
    end)).
  - intros [s2|e] h2.
    + intros (Hc & Ho & cfg & d & stated & Hp & Hd & Ht & Hm). apply wp_ret. cbn. rewrite Hd in *. split.
      * split_and!; [by rewrite Hd|done|]. intros d' Hd'. rewrite Hd in Hd'. injection Hd' as <-. by rewrite lookup_insert_eq.
      * unfold consistent in Hc. rewrite Hd in Hc. destruct Hc as (_ & _ & Hu & _). eauto 10.
    + intros Ho. apply wp_ret. by split.
  - apply wp_try, wp_ret. destruct (AwgEndpoint.Parse text) as [cfg|e]; cbn [wrap]; [|done].
    apply wp_try, wp_io_wrap. eapply wp_mono; [|apply adopt_opens].
    intros [d|e] h2; cbn [wrap]; [|congruence]. intros [H2 _].
    eapply wp_mono; [|apply wp_start_on; rewrite H2, Ho1; set_solver].
    intros [s2|e'] h3; [|done]. intros (Hd & Hc & H3 & stated & Ht & Hm).
    split; [done|]. rewrite Hd. split; [done|]. by exists cfg, d, stated.
Qed.
End Sessions.

(** ** Reading *)

Section Reading.
Context {env : Env}.

Lemma books_uapi s : keeps books (uapi s).
Proof. unfold uapi. destruct (device s); [apply quiet_read_device|apply keeps_ret]. Qed.
Lemma quiet_uapi s : keeps opened (uapi s).
Proof. apply quiet_opened, books_uapi. Qed.
Lemma total_uapi s : total (uapi s).
Proof. unfold uapi. destruct (device s); [apply total_read_device|apply total_ret]. Qed.

Lemma uapi_on `{!Clock env} s : reads_on (uapi s).
Proof. unfold uapi. destruct (device s); [apply read_device_on|]. intros h. by apply wp_ret. Qed.

Lemma uapi_answering s h :
  wlp (uapi s) (λ text h', answering_uapi text = true → ∃ d, device s = Some d ∧ has_answered d h') h.
Proof.
  unfold uapi. destruct (device s) as [d|]; [|done].
  eapply wlp_mono; [|apply wlp_read_answering]. intros text h' H Ha. exists d. auto.
Qed.

(** Reading a meter opens and closes nothing, comes back, and keeps what the
    store has. *)
Lemma wp_store_milliseconds m ms h :
  wp (store_milliseconds m ms) (λ r h', opened h' = opened h ∧ ∀ d, is_Some (ms !! d) → is_Some (r.2 !! d)) h.
Proof.
  unfold store_milliseconds. destruct (m ≫= λ d, ms !! d) as [mt|]; [|by apply wp_ret].
  apply wp_bind. apply (wp_mono _ (λ _ h', opened h' = opened h)).
  - intros r h1 H1. apply wp_ret. split; [done|]. intros d Hd. cbn. destruct m as [d'|], r.2; try done.
    destruct (decide (d = d')) as [->|]; [by rewrite lookup_insert_eq|by rewrite lookup_insert_ne].
  - apply wp_total; [unfold meter_milliseconds; destruct (seen mt); auto using total_now, total_bind with keeps|].
    apply (wlp_keeps opened); [|done]. unfold meter_milliseconds.
    destruct (seen mt); [apply keeps_bind; [apply opened_now|]; intros; apply keeps_ret|apply keeps_ret].
Qed.

Lemma wp_Status s1 s2 ms h :
  consistent s1 →
  wp (Status_of s1 s2 ms) (λ r h', opened h' = opened h ∧ (∀ d, is_Some (ms !! d) → is_Some (r.2 !! d)) ∧
    (Up r.1 = true ↔ is_Some (device s1)) ∧
    (fd_HandshakeUnix r.1 ≠ 0%Z → ∃ d, device s2 = Some d ∧ has_answered d h')) h.
Proof.
  intros Hc. assert (Up (status s1) = true ↔ is_Some (device s1)) as Hup.
  { unfold consistent in Hc. destruct (device s1) as [d|]; [destruct Hc as (_ & _ & -> & _); naive_solver|].
    subst. split; [done|by intros [? [=]]]. }
  assert (fd_HandshakeUnix (status s1) = 0%Z) as Hz.
  { unfold consistent in Hc. destruct (device s1); [naive_solver|by subst]. }
  unfold Status_of. destruct (negb (Up (status s1))) eqn:E; [apply wp_ret; cbn; split_and!; try done; by rewrite Hz|].
  apply negb_false_iff in E.
  apply wp_bind. eapply wp_mono; [|apply wp_store_milliseconds]. intros l h1 [H1 Hl].
  apply wp_bind.
  eapply wp_mono; [|apply wp_all; [apply total_uapi|apply quiet_uapi|apply uapi_answering]].
  intros text h2 [H2 Ha]. apply wp_ret. cbn. split_and!; [congruence|done|done|].
  intros Hne. apply Ha. destruct text as [t|]; [|done]. cbn. destruct (Z.eqb_spec (Handshake.Parse t) 0); done.
Qed.

(** The wait ends, when it has as many rounds as its timeout is long. *)
Lemma wp_WaitForHandshake `{!Clock env} fuel sessions timeout h :
  (timeout < pause * Z.of_nat fuel)%Z →
  wp (WaitForHandshake (S fuel) sessions timeout) (λ b h', opened h' = opened h ∧
    (b = true → ∃ i d, device (sessions i) = Some d ∧ has_answered d h')) h.
Proof.
  intros Ht. apply wp_total_at.
  - apply (wp_bind now). unfold now. apply wp_bind, wp_perform, wp_ret. rewrite now_is.
    pose proof (clock_mono h (Now, Instant (Effects.clock h))) as Hm.
    apply wp_wait_read; [intros i; apply uapi_on|lia].
  - apply wlp_conj.
    + apply (keeps_bind opened); [apply opened_now|]. intros t.
      apply quiet_opened, quiet_wait_read. intros i. apply books_uapi.
    + apply wlp_bind. eapply wlp_mono; [|apply wlp_any]. intros t h1 _.
      apply wlp_wait_read. intros i h2. eapply wlp_mono; [|apply uapi_answering]. intros text h3 H3 Ha. exists i. auto.
Qed.
End Reading.

(** Rounds enough for a timeout. *)
Definition rounds (timeout : Z) : nat := S (S (Z.to_nat (timeout / pause))).

Lemma rounds_enough timeout : (timeout < pause * Z.of_nat (S (Z.to_nat (timeout / pause))))%Z.
Proof.
  assert (0 < pause)%Z as Hp by done. pose proof (Z.div_mod timeout pause ltac:(lia)).
  pose proof (Z.mod_pos_bound timeout pause Hp). destruct (Z.le_gt_cases 0 (timeout / pause)).
  - rewrite Nat2Z.inj_succ, Z2Nat.id by done. lia.
  - assert (timeout < 0)%Z by nia. lia.
Qed.

(** ** Properties *)

(** What the host calls, one after the other. *)
Inductive op := HStart (fd : Z) (configText : string) | HStop | HStatus | HSocketFds | HWait (timeout : Z).

Definition run_op `{Env, Platform} (o : op) (w : Session * meters) : IO (Session * meters) :=
  match o with
  | HStart fd text => r ← Start fd text w.1 w.2; mret r.2
  | HStop => s ← Stop w.1; mret (s, w.2)
  | HStatus => r ← Status_of w.1 w.1 w.2; mret (w.1, r.2)
  | HSocketFds => _ ← SocketFds w.1; mret w
  | HWait timeout => _ ← WaitForHandshake (rounds timeout) (λ _, w.1) timeout; mret w
  end.

Fixpoint run_ops `{Env, Platform} (os : list op) (w : Session * meters) : IO (Session * meters) :=
  match os with [] => mret w | o :: os => w' ← run_op o w; run_ops os w' end.

Lemma inv_opened s ms h h' : inv s ms h → opened h' = opened h → inv s ms h'.
Proof. intros (Ho & Hc & Hm) H'. split_and!; [by rewrite H'|done|done]. Qed.

Lemma wp_run_ops `{!Clock env} `{!Adopter env P} os w h :
  inv w.1 w.2 h → wp (@run_ops env P os w) (λ w' h', inv w'.1 w'.2 h') h.
Proof.
  revert w h. induction os as [|o os IH]; intros [s ms] h Hw; cbn [run_ops]; [by apply wp_ret|].
  apply wp_bind, (wp_mono _ (λ w' h', inv w'.1 w'.2 h')); [auto|]. cbn [fst snd] in Hw.
  destruct o as [fd text| | | |timeout]; cbn [run_op fst snd]; apply wp_bind.
  - eapply wp_mono; [|by apply wp_Start]. by intros r h' [? _].
  - eapply wp_mono; [|by apply (wp_stopLocked s ms)]. intros s' h' [-> H']. by apply wp_ret, inv_new_session.
  - pose proof Hw as (Ho & Hc & Hm). eapply wp_mono; [|by apply wp_Status].
    intros r h' (H1 & H2 & _). apply wp_ret. split_and!; [by rewrite H1|done|]. intros d Hd. apply H2, Hm, Hd.
  - apply (wp_mono _ (λ _ h', opened h' = opened h)).
    + intros _ h' H'. apply wp_ret. by eapply inv_opened.
    + unfold SocketFds, peek. destruct (bind s); [|by apply wp_ret].
      do 2 (apply wp_bind, wp_bind, wp_perform, wp_ret). apply wp_ret. by rewrite !opened_perform.
  - eapply wp_mono; [|apply wp_WaitForHandshake, rounds_enough].
    intros b h' [H' _]. apply wp_ret. by eapply inv_opened.
Qed.

(** C8: Whatever the host calls, one operation after the other, starting,
    stopping, reading the status and the sockets and waiting for a handshake,
    on either platform, whatever the calls answer and with a clock that moves:
    every operation comes back, exactly one device is open while the session
    has one and none otherwise, and the session's fields agree: it says "up",
    has sockets and a meter exactly when it has a device. *)
Theorem Host_one_device {env : Env} {P : Platform} os :
  Clock env → Adopter env P → ∃ s ms h, run_ops os (New, ∅) [] = (Some (s, ms), h) ∧
    opened h = dev_set (device s) ∧ consistent s.
Proof.
  intros Hc HA. destruct (wp_eq _ _ _ (wp_run_ops os (New, ∅) [] (inv_new_session ∅ [] eq_refl))) as ([s ms] & h & H1 & Ho & Hs & _).
  by exists s, ms, h.
Qed.

(** An Android phone whose server answers, and an iPhone. *)
Definition phone : Env := simulated laptop false answering.

Lemma Host_one_device_witness :
  (∃ s ms h, @run_ops phone (@adopt_linux phone) [HWait 500000000; HStart 7 tunnel_text; HWait 500000000; HStart 8 tunnel_text; HStatus; HStop] (New, ∅) []
     = (Some (s, ms), h) ∧ opened h = dev_set (device s) ∧ consistent s) ∧
  ∃ s ms h, @run_ops phone (@adopt_darwin phone) [HStart 7 tunnel_text] (New, ∅) []
     = (Some (s, ms), h) ∧ opened h = dev_set (device s) ∧ consistent s.
Proof.
  split.
  - exact (@Host_one_device phone (@adopt_linux phone) _ (simulated_clock _ _ _) (linux_adopter phone)).
  - exact (@Host_one_device phone (@adopt_darwin phone) _ (simulated_clock _ _ _) (darwin_adopter phone)).
Defined.

(** [Start] on any session: when it succeeds it reports what it keeps, a
    tunnel that is up, on a device that was told the configuration's MTU if
    that is positive; when it fails nothing is up, the tunnel that was there
    before included, and every device it made is closed.  A configuration it
    refuses costs no call on a session with nothing up: the descriptor is then
    neither adopted nor closed. *)
Theorem Host_Start {env : Env} {P : Platform} fd text s ms h :
  Adopter env P → inv s ms h →
  ∃ r s' ms' h', Start fd text s ms h = (Some (r, (s', ms')), h') ∧ inv s' ms' h' ∧
    match r with
    | Ok st => st = status s' ∧ Up st = true ∧ ∃ cfg d stated, AwgEndpoint.Parse text = Ok cfg ∧
        device s' = Some d ∧ (d, stated) ∈ told h' ∧ ((0 < Awg.MTU cfg)%Z → stated = Some (Awg.MTU cfg))
    | Err _ => s' = New ∧ opened h' = ∅
    end ∧
    (device s = None → is_ok (AwgEndpoint.Parse text) = false → is_ok r = false ∧ h' = h).
Proof.
  intros HA Hs. destruct (wp_eq _ _ _ (wp_Start fd text s ms h Hs)) as ([r [s' ms']] & h' & H1 & H2 & H3).
  exists r, s', ms', h'. split_and!; [done|done|done|]. intros Hd Hp.
  unfold Start, stopLocked in H1. rewrite Hd in H1. destruct (AwgEndpoint.Parse text) as [|e]; [done|].
  cbn in H1. by injection H1 as <- _ _ <-.
Qed.

Lemma Host_Start_witness :
  ∃ r s' ms' h', @Start phone (@adopt_linux phone) 7 tunnel_text New ∅ [] = (Some (r, (s', ms')), h') ∧
    is_ok r = true ∧ ∃ d stated, device s' = Some d ∧ (d, stated) ∈ told h'.
Proof.
  destruct (@Host_Start phone (@adopt_linux phone) 7 tunnel_text New ∅ [] (linux_adopter phone) (inv_new_session ∅ [] eq_refl))
    as (r & s' & ms' & h' & H1 & _ & H2 & _).
  assert (is_ok <$> (fst <$> fst (@Start phone (@adopt_linux phone) 7 tunnel_text New ∅ [])) = Some true) as Hok
    by (vm_compute; reflexivity).
  rewrite H1 in Hok. injection Hok as Hok. exists r, s', ms', h'. split; [exact H1|]. split; [exact Hok|].
  destruct r as [st|e]; [|discriminate Hok]. destruct H2 as (_ & _ & cfg & d & stated & _ & Hd & Ht & _).
  exists d, stated. split; [exact Hd|exact Ht].
Defined.

(** What the host is told is so: [Status] says "up" exactly when a device
    was there when it looked, and a time of the last handshake only if the
    device that is there when it asks has reported one, whatever was started
    and stopped in between; [WaitForHandshake] ends, with rounds to spare for
    its timeout, and says yes only after a device that was there has reported
    a handshake. *)
Theorem Host_reads {env : Env} s1 s2 ms h fuel sessions timeout :
  Clock env → consistent s1 → (timeout < pause * Z.of_nat fuel)%Z →
  (∃ st ms' h', Status_of s1 s2 ms h = (Some (st, ms'), h') ∧ (Up st = true ↔ is_Some (device s1)) ∧
     (fd_HandshakeUnix st ≠ 0%Z → ∃ d, device s2 = Some d ∧ has_answered d h')) ∧
  (∃ b h', WaitForHandshake (S fuel) sessions timeout h = (Some b, h') ∧
     (b = true → ∃ i d, device (sessions i) = Some d ∧ has_answered d h')).
Proof.
  intros Hclock Hc Ht. split.
  - destruct (wp_eq _ _ _ (wp_Status s1 s2 ms h Hc)) as ([st ms'] & h' & H1 & _ & _ & H2 & H3).
    by exists st, ms', h'.
  - destruct (wp_eq _ _ _ (wp_WaitForHandshake fuel sessions timeout h Ht)) as (b & h' & H1 & _ & H2). eauto.
Qed.

Lemma Host_reads_witness :
  ∃ b h', @WaitForHandshake phone 52 (λ i, if (i <? 2)%nat then New else mkSession (Some 0) (Some 0) zero_status (Some 0))
    10000000000 [] = (Some b, h') ∧ b = true.
Proof.
  destruct (proj2 (@Host_reads phone New New ∅ [] 51
    (λ i, if (i <? 2)%nat then New else mkSession (Some 0) (Some 0) zero_status (Some 0)) 10000000000
    (simulated_clock _ _ _) eq_refl ltac:(vm_compute; reflexivity))) as (b & h' & H & _).
  exists b, h'. split; [exact H|].
  assert (fst (@WaitForHandshake phone 52 (λ i, if (i <? 2)%nat then New else mkSession (Some 0) (Some 0) zero_status (Some 0))
    10000000000 []) = Some true) as Hb by (vm_compute; reflexivity).
  rewrite H in Hb. injection Hb as Hb. exact Hb.
Defined.
