(* ===== verification/Libcaelo.v ===== *)
(** * The C interface: core/libcaelo

    Every call takes and returns text: [marshal], [success] and [failure] make
    the reply, one JSON object with an "ok".  A [map[string]any] is a finite
    map; [json.Marshal] writes its keys in order.  The process-wide state is
    an argument: the session and the threads on it (Tunnel.v), the session on
    the host's descriptor (Fdtun.v) and the log (Diag.v).

    The text of an error ([render]) and the versions linked in are parameters.
    The C strings themselves are memory of the caller; what a string must be
    to survive them is a theorem (LibcaeloFacts.v). *)

From stdpp Require Import sorting.
From S2P Require Import Prelude GoStrings NetAddr GoJson Awg AwgEndpoint Effects Diag Release Tunnel Probe Fdtun.
From stdpp Require Import options.

(** ** [map[string]any] through [encoding/json] *)

Abbreviation payload := (gmap string json).

Definition key_le (a b : string * json) : Prop := String.leb a.1 b.1 = true.
#[export] Instance key_le_dec : RelDecision key_le.
Proof. intros a b. unfold key_le. apply _. Defined.

(** The members of a map in the order they are written. *)
Definition in_order (p : payload) : list (string * json) := merge_sort key_le (map_to_list p).

(** [marshal]: the values put into the maps here can all be encoded. *)
Definition marshal (p : payload) : string := marshal_json (JObj (in_order p)).

(** *** Numbers: decoding into [any] makes each a float64 *)

(** The multiple of [d] nearest to [z], the even one of two. *)
Definition round_even (d z : Z) : Z :=
  let q := (z / d)%Z in
  let r := (z mod d)%Z in
  (if (2 * r <? d)%Z || ((2 * r =? d)%Z && Z.even q) then q * d else (q + 1) * d)%Z.

(** The float64 nearest to an integer of 64 bits: 53 significant bits. *)
Definition float64_of (z : Z) : Z :=
  let shift := (Z.log2 (Z.abs z) - 52)%Z in
  if (shift <=? 0)%Z then z else (Z.sgn z * round_even (2 ^ shift) (Z.abs z))%Z.

(** The shortest digits that round to [v], padded with zeros: as many zeros as
    possible, up to [n] of them. *)
Fixpoint shortest (n : nat) (v : Z) : Z :=
  match n with
  | O => v
  | S n' =>
      let d := (10 ^ Z.of_nat n)%Z in
      let lo := (v / d * d)%Z in
      let hi := (lo + d)%Z in
      match (float64_of lo =? v)%Z, (float64_of hi =? v)%Z with
      | true, true => if (v - lo <=? hi - v)%Z then lo else hi
      | true, false => lo
      | false, true => hi
      | false, false => shortest n' v
      end
  end.

(** How [json.Marshal] writes the float64 an integer was read as. *)
Definition float_text (z : Z) : string :=
  let v := float64_of z in Itoa (Z.sgn v * shortest 18 (Z.abs v)).

(** A member decoded into [any]: what is encoded here are flat structs, whose
    numbers are integers. *)
Definition any_value (v : json) : json :=
  match v with
  | JNum lit => JNum (match Atoi lit with Ok z => float_text z | Err _ => lit end)
  | v => v
  end.

(** [json.Unmarshal] into an empty map: the last member of a name counts. *)
Definition payload_of (ms : list (string * json)) : payload :=
  foldl (λ p m, <[m.1 := any_value m.2]> p) ∅ ms.

(** ** Structs, as their tags say *)

Class Wire (A : Type) := members : A → list (string * json).

(** An [omitempty] member. *)
Definition text_tag (name s : string) : list (string * json) :=
  if bool_decide (s = "") then [] else [(name, JStr s)].
Definition flag_tag (name : string) (b : bool) : list (string * json) :=
  if b then [(name, JBool b)] else [].
Definition number_tag (name : string) (z : Z) : list (string * json) :=
  if (z =? 0)%Z then [] else [(name, JNum (Itoa z))].

#[export] Instance info_wire : Wire Info := λ i,
  [("endpoint", JStr (i_Endpoint i)); ("mtu", JNum (Itoa (i_MTU i)));
   ("obfuscated", JBool (i_Obfuscated i)); ("protocol", JStr (i_Protocol i))].

#[export] Instance reachability_wire : Wire Reachability := λ r,
  [("address", JStr (Address r)); ("status", JStr (CheckStatus r)); ("elapsed_ms", JNum (Itoa (ElapsedMs r)))].

#[export] Instance result_wire : Wire Result := λ r,
  [("endpoint", JStr (rs_Endpoint r)); ("mtu", JNum (Itoa (rs_MTU r)));
   ("obfuscated", JBool (rs_Obfuscated r)); ("status", JStr (rs_Status r)); ("body", JStr (rs_Body r));
   ("elapsed_ms", JNum (Itoa (rs_ElapsedMs r)))]
  ++ match rs_LatencyMs r with Some ms => [("latency_ms", JNum (Itoa ms))] | None => [] end.

#[export] Instance status_wire : Wire Status := λ s,
  [("up", JBool (Fdtun.Up s))]
  ++ text_tag "endpoint" (fd_Endpoint s)
  ++ text_tag "protocol" (fd_Protocol s)
  ++ flag_tag "obfuscated" (fd_Obfuscated s)
  ++ number_tag "since_unix" (fd_SinceUnix s)
  ++ number_tag "handshake_unix" (fd_HandshakeUnix s)
  ++ number_tag "latency_ms" (fd_LatencyMs s).

(** ** Replies *)

Definition ms_to_ns (ms : Z) : Z := ms * 1000000.

Section Libcaelo.
Context (render : error → string) (core amneziawg : string).

Definition failure (e : error) : string := marshal {["ok" := JBool false; "error" := JStr (render e)]}.

(** [success]: the struct encoded, decoded into a map, and encoded again. *)
Definition success `{Wire A} (v : A) : string :=
  match json_read (marshal_json (JObj (members v))) with
  | Some (JObj ms) => marshal (<["ok" := JBool true]> (payload_of ms))
  | _ => failure [Foreign "json.Unmarshal" (marshal_json (JObj (members v)))]
  end.

Definition answered `{Wire A} (r : result A) : string :=
  match r with Ok v => success v | Err e => failure e end.

Definition done_ok : string := marshal {["ok" := JBool true]}.

(** ** The calls: libcaelo.go *)

Definition caelo_version : string :=
  marshal {["core" := JStr core; "amneziawg" := JStr amneziawg]}.

(** What is returned for what [session.Connect] returned; the call itself is a
    thread of Tunnel.v. *)
Definition caelo_connect (info : result Info) : string := answered info.

Definition caelo_disconnect : string := done_ok.

(** The reply to a thread's call, once it is done. *)
Definition call_reply (p : phase) : option string :=
  match p with
  | Done (Connected info) => Some (caelo_connect info)
  | Done Disconnected => Some caelo_disconnect
  | _ => None
  end.

Definition caelo_check (newRequest : string → result unit) (fetch : nat → string → Z → response) (elapsed : Z)
    (url : string) (timeoutMs : Z) (s : Tunnel.Session) : string :=
  answered (Check newRequest fetch elapsed url (ms_to_ns timeoutMs) s).

Definition caelo_probe `{Env, Traffic} (configText url : string) (timeoutMs : Z) (log : Log) : IO string :=
  r ← Run configText (mkOptions url (ms_to_ns timeoutMs) (Diag.Verbose log) false "");
  mret (answered r).

Definition caelo_measure_latency `{Env, Traffic} (configText url : string) (timeoutMs : Z) (log : Log) : IO string :=
  r ← Run configText (mkOptions url (ms_to_ns timeoutMs) (Diag.Verbose log) true "");
  mret (answered r).

Definition caelo_status (s : Tunnel.Session) : string :=
  let '(up, endpoint) := Tunnel.Up s in
  marshal {["ok" := JBool true; "up" := JBool up; "endpoint" := JStr endpoint]}.

(** A [[]string]: nil is null. *)
Definition strings (l : list string) : json := JArr (map JStr l).
Definition strings_or_nil (l : list string) : json := match l with [] => JNull | _ => strings l end.

(** Only a [.conf] file can leave the allowed addresses out, and then they are nil. *)
Definition caelo_describe (configText : string) : string :=
  match AwgEndpoint.Parse configText with
  | Err e => failure e
  | Ok cfg =>
      let addresses := map Addr_String (Addresses cfg) in
      let dns := map Addr_String (Awg.DNS cfg) in
      let dns := if (length dns =? 0)%nat then ["1.1.1.1"] else dns in
      marshal {[
        "ok" := JBool true;
        "addresses" := strings addresses;
        "mtu" := JNum (Itoa (Awg.MTU cfg));
        "dns" := strings dns;
        "allowed_ips" := strings_or_nil (AllowedIPs (peer cfg));
        "endpoint" := JStr (Endpoint (peer cfg));
        "obfuscated" := JBool (negb (bool_decide (Obfuscation cfg = ∅)))]}
  end.

(** [diag.Lines] copies onto a nil slice. *)
Definition caelo_log (log : Log) : string :=
  marshal {["ok" := JBool true; "verbose" := JBool (Diag.Verbose log); "lines" := strings_or_nil (Lines log)]}.

Definition caelo_set_verbose (stamp : string) (on : Z) (log : Log) : string * Log :=
  let log := SetVerbose stamp (negb (on =? 0)%Z) log in
  (marshal {["ok" := JBool true; "verbose" := JBool (Diag.Verbose log)]}, log).

Definition caelo_clear_log (log : Log) : string * Log := (done_ok, Clear log).

(** [json.Unmarshal] into a [[]string]. *)
Definition unmarshal_strings (text : string) : result (list string) :=
  match json_read text with Some v => dec_slice dec_string "" [] v | None => Err decode_error end.

(** [contents] is what reading the file at [path] gives; [None] is a panic. *)
Definition caelo_verify_release (ed25519 : list Z → list Z → list Z → bool) (contents : result (list Z))
    (signature keysJSON : string) : option string :=
  match unmarshal_strings keysJSON with
  | Err e => Some (failure ([Lit "reading the trusted keys: "] ++ e))
  | Ok encoded =>
      match ParseTrusted encoded with
      | Err e => Some (failure e)
      | Ok keys =>
          r ← VerifyFile ed25519 contents signature keys;
          Some match r with Err e => failure e | Ok _ => done_ok end
      end
  end.

(** ** The calls: libcaelo_fd.go *)

Definition caelo_connect_fd `{Env, Platform} (tunFd : Z) (configText : string)
    (hosted : Fdtun.Session) (ms : meters) : IO (string * (Fdtun.Session * meters)) :=
  o ← Fdtun.Start tunFd configText hosted ms; mret (answered o.1, o.2).

(** The sessions are those at each read of the wait. *)
Definition caelo_wait_handshake_fd `{Env} (fuel : nat) (timeoutMs : Z) (hosted : nat → Fdtun.Session) : IO string :=
  ok ← WaitForHandshake fuel hosted (ms_to_ns timeoutMs);
  mret (marshal {["ok" := JBool true; "handshake" := JBool ok]}).

Definition caelo_socket_fds `{Env} (hosted : Fdtun.Session) : IO string :=
  fds ← SocketFds hosted;
  mret (marshal {["ok" := JBool true; "v4" := JNum (Itoa fds.1); "v6" := JNum (Itoa fds.2)]}).

Definition caelo_disconnect_fd `{Env} (hosted : Fdtun.Session) : IO (string * Fdtun.Session) :=
  s ← Fdtun.Stop hosted; mret (done_ok, s).

Definition caelo_status_fd `{Env} (s1 s2 : Fdtun.Session) (ms : meters) : IO (string * meters) :=
  o ← Fdtun.Status_of s1 s2 ms; mret (success o.1, o.2).

End Libcaelo.
