(* ===== verification/LibcaeloFacts.v ===== *)
(** * What a caller of the C interface can rely on

    A reply is one line without control characters, so it survives as a C
    string; it is a JSON object, and the map an application decodes from it
    ([decode]) is the map the core wrote, with invalid UTF-8 replaced.  What
    [success] says of a struct is a property of its tags, stated by the class
    [Flat]: every struct the interface returns has an instance. *)

From stdpp Require Import sorting.
From S2P Require Import Prelude GoStrings GoEncoding NetAddr GoJson GoJsonFacts Awg AwgEndpoint Effects Diag Release RoutingFacts Systunnel SystunnelFacts SystunnelProps Simulated Tunnel Probe ProbeFacts Fdtun FdtunFacts Libcaelo.
From stdpp Require Import options.

(** ** Valid text stays valid *)

Lemma next_rune_piece s piece r r' : next_rune s = Some (piece, r) → next_rune (piece +:+ r') = Some (piece, r').
Proof.
  intros H. destruct (next_rune_view _ _ _ H) as [V _].
  destruct V as [c Hc -> -> | -> Hp | a b t -> -> Ha Hnext]; [|done|done].
  cbn. by rewrite (proj2 (Z.ltb_lt _ _)).
Qed.

Lemma next_rune_length s piece r : next_rune s = Some (piece, r) → 1 ≤ String.length piece.
Proof.
  intros H. destruct (next_rune_view _ _ _ H) as [V _].
  destruct V as [c Hc -> -> | -> Hp | a b t -> -> Ha Hnext]; cbn; lia.
Qed.

Lemma valid_text_idem m n s :
  String.length (valid_text m s) ≤ n → valid_text n (valid_text m s) = valid_text m s.
Proof.
  revert n s. induction m as [|m IH]; intros n s Hn; [by destruct n|].
  cbn [valid_text] in *. destruct (next_rune s) as [[piece r]|] eqn:E; [|by destruct n].
  rewrite string_length_app in Hn. pose proof (next_rune_length _ _ _ E).
  destruct n; [lia|]. cbn [valid_text]. rewrite (next_rune_piece _ _ _ _ E). by rewrite IH by lia.
Qed.

Lemma to_valid_idem s : to_valid (to_valid s) = to_valid s.
Proof. by apply valid_text_idem. Qed.

(** ** Values *)

(** The values the interface writes, and what is read back. *)
Inductive plain : json → Prop :=
  | plain_null : plain JNull
  | plain_bool b : plain (JBool b)
  | plain_num z : plain (JNum (Itoa z))
  | plain_str s : plain (JStr s)
  | plain_strings l : plain (strings l).
#[export] Hint Constructors plain : caelo.

Definition valid_value (v : json) : json :=
  match v with
  | JStr s => JStr (to_valid s)
  | JArr l => JArr (map (λ v, match v with JStr s => JStr (to_valid s) | v => v end) l)
  | v => v
  end.

Lemma plain_written v : plain v → written 1 (marshal_json v) (valid_value v).
Proof.
  intros [| b | z | s | l]; cbn [marshal_json valid_value].
  - apply written_null.
  - apply written_bool.
  - apply written_int.
  - apply written_string.
  - unfold strings. cbn [marshal_json]. apply written_array.
    induction l as [|s l IH]; cbn [map]; constructor; [apply written_string|done].
Qed.

Lemma plain_printable v : plain v → printable (marshal_json v).
Proof.
  intros [| [] | z | s | l]; try done; [apply Itoa_printable|apply marshal_string_printable|].
  unfold strings. cbn [marshal_json]. unfold marshal_array. rewrite map_map, !sall_app.
  assert (printable (Join (map (λ s, marshal_json (JStr s)) l) ",")) as E; [|by rewrite E].
  induction l as [|s l IH]; [done|]. destruct l as [|s' l]; [apply marshal_string_printable|].
  change (Join (map _ (s :: s' :: l)) ",") with
    (marshal_string s +:+ "," +:+ Join (map (λ s, marshal_json (JStr s)) (s' :: l)) ",").
  by rewrite !sall_app, marshal_string_printable, IH.
Qed.

(** ** Maps *)

Lemma in_order_perm p : in_order p ≡ₚ map_to_list p.
Proof. apply merge_sort_Permutation. Qed.

Lemma in_order_map p : list_to_map (in_order p) = p.
Proof.
  rewrite <- (list_to_map_to_list p) at 2. apply list_to_map_proper; [|apply in_order_perm].
  rewrite (in_order_perm p). apply NoDup_fst_map_to_list.
Qed.

(** What an application decodes from a reply. *)
Definition decode (line : string) : option payload :=
  match json_read line with Some (JObj l) => Some (list_to_map l) | _ => None end.

(** The values of a map that is written, and names that are valid text. *)
Definition writable (p : payload) : Prop := p ≠ ∅ ∧ map_Forall (λ k v, to_valid k = k ∧ plain v) p.

Lemma writable_in_order p : writable p → in_order p ≠ [] ∧ Forall (λ m, to_valid m.1 = m.1 ∧ plain m.2) (in_order p).
Proof.
  intros [Hne Hp]. split.
  - intros E. apply Hne, map_to_list_empty_iff, Permutation_nil_r. by rewrite <- (in_order_perm p), E.
  - apply list.Forall_forall. intros [k v] Hm. rewrite in_order_perm, elem_of_map_to_list in Hm. exact (Hp _ _ Hm).
Qed.

Lemma decode_members ms :
  ms ≠ [] → Forall (λ m, to_valid m.1 = m.1 ∧ plain m.2) ms →
  json_read (marshal_json (JObj ms)) = Some (JObj (map (λ m, (m.1, valid_value m.2)) ms)).
Proof.
  intros Hne H. cbn [marshal_json]. rewrite <- (sapp_nil_r (marshal_object _)).
  apply (json_read_object 1); [|by destruct ms|lia|done].
  clear Hne. induction H as [|m ms [Hk Hv] _ IH]; cbn [map]; constructor; [|done].
  split; [done|]. by apply plain_written.
Qed.

Lemma decode_marshal p : writable p → decode (marshal p) = Some (valid_value <$> p).
Proof.
  intros H. destruct (writable_in_order p H) as [Hne Hf]. unfold decode, marshal.
  rewrite decode_members by done. f_equal.
  change (map (λ m, (m.1, valid_value m.2)) (in_order p)) with (prod_map id valid_value <$> in_order p).
  rewrite list_to_map_fmap. by rewrite in_order_map.
Qed.

Lemma members_printable ms : Forall (λ m, to_valid m.1 = m.1 ∧ plain m.2) ms → printable (marshal_json (JObj ms)).
Proof.
  intros H. apply marshal_object_printable. induction H as [|m ms [_ Hv] _ IH]; cbn [map]; constructor; [|done].
  by apply plain_printable.
Qed.

Lemma marshal_printable p : writable p → printable (marshal p).
Proof. intros H. apply members_printable, writable_in_order, H. Qed.

(** ** [success] *)

(** Numbers below 2^53 pass through float64 unchanged. *)
Lemma float64_of_small z : (Z.abs z < 2 ^ 53)%Z → float64_of z = z.
Proof.
  intros H. unfold float64_of. assert (Z.log2 (Z.abs z) < 53)%Z as Hl.
  { destruct (Z.eq_dec (Z.abs z) 0%Z) as [-> |]; [done|]. apply Z.log2_lt_pow2; lia. }
  by rewrite (proj2 (Z.leb_le _ _)) by lia.
Qed.

Lemma round_even_ge d k z : (0 < d)%Z → (k * d ≤ z)%Z → (k * d ≤ round_even d z)%Z.
Proof.
  intros Hd Hz. unfold round_even. assert (k ≤ z / d)%Z by (apply Z.div_le_lower_bound; lia).
  destruct (_ || _); nia.
Qed.

Lemma float64_of_big z : (2 ^ 53 ≤ z)%Z → (2 ^ 53 ≤ float64_of z)%Z.
Proof.
  intros H. unfold float64_of. destruct (Z.leb_spec (Z.log2 (Z.abs z) - 52) 0); [done|].
  rewrite Z.abs_eq, Z.sgn_pos by lia. rewrite Z.mul_1_l. rewrite Z.abs_eq in * by lia.
  set (s := (Z.log2 z - 52)%Z) in *. pose proof (Z.log2_spec z ltac:(lia)) as [Hlo _].
  pose proof (Z.pow_pos_nonneg 2 s ltac:(lia) ltac:(lia)).
  assert (2 ^ 52 * 2 ^ s = 2 ^ Z.log2 z)%Z as E by (rewrite <- Z.pow_add_r; [f_equal|..]; lia).
  assert (53 ≤ Z.log2 z)%Z as Hl by lia. assert (2 ^ 53 ≤ 2 ^ Z.log2 z)%Z by (apply Z.pow_le_mono_r; lia).
  pose proof (round_even_ge (2 ^ s) (2 ^ 52) z ltac:(lia) ltac:(lia)). lia.
Qed.

Lemma shortest_small n v : (0 ≤ v < 2 ^ 53)%Z → shortest n v = v.
Proof.
  intros Hv. induction n as [|n IH]; [done|]. cbn [shortest].
  set (d := (10 ^ Z.of_nat (S n))%Z). assert (0 < d)%Z as Hd by (apply Z.pow_pos_nonneg; lia).
  pose proof (Z.div_mod v d ltac:(lia)). pose proof (Z.mod_pos_bound v d Hd).
  assert (0 ≤ v / d)%Z by (apply Z.div_pos; lia).
  set (lo := (v / d * d)%Z). assert (0 ≤ lo ≤ v ∧ v < lo + d)%Z by (unfold lo; nia).
  rewrite (float64_of_small lo) by lia.
  assert ((float64_of (lo + d) =? v)%Z = false) as ->.
  { apply Z.eqb_neq. destruct (Z.le_gt_cases (2 ^ 53) (lo + d)) as [Hb|Hb].
    - pose proof (float64_of_big _ Hb). lia.
    - rewrite float64_of_small by lia. lia. }
  destruct (Z.eqb_spec lo v); [done|apply IH].
Qed.

Lemma float_text_small z : (Z.abs z < 2 ^ 53)%Z → float_text z = Itoa z.
Proof.
  intros H. unfold float_text. cbv zeta. rewrite float64_of_small, shortest_small by lia.
  f_equal. lia.
Qed.

(** What is shown of a member. *)
Definition shown (v : json) : json := any_value (valid_value v).

(** A struct whose tags are distinct names, none of them "ok", over values of
    the simple kinds. *)
Class Flat (A : Type) `{Wire A} : Prop := {
  flat_names (v : A) : NoDup (members v).*1;
  flat_members (v : A) : Forall (λ m, to_valid m.1 = m.1 ∧ m.1 ≠ "ok" ∧ plain m.2) (members v);
  flat_some (v : A) : members v ≠ [];
}.

Lemma plain_shown v : plain v → plain (shown v) ∧ valid_value (shown v) = shown v.
Proof.
  unfold shown. intros [| b | z | s | l]; cbn.
  - auto with caelo.
  - auto with caelo.
  - unfold float_text. destruct (Atoi (Itoa z)); auto with caelo.
  - by rewrite to_valid_idem; auto with caelo.
  - unfold strings. rewrite map_map. cbn. split.
    + rewrite <- (map_map to_valid JStr). constructor.
    + f_equal. rewrite map_map. cbn. apply map_ext. intros s. by rewrite to_valid_idem.
Qed.

(** Filling a map from members of different names. *)
Lemma payload_of_members ms (p : payload) : NoDup ms.*1 → (∀ k, k ∈ ms.*1 → p !! k = None) →
  foldl (λ p m, <[m.1 := any_value m.2]> p) p ms = list_to_map (prod_map id any_value <$> ms) ∪ p.
Proof.
  revert p. induction ms as [|[k v] ms IH]; intros p Hnd Hp; cbn [foldl].
  { cbn. by rewrite (left_id_L ∅ (∪)). }
  cbn in Hnd. apply list.NoDup_cons in Hnd as [Hk Hnd].
  rewrite IH; [|done|].
  - cbn. rewrite <- insert_union_r; [by rewrite insert_union_l|].
    apply not_elem_of_list_to_map_1. rewrite <- list_fmap_compose. exact Hk.
  - intros k' Hk'. rewrite lookup_insert_ne by set_solver. apply Hp. cbn. set_solver.
Qed.

Section Success.
Context (render : error → string).

Lemma failure_writable e : writable {["ok" := JBool false; "error" := JStr (render e)]}.
Proof.
  split; [apply insert_non_empty|]. intros k v [[<- <-]|[_ [<- <-]%lookup_singleton_Some]]%lookup_insert_Some;
    by split; [vm_compute|auto with caelo].
Qed.

Lemma success_payload `{Flat A} (v : A) :
  success render v = marshal (<["ok" := JBool true]> (list_to_map (prod_map id shown <$> members v))).
Proof.
  unfold success. rewrite decode_members.
  2: { apply flat_some. }
  2: { eapply list.Forall_impl; [apply flat_members|]. naive_solver. }
  unfold payload_of. rewrite payload_of_members.
  - rewrite map_union_empty. change (map _ (members v)) with (prod_map id valid_value <$> members v).
    rewrite <- list_fmap_compose. do 3 f_equal.
  - change (map _ (members v)) with (prod_map id valid_value <$> members v).
    rewrite <- list_fmap_compose. apply flat_names.
  - intros. apply lookup_empty.
Qed.

Lemma shown_lookup `{Flat A} (v : A) k j :
  (list_to_map (prod_map id shown <$> members v) : payload) !! k = Some j →
  ∃ w, (k, w) ∈ members v ∧ j = shown w ∧ to_valid k = k ∧ k ≠ "ok" ∧ plain w.
Proof.
  intros Hk%elem_of_list_to_map_2. apply list_elem_of_fmap in Hk as ([k' w] & [= -> ->] & Hin).
  pose proof (flat_members v) as Hf. rewrite list.Forall_forall in Hf. specialize (Hf _ Hin). naive_solver.
Qed.

Lemma success_writable `{Flat A} (v : A) :
  writable (<["ok" := JBool true]> (list_to_map (prod_map id shown <$> members v))).
Proof.
  split; [apply insert_non_empty|]. intros k j [[<- <-]|[_ Hk]]%lookup_insert_Some.
  - split; [by vm_compute|auto with caelo].
  - destruct (shown_lookup _ _ _ Hk) as (w & _ & -> & ? & _ & Hw). split; [done|]. by apply plain_shown.
Qed.

Lemma decode_success `{Flat A} (v : A) :
  decode (success render v) = Some (<["ok" := JBool true]> (list_to_map (prod_map id shown <$> members v))).
Proof.
  rewrite success_payload, decode_marshal by apply success_writable. f_equal.
  rewrite fmap_insert. f_equal. apply map_eq. intros k. rewrite lookup_fmap.
  destruct (_ !! k) as [j|] eqn:E; [|done]. cbn. f_equal.
  destruct (shown_lookup _ _ _ E) as (w & _ & -> & _ & _ & Hw). by apply plain_shown.
Qed.

Lemma decode_failure e :
  decode (failure render e) = Some {["ok" := JBool false; "error" := JStr (to_valid (render e))]}.
Proof.
  unfold failure. rewrite decode_marshal by apply failure_writable.
  by rewrite fmap_insert, map_fmap_singleton.
Qed.
End Success.

(** From here on replies are known by what is read from them. *)
#[local] Opaque decode marshal.

(** ** The structs *)

#[local] Ltac tags :=
  repeat constructor; solve [by vm_compute | done | auto with caelo].
#[local] Ltac distinct := cbn; lazymatch goal with |- ?P => refine (bool_decide_unpack P _); by vm_compute end.

Lemma text_tag_flat name s : to_valid name = name → name ≠ "ok" →
  Forall (λ m, to_valid m.1 = m.1 ∧ m.1 ≠ "ok" ∧ plain m.2) (text_tag name s).
Proof. intros. unfold text_tag. case_bool_decide; repeat constructor; auto with caelo. Qed.
Lemma flag_tag_flat name b : to_valid name = name → name ≠ "ok" →
  Forall (λ m, to_valid m.1 = m.1 ∧ m.1 ≠ "ok" ∧ plain m.2) (flag_tag name b).
Proof. intros. unfold flag_tag. destruct b; repeat constructor; auto with caelo. Qed.
Lemma number_tag_flat name z : to_valid name = name → name ≠ "ok" →
  Forall (λ m, to_valid m.1 = m.1 ∧ m.1 ≠ "ok" ∧ plain m.2) (number_tag name z).
Proof. intros. unfold number_tag. destruct (z =? 0)%Z; repeat constructor; auto with caelo. Qed.

#[export] Instance info_flat : Flat Info.
Proof.
  split; intros v; [distinct|unfold members, info_wire; tags|done].
Qed.

#[export] Instance reachability_flat : Flat Reachability.
Proof.
  split; intros v; [distinct|unfold members, reachability_wire; tags|done].
Qed.

#[export] Instance result_flat : Flat Result.
Proof.
  split; intros v.
  - destruct v as [? ? ? ? ? ? ? []]; distinct.
  - destruct v as [? ? ? ? ? ? ? []]; unfold members, result_wire; tags.
  - done.
Qed.

(** Leaving members out keeps the names distinct. *)
Lemma names_sublist {A} `{Wire A} (v : A) names : (members v).*1 `sublist_of` names → NoDup names → NoDup (members v).*1.
Proof. intros Hs Hn. by eapply sublist_NoDup. Qed.

#[export] Instance status_flat : Flat Status.
Proof.
  split; intros v.
  - apply (names_sublist v ["up"; "endpoint"; "protocol"; "obfuscated"; "since_unix"; "handshake_unix"; "latency_ms"]);
      [|distinct].
    unfold members, status_wire, text_tag, flag_tag, number_tag. rewrite !fmap_app.
    apply (sublist_app ["up"] ["up"]); [done|].
    repeat first [apply (sublist_app _ [_]) | done]; repeat case_match; repeat constructor.
  - unfold members, status_wire. constructor; [tags|].
    repeat (apply list.Forall_app; split); (apply text_tag_flat || apply flag_tag_flat || apply number_tag_flat); done.
  - done.
Qed.

(** ** The calls *)

(** What a struct's reply says, name by name. *)
Lemma success_says render `{Flat A} (v : A) :
  ∃ p, decode (success render v) = Some p ∧ p !! "ok" = Some (JBool true) ∧
    dom p =@{gset string} {["ok"]} ∪ list_to_set (members v).*1 ∧
    ∀ name j, (name, j) ∈ members v → p !! name = Some (shown j).
Proof.
  eexists. split; [exact (decode_success render v)|]. split; [by rewrite lookup_insert_eq|]. split.
  - rewrite dom_insert_L, dom_list_to_map_L. by rewrite <- list_fmap_compose.
  - intros name j Hin. pose proof (flat_members v) as Hf. rewrite list.Forall_forall in Hf.
    specialize (Hf _ Hin) as (_ & Hne & _). rewrite lookup_insert_ne by done.
    apply elem_of_list_to_map_1; [rewrite <- list_fmap_compose; apply flat_names|].
    apply list_elem_of_fmap. by exists (name, j).
Qed.

Lemma success_printable render `{Flat A} (v : A) : printable (success render v).
Proof. rewrite (success_payload render v). exact (marshal_printable _ (success_writable v)). Qed.

Lemma failure_printable render e : printable (failure render e).
Proof. apply marshal_printable, failure_writable. Qed.

Lemma answered_printable render `{Flat A} (r : result A) : printable (answered render r).
Proof. destruct r; [exact (success_printable render _)|apply failure_printable]. Qed.

(** The "ok" of an answer is whether there is one. *)
Lemma answered_ok render `{Flat A} (r : result A) :
  ∃ p, decode (answered render r) = Some p ∧ p !! "ok" = Some (JBool (is_ok r)) ∧
    ∀ v, r = Ok v → ∀ name j, (name, j) ∈ members v → p !! name = Some (shown j).
Proof.
  destruct r as [v|e]; cbn [answered is_ok].
  - destruct (success_says render v) as (p & H1 & H2 & _ & H3). exists p. split_and!; [done|done|].
    by intros v' [= <-].
  - eexists. split; [apply decode_failure|]. by split.
Qed.

(** A map written out, of simple values under valid names. *)
#[local] Ltac writable :=
  split; [apply insert_non_empty|];
  repeat (apply map_Forall_insert_2; [split; [by vm_compute|auto with caelo]|]);
  apply map_Forall_empty.

Lemma strings_or_nil_plain l : plain (strings_or_nil l).
Proof. destruct l; cbn [strings_or_nil]; auto with caelo. Qed.
#[local] Hint Resolve strings_or_nil_plain : caelo.

Lemma done_ok_writable : writable {["ok" := JBool true]}.
Proof. split; [by apply map_non_empty_singleton|]. apply map_Forall_singleton. split; [by vm_compute|auto with caelo]. Qed.

Lemma decode_done_ok : decode done_ok = Some {["ok" := JBool true]}.
Proof. unfold done_ok. by rewrite decode_marshal by apply done_ok_writable. Qed.

(** ** Properties *)

(** C14: A reply survives the crossing.  What [success] makes of any struct the
    interface returns is one line without control characters, so it is whole as
    a C string; decoded, it has "ok" true, the struct's members and nothing
    else, each with its value: texts with invalid UTF-8 replaced, and integers
    as they are up to 2^53, although they pass through a float64.  What
    [failure] makes is such a line with "ok" false and the error's text. *)
Theorem reply_survives {A} `{Flat A} (render : error → string) (v : A) (e : error) :
  printable (success render v) ∧ printable (failure render e) ∧
  (∃ p, decode (success render v) = Some p ∧ p !! "ok" = Some (JBool true) ∧
     dom p =@{gset string} {["ok"]} ∪ list_to_set (members v).*1 ∧
     (∀ name b, (name, JBool b) ∈ members v → p !! name = Some (JBool b)) ∧
     (∀ name s, (name, JStr s) ∈ members v → p !! name = Some (JStr (to_valid s))) ∧
     (∀ name z, (name, JNum (Itoa z)) ∈ members v → (Z.abs z < 2 ^ 53)%Z → p !! name = Some (JNum (Itoa z)))) ∧
  decode (failure render e) = Some {["ok" := JBool false; "error" := JStr (to_valid (render e))]}.
Proof.
  split_and!; [exact (success_printable render v)|apply failure_printable| |apply decode_failure].
  destruct (success_says render v) as (p & H1 & H2 & H3 & H4). exists p. split_and!; [done..| | |].
  - intros name b Hin. by rewrite (H4 _ _ Hin).
  - intros name s Hin. by rewrite (H4 _ _ Hin).
  - intros name z Hin Hz. rewrite (H4 _ _ Hin). unfold shown. cbn.
    destruct (Atoi (Itoa z)) as [z'|] eqn:E; [|done].
    rewrite Atoi_Itoa in E by (unfold in_int64, int64_min, int64_max; lia). injection E as <-.
    by rewrite float_text_small.
Qed.

Definition sample_info : Info := mkInfo "vpn.example:51820" 1420 true "AmneziaWG".

Lemma reply_survives_witness :
  printable (success (λ _, "no") sample_info) ∧
  ∃ p, decode (success (λ _, "no") sample_info) = Some p ∧ p !! "mtu" = Some (JNum "1420").
Proof.
  destruct (reply_survives (λ _, "no") sample_info []) as (H1 & _ & (p & H2 & _ & _ & _ & _ & H3) & _).
  split; [exact H1|]. exists p. split; [exact H2|].
  apply (H3 "mtu" 1420%Z); [|vm_compute; reflexivity]. do 1 apply list_elem_of_further. apply list_elem_of_here.
Defined.

(** C29: An update is accepted only with a trusted signature: the call never
    panics and always gives a readable reply, whose "ok" is true exactly when
    the keys are an array of base64 keys of 32 bytes, not empty, the file could
    be read, and the 64-byte signature is one that one of those keys verifies
    for the file's contents. *)
Theorem verify_release_exact render ed25519 contents signature keysJSON :
  ∃ line p, caelo_verify_release render ed25519 contents signature keysJSON = Some line ∧
    printable line ∧ decode line = Some p ∧
    (p !! "ok" = Some (JBool true) ↔ ∃ encoded keys message sig key,
       unmarshal_strings keysJSON = Ok encoded ∧ mapM b64_decode encoded = Some keys ∧
       Forall (λ k, length k = PublicKeySize) keys ∧ contents = Ok message ∧
       b64_decode signature = Some sig ∧ length sig = SignatureSize ∧
       key ∈ keys ∧ ed25519 key message sig = true).
Proof.
  assert (∀ e (P : Prop), ¬ P → ∃ line p, Some (failure render e) = Some line ∧ printable line ∧
    decode line = Some p ∧ (p !! "ok" = Some (JBool true) ↔ P)) as Hfail.
  { intros e P HP. eexists _, _. split; [done|]. split; [apply failure_printable|].
    split; [apply decode_failure|]. split; [done|tauto]. }
  unfold caelo_verify_release. destruct (unmarshal_strings keysJSON) as [encoded|e].
  2: { apply Hfail. by intros (? & ? & ? & ? & ? & ? & _). }
  destruct (ParseTrusted encoded) as [keys|e] eqn:Hp.
  2: { apply Hfail. intros (enc & keys & message & sig & key & [= <-] & Hm & Hf & _ & _ & _ & Hin & _).
       enough (ParseTrusted encoded = Ok keys) by congruence. apply ParseTrusted_spec.
       split; [by intros ->; apply elem_of_nil in Hin|done]. }
  apply ParseTrusted_spec in Hp as (Hne & Hm & Hf).
  destruct contents as [message|e]; cbn [VerifyFile mbind option_bind].
  2: { apply Hfail. by intros (? & ? & ? & ? & ? & _ & _ & _ & ? & _). }
  rewrite Verify_spec by done. cbn [mbind option_bind].
  destruct (b64_decode signature) as [sig|].
  2: { apply Hfail. by intros (? & ? & ? & ? & ? & _ & _ & _ & _ & ? & _). }
  destruct (bool_decide (length sig = SignatureSize)) eqn:Hs; cbn [andb].
  2: { apply bool_decide_eq_false in Hs. apply Hfail.
       by intros (? & ? & ? & ? & ? & _ & _ & _ & _ & [= <-] & ? & _). }
  apply bool_decide_eq_true in Hs. destruct (existsb _ keys) eqn:He.
  - eexists _, _. split; [done|]. split; [apply marshal_printable, done_ok_writable|].
    split; [exact decode_done_ok|]. split; [intros _|done].
    apply existsb_elem in He as (key & Hin & Hk). by exists encoded, keys, message, sig, key.
  - apply Hfail. intros (enc & keys' & message' & sig' & key & [= <-] & Hm' & _ & [= <-] & [= <-] & _ & Hin & Hk).
    rewrite Hm in Hm'. injection Hm' as <-.
    enough (existsb (λ k, ed25519 k message sig) keys = true) by congruence. apply existsb_elem. eauto.
Qed.

Lemma probe_call {env : Env} {tr : Traffic} (measure : bool) render text url timeoutMs log :
  (if measure then caelo_measure_latency render text url timeoutMs log
   else caelo_probe render text url timeoutMs log) =
  (r ← Run text (mkOptions url (ms_to_ns timeoutMs) (Diag.Verbose log) measure ""); mret (answered render r)).
Proof. by destruct measure. Qed.

(** The members of a probe's result. *)
Lemma result_members (r : Result) :
  ("endpoint", JStr (rs_Endpoint r)) ∈ members r ∧ ("obfuscated", JBool (rs_Obfuscated r)) ∈ members r ∧
  ∀ ms, rs_LatencyMs r = Some ms → ("latency_ms", JNum (Itoa ms)) ∈ members r.
Proof.
  unfold members, result_wire. split; [apply list_elem_of_here|].
  split; [do 2 apply list_elem_of_further; apply list_elem_of_here|].
  intros ms ->. apply elem_of_app. right. apply list_elem_of_here.
Qed.

(** One configuration tried, nothing left behind.  [caelo_probe] and
    [caelo_measure_latency] come back whatever the network and the device do,
    with a readable reply; the device they made is closed; the log stays as
    verbose as the application had it; and a reply that is "ok" is about the
    configuration that was given, with a latency exactly when that was the
    call. *)
Theorem probe_calls {env : Env} {tr : Traffic} (measure : bool) render text url timeoutMs log h :
  let call := if measure then caelo_measure_latency render text url timeoutMs log
              else caelo_probe render text url timeoutMs log in
  ∃ line p h', call h = (Some line, h') ∧ printable line ∧ decode line = Some p ∧
    opened h' = opened h ∧ (∀ on, on ∈ switches h' → on ∈ switches h ∨ on = Diag.Verbose log) ∧
    (p !! "ok" = Some (JBool true) → ∃ cfg, AwgEndpoint.Parse text = Ok cfg ∧
       p !! "endpoint" = Some (JStr (to_valid (Endpoint (peer cfg)))) ∧
       p !! "obfuscated" = Some (JBool (negb (bool_decide (Obfuscation cfg = ∅)))) ∧
       (measure = true → is_Some (p !! "latency_ms"))).
Proof.
  cbv zeta. rewrite probe_call. set (opts := mkOptions url (ms_to_ns timeoutMs) (Diag.Verbose log) measure "").
  destruct (wp_eq _ _ _ (wp_all _ _ _ h (total_Run text opts h) (Run_closes text opts h)
    (wlp_conj _ _ _ h (Run_switches text opts h) (Run_reports text opts h)))) as (r & h' & Hrun & Ho & Hsw & new & _ & Hr).
  destruct (answered_ok render r) as (p & Hd & Hok & Hm).
  exists (answered render r), p, h'.
  split; [by apply run_map|].
  split; [exact (answered_printable render r)|]. split; [done|]. split; [done|]. split; [done|].
  rewrite Hok. intros [= Htrue]. destruct r as [res|e]; [|done].
  destruct (Hr res eq_refl) as (cfg & Hp & He & _ & Hob & _ & _ & Hl & _). exists cfg.
  specialize (Hm res eq_refl). destruct (result_members res) as (H1 & H2 & H3).
  split; [done|]. split_and!.
  - rewrite (Hm _ _ H1), He. done.
  - assert (rs_Obfuscated res = negb (bool_decide (Obfuscation cfg = ∅))) as Eo; [|by rewrite (Hm _ _ H2), Eo].
    apply eq_true_iff_eq. by rewrite Hob, negb_true_iff, bool_decide_eq_false.
  - intros ->. destruct (proj2 Hl eq_refl) as [ms Hms]. rewrite (Hm _ _ (H3 ms Hms)). by eexists.
Qed.

(** *** The hosted tunnel *)

(** The members of a status that are always there. *)
Lemma status_members (s : Status) : ("up", JBool (Fdtun.Up s)) ∈ members s.
Proof. apply list_elem_of_here. Qed.

Section Hosted.
Context {env : Env} {P : Platform} `{!Adopter env P} (render : error → string).
#[local] Set Default Proof Using "Type*".

(** A reply about the session left: readable, and true to it. *)
Definition tells (s : Fdtun.Session) (line : string) : Prop :=
  printable line ∧ ∃ p, decode line = Some p ∧
    (p !! "ok" = Some (JBool false) ∧ device s = None ∨
     p !! "ok" = Some (JBool true) ∧ p !! "up" = Some (JBool (bool_decide (is_Some (device s))))).

Lemma consistent_up s : consistent s → Fdtun.Up (status s) = bool_decide (is_Some (device s)).
Proof.
  unfold consistent. destruct (device s); [|by intros ->]. intros (_ & _ & -> & _). by rewrite bool_decide_true.
Qed.

Lemma tells_answered (r : result Status) (s : Fdtun.Session) :
  match r with Ok st => Fdtun.Up st = bool_decide (is_Some (device s)) | Err _ => device s = None end →
  tells s (answered render r).
Proof.
  intros Hr. split; [exact (answered_printable render r)|]. destruct (answered_ok render r) as (p & Hd & Hok & Hm).
  exists p. split; [done|]. cbn [is_ok] in Hok. destruct r as [st|e]; [right|left]; (split; [exact Hok|]); [|exact Hr].
  pose proof (Hm st eq_refl _ _ (status_members st)) as Hup. rewrite Hr in Hup. exact Hup.
Qed.

Lemma wp_connect_fd fd text s ms h : inv s ms h →
  wp (caelo_connect_fd render fd text s ms) (λ r h', inv r.2.1 r.2.2 h' ∧ tells r.2.1 r.1) h.
Proof.
  intros Hs. apply wp_bind. eapply wp_mono; [|by apply wp_Start]. intros [r [s' ms']] h' [Hi Hr].
  apply wp_ret. split; [done|]. cbn in *. apply tells_answered. destruct r as [st|e].
  - destruct Hr as (-> & Hup & cfg & d & stated & _ & -> & _). by rewrite Hup.
  - by destruct Hr as [-> _].
Qed.

Lemma wp_status_fd s ms h : inv s ms h →
  wp (caelo_status_fd render s s ms) (λ r h', inv s r.2 h' ∧ tells s r.1) h.
Proof.
  intros (Ho & Hc & Hm). apply wp_bind. eapply wp_mono; [|by apply wp_Status].
  intros [st ms'] h' (H1 & H2 & H3 & _). apply wp_ret. cbn in *. split.
  - split_and!; [by rewrite H1|done|]. intros d Hd. by apply H2, Hm.
  - apply (tells_answered (Ok st)). apply eq_true_iff_eq. by rewrite bool_decide_eq_true.
Qed.
End Hosted.

(** The calls a host makes on its tunnel, one after the other. *)
Inductive host_call :=
  | ConnectFd (fd : Z) (configText : string) | StatusFd | SocketFdsCall | DisconnectFd | WaitHandshakeFd (timeoutMs : Z).

Definition host_step `{Env, Platform} render (c : host_call) (w : Fdtun.Session * meters)
    : IO (string * (Fdtun.Session * meters)) :=
  match c with
  | ConnectFd fd text => caelo_connect_fd render fd text w.1 w.2
  | StatusFd => r ← caelo_status_fd render w.1 w.1 w.2; mret (r.1, (w.1, r.2))
  | SocketFdsCall => line ← caelo_socket_fds w.1; mret (line, w)
  | DisconnectFd => r ← caelo_disconnect_fd w.1; mret (r.1, (r.2, w.2))
  | WaitHandshakeFd timeoutMs =>
      line ← caelo_wait_handshake_fd (rounds (ms_to_ns timeoutMs)) timeoutMs (λ _, w.1); mret (line, w)
  end.

(** What was done so far. *)
Definition so_far : IO history := λ h, (Some h, h).

(** A reply, the session it leaves and what had been done by then. *)
Record reply := mkReply { to_call : host_call; text : string; leaving : Fdtun.Session; done_then : history }.

Fixpoint host_calls `{Env, Platform} render (cs : list host_call) (w : Fdtun.Session * meters)
    : IO (list reply * (Fdtun.Session * meters)) :=
  match cs with
  | [] => mret ([], w)
  | c :: cs =>
      r ← host_step render c w;
      h ← so_far;
      rest ← host_calls render cs r.2;
      mret (mkReply c r.1 r.2.1 h :: rest.1, rest.2)
  end.

(** What each reply says. *)
Definition host_told (c : host_call) (line : string) (s : Fdtun.Session) (h : history) : Prop :=
  printable line ∧
  match c with
  | ConnectFd _ _ | StatusFd => tells s line
  | SocketFdsCall => ∃ v4 v6, decode line =
      Some {["ok" := JBool true; "v4" := JNum (Itoa v4); "v6" := JNum (Itoa v6)]}
  | DisconnectFd => decode line = Some {["ok" := JBool true]} ∧ device s = None
  | WaitHandshakeFd _ => ∃ b, decode line = Some {["ok" := JBool true; "handshake" := JBool b]} ∧
      (b = true → ∃ d, device s = Some d ∧ has_answered d h)
  end.
Definition is_told (r : reply) : Prop := host_told (to_call r) (text r) (leaving r) (done_then r).

Lemma fds_writable v4 v6 : writable {["ok" := JBool true; "v4" := JNum (Itoa v4); "v6" := JNum (Itoa v6)]}.
Proof. writable. Qed.

Lemma handshake_writable b : writable {["ok" := JBool true; "handshake" := JBool b]}.
Proof. writable. Qed.

Lemma wp_host_step {env : Env} {P : Platform} `{!Clock env} `{!Adopter env P} render c w h :
  inv w.1 w.2 h →
  wp (host_step render c w) (λ r h', inv r.2.1 r.2.2 h' ∧ host_told c r.1 r.2.1 h') h.
Proof.
  destruct w as [s ms]. cbn [fst snd]. intros Hs. destruct c as [fd conf| | | |timeoutMs]; cbn [host_step fst snd].
  - eapply wp_mono; [|by apply wp_connect_fd]. intros r h' [Hi Ht]. split; [done|]. split; [apply Ht|exact Ht].
  - apply wp_bind. eapply wp_mono; [|by apply wp_status_fd]. intros r h' [Hi Ht]. apply wp_ret.
    split; [done|]. split; [apply Ht|exact Ht].
  - apply wp_bind, wp_bind. apply (wp_mono _ (λ _ h', opened h' = opened h)).
    + intros fds h' H'. apply wp_ret, wp_ret. destruct Hs as (Ho & Hc & Hm).
      split; [by split_and!; [rewrite H'|..]|]. split; [apply marshal_printable, fds_writable|].
      exists fds.1, fds.2. cbn [fst]. by rewrite decode_marshal by apply fds_writable.
    + unfold SocketFds, peek. destruct (bind s); [|by apply wp_ret].
      do 2 (apply wp_bind, wp_bind, wp_perform, wp_ret). apply wp_ret. by rewrite !opened_perform.
  - apply wp_bind, wp_bind. eapply wp_mono; [|by apply (wp_stopLocked s ms)].
    intros s' h' [-> Ho]. apply wp_ret, wp_ret. split; [by apply inv_new_session|].
    split; [apply marshal_printable, done_ok_writable|]. split; [exact decode_done_ok|done].
  - apply wp_bind, wp_bind. eapply wp_mono; [|apply wp_WaitForHandshake, rounds_enough].
    intros b h' [H' Hb]. apply wp_ret, wp_ret. split; [by eapply inv_opened|].
    split; [apply marshal_printable, handshake_writable|]. exists b. cbn [fst]. split; [by rewrite decode_marshal by apply handshake_writable|].
    intros Htrue. destruct (Hb Htrue) as (_ & d & Hd). by exists d.
Qed.

(** C11: The host's calls, composed: whatever is called in whatever order on the
    hosted tunnel, one call after the other and with a clock that moves, every
    call comes back with a readable reply, and the replies are true.  Those of
    [caelo_connect_fd] and [caelo_status_fd] say "up" exactly when the session
    then has a device, a failed connect leaves none, after [caelo_disconnect_fd]
    there is none, [caelo_wait_handshake_fd] says that there was a handshake only
    if the session's device has reported one by then; and in the end exactly
    the session's device is open. *)
Theorem host_calls_true {env : Env} {P : Platform} render cs :
  Clock env → Adopter env P → ∃ replies s ms h, host_calls render cs (Fdtun.New, ∅) [] = (Some (replies, (s, ms)), h) ∧
    to_call <$> replies = cs ∧ Forall is_told replies ∧ opened h = dev_set (device s).
Proof.
  intros Hclock HA. assert (∀ cs w h, inv w.1 w.2 h → wp (host_calls render cs w) (λ r h',
    inv r.2.1 r.2.2 h' ∧ to_call <$> r.1 = cs ∧ Forall is_told r.1) h) as Hall.
  { clear cs. induction cs as [|c cs IH]; intros w h Hw; cbn [host_calls]; [by apply wp_ret|].
    apply wp_bind. eapply wp_mono; [|by apply wp_host_step]. intros r h1 [H1 Ht].
    apply (wp_bind so_far). change (wp so_far ?Q h1) with (Q h1 h1). cbv beta.
    apply wp_bind. eapply wp_mono; [|by apply IH]. intros rest h2 (H2 & Hc & Hf). apply wp_ret. cbn.
    split_and!; [done|by f_equal|by constructor]. }
  destruct (wp_eq _ _ _ (Hall cs (Fdtun.New, ∅) [] (inv_new_session ∅ [] eq_refl))) as
    ([replies [s ms]] & h & H1 & (Ho & _) & H2 & H3). by exists replies, s, ms, h.
Qed.

Definition sample_calls : list host_call :=
  [StatusFd; ConnectFd 7 tunnel_text; WaitHandshakeFd 500; SocketFdsCall; ConnectFd 8 "nonsense"; WaitHandshakeFd 500; DisconnectFd].

Lemma host_calls_true_witness :
  ∃ replies s ms h, @host_calls phone (@adopt_linux phone) (λ _, "no") sample_calls (Fdtun.New, ∅) []
    = (Some (replies, (s, ms)), h) ∧ to_call <$> replies = sample_calls ∧
    Forall is_told replies ∧ opened h = dev_set (device s).
Proof.
  exact (@host_calls_true phone (@adopt_linux phone) (λ _, "no") sample_calls (simulated_clock _ _ _) (linux_adopter phone)).
Defined.

(** What they are told. *)
Example sample_replies :
  map text <$> (fst <$> fst (@host_calls phone (@adopt_linux phone) (λ _, "no")
     [StatusFd; WaitHandshakeFd 500; ConnectFd 7 tunnel_text; WaitHandshakeFd 500; ConnectFd 8 "nonsense"] (Fdtun.New, ∅) []))
  = Some [marshal {["ok" := JBool true; "up" := JBool false]};
          marshal {["ok" := JBool true; "handshake" := JBool false]};
          success (λ _, "no") (Fdtun.mkStatus true "203.0.113.10:51820" "AmneziaWG" true 0 0 0);
          marshal {["ok" := JBool true; "handshake" := JBool true]};
          marshal {["ok" := JBool false; "error" := JStr "no"]}].
Proof. vm_compute. reflexivity. Qed.

(** *** Describing a configuration *)

Lemma valid_strings l : valid_value (strings l) = strings (map to_valid l).
Proof. unfold strings. cbn [valid_value]. by rewrite !map_map. Qed.

(** What Android is told of a configuration is what the core will run: for
    one that is accepted, the reply is readable and has its addresses, its MTU
    as it is, whatever its size, its endpoint and routes, and at least one DNS
    server, its own if it has any; one that is not accepted gives an error. *)
Theorem describe_says render text :
  printable (caelo_describe render text) ∧
  ∃ p, decode (caelo_describe render text) = Some p ∧
    match AwgEndpoint.Parse text with
    | Err e => p !! "ok" = Some (JBool false) ∧ p !! "error" = Some (JStr (to_valid (render e)))
    | Ok cfg =>
        p !! "ok" = Some (JBool true) ∧
        p !! "addresses" = Some (strings (map to_valid (map Addr_String (Addresses cfg)))) ∧
        p !! "mtu" = Some (JNum (Itoa (Awg.MTU cfg))) ∧
        p !! "endpoint" = Some (JStr (to_valid (Endpoint (peer cfg)))) ∧
        p !! "allowed_ips" = Some (match AllowedIPs (peer cfg) with
          | [] => JNull | l => strings (map to_valid l) end) ∧
        ∃ dns, p !! "dns" = Some (strings dns) ∧ dns ≠ [] ∧
          (Awg.DNS cfg ≠ [] → dns = map to_valid (map Addr_String (Awg.DNS cfg)))
    end.
Proof.
  unfold caelo_describe. destruct (AwgEndpoint.Parse text) as [cfg|e].
  2: { split; [apply failure_printable|]. eexists. split; [apply decode_failure|]. by split. }
  cbv zeta. set (dns := if (_ =? 0)%nat then _ else _).
  assert (dns ≠ [] ∧ (Awg.DNS cfg ≠ [] → map to_valid dns = map to_valid (map Addr_String (Awg.DNS cfg)))) as [Hne Hdns].
  { subst dns. destruct (Awg.DNS cfg) as [|a l]; [by split|]. by split. }
  clearbody dns. match goal with |- context [marshal ?p] => assert (writable p) as Hw by writable end.
  split; [by apply marshal_printable|]. rewrite decode_marshal by done. eexists. split; [done|].
  rewrite !lookup_fmap. split_and!.
  - by rewrite lookup_insert_eq.
  - rewrite lookup_insert_ne, lookup_insert_eq by done. cbn [fmap option_fmap option_map]. by rewrite valid_strings.
  - by do 2 rewrite lookup_insert_ne by done; rewrite lookup_insert_eq.
  - do 5 rewrite lookup_insert_ne by done. by rewrite lookup_insert_eq.
  - do 4 rewrite lookup_insert_ne by done. rewrite lookup_insert_eq. cbn [fmap option_fmap option_map].
    destruct (AllowedIPs (peer cfg)); [done|]. cbn [strings_or_nil]. by rewrite valid_strings.
  - exists (map to_valid dns). do 3 rewrite lookup_insert_ne by done. rewrite lookup_insert_eq.
    cbn [fmap option_fmap option_map]. rewrite valid_strings. split_and!; [done|by destruct dns|done].
Qed.
