(* ===== verification/Service.v ===== *)
(** * The privileged service: core/cmd/caelo-service/main.go, core/internal/ipc

    One request per connection: a line of JSON in, a line of JSON out.
    [handle] drives the [Controller] of Systunnel.v; [serve] is the connection
    around it.  [Idler] is the goroutines that end the process when nobody
    needs it, as a step function on what they share.

    What the operating system says of a peer ([authorise]), the text of an
    error ([render]) and the versions linked into the binary are parameters. *)

From S2P Require Import Prelude GoStrings GoJson AwgEndpoint Effects Routing Systunnel.
From Stdlib Require Import Ascii.
From stdpp Require Import options.

(** ** The protocol: ipc/protocol.go *)

Definition ProtocolVersion : Z := 1.

Definition CommandConnect : string := "connect".
Definition CommandDisconnect : string := "disconnect".
Definition CommandStatus : string := "status".
Definition CommandVersion : string := "version".

Record Request := mkRequest { Command : string; rq_ProtocolVersion : Z; rq_Config : string }.

Record Response := mkResponse {
  OK : bool; Error : string;
  rs_Up : bool; rs_Interface : string; rs_Endpoint : string; rs_Protocol : string;
  rs_Obfuscated : bool; rs_SinceUnix : Z; rs_HandshakeUnix : Z; rs_LatencyMs : Z;
  Core : string; AmneziaWG : string; rs_ProtocolVersion : Z;
}.

(** [ipc.Response{Error: text}]. *)
Definition refusal (text : string) : Response :=
  mkResponse false text false "" "" "" false 0 0 0 "" "" 0.

(** [json.Unmarshal] into a zero [ipc.Request]. *)
Definition dec_request (v : json) : result Request :=
  match v with
  | JNull => Ok (mkRequest "" 0 "")
  | JObj ms =>
      command ← field "command" dec_string "" ms;
      version ← field "protocol_version" dec_int 0%Z ms;
      config ← field "config" dec_string "" ms;
      Ok (mkRequest command version config)
  | _ => Err decode_error
  end.

Definition unmarshal_request (line : string) : result Request :=
  match json_read line with Some v => dec_request v | None => Err decode_error end.

(** [json.Unmarshal] into a zero [ipc.Response], as an application in Go reads
    the reply. *)
Definition dec_bool (old : bool) (v : json) : result bool :=
  match v with JNull => Ok old | JBool b => Ok b | _ => Err decode_error end.

Definition dec_response (ms : list (string * json)) : result Response :=
  ok ← field "ok" dec_bool false ms;
  error ← field "error" dec_string "" ms;
  up ← field "up" dec_bool false ms;
  interface ← field "interface" dec_string "" ms;
  endpoint ← field "endpoint" dec_string "" ms;
  protocol ← field "protocol" dec_string "" ms;
  obfuscated ← field "obfuscated" dec_bool false ms;
  since ← field "since_unix" dec_int 0%Z ms;
  handshake ← field "handshake_unix" dec_int 0%Z ms;
  latency ← field "latency_ms" dec_int 0%Z ms;
  core ← field "core" dec_string "" ms;
  amneziawg ← field "amneziawg" dec_string "" ms;
  version ← field "protocol_version" dec_int 0%Z ms;
  Ok (mkResponse ok error up interface endpoint protocol obfuscated since handshake latency
        core amneziawg version).

Definition unmarshal_response (line : string) : result Response :=
  match json_read line with
  | Some JNull => Ok (mkResponse false "" false "" "" "" false 0 0 0 "" "" 0)
  | Some (JObj ms) => dec_response ms
  | _ => Err decode_error
  end.

(** [json.Marshal] of a response: the members in the order of the struct, the
    [omitempty] ones only when they are not zero. *)
Definition response_members (r : Response) : list (string * string) :=
  let text name s := if bool_decide (s = "") then [] else [(name, marshal_string s)] in
  let flag name (b : bool) := if b then [(name, marshal_bool b)] else [] in
  let number name z := if (z =? 0)%Z then [] else [(name, Itoa z)] in
  [("ok", marshal_bool (OK r))]
  ++ text "error" (Error r)
  ++ flag "up" (rs_Up r)
  ++ text "interface" (rs_Interface r)
  ++ text "endpoint" (rs_Endpoint r)
  ++ text "protocol" (rs_Protocol r)
  ++ flag "obfuscated" (rs_Obfuscated r)
  ++ number "since_unix" (rs_SinceUnix r)
  ++ number "handshake_unix" (rs_HandshakeUnix r)
  ++ number "latency_ms" (rs_LatencyMs r)
  ++ text "core" (Core r)
  ++ text "amneziawg" (AmneziaWG r)
  ++ number "protocol_version" (rs_ProtocolVersion r).

(** [reply]: marshalling this struct cannot fail. *)
Definition reply (r : Response) : string := marshal_object (response_members r) +:+ nl.

(** ** Handling a request *)

Definition fromStatus (s : Status) : Response :=
  mkResponse true "" (Up s) (st_Interface s) (st_Endpoint s) (Protocol s) (Obfuscated s)
    (SinceUnix s) (HandshakeUnix s) (LatencyMs s) "" "" 0.

(** [bufio.Scanner]'s first line, for a buffer of 64 kB that grows to
    [maxLine]: what is before the first newline or, without one, everything;
    a carriage return at its end is dropped.  [None] when nothing is sent or
    the buffer is full before the line ends. *)
Definition maxLine : Z := 262144.

Fixpoint until_newline (s : string) : string :=
  match s with
  | String c s => if ascii_eqb c newline then "" else String c (until_newline s)
  | EmptyString => ""
  end.

Definition drop_cr (line : string) : string :=
  match CutSuffix line (String "013" "") with Some l => l | None => line end.

Definition scan_line (input : string) : option string :=
  if bool_decide (input = "") then None
  else let line := until_newline input in
       if (slen line <? maxLine)%Z then Some (drop_cr line) else None.

Section Service.
Context {env : Env} {platform : Platform} (render : error → string) (core amneziawg : string).

Definition older_application : string :=
  "this Caelo application is older than the Caelo service; update the application".
Definition older_service : string :=
  "the Caelo service is older than this application; reinstall Caelo to update the service".

Definition version_response : Response :=
  mkResponse true "" false "" "" "" false 0 0 0 core amneziawg ProtocolVersion.

Definition handle (request : Request) (c : Controller) : IO (Response * Controller) :=
  if bool_decide (Command request = CommandVersion) then mret (version_response, c)
  else if negb (rq_ProtocolVersion request =? ProtocolVersion)%Z then
    mret (refusal (if (rq_ProtocolVersion request <? ProtocolVersion)%Z
                   then older_application else older_service), c)
  else if bool_decide (Command request = CommandStatus) then
    o ← Status_of c; mret (fromStatus o.1, o.2)
  else if bool_decide (Command request = CommandConnect) then
    o ← Start (rq_Config request) c;
    mret (match o.1 with Ok status => fromStatus status | Err e => refusal (render e) end, o.2)
  else if bool_decide (Command request = CommandDisconnect) then
    o ← Stop c;
    mret (match o.1 with
          | Ok _ => mkResponse true "" false "" "" "" false 0 0 0 "" "" 0
          | Err e => refusal (render e)
          end, o.2)
  else mret (refusal "unknown command", c).

(** A connection: what is written back, if anything, before it is closed.
    [authorised] is what [authorise] found, [input] what the peer sends. *)
Definition serve (authorised : bool) (input : string) (c : Controller)
    : IO (option string * Controller) :=
  if negb authorised then mret (None, c)
  else match scan_line input with
  | None => mret (None, c)
  | Some line =>
      match unmarshal_request line with
      | Err _ => mret (Some (reply (refusal "malformed request")), c)
      | Ok request => o ← handle request c; mret (Some (reply o.1), o.2)
      end
  end.

(** Connections one after the other, as their turns at the controller's mutex
    order them. *)
Fixpoint serve_each (connections : list (bool * string)) (c : Controller)
    : IO (list (option string) * Controller) :=
  match connections with
  | [] => mret ([], c)
  | (a, input) :: connections =>
      o ← serve a input c;
      rest ← serve_each connections o.2;
      mret (o.1 :: rest.1, rest.2)
  end.

(** [shutdown], up to the process's end: the listener and the socket's file
    are the operating system's. *)
Definition shutdown (c : Controller) : IO Controller :=
  s ← Status_of c;
  o ← Stop s.2;
  mret o.2.
End Service.

(** ** Ending the process: [idler] and the goroutine that watches it *)

Module Idler.

(** Where the watching goroutine is: receiving from [expired], asking for the
    status, about to call [busy], in [stopEverything], or returned. *)
Inductive watcher := Receiving | Asking | Bailing | Stopping | Gone.
#[global] Instance watcher_eq : EqDecision watcher.
Proof. solve_decision. Defined.

(** [sending] is [fire] at its channel send, holding the mutex; [firing]
    counts the calls of [fire] that have not taken the mutex yet; [expired] is
    what the channel, of capacity 1, holds; [connections] those served; [up]
    what [controller.Status().Up] would say. *)
Record idler := mkIdler {
  holders : Z; armed : bool; fired : bool;
  firing : nat; sending : bool; expired : nat;
  watching : watcher; connections : nat; up : bool;
}.

Definition newIdler : idler := mkIdler 0 true false 0 false 0 Receiving 0 false.

Definition busy (i : idler) : idler :=
  mkIdler (holders i + 1) false false (firing i) (sending i) (expired i) (watching i)
    (connections i) (up i).

Definition idle (i : idler) : idler :=
  let holders' := (holders i - 1)%Z in
  if (holders' <=? 0)%Z
  then mkIdler 0 true (fired i) (firing i) (sending i) (expired i) (watching i) (connections i) (up i)
  else mkIdler holders' (armed i) (fired i) (firing i) (sending i) (expired i) (watching i)
         (connections i) (up i).

(** [fire] up to its send. *)
Definition fire (i : idler) : idler :=
  if (0 <? holders i)%Z || fired i
  then mkIdler (holders i) (armed i) (fired i) (pred (firing i)) false (expired i) (watching i)
         (connections i) (up i)
  else mkIdler (holders i) (armed i) true (pred (firing i)) true (expired i) (watching i)
         (connections i) (up i).

Definition set_watching (w : watcher) (i : idler) : idler :=
  mkIdler (holders i) (armed i) (fired i) (firing i) (sending i) (expired i) w (connections i) (up i).
Definition set_expired (n : nat) (s : bool) (i : idler) : idler :=
  mkIdler (holders i) (armed i) (fired i) (firing i) s n (watching i) (connections i) (up i).
Definition set_connections (n : nat) (i : idler) : idler :=
  mkIdler (holders i) (armed i) (fired i) (firing i) (sending i) (expired i) (watching i) n (up i).

(** What can happen next: a connection accepted or finished; a request of an
    open connection changing whether the tunnel is up; a goroutine that ends the
    process taking it down; the timer running out;
    [fire] taking the mutex, and its send going through; and the watcher's
    steps. *)
Inductive event :=
  Accept | Finish | Serve (up' : bool) | Shut | Expire | Fire | Send | Receive | Ask | Bail.

(** One event, where it is possible. *)
Definition step (e : event) (i : idler) : option idler :=
  let locked := sending i in
  match e with
  | Accept => if locked then None else Some (set_connections (S (connections i)) (busy i))
  | Finish => if locked || (connections i =? 0)%nat then None
              else Some (set_connections (pred (connections i)) (idle i))
  | Serve up' => if (connections i =? 0)%nat then None
                 else Some (mkIdler (holders i) (armed i) (fired i) (firing i) (sending i) (expired i)
                              (watching i) (connections i) up')
  | Shut => Some (mkIdler (holders i) (armed i) (fired i) (firing i) (sending i) (expired i)
                    (watching i) (connections i) false)
  | Expire => if armed i then
                Some (mkIdler (holders i) false (fired i) (S (firing i)) (sending i) (expired i)
                        (watching i) (connections i) (up i))
              else None
  | Fire => if locked || (firing i =? 0)%nat then None else Some (fire i)
  | Send => if locked && (expired i =? 0)%nat then Some (set_expired 1 false i) else None
  | Receive => if bool_decide (watching i = Receiving) && (0 <? expired i)%nat
               then Some (set_watching Asking (set_expired (pred (expired i)) (sending i) i)) else None
  | Ask => if bool_decide (watching i = Asking)
           then Some (set_watching (if up i then Bailing else Stopping) i) else None
  | Bail => if locked || negb (bool_decide (watching i = Bailing)) then None
            else Some (set_watching Gone (busy i))
  end.

Fixpoint run (es : list event) (i : idler) : option idler :=
  match es with [] => Some i | e :: es => i' ← step e i; run es i' end.

Definition reachable (i : idler) : Prop := ∃ es, run es newIdler = Some i.

End Idler.
