(* ===== verification/ServiceFacts.v ===== *)
(** * What the privileged service promises

    Replies are one line and read back; nothing privileged happens but for a
    request that speaks the protocol and names one of the three commands;
    and whatever is sent over the socket, [shutdown] gives the machine back. *)

From S2P Require Import Prelude GoStrings GoJson GoJsonFacts Awg AwgEndpoint Fields Effects System SystemFacts SystemDarwinFacts SystemWindowsFacts.
From S2P Require Import Simulated Routing RoutingFacts Systunnel SystunnelFacts SystunnelMachine SystunnelProps Service.
From Stdlib Require Import Ascii.
From stdpp Require Import options.

(** ** Replies *)

(** The members of a reply as documents. *)
Definition flag_member (name : string) (b : bool) : list (string * json) :=
  if b then [(name, JBool b)] else [].

Definition response_document (r : Response) : list (string * json) :=
  [("ok", JBool (OK r))]
  ++ text_member "error" (Error r)
  ++ flag_member "up" (rs_Up r)
  ++ text_member "interface" (rs_Interface r)
  ++ text_member "endpoint" (rs_Endpoint r)
  ++ text_member "protocol" (rs_Protocol r)
  ++ flag_member "obfuscated" (rs_Obfuscated r)
  ++ number_member "since_unix" (rs_SinceUnix r)
  ++ number_member "handshake_unix" (rs_HandshakeUnix r)
  ++ number_member "latency_ms" (rs_LatencyMs r)
  ++ text_member "core" (Core r)
  ++ text_member "amneziawg" (AmneziaWG r)
  ++ number_member "protocol_version" (rs_ProtocolVersion r).

Lemma reads_as r : Forall2 (λ m j, j.1 = to_valid m.1 ∧ written 0 m.2 j.2) (response_members r) (response_document r).
Proof.
  unfold response_members, response_document, text_member, flag_member, number_member.
  repeat (apply Forall2_app || apply Forall2_cons); try case_match; try case_bool_decide;
    try apply Forall2_nil; try (apply Forall2_cons; [|apply Forall2_nil]);
    (split; [reflexivity|apply written_string || apply written_bool || apply written_int]).
Qed.

Lemma response_members_printable r : Forall (λ m, printable m.2) (response_members r).
Proof.
  unfold response_members.
  repeat (apply list.Forall_app; split); try case_match; try case_bool_decide;
    repeat constructor; apply marshal_string_printable || apply Itoa_printable || by destruct (OK r).
Qed.

Lemma field_flag name b : fold_name name = name → field name dec_bool false (flag_member name b) = Ok b.
Proof. intros E. destruct b; [|done]. unfold field. cbn. by rewrite bool_decide_eq_true_2. Qed.

Lemma flag_member_names name b (P : string → Prop) : P name → Forall (λ m, P m.1) (flag_member name b).
Proof. destruct b; cbn; auto. Qed.
#[local] Ltac other :=
  repeat (apply list.Forall_app; split);
  first [apply (text_member_names _ _ (λ k, fold_name k ≠ _))
        | apply (flag_member_names _ _ (λ k, fold_name k ≠ _))
        | apply (number_member_names _ _ (λ k, fold_name k ≠ _)) | apply Forall_singleton];
  vm_compute; discriminate.
#[local] Ltac this := first [apply field_text | apply field_flag | apply field_number]; solve [reflexivity | assumption].
#[local] Ltac find_field :=
  first [solve [this] | eapply field_take; [solve [this]|other] | eapply field_skip; [other|find_field]].

Definition in_range (r : Response) : Prop :=
  in_int64 (rs_SinceUnix r) = true ∧ in_int64 (rs_HandshakeUnix r) = true ∧
  in_int64 (rs_LatencyMs r) = true ∧ in_int64 (rs_ProtocolVersion r) = true.

(** The response an application reads: its texts with invalid UTF-8 replaced. *)
Definition valid_response (r : Response) : Response :=
  mkResponse (OK r) (to_valid (Error r)) (rs_Up r) (to_valid (rs_Interface r)) (to_valid (rs_Endpoint r))
    (to_valid (rs_Protocol r)) (rs_Obfuscated r) (rs_SinceUnix r) (rs_HandshakeUnix r) (rs_LatencyMs r)
    (to_valid (Core r)) (to_valid (AmneziaWG r)) (rs_ProtocolVersion r).

Lemma dec_response_document r : in_range r → dec_response (response_document r) = Ok (valid_response r).
Proof.
  intros (H1 & H2 & H3 & H4). unfold dec_response, response_document.
  eapply result_bind_eq; [apply (field_take _ _ _ (OK r)); [reflexivity|other]|].
  do 12 (eapply result_bind_eq; [find_field|]). reflexivity.
Qed.

Lemma reply_line r : ∃ line, reply r = line +:+ nl ∧ printable line ∧
  json_read line = Some (JObj (response_document r)).
Proof.
  exists (marshal_object (response_members r)). split; [done|]. split.
  - apply marshal_object_printable, response_members_printable.
  - rewrite <- (sapp_nil_r (marshal_object _)). by apply (json_read_object 0); [apply reads_as|..].
Qed.

(** ** Requests *)

Section Handle.
Context {env : Env} {platform : Platform} (render : error → string) (core amneziawg : string).
Abbreviation handle := (handle render core amneziawg).
Abbreviation serve := (serve render core amneziawg).
Abbreviation serve_each := (serve_each render core amneziawg).

(** What every operation of the controller keeps, every connection keeps. *)
Lemma wp_handle (P : Controller → history → Prop) request c h :
  (∀ text, wp (Start text c) (λ r h', P r.2 h') h) →
  wp (Stop c) (λ r h', P r.2 h') h →
  wp (Status_of c) (λ r h', P r.2 h') h →
  P c h → wp (handle request c) (λ r h', P r.2 h') h.
Proof.
  intros H1 H2 H3 HP. unfold Service.handle. repeat case_bool_decide; try case_match; try done;
    apply wp_bind; (eapply wp_mono; [|first [apply H1|apply H2|apply H3]]); by intros [[] ?].
Qed.

(** An authorised connection that sent a line is answered, and only that. *)
Definition answered (connection : bool * string) (answer : option string) : Prop :=
  if connection.1 && bool_decide (is_Some (scan_line connection.2))
  then ∃ r, answer = Some (reply r) else answer = None.

Lemma wp_serve (P : Controller → history → Prop) a input c h :
  (∀ text, wp (Start text c) (λ r h', P r.2 h') h) →
  wp (Stop c) (λ r h', P r.2 h') h →
  wp (Status_of c) (λ r h', P r.2 h') h →
  P c h → wp (serve a input c) (λ r h', P r.2 h' ∧ answered (a, input) r.1) h.
Proof.
  intros H1 H2 H3 HP. unfold Service.serve, answered. destruct a; [|done]. cbn [fst snd andb negb].
  destruct (scan_line input) as [line|]; [|done]. rewrite bool_decide_eq_true_2 by done.
  destruct (unmarshal_request line) as [request|e]; [|by split; [|eexists]].
  apply wp_bind. eapply wp_mono; [|by apply (wp_handle P)]. intros r h' H'. split; [done|]. by eexists.
Qed.

Lemma wp_serve_each (P : Controller → history → Prop) cs c h :
  (∀ text c h, P c h → wp (Start text c) (λ r h', P r.2 h') h) →
  (∀ c h, P c h → wp (Stop c) (λ r h', P r.2 h') h) →
  (∀ c h, P c h → wp (Status_of c) (λ r h', P r.2 h') h) →
  P c h → wp (serve_each cs c) (λ r h', P r.2 h' ∧ Forall2 answered cs r.1) h.
Proof.
  intros H1 H2 H3. revert c h. induction cs as [|[a input] cs IH]; intros c h HP; cbn [Service.serve_each];
    [by split|].
  apply wp_bind. eapply wp_mono; [|apply (wp_serve P); auto]. intros r h1 [HP1 Hr].
  apply wp_bind. eapply wp_mono; [|by apply IH]. intros rs h2 [HP2 Hrs]. split; [done|]. by constructor.
Qed.

(** What each command runs, once the protocol matches. *)
Lemma handle_status request c :
  rq_ProtocolVersion request = ProtocolVersion → Command request = CommandStatus →
  handle request c = (o ← Status_of c; mret (fromStatus o.1, o.2)).
Proof. intros Hp Hc. unfold Service.handle. by rewrite Hc, Hp. Qed.

Lemma handle_connect request c :
  rq_ProtocolVersion request = ProtocolVersion → Command request = CommandConnect →
  handle request c = (o ← Start (rq_Config request) c;
    mret (match o.1 with Ok status => fromStatus status | Err e => refusal (render e) end, o.2)).
Proof. intros Hp Hc. unfold Service.handle. by rewrite Hc, Hp. Qed.

Lemma handle_disconnect request c :
  rq_ProtocolVersion request = ProtocolVersion → Command request = CommandDisconnect →
  handle request c = (o ← Stop c;
    mret (match o.1 with
          | Ok _ => mkResponse true "" false "" "" "" false 0 0 0 "" "" 0
          | Err e => refusal (render e)
          end, o.2)).
Proof. intros Hp Hc. unfold Service.handle. by rewrite Hc, Hp. Qed.
End Handle.

Lemma up_device {platform : Platform} (c : Controller) h : inv c h → (Up (status c) = true ↔ is_Some (device c)).
Proof.
  intros [_ Hc]. unfold consistent in Hc. destruct (device c) as [d|].
  - destruct Hc as (_ & -> & _). naive_solver.
  - destruct Hc as (_ & -> & _). split; [done|]. by intros [? [=]].
Qed.

(** The operations keep the controller's invariants and come back. *)
Section Sound.
Context {env : Env} {platform : Platform} `{!Clock env} `{!Orderly platform}.
Context {M : Type} (after : history → M) (m0 : M) `{!Restores platform env after m0}.
#[local] Set Default Proof Using "Type*".

Definition sound (c : Controller) (h : history) : Prop := inv c h ∧ machine_inv after m0 c h.

Lemma sound_New : sound New [].
Proof. split; [apply inv_New|]. apply after_nothing. Qed.

Lemma sound_Start text c h : sound c h → wp (Start text c) (λ r h', sound r.2 h') h.
Proof.
  intros [Hi Hm]. apply wp_all; [by apply total_Start| |by apply wlp_Start_machine].
  eapply wlp_mono; [|by apply wlp_Start]. by intros r h' [? _].
Qed.

Lemma sound_Stop c h : sound c h →
  wp (Stop c) (λ r h', sound r.2 h' ∧ device r.2 = None) h.
Proof.
  intros [Hi Hm]. eapply wp_mono; [|apply wp_all; [by apply total_stopLocked|
    by apply wlp_stopLocked|by apply (wlp_stopLocked_machine after m0)]].
  intros r h' [[H1 Hd] (H2 & _)]. split; [|done]. split; [done|]. unfold machine_inv. by rewrite Hd.
Qed.

Lemma sound_Status c h : sound c h → wp (Status_of c) (λ r h', sound r.2 h') h.
Proof.
  intros [Hi Hm]. apply wp_all; [apply total_Status| |by apply wlp_Status_machine].
  eapply wlp_mono; [|by apply wlp_Status]. by intros r h' [? _].
Qed.

Lemma sound_serve_each render core amneziawg cs c h : sound c h →
  wp (serve_each render core amneziawg cs c) (λ r h', sound r.2 h' ∧ Forall2 answered cs r.1) h.
Proof.
  apply (wp_serve_each render core amneziawg sound); [apply sound_Start| |apply sound_Status].
  intros c' h' H'. eapply wp_mono; [|by apply sound_Stop]. by intros r h1 [? _].
Qed.

(** The same, with the rest of the books as they were. *)
Definition sound_books (B : nat * list call) (c : Controller) (h : history) : Prop := sound c h ∧ rest h = B.

Lemma sound_books_Start B text c h : sound_books B c h → wp (Start text c) (λ r h', sound_books B r.2 h') h.
Proof.
  intros [Hs <-]. apply wp_total_at; [by eapply wp_mono; [|by apply sound_Start]|].
  apply wlp_conj; [by apply wp_wlp, sound_Start|apply rest_Start, Hs].
Qed.
Lemma sound_books_Stop B c h : sound_books B c h →
  wp (Stop c) (λ r h', sound_books B r.2 h' ∧ device r.2 = None) h.
Proof.
  intros [Hs <-]. eapply (wp_mono _ (λ r h', (sound r.2 h' ∧ device r.2 = None) ∧ rest h' = rest h)).
  { by intros r h' [[? ?] ?]. }
  apply wp_total_at; [by eapply wp_mono; [|by apply sound_Stop]|].
  apply wlp_conj; [by apply wp_wlp, sound_Stop|apply rest_stopLocked, Hs].
Qed.
Lemma sound_books_Status B c h : sound_books B c h → wp (Status_of c) (λ r h', sound_books B r.2 h') h.
Proof.
  intros [Hs <-]. apply wp_total_at; [apply total_Status|].
  apply wlp_conj; [by apply wp_wlp, sound_Status|apply rest_Status, Hs].
Qed.

Lemma sound_books_serve_each B render core amneziawg cs c h : sound_books B c h →
  wp (serve_each render core amneziawg cs c) (λ r h', sound_books B r.2 h' ∧ Forall2 answered cs r.1) h.
Proof.
  apply (wp_serve_each render core amneziawg (sound_books B)); [apply sound_books_Start| |apply sound_books_Status].
  intros c' h' H'. eapply wp_mono; [|by apply sound_books_Stop]. by intros r h1 [? _].
Qed.

Lemma sound_books_shutdown B c h : sound_books B c h →
  wp (shutdown c) (λ c' h', sound_books B c' h' ∧ device c' = None) h.
Proof.
  intros H. apply wp_bind. eapply wp_mono; [|by apply (sound_books_Status B)]. intros r h1 H1.
  apply wp_bind. eapply wp_mono; [|by apply (sound_books_Stop B)]. by intros r' h2 H2.
Qed.

Lemma sound_shutdown c h : sound c h →
  wp (shutdown c) (λ c' h', sound c' h' ∧ device c' = None) h.
Proof.
  intros H. apply wp_bind. eapply wp_mono; [|by apply sound_Status]. intros r h1 H1.
  apply wp_bind. eapply wp_mono; [|by apply sound_Stop]. by intros r' h2 H2.
Qed.
End Sound.

(** ** Properties of the service *)

(** C26: A reply is one line, and what an application reads from it is the
    response that was given: [json.Unmarshal] of the line [json.Marshal] wrote
    gives every field back, the omitted ones as zero, with nothing but invalid
    UTF-8 replaced in the texts. *)
Theorem reply_reads_back r :
  in_range r →
  ∃ line, reply r = line +:+ nl ∧ lacks newline line ∧ unmarshal_response line = Ok (valid_response r).
Proof.
  intros Hr. destruct (reply_line r) as (line & H1 & H2 & H3). exists line. split; [done|]. split.
  - eapply sall_impl; [|exact H2]. intros c Hc. unfold not_byte. destruct (ascii_eqb c newline) eqn:E; [|done].
    apply ascii_eqb_true in E as ->. done.
  - unfold unmarshal_response. rewrite H3. by apply dec_response_document.
Qed.

Definition sample_response : Response :=
  mkResponse true "" true "caelo0" "vpn.example:51820" "AmneziaWG" true 1700000000 0 47 "" "" 0.

Lemma reply_reads_back_witness :
  ∃ line, reply sample_response = line +:+ nl ∧ lacks newline line ∧
    unmarshal_response line = Ok (valid_response sample_response).
Proof. apply reply_reads_back. by repeat split. Defined.

(** C20: Nothing privileged happens without a request for it: a connection
    changes the controller, or calls anything at all, only if the peer is
    authorised, its first line decodes, speaks this protocol and names one of
    the three commands.  Every other connection gets the version, a refusal
    that says why, or nothing; the version is told whatever the protocol. *)
Theorem serve_refuses {env : Env} {platform : Platform} render core amneziawg a input c h :
  let out := serve render core amneziawg a input c h in
  (∀ line request, a = true → scan_line input = Some line → unmarshal_request line = Ok request →
     Command request = CommandVersion →
     out = (Some (Some (reply (version_response core amneziawg)), c), h)) ∧
  ((∃ line request, a = true ∧ scan_line input = Some line ∧ unmarshal_request line = Ok request ∧
      rq_ProtocolVersion request = ProtocolVersion ∧
      Command request ∈ [CommandStatus; CommandConnect; CommandDisconnect])
   ∨ ∃ answer, out = (Some (answer, c), h) ∧
      (answer = None ∨ answer = Some (reply (version_response core amneziawg)) ∨
       ∃ text, text ≠ "" ∧ answer = Some (reply (refusal text)))).
Proof.
  unfold serve. destruct a; [|split; [done|right; exists None; auto]]. cbn [negb].
  destruct (scan_line input) as [line|]; [|split; [done|right; exists None; auto]].
  destruct (unmarshal_request line) as [request|e] eqn:E.
  2: { split; [intros ? ? _ [= <-]; congruence|]. right. eexists. split; [done|]. right. right.
       by exists "malformed request". }
  split.
  { intros ? ? _ [= <-] Hreq Hv. rewrite E in Hreq. injection Hreq as ->.
    unfold handle. by rewrite bool_decide_eq_true_2. }
  unfold handle. destruct (bool_decide_reflect (Command request = CommandVersion)) as [_|_].
  { right. eexists. split; [done|]. auto. }
  destruct (Z.eqb_spec (rq_ProtocolVersion request) ProtocolVersion) as [Hp|_]; cbn [negb].
  2: { right. eexists. split; [done|]. right. right. eexists. split; [|done]. by case_match. }
  assert (∀ cmd, Command request = cmd → cmd ∈ [CommandStatus; CommandConnect; CommandDisconnect] →
    ∃ line0 request0, true = true ∧ Some line = Some line0 ∧ unmarshal_request line0 = Ok request0 ∧
      rq_ProtocolVersion request0 = ProtocolVersion ∧
      Command request0 ∈ [CommandStatus; CommandConnect; CommandDisconnect]) as Hyes.
  { intros cmd <- Hin. eauto 8. }
  case_bool_decide as H1; [left; eapply Hyes; [exact H1|set_solver]|].
  case_bool_decide as H2; [left; eapply Hyes; [exact H2|set_solver]|].
  case_bool_decide as H3; [left; eapply Hyes; [exact H3|set_solver]|].
  right. eexists. split; [done|]. right. right. by exists "unknown command".
Qed.

(** What the service answers is the state it is left in: the reply to
    "status" and to "connect" says "up" exactly when a tunnel is up, a refused
    "connect" leaves none, and after "disconnect" none is. *)
Theorem handle_tells_state {env : Env} {platform : Platform} render core amneziawg request c h r c' h' :
  platform ∈ builds → inv c h → rq_ProtocolVersion request = ProtocolVersion →
  handle render core amneziawg request c h = (Some (r, c'), h') →
  (Command request = CommandStatus → OK r = true ∧ device c' = device c ∧ (rs_Up r = true ↔ is_Some (device c'))) ∧
  (Command request = CommandConnect → rs_Up r = OK r ∧ (rs_Up r = true ↔ is_Some (device c'))) ∧
  (Command request = CommandDisconnect → rs_Up r = false ∧ device c' = None).
Proof.
  intros Hb%builds_orderly Hi Hp Hrun. split_and!; intros Hc.
  - rewrite handle_status in Hrun by done.
    eapply (wlp_eq _ (λ p _, OK p.1 = true ∧ device p.2 = device c ∧ (rs_Up p.1 = true ↔ is_Some (device p.2)))
      _ (r, c')); [|exact Hrun].
    apply wlp_bind. eapply wlp_mono; [|by apply wlp_Status]. intros [s c1] h1 (Hi1 & Hd & Hu & Hs).
    apply wlp_ret. split; [done|]. split; [done|]. change (Up s = true ↔ is_Some (device c1)).
    change (Up s = Up (status c)) in Hu. change (status c1 = status c) in Hs.
    rewrite Hu, <- Hs. exact (up_device _ _ Hi1).
  - rewrite handle_connect in Hrun by done.
    eapply (wlp_eq _ (λ p _, rs_Up p.1 = OK p.1 ∧ (rs_Up p.1 = true ↔ is_Some (device p.2)))
      _ (r, c')); [|exact Hrun].
    apply wlp_bind. eapply wlp_mono; [|by apply wlp_Start]. intros [[s|e] c1] h1 (Hi1 & Hd & Hs); apply wlp_ret.
    + cbn. rewrite (Hs s eq_refl). pose proof (up_device _ _ Hi1) as Hup. cbn in *.
      destruct (Up (status c1)); [done|]. by destruct (device c1) as [d|]; naive_solver.
    + cbn in *. rewrite (proj2 Hd eq_refl). split; [done|]. split; [done|]. by intros [? [=]].
  - rewrite handle_disconnect in Hrun by done.
    eapply (wlp_eq _ (λ p _, rs_Up p.1 = false ∧ device p.2 = None) _ (r, c')); [|exact Hrun].
    apply wlp_bind. eapply wlp_mono; [|by apply wlp_stopLocked]. intros [[s|e] c1] h1 [_ Hd]; by apply wlp_ret.
Qed.

Definition no_render (e : error) : string := "failed".

Lemma handle_tells_state_witness :
  let run := @handle (simulated laptop false answering) linux no_render "" ""
               (mkRequest CommandConnect ProtocolVersion tunnel_text) New [] in
  ∃ r c', run = (Some (r, c'), snd run) ∧ rs_Up r = true ∧ is_Some (device c').
Proof.
  assert (∀ (run : option (Response * Controller) * history) p, fst run = Some p →
    run = (Some (p.1, p.2), snd run)) as Hp.
  { intros [o h] [r c]; cbn; by intros ->. }
  pose (run := @handle (simulated laptop false answering) linux no_render "" ""
               (mkRequest CommandConnect ProtocolVersion tunnel_text) New []).
  assert (fst run = Some (default (refusal "", New) (fst run))) as H by (vm_compute; reflexivity).
  exists (default (refusal "", New) (fst run)).1, (default (refusal "", New) (fst run)).2.
  assert (rs_Up (default (refusal "", New) (fst run)).1 = true) as Hup by (vm_compute; reflexivity).
  split; [exact (Hp _ _ H)|]. split; [exact Hup|].
  apply (@handle_tells_state (simulated laptop false answering) linux no_render "" ""
    (mkRequest CommandConnect ProtocolVersion tunnel_text) New [] _ _ _ linux_built (conj eq_refl (conj eq_refl (conj eq_refl eq_refl)))
    eq_refl (Hp _ _ H)); [reflexivity|exact Hup].
Defined.

(** Whatever is sent over these connections, each is served to its end, each
    authorised one that sent a line gets one reply, and [shutdown] leaves no
    interface open and the machine as it was. *)
Definition leaves_no_trace {env : Env} {platform : Platform} {M : Type} (after : history → M) (m0 : M)
    (render : error → string) (core amneziawg : string) (cs : list (bool * string)) : Prop :=
  ∃ answers c h c' h',
    serve_each render core amneziawg cs New [] = (Some (answers, c), h) ∧ Forall2 answered cs answers ∧
    shutdown c h = (Some c', h') ∧ after h' = m0 ∧ opened h' = ∅.

Lemma contract_leaves_no_trace {env : Env} {platform : Platform} `{!Clock env} `{!Orderly platform} {M}
    (after : history → M) m0 `{!Restores platform env after m0} render core amneziawg cs :
  leaves_no_trace after m0 render core amneziawg cs.
Proof.
  destruct (wp_eq _ _ _ (sound_serve_each after m0 render core amneziawg cs New [] (sound_New after m0)))
    as ([answers c] & h & H1 & Hs & Ha).
  destruct (wp_eq _ _ _ (sound_shutdown after m0 c h Hs)) as (c' & h' & H2 & [[Ho _] Hm] & Hd).
  exists answers, c, h, c', h'. unfold machine_inv in Hm. rewrite Hd in Ho, Hm. by split_and!.
Qed.

(** C2: The service leaves no trace, on either platform it is built for.  On a
    machine that has none of the tunnel's own routes and settings, with a clock
    that moves: whatever is sent over any number of connections, each is served
    to its end and each authorised one that sent a line gets exactly one reply;
    and [shutdown], whenever it comes, leaves no interface open and the machine
    exactly as it was before the service started. *)
Theorem Service_gives_back {env : Env} render core amneziawg cs :
  Clock env →
  (∀ m0, Documented m0 env → pristine m0 →
     leaves_no_trace (platform := linux) (machine_after m0) m0 render core amneziawg cs) ∧
  (∀ m0, WinDocumented m0 env → WinPlaced m0 env → win_pristine m0 →
     leaves_no_trace (platform := Routing.windows) (win_after m0) m0 render core amneziawg cs).
Proof. intros Hc. split; intros; apply (contract_leaves_no_trace _ _). Qed.

(** A request as an application sends it. *)
Definition request_line (command config : string) : string :=
  "{" +:+ marshal_string "command" +:+ ":" +:+ marshal_string command +:+ ","
    +:+ marshal_string "protocol_version" +:+ ":1," +:+ marshal_string "config" +:+ ":"
    +:+ marshal_string config +:+ "}" +:+ nl.

(** A socket's worth of requests: an old application, noise, a connection that
    sends nothing, and one that connects. *)
Definition sample_connections : list (bool * string) :=
  [(true, "{" +:+ marshal_string "command" +:+ ":" +:+ marshal_string "status" +:+ "}" +:+ nl);
   (true, "GET / HTTP/1.1" +:+ nl); (true, ""); (false, "anything");
   (true, request_line "connect" tunnel_text)].

Lemma Service_gives_back_witness :
  @leaves_no_trace (simulated laptop false answering) linux _ (machine_after laptop) laptop no_render "v1" "v3"
    sample_connections ∧
  @leaves_no_trace on_windows Routing.windows _ (win_after office) office no_render "v1" "v3" sample_connections.
Proof.
  split.
  - apply (proj1 (@Service_gives_back (simulated laptop false answering) no_render "v1" "v3" sample_connections
      (simulated_clock _ _ _))); [by apply simulated_documented|exact pristine_laptop].
  - apply (proj2 (@Service_gives_back on_windows no_render "v1" "v3" sample_connections (carrying_clock _ _ _ _)));
      [exact on_windows_documented|exact on_windows_placed|exact win_pristine_office].
Defined.

(** What they are answered. *)
Example sample_answers :
  fst <$> fst (@serve_each (simulated laptop false answering) linux no_render "v1" "v3" sample_connections New [])
  = Some [Some (reply (refusal older_application)); Some (reply (refusal "malformed request")); None; None;
          Some (reply (mkResponse true "" true "caelo0" "203.0.113.10:51820" "AmneziaWG" true 0 0 0 "" "" 0))].
Proof. vm_compute. reflexivity. Qed.
