(* ===== verification/Aside.v ===== *)
(** * What a program does beside the tunnel

    Printing, reading its files, waiting: calls that neither open or close an
    interface nor touch the machine.  Around the controller they keep its
    invariants, and around nothing they leave the machine given back. *)

From S2P Require Import Prelude GoStrings NetAddr Effects System SystemFacts SystemWindowsFacts.
From S2P Require Import Routing RoutingFacts Systunnel SystunnelFacts SystunnelMachine ServiceFacts.
From stdpp Require Import options.

Section Beside.
Context {env : Env} {M : Type} (after : history → M).

(** [m] comes back, opens and closes nothing and leaves the machine alone. *)
Definition aside {A} (m : IO A) : Prop := total m ∧ keeps opened m ∧ keeps after m.

Lemma aside_ret {A} (a : A) : aside (mret a).
Proof. split; [apply total_ret|]. split; apply keeps_ret. Qed.
Lemma aside_bind {A B} (m : IO A) (k : A → IO B) : aside m → (∀ a, aside (k a)) → aside (m ≫= k).
Proof.
  intros (H1 & H2 & H3) Hk. split; [apply total_bind; [done|apply Hk]|].
  split; apply keeps_bind; try done; apply Hk.
Qed.
(** Calls that leave the machine alone. *)
Definition harmless (c : call) : Prop := ∀ h, after (h ++ [(c, answer h c)]) = after h.
Lemma aside_harmless c : neutral c = true → harmless c → aside (perform c).
Proof. intros Hn Hc. split; [apply total_perform|]. split; [by apply keeps_opened|by apply keeps_perform]. Qed.

Lemma aside_next_handle : aside next_handle.
Proof. by repeat split. Qed.

Context {platform : Platform} {m0 : M} `{!Restores platform env after m0}.
#[local] Set Default Proof Using "Type*".

Lemma own_harmless c : own_call c = true → harmless c.
Proof. intros Hc h. by apply after_own. Qed.
Lemma aside_perform c : neutral c = true → own_call c = true → aside (perform c).
Proof. intros Hn Hc. apply aside_harmless; [done|by apply own_harmless]. Qed.

End Beside.

Create HintDb aside.
#[export] Hint Resolve aside_ret aside_bind aside_next_handle : aside.
#[export] Hint Extern 2 (aside _ (if ?b then _ else _)) => destruct b : aside.
#[export] Hint Extern 2 (aside _ (match ?x with _ => _ end)) => destruct x : aside.

Section Aside.
Context {env : Env} {platform : Platform} {M : Type} (after : history → M) (m0 : M).
Context `{!Restores platform env after m0}.
#[local] Set Default Proof Using "Type*".

(** What neither opens nor changes anything keeps the controller sound. *)
Lemma sound_aside {A} (m : IO A) c h : total m → keeps opened m → keeps after m →
  sound after m0 c h → wp m (λ _ h', sound after m0 c h') h.
Proof.
  intros Ht Hq Hs [[Ho Hc] Hm]. apply wp_total; [done|].
  eapply (wlp_mono _ (λ _ h', opened h' = opened h ∧ after h' = after h));
    [|apply wlp_conj; [apply Hq|apply Hs]].
  intros _ h' [E1 E2]. split; [split; [by rewrite E1|done]|].
  unfold machine_inv, tunnel_up in *. by rewrite E2.
Qed.

Lemma sound_then {A B} (m : IO A) (k : A → IO B) c Q h : aside after m → sound after m0 c h →
  (∀ a h', sound after m0 c h' → wp (k a) Q h') → wp (m ≫= k) Q h.
Proof.
  intros (H1 & H2 & H3) Hs Hk. apply wp_bind. eapply wp_mono; [|by apply (sound_aside m c)].
  intros a h'. apply Hk.
Qed.

(** The machine is as before, and nothing is open. *)
Definition given_back (h : history) : Prop := after h = m0 ∧ opened h = ∅.

Lemma sound_down c h : sound after m0 c h → device c = None → given_back h.
Proof. intros [[Ho _] Hm] Hd. unfold machine_inv in Hm. by rewrite Hd in Ho, Hm. Qed.

Lemma given_back_aside {A B} (m : IO A) (k : A → IO B) h (Q : B → history → Prop) : aside after m → given_back h →
  (∀ a h', given_back h' → wp (k a) Q h') → wp (m ≫= k) Q h.
Proof.
  intros (H1 & H2 & H3) [Hm Ho] Hk. apply wp_bind. apply wp_total; [done|].
  eapply wlp_mono; [|apply wlp_conj; [apply H2|apply H3]].
  intros a h' [E1 E2]. cbn beta in E1, E2. apply Hk. split; congruence.
Qed.

End Aside.

(** Taking away a file that is not the resolver's. *)
Lemma remove_harmless {env : Env} (m0 : machine) path :
  path ≠ resolvConf → harmless (machine_after m0) (Remove path).
Proof.
  intros Hp h. rewrite machine_after_snoc. unfold after_call. destruct (failed _); [done|].
  cbn. by rewrite bool_decide_eq_false_2.
Qed.
Lemma win_remove_harmless {env : Env} (m0 : SystemWindowsFacts.windows) path : harmless (win_after m0) (Remove path).
Proof. intros h. rewrite win_after_snoc. by destruct (failed _). Qed.
