(* ===== verification/IdlerFacts.v ===== *)
(** * When the service ends itself: facts of the [Idler]

    [ok] is the invariant of everything reachable; the internal events are
    those that need nobody outside the process, and [work] bounds them. *)

From S2P Require Import Prelude Service.
From stdpp Require Import options.
Import Idler.

(** ** The invariant *)

Definition receiving (w : watcher) : bool := match w with Receiving => true | _ => false end.
Definition gone (w : watcher) : bool := match w with Gone => true | _ => false end.

(** The watcher holds once for itself when it has returned. *)
Definition self (w : watcher) : Z := if gone w then 1 else 0.

(** [ok_count]: the holders are the connections being served.  [ok_sending]:
    at its send [fire] holds the mutex, and nobody has taken hold since.
    [ok_fired]: a [fire] that is not at its send has sent.  [ok_armed]: while
    nobody holds and the watcher has not heard, the timer or a [fire] is on
    its way. *)
Record ok (i : idler) : Prop := {
  ok_count : holders i = (Z.of_nat (connections i) + self (watching i))%Z;
  ok_sending : sending i = true → holders i = 0%Z ∧ fired i = true;
  ok_fired : fired i = true → sending i = true ∨ 0 < expired i ∨ receiving (watching i) = false;
  ok_channel : expired i ≤ 1;
  ok_armed : receiving (watching i) = true → connections i = 0 →
    armed i = true ∨ 0 < firing i ∨ sending i = true ∨ 0 < expired i;
}.

Lemma ok_new : ok newIdler.
Proof. split; cbn; lia. Qed.

(** The fields of an idler, for [lia]. *)
#[local] Ltac fields i := destruct i as [hs ar fd fi se ex wa cs u]; destruct wa; cbn in *.

Lemma step_cases e i i' : step e i = Some i' → match e with
  | Accept => sending i = false ∧ i' = set_connections (S (connections i)) (busy i)
  | Finish => sending i = false ∧ connections i ≠ 0 ∧ i' = set_connections (pred (connections i)) (idle i)
  | Serve up' => connections i ≠ 0 ∧ i' = mkIdler (holders i) (armed i) (fired i) (firing i) (sending i)
                   (expired i) (watching i) (connections i) up'
  | Shut => i' = mkIdler (holders i) (armed i) (fired i) (firing i) (sending i)
              (expired i) (watching i) (connections i) false
  | Expire => armed i = true ∧ i' = mkIdler (holders i) false (fired i) (S (firing i)) (sending i)
                (expired i) (watching i) (connections i) (up i)
  | Fire => sending i = false ∧ firing i ≠ 0 ∧ i' = fire i
  | Send => sending i = true ∧ expired i = 0 ∧ i' = set_expired 1 false i
  | Receive => watching i = Receiving ∧ 0 < expired i ∧
               i' = set_watching Asking (set_expired (pred (expired i)) (sending i) i)
  | Ask => watching i = Asking ∧ i' = set_watching (if up i then Bailing else Stopping) i
  | Bail => sending i = false ∧ watching i = Bailing ∧ i' = set_watching Gone (busy i)
  end.
Proof.
  intros Hs. destruct e; cbn in Hs; repeat case_match; simplify_eq;
    repeat match goal with
    | H : _ || _ = false |- _ => apply orb_false_iff in H as [? ?]
    | H : _ && _ = true |- _ => apply andb_true_iff in H as [? ?]
    | H : bool_decide _ = true |- _ => apply bool_decide_eq_true in H
    | H : negb _ = false |- _ => apply negb_false_iff in H
    | H : (_ =? _) = false |- _ => apply Nat.eqb_neq in H
    | H : (_ =? _) = true |- _ => apply Nat.eqb_eq in H
    | H : (_ <? _) = true |- _ => apply Nat.ltb_lt in H
    end; split_and?; done || lia.
Qed.

Lemma ok_step e i i' : ok i → step e i = Some i' → ok i'.
Proof.
  intros [H1 H2 H3 H4 H5] Hs%step_cases. fields i; unfold self in *; cbn in *.
  all: destruct e; cbn in Hs; destruct_and? Hs; simplify_eq/=; unfold idle, fire; cbn.
  all: repeat case_match; rewrite ?orb_true_iff in *; split; cbn; intuition (lia || congruence).
Qed.

(** The timer has fired and been let through: its message is being sent, is in
    the channel, or has been received. *)
Definition token (i : idler) : Prop := sending i = true ∨ 0 < expired i ∨ receiving (watching i) = false.

(** It comes from a [fire] that found nobody holding. *)
Lemma token_step e i i' : ok i → step e i = Some i' → token i' → token i ∨ (e = Fire ∧ connections i = 0).
Proof.
  intros [H1 H2 H3 H4 H5] Hs%step_cases. unfold token. fields i; unfold self in *; cbn in *; auto.
  destruct e; cbn in Hs; destruct_and? Hs; simplify_eq/=; unfold idle, fire in *; cbn in *; auto.
  all: repeat case_match; simplify_eq/=; intuition (auto || lia || congruence).
  all: right; split; [done|].
  all: repeat match goal with H : _ || _ = false |- _ => apply orb_false_iff in H as [? ?] end; lia.
Qed.

(** The watcher begins to end the process only by asking, and being told that
    nothing is up. *)
Lemma stopping_step e i i' : step e i = Some i' → watching i ≠ Stopping → watching i' = Stopping →
  e = Ask ∧ watching i = Asking ∧ up i = false.
Proof.
  intros Hs%step_cases Hne Hst. destruct e; destruct_and? Hs; subst i'; unfold idle, fire in *; cbn in *;
    repeat case_match; simplify_eq/=; done.
Qed.

(** What every step keeps, every run keeps. *)
Lemma run_keeps (P : idler → Prop) (Q : event → Prop) es i i' :
  (∀ e i i', Q e → P i → step e i = Some i' → P i') →
  Forall Q es → P i → run es i = Some i' → P i'.
Proof.
  intros Hstep HQ. revert i. induction HQ as [|e es He _ IH]; intros i HP; cbn; [by intros [= <-]|].
  destruct (step e i) as [i1|] eqn:E; cbn; [|done]. apply IH. by eapply Hstep.
Qed.

Lemma ok_reachable i : reachable i → ok i.
Proof.
  intros [es H]. apply (run_keeps ok (λ _, True) es newIdler); [|by apply Forall_true|apply ok_new|done].
  intros e i1 i2 _. apply ok_step.
Qed.

(** ** Internal events *)

Definition internal (e : event) : bool :=
  match e with Accept | Finish | Serve _ | Shut => false | _ => true end.

(** How many internal events can still happen, at most. *)
Definition work (i : idler) : nat :=
  (if armed i then 5 else 0) + 4 * firing i + (if sending i then 3 else 0) + 2 * expired i +
  match watching i with Receiving => 3 | Asking => 2 | Bailing => 1 | _ => 0 end.

Lemma work_step e i i' : internal e = true → step e i = Some i' → work i' < work i.
Proof.
  intros He Hs%step_cases. fields i; destruct e; try done; cbn in Hs; destruct_and? Hs; simplify_eq;
    unfold work, fire, set_watching, busy; cbn in *; repeat (case_match; simplify_eq/=); lia.
Qed.

Lemma work_run es i i' : Forall (λ e, internal e = true) es → run es i = Some i' → length es + work i' ≤ work i.
Proof.
  intros H. revert i. induction H as [|e es He _ IH]; intros i; cbn; [intros [= ->]; lia|].
  destruct (step e i) as [i1|] eqn:E; cbn; [|done]. intros Hr. apply IH in Hr. apply work_step in E; [lia|done].
Qed.

(** Nobody needs the service and its watcher has not given up. *)
Definition unneeded (i : idler) : Prop :=
  ok i ∧ connections i = 0 ∧ up i = false ∧ watching i ≠ Bailing ∧ watching i ≠ Gone.

Lemma unneeded_step e i i' : internal e = true → unneeded i → step e i = Some i' → unneeded i'.
Proof.
  intros He (Hok & Hc & Hu & Hb & Hg) Hs. split; [by eapply ok_step|]. apply step_cases in Hs.
  fields i; try done; destruct e; try done; cbn in Hs; destruct_and? Hs; simplify_eq; unfold fire; cbn;
    repeat (case_match; simplify_eq/=); done.
Qed.

(** ... and then something is left to happen until the process ends. *)
Lemma unneeded_progress i : unneeded i → watching i = Stopping ∨ ∃ e i', internal e = true ∧ step e i = Some i'.
Proof.
  intros (Hok & Hc & Hu & Hb & Hg). pose proof (ok_armed i Hok) as Ha. pose proof (ok_channel i Hok).
  destruct (watching i) eqn:Hw; try done; [|right|by left].
  - right. destruct (sending i) eqn:Hs.
    + destruct (expired i) eqn:He.
      * exists Send. eexists. split; [done|]. cbn. by rewrite Hs, He.
      * exists Receive. eexists. split; [done|]. cbn. by rewrite Hw, He.
    + destruct (Ha eq_refl Hc) as [H1|[H1|[H1|H1]]]; [|..|done|].
      * exists Expire. eexists. split; [done|]. cbn. by rewrite H1.
      * exists Fire, (fire i). split; [done|]. unfold step. rewrite Hs. by destruct (firing i) eqn:?; [lia|].
      * exists Receive. destruct (expired i) eqn:E; [lia|]. eexists. split; [done|]. cbn. by rewrite Hw, E.
  - exists Ask. eexists. split; [done|]. cbn. by rewrite Hw.
Qed.

(** A watcher that found a tunnel up never stops the process. *)
Lemma bailed_step e i i' :
  watching i = Bailing ∨ watching i = Gone → step e i = Some i' → watching i' = Bailing ∨ watching i' = Gone.
Proof.
  intros Hw Hs%step_cases.
  destruct e; destruct_and? Hs; subst i'; cbn; auto; try (destruct Hw; congruence).
  - unfold idle. by case_match.
  - unfold fire. by case_match.
Qed.

Lemma gone_holds i : ok i → watching i = Gone → (0 < holders i)%Z.
Proof. intros Hok Hg. rewrite (ok_count i Hok), Hg. unfold self. cbn [gone]. lia. Qed.

Lemma bailed_run i es i' :
  reachable i → (watching i = Bailing ∨ watching i = Gone) → run es i = Some i' →
  ok i' ∧ (watching i' = Bailing ∨ watching i' = Gone).
Proof.
  intros Hr Hw. eapply (run_keeps (λ i, ok i ∧ (watching i = Bailing ∨ watching i = Gone)) (λ _, True));
    [|by apply Forall_true|].
  - intros e j j' _ [Hj Hwj] Hs. split; [by eapply ok_step|by eapply bailed_step].
  - split; [by apply ok_reachable|done].
Qed.

(** A tunnel brought up, left alone until the timer runs out, and taken down. *)
Definition lost_run : list event :=
  [Accept; Serve true; Finish; Expire; Fire; Send; Receive; Ask; Bail; Accept; Serve false; Finish].
Definition lost : idler := mkIdler 1 false false 0 false 0 Gone 0 false.

(** ** Properties *)

(** The idle timer is never lost: whatever happened before, once no
    connection is open and no tunnel is up, and unless the watcher already
    found one up, the goroutines left to themselves bring the process to
    [stopEverything] after boundedly many events, none of them blocked for
    good: as long as it is not there, one of them can move. *)
Theorem idle_process_stops i es i' :
  reachable i → connections i = 0 → up i = false → watching i ≠ Bailing → watching i ≠ Gone →
  Forall (λ e, internal e = true) es → run es i = Some i' →
  length es ≤ work i ∧
  (watching i' = Stopping ∨ ∃ e i'', internal e = true ∧ step e i' = Some i'').
Proof.
  intros Hr Hc Hu Hb Hg Hes Hrun. split; [pose proof (work_run _ _ _ Hes Hrun); lia|].
  apply unneeded_progress. eapply (run_keeps unneeded); [|exact Hes| |exact Hrun].
  - intros e j j' He Hj. by apply unneeded_step.
  - split; [by apply ok_reachable|auto].
Qed.

(** The state after a connection came and went. *)
Definition after_one : idler := mkIdler 0 true false 0 false 0 Receiving 0 false.

Lemma idle_process_stops_witness :
  ∃ i', run [Expire; Fire; Send; Receive; Ask] after_one = Some i' ∧ watching i' = Stopping ∧ 5 ≤ work after_one.
Proof.
  eexists. split; [reflexivity|]. split; [reflexivity|].
  refine (proj1 (idle_process_stops after_one [Expire; Fire; Send; Receive; Ask] _ _ _ _ _ _ _ _)).
  - by exists [Accept; Finish].
  - reflexivity.
  - reflexivity.
  - done.
  - done.
  - by repeat constructor.
  - reflexivity.
Defined.

(** A timer that runs out while a tunnel is up ends idle exits for good:
    the watcher calls [busy] with no [idle] to match and returns.  After that
    no sequence of events makes the process stop by itself, and one such state
    has neither a tunnel nor a connection. *)
Theorem idle_exit_lost :
  (∀ i es i', reachable i → (watching i = Bailing ∨ watching i = Gone) → run es i = Some i' →
     watching i' ≠ Stopping ∧ (watching i' = Gone → 0 < holders i')%Z) ∧
  ∃ es i, run es newIdler = Some i ∧ watching i = Gone ∧ connections i = 0 ∧ up i = false.
Proof.
  split; [|by exists lost_run, lost].
  intros i es i' Hr Hw Hrun. destruct (bailed_run i es i' Hr Hw Hrun) as [Hok Hw'].
  split; [by destruct Hw' as [-> | ->]|by apply gone_holds].
Qed.

(** The check for a tunnel that has just come up does not close the race
    it names: a connection accepted after it, and the tunnel it brings up, are
    there when the process is already stopping. *)
Theorem idle_stop_race :
  ∃ es i, run es newIdler = Some i ∧ watching i = Stopping ∧ connections i = 1 ∧ up i = true.
Proof.
  exists [Expire; Fire; Send; Receive; Ask; Accept; Serve true]. eexists. split; [reflexivity|]. done.
Qed.
