(* ===== verification/SubscriptionServer.v ===== *)
(** * The example subscription server: examples/subscription-server/main.go

    What a subscriber is served, and when.  The server declares its own types,
    so they are declared again here; a node it serves is what the reader of
    AwgEndpoint.v gets.  The configuration file as decoded, the clock and
    SHA-256 are arguments. *)

From stdpp Require Import sorting.
From S2P Require Import Prelude GoStrings GoEncoding GoJson GoJsonFacts GoJsonRaw.
From Stdlib Require Import Ascii.
From stdpp Require Import options.

Definition endpointType : string := "amneziawg".
Definition caeloDocumentType : string := "application/vnd.caelo.subscription+json".

(** ** Data *)

(** A [json.RawMessage] is the text of a value; the empty one is absent.  A
    slice that is nil is [None] where it is written as null. *)
Record peer := mkPeer {
  pr_Address : string; pr_Port : Z; pr_PublicKey : string; pr_PreSharedKey : string;
  pr_AllowedIPs : list string; pr_PersistentKeepaliveInterval : Z;
}.

Record endpoint := mkEndpoint {
  Type_ : string; Tag : string;
  Address : option (list string); PrivateKey : string; MTU : Z; DNS : list string;
  Peers : option (list peer);
  Jc : string; Jmin : string; Jmax : string;
  S1 : string; S2 : string; S3 : string; S4 : string;
  H1 : string; H2 : string; H3 : string; H4 : string;
  I1 : string; I2 : string; I3 : string; I4 : string; I5 : string;
}.

Definition set_Type (t : string) (e : endpoint) : endpoint :=
  mkEndpoint t (Tag e) (Address e) (PrivateKey e) (MTU e) (DNS e) (Peers e) (Jc e) (Jmin e) (Jmax e)
    (S1 e) (S2 e) (S3 e) (S4 e) (H1 e) (H2 e) (H3 e) (H4 e) (I1 e) (I2 e) (I3 e) (I4 e) (I5 e).

Definition zero_endpoint : endpoint :=
  mkEndpoint "" "" None "" 0 [] None "" "" "" "" "" "" "" "" "" "" "" "" "" "" "" "".

Record meta := mkMeta { Country : string; Description : string; Maintenance : bool }.
Definition zero_meta : meta := mkMeta "" "" false.

(** [Expires] in nanoseconds since 1970, [None] for the zero time. *)
Record subscriber := mkSubscriber {
  Expires : option Z; QuotaBytes : Z; UsedBytes : Z; Nodes : list string;
}.

Record config := mkConfig {
  UpdateIntervalHours : Z;
  Subscribers : gmap string subscriber;
  nodes : gmap string endpoint;
  Meta : gmap string meta;
}.

(** A missing entry of a Go map is its zero value. *)
Definition node_of (loaded : config) (name : string) : endpoint := default zero_endpoint (nodes loaded !! name).
Definition meta_of (loaded : config) (name : string) : meta := default zero_meta (Meta loaded !! name).

(** ** Loading *)

Fixpoint check_nodes (loaded : config) (names : list string) : result unit :=
  match names with
  | [] => Ok tt
  | name :: names =>
      match nodes loaded !! name with
      | Some _ => check_nodes loaded names
      | None => Err [Lit "a subscriber names node "; Quoted name; Lit ", which is not defined"]
      end
  end.

Definition check_subscriber (loaded : config) (entry : string * subscriber) : result unit :=
  _ ← check_nodes loaded (Nodes entry.2);
  if (slen entry.1 <? 24)%Z
  then Err [Lit "a token is "; Num (slen entry.1); Lit " characters; make it at least 24 and random"]
  else Ok tt.

(** [reload], with what reading and decoding the file gave and the order in
    which the map of subscribers is ranged over, which Go leaves open: the
    error, if any, and what is loaded then. *)
Definition reload (path : string) (decoded : result config) (order : list (string * subscriber))
    (before : config) : result unit * config :=
  match decoded with
  | Err e => (Err ([Lit "reading "; Plain path; Lit ": "] ++ e), before)
  | Ok loaded =>
      match foldM (λ _ entry, check_subscriber loaded entry) order tt with
      | Err e => (Err e, before)
      | Ok _ => (Ok tt, loaded)
      end
  end.

(** ** Writing: [json.Marshal] *)

(** Members with [omitempty]. *)
Definition text_tag (name s : string) : list (string * string) :=
  if bool_decide (s = "") then [] else [(name, marshal_string s)].
Definition number_tag (name : string) (z : Z) : list (string * string) :=
  if (z =? 0)%Z then [] else [(name, Itoa z)].
Definition texts_tag (name : string) (l : list string) : list (string * string) :=
  if bool_decide (l = []) then [] else [(name, marshal_array (map marshal_string l))].
Definition raw_tag (name raw : string) : list (string * string) :=
  if bool_decide (raw = "") then [] else [(name, compact false false raw)].
Definition flag_tag (name : string) (b : bool) : list (string * string) :=
  if b then [(name, marshal_bool b)] else [].

Definition or_null {A} (write : A → string) (l : option (list A)) : string :=
  match l with None => "null" | Some l => marshal_array (map write l) end.

Definition marshal_peer (p : peer) : string :=
  marshal_object ([("address", marshal_string (pr_Address p)); ("port", Itoa (pr_Port p));
                   ("public_key", marshal_string (pr_PublicKey p))]
    ++ text_tag "pre_shared_key" (pr_PreSharedKey p)
    ++ texts_tag "allowed_ips" (pr_AllowedIPs p)
    ++ number_tag "persistent_keepalive_interval" (pr_PersistentKeepaliveInterval p)).

(** The raw members, by name. *)
Definition raws (e : endpoint) : list (string * string) :=
  [("jc", Jc e); ("jmin", Jmin e); ("jmax", Jmax e);
   ("s1", S1 e); ("s2", S2 e); ("s3", S3 e); ("s4", S4 e);
   ("h1", H1 e); ("h2", H2 e); ("h3", H3 e); ("h4", H4 e);
   ("i1", I1 e); ("i2", I2 e); ("i3", I3 e); ("i4", I4 e); ("i5", I5 e)].

Definition marshal_endpoint (e : endpoint) : string :=
  marshal_object ([("type", marshal_string (Type_ e))]
    ++ text_tag "tag" (Tag e)
    ++ [("address", or_null marshal_string (Address e)); ("private_key", marshal_string (PrivateKey e))]
    ++ number_tag "mtu" (MTU e)
    ++ texts_tag "dns" (DNS e)
    ++ [("peers", or_null marshal_peer (Peers e))]
    ++ flat_map (λ r, raw_tag r.1 r.2) (raws e)).

(** ** Answers *)

(** Served in the order the subscriber names them. *)
Definition served (loaded : config) (who : subscriber) : list endpoint :=
  map (λ name, set_Type endpointType (node_of loaded name)) (Nodes who).

(** A slice that was only appended to is nil when it is empty. *)
Definition array_or_null (l : list string) : string :=
  match l with [] => "null" | _ => marshal_array l end.

Definition plainAnswer (loaded : config) (who : subscriber) : string :=
  marshal_object [("endpoints", array_or_null (map marshal_endpoint (served loaded who)))].

Definition caelo_node (loaded : config) (name : string) : string :=
  let about := meta_of loaded name in
  marshal_object ([("id", marshal_string name)]
    ++ text_tag "country" (Country about)
    ++ text_tag "description" (Description about)
    ++ flag_tag "maintenance" (Maintenance about)
    ++ [("endpoint", marshal_endpoint (set_Type endpointType (node_of loaded name)))]).

Definition caeloAnswer (loaded : config) (who : subscriber) : string :=
  marshal_object [("version", Itoa 1); ("nodes", array_or_null (map (caelo_node loaded) (Nodes who)))].

Definition unix_seconds (ns : Z) : Z := (ns / 1000000000)%Z.

Definition userinfo (who : subscriber) : string :=
  let expire := match Expires who with Some t => unix_seconds t | None => 0%Z end in
  "upload=0; download=" +:+ Itoa (UsedBytes who) +:+ "; total=" +:+ Itoa (QuotaBytes who) +:+
  "; expire=" +:+ Itoa expire.

(** ** Requests and responses *)

Record request := mkRequest { Method : string; Path : string; Accept : string; Device : string }.
Record response := mkResponse { Code : Z; Headers : gmap string string; Body : string }.

(** [http.Error] and [http.NotFound]. *)
Definition error_headers : gmap string string :=
  {["Content-Type" := "text/plain; charset=utf-8"; "X-Content-Type-Options" := "nosniff"]}.
Definition NotFound : response := mkResponse 404 error_headers ("404 page not found" +:+ nl).
Definition MethodNotAllowed : response := mkResponse 405 (<["Allow" := "GET"]> error_headers) nl.

(** [time.Now().After(who.Expires)], for a time that is not zero. *)
Definition expired (who : subscriber) (now : Z) : bool :=
  match Expires who with Some t => (t <? now)%Z | None => false end.

(** The headers of an answer, by their canonical names. *)
Definition answer_headers (loaded : config) (who : subscriber) (content_type : string) : gmap string string :=
  let h := {["Cache-Control" := "no-store"; "Subscription-Userinfo" := userinfo who; "Content-Type" := content_type]} in
  if (0 <? UpdateIntervalHours loaded)%Z
  then <["Profile-Update-Interval" := Itoa (UpdateIntervalHours loaded)]> h else h.

Definition serve (loaded : config) (now : Z) (r : request) : response :=
  if negb (bool_decide (Method r = "GET")) then MethodNotAllowed
  else
    match Subscribers loaded !! TrimPrefix (Path r) "/sub/" with
    | None => NotFound
    | Some who =>
        if expired who now then NotFound
        else if Contains (Accept r) caeloDocumentType
        then mkResponse 200 (answer_headers loaded who caeloDocumentType) (caeloAnswer loaded who +:+ nl)
        else mkResponse 200 (answer_headers loaded who "application/json") (plainAnswer loaded who +:+ nl)
    end.

(** ** The summary *)

Section State.
Context (sha256 : string → list Z).

(** The first eight bytes, in hexadecimal.  Marshalling a node that was decoded
    cannot fail: its raw members are values. *)
Definition short_hash (s : string) : string := hex_encode (take 8 (sha256 s)).

Definition node_version (loaded : config) (device name : string) : string :=
  short_hash (device +:+ marshal_endpoint (node_of loaded name)).

Definition string_le (a b : string) : Prop := String.leb a b = true.
#[export] Instance string_le_dec : RelDecision string_le.
Proof. intros a b. unfold string_le. apply _. Defined.

(** [parts], and the version of the whole set. *)
Definition parts (loaded : config) (device : string) (who : subscriber) : list string :=
  map (λ name, name +:+ ":" +:+ node_version loaded device name) (Nodes who).
Definition set_version (loaded : config) (device : string) (who : subscriber) : string :=
  short_hash (Join (merge_sort string_le (parts loaded device who)) nl).

Definition node_state (loaded : config) (device name : string) : string :=
  marshal_object [("id", marshal_string name); ("version", marshal_string (node_version loaded device name));
                  ("server", marshal_string (Tag (node_of loaded name)))].

Definition serveState (loaded : config) (now : Z) (r : request) (token : string) : response :=
  if negb (bool_decide (Method r = "GET")) then MethodNotAllowed
  else
    match Subscribers loaded !! token with
    | None => NotFound
    | Some who =>
        if expired who now then NotFound
        else mkResponse 200 {["Cache-Control" := "no-store"; "Content-Type" := "application/json"]}
               (marshal_object [("nodes", marshal_array (map (node_state loaded (Device r)) (Nodes who)));
                                ("version", marshal_string (set_version loaded (Device r) who))] +:+ nl)
    end.

Definition route (loaded : config) (now : Z) (r : request) : response :=
  match CutSuffix (TrimPrefix (Path r) "/sub/") "/state" with
  | Some token => serveState loaded now r token
  | None => serve loaded now r
  end.
End State.
