(* ===== verification/SubscriptionServerFacts.v ===== *)
(** * What the subscription server promises

    A served node is read by the application's own reader as the operator
    wrote it, in the subscriber's order; a revoked token is answered as an
    unknown one; a file is taken whole or not at all; what the summary's
    versions are blind to. *)

From stdpp Require Import sorting.
From S2P Require Import Prelude GoStrings GoEncoding GoJson GoJsonFacts GoJsonRaw AwgEndpoint Fields SubscriptionServer.
From Stdlib Require Import Ascii.
From stdpp Require Import options.

(** ** The documents *)

(** A raw member the client can read: a text, a number or null, however the
    operator wrote it; or none. *)
Definition scalar_text (raw : string) : Prop := raw = "" ∨ is_scalar raw = true.

Definition scalar_of (raw : string) : string :=
  match raw_json raw with JStr s => s | JNum lit => lit | _ => "" end.

Definition raw_member (name raw : string) : list (string * json) :=
  if bool_decide (raw = "") then [] else [(name, raw_json raw)].

Lemma field_raw name raw : fold_name name = name → scalar_text raw →
  field name UnmarshalScalar "" (raw_member name raw) = Ok (scalar_of raw).
Proof.
  intros E H. unfold raw_member. case_bool_decide as Hne; [by subst|]. destruct H as [?|H]; [done|].
  unfold field. cbn [foldM]. rewrite bool_decide_eq_true_2 by done. unfold scalar_of.
  destruct (scalar_viewed _ H) as [| |lit Hlit _ _ _]; [done..|]. cbn. by rewrite Hlit.
Qed.

Definition texts_json (l : list string) : json := JArr (map (λ s, JStr (to_valid s)) l).
Definition texts_member (name : string) (l : list string) : list (string * json) :=
  if bool_decide (l = []) then [] else [(name, texts_json l)].

Lemma written_mono k k' v j : k ≤ k' → written k v j → written k' v j.
Proof. intros Hk [H1 H2]. split; [done|]. intros. apply H2; [done|lia|done]. Qed.

Lemma written_map {A} k (f : A → string) (g : A → json) l :
  (∀ a, a ∈ l → written k (f a) (g a)) → written (S k) (marshal_array (map f l)) (JArr (map g l)).
Proof.
  intros H. apply written_array. induction l as [|a l IH]; cbn; constructor.
  - apply H, list_elem_of_here.
  - apply IH. intros. by apply H, list_elem_of_further.
Qed.

Lemma written_texts l : written 1 (marshal_array (map marshal_string l)) (texts_json l).
Proof. apply written_map. intros. apply written_string. Qed.

Lemma written_members k ms js : Forall2 (λ m j, j.1 = to_valid m.1 ∧ written k m.2 j.2) ms js → ms ≠ [] →
  written (S k) (marshal_object ms) (JObj js).
Proof. intros H Hne. destruct (written_object k ms js H Hne) as [H1 H2]. split; [done|]. intros. by apply H2. Qed.

(** ** Peers *)

Definition peer_blocks (p : peer) : list members_of :=
  [("address", [("address", JStr (to_valid (pr_Address p)))]);
   ("port", [("port", JNum (Itoa (pr_Port p)))]);
   ("public_key", [("public_key", JStr (to_valid (pr_PublicKey p)))]);
   ("pre_shared_key", text_member "pre_shared_key" (pr_PreSharedKey p));
   ("allowed_ips", texts_member "allowed_ips" (pr_AllowedIPs p));
   ("persistent_keepalive_interval",
      number_member "persistent_keepalive_interval" (pr_PersistentKeepaliveInterval p))].

Definition peer_document (p : peer) : list (string * json) := flat_map snd (peer_blocks p).

(** The peer a client reads. *)
Definition read_peer (p : peer) : EndpointPeer :=
  mkEndpointPeer (to_valid (pr_Address p)) (pr_Port p) (to_valid (pr_PublicKey p))
    (to_valid (pr_PreSharedKey p)) (map to_valid (pr_AllowedIPs p)) (pr_PersistentKeepaliveInterval p).

Definition good_peer (p : peer) : Prop :=
  in_int64 (pr_Port p) = true ∧ in_int64 (pr_PersistentKeepaliveInterval p) = true.

(** Members and the documents they read as, side by side. *)
Abbreviation reads k ms js := (Forall2 (λ m j, j.1 = to_valid m.1 ∧ written k m.2 j.2) ms js).

Lemma reads_member k name v j : to_valid name = name → written k v j → reads k [(name, v)] [(name, j)].
Proof. intros E H. constructor; [|constructor]. split; [by symmetry|exact H]. Qed.

Lemma reads_text k name s : to_valid name = name → reads k (text_tag name s) (text_member name s).
Proof.
  intros E. unfold text_tag, text_member. case_bool_decide; [constructor|]. apply reads_member, written_string. done.
Qed.
Lemma reads_number k name z : to_valid name = name → reads k (number_tag name z) (number_member name z).
Proof.
  intros E. unfold number_tag, number_member. case_match; [constructor|]. apply reads_member, written_int. done.
Qed.
Lemma reads_texts k name l : to_valid name = name → reads (S k) (texts_tag name l) (texts_member name l).
Proof.
  intros E. unfold texts_tag, texts_member. case_bool_decide; [constructor|]. apply reads_member; [done|].
  apply (written_mono 1); [lia|apply written_texts].
Qed.
Lemma reads_raw k name raw : to_valid name = name → scalar_text raw → reads k (raw_tag name raw) (raw_member name raw).
Proof.
  intros E H. unfold raw_tag, raw_member. case_bool_decide; [constructor|]. apply reads_member; [done|].
  destruct H as [?|H]; [done|]. apply (written_mono 0); [lia|by apply written_compact].
Qed.

#[local] Ltac reads_tag :=
  first [split; [reflexivity|apply written_string || apply written_int]
        | apply reads_text | apply reads_number | apply reads_texts | apply reads_raw]; try reflexivity.

Lemma written_peer p : written 2 (marshal_peer p) (JObj (peer_document p)).
Proof.
  apply written_members; [|done]. unfold peer_document, peer_blocks. cbn [flat_map snd].
  rewrite app_nil_r. cbn [app]. do 3 (apply list.Forall2_cons; split; [reads_tag|]).
  repeat apply Forall2_app; reads_tag.
Qed.

Lemma text_block name s : fold_name name = name → under_one_name (name, text_member name s).
Proof. intros E. by apply (text_member_names name s (λ k, fold_name k = name)). Qed.
Lemma number_block name z : fold_name name = name → under_one_name (name, number_member name z).
Proof. intros E. by apply (number_member_names name z (λ k, fold_name k = name)). Qed.
Lemma texts_block name l : fold_name name = name → under_one_name (name, texts_member name l).
Proof. intros E. unfold under_one_name, texts_member. cbn. case_bool_decide; auto. Qed.
Lemma raw_block name raw : fold_name name = name → under_one_name (name, raw_member name raw).
Proof. intros E. unfold under_one_name, raw_member. cbn. case_bool_decide; auto. Qed.
Lemma one_block name v : fold_name name = name → under_one_name (name, [(name, v)]).
Proof. intros E. repeat constructor. exact E. Qed.

#[local] Ltac names := first [apply one_block | apply text_block | apply number_block | apply texts_block | apply raw_block];
  reflexivity.

Lemma peer_blocks_named p : Forall under_one_name (peer_blocks p).
Proof. unfold peer_blocks. repeat (constructor; [names|]). constructor. Qed.

Lemma peer_names p : NoDup (peer_blocks p).*1.
Proof. apply (bool_decide_unpack _). vm_compute. exact I. Qed.

Lemma field_texts name l : fold_name name = name →
  field name (dec_slice dec_string "") [] (texts_member name l) = Ok (map to_valid l).
Proof.
  intros E. unfold texts_member. case_bool_decide; [by subst|].
  unfold field. cbn [foldM]. rewrite bool_decide_eq_true_2 by done. unfold texts_json.
  by rewrite (dec_slice_map dec_string "" (λ s, JStr (to_valid s)) to_valid l).
Qed.

Lemma field_one {A} name (dec : A → json → result A) zero j v : fold_name name = name → dec zero j = Ok v →
  field name dec zero [(name, j)] = Ok v.
Proof. intros E H. unfold field. cbn [foldM]. rewrite bool_decide_eq_true_2 by done. by rewrite H. Qed.

Lemma dec_int_Itoa old z : in_int64 z = true → dec_int old (JNum (Itoa z)) = Ok z.
Proof. intros H. cbn. by rewrite parse_int_Itoa. Qed.

#[local] Ltac in_blocks := unfold peer_blocks; repeat first [apply list_elem_of_here | apply list_elem_of_further].
#[local] Ltac reads_field :=
  first [apply field_text | apply field_number | apply field_texts | apply field_raw | apply field_one];
  solve [reflexivity | assumption | by apply dec_int_Itoa].

Lemma dec_peer_document p : good_peer p → dec_peer zero_endpoint_peer (JObj (peer_document p)) = Ok (read_peer p).
Proof.
  intros [Hport Hkeep].
  assert (∀ {A} name (dec : A → json → result A) zero v ms, (name, ms) ∈ peer_blocks p →
    field name dec zero ms = Ok v → field name dec zero (peer_document p) = Ok v) as get.
  { intros A name dec zero v ms Hin Hv. exact (field_block _ _ _ _ _ _ (peer_blocks_named p) (peer_names p) Hin Hv). }
  unfold dec_peer, read_peer.
  repeat (eapply result_bind_eq; [eapply get; [in_blocks|reads_field]|]). reflexivity.
Qed.

(** ** Endpoints *)

Definition listed {A} (write : A → json) (l : option (list A)) : json :=
  match l with None => JNull | Some l => JArr (map write l) end.

Definition endpoint_blocks (e : endpoint) : list members_of :=
  [("type", [("type", JStr (to_valid (Type_ e)))]);
   ("tag", text_member "tag" (Tag e));
   ("address", [("address", listed (λ s, JStr (to_valid s)) (Address e))]);
   ("private_key", [("private_key", JStr (to_valid (PrivateKey e)))]);
   ("mtu", number_member "mtu" (MTU e));
   ("dns", texts_member "dns" (DNS e));
   ("peers", [("peers", listed (λ p, JObj (peer_document p)) (Peers e))])]
  ++ map (λ r, (r.1, raw_member r.1 r.2)) (raws e).

Definition endpoint_document (e : endpoint) : list (string * json) := flat_map snd (endpoint_blocks e).

(** The endpoint a client reads. *)
Definition read_as (e : endpoint) : EndpointNode :=
  AwgEndpoint.mkEndpoint (to_valid (Type_ e)) (to_valid (Tag e)) (map to_valid (default [] (Address e)))
    (to_valid (PrivateKey e)) (MTU e) (map to_valid (DNS e)) (map read_peer (default [] (Peers e)))
    (scalar_of (Jc e)) (scalar_of (Jmin e)) (scalar_of (Jmax e))
    (scalar_of (S1 e)) (scalar_of (S2 e)) (scalar_of (S3 e)) (scalar_of (S4 e))
    (scalar_of (H1 e)) (scalar_of (H2 e)) (scalar_of (H3 e)) (scalar_of (H4 e))
    (scalar_of (I1 e)) (scalar_of (I2 e)) (scalar_of (I3 e)) (scalar_of (I4 e)) (scalar_of (I5 e))
    "" "" "" "" "" "" "" "" "".

(** A node as an operator writes it: integers in range, the obfuscation given
    as numbers or texts. *)
Record good_node (e : endpoint) : Prop := {
  good_MTU : in_int64 (MTU e) = true;
  good_peers : Forall good_peer (default [] (Peers e));
  good_raws : Forall (λ r, scalar_text r.2) (raws e);
}.

Lemma written_listed {A} k (f : A → string) (g : A → json) l : (∀ a, written k (f a) (g a)) →
  written (S k) (or_null f l) (listed g l).
Proof. intros H. destruct l as [l|]; [by apply written_map|]. apply written_null. Qed.

Lemma raws_names e : Forall (λ r, fold_name r.1 = r.1 ∧ to_valid r.1 = r.1) (raws e).
Proof. repeat (constructor; [done|]). constructor. Qed.

Lemma reads_raws k l : Forall (λ r, fold_name r.1 = r.1 ∧ to_valid r.1 = r.1) l → Forall (λ r, scalar_text r.2) l →
  reads k (flat_map (λ r, raw_tag r.1 r.2) l) (flat_map snd (map (λ r, (r.1, raw_member r.1 r.2)) l)).
Proof.
  induction 1 as [|[name raw] l [_ Hn] _ IH]; intros H; [constructor|].
  apply list.Forall_cons in H as [Hr H]. apply Forall2_app; [by apply reads_raw|by apply IH].
Qed.

Lemma written_endpoint e : good_node e → written 4 (marshal_endpoint e) (JObj (endpoint_document e)).
Proof.
  intros [_ _ Hr]. apply written_members; [|done].
  unfold endpoint_document, endpoint_blocks. rewrite flat_map_app. cbn [flat_map snd app].
  rewrite <- !app_assoc. cbn [app].
  apply list.Forall2_cons; split; [reads_tag|]. apply Forall2_app; [reads_tag|].
  apply list.Forall2_cons; split.
  { split; [done|]. apply (written_mono 1); [lia|]. apply written_listed. intros. apply written_string. }
  apply list.Forall2_cons; split; [reads_tag|]. rewrite <- !app_assoc. cbn [app].
  do 2 (apply Forall2_app; [reads_tag|]).
  apply list.Forall2_cons; split.
  { split; [done|]. apply written_listed. intros. apply written_peer. }
  apply reads_raws; [apply raws_names|exact Hr].
Qed.

Lemma endpoint_blocks_named e : Forall under_one_name (endpoint_blocks e).
Proof.
  unfold endpoint_blocks. apply list.Forall_app. split; [repeat (constructor; [names|]); constructor|].
  apply list.Forall_fmap. eapply list.Forall_impl; [apply (raws_names e)|]. cbn. intros r [H _]. by apply raw_block.
Qed.

Lemma endpoint_names e : NoDup (endpoint_blocks e).*1.
Proof. apply (bool_decide_unpack _). vm_compute. exact I. Qed.

Lemma dec_listed {A B} name (dec : A → json → result A) zero (f : B → json) (g : B → A) l : fold_name name = name →
  (∀ b, b ∈ default [] l → dec zero (f b) = Ok (g b)) →
  field name (dec_slice dec zero) [] [(name, listed f l)] = Ok (map g (default [] l)).
Proof. intros E H. apply field_one; [done|]. destruct l as [l|]; [by apply dec_slice_map|done]. Qed.

#[local] Ltac in_endpoint :=
  unfold endpoint_blocks, raws; cbn [app map fst snd]; repeat first [apply list_elem_of_here | apply list_elem_of_further].

Lemma dec_endpoint_document e : good_node e → dec_endpoint (JObj (endpoint_document e)) = Ok (read_as e).
Proof.
  intros [Hm Hp Hr].
  assert (∀ {A} name (dec : A → json → result A) zero v ms, (name, ms) ∈ endpoint_blocks e →
    field name dec zero ms = Ok v → field name dec zero (endpoint_document e) = Ok v) as get.
  { intros A name dec zero v ms Hin Hv. exact (field_block _ _ _ _ _ _ (endpoint_blocks_named e) (endpoint_names e) Hin Hv). }
  assert (∀ {A} name (dec : A → json → result A) zero, name ∉ (endpoint_blocks e).*1 →
    field name dec zero (endpoint_document e) = Ok zero) as skip.
  { intros A name dec zero Hn. exact (blocks_other _ _ _ _ (endpoint_blocks_named e) Hn). }
  unfold raws in Hr. repeat (apply list.Forall_cons in Hr as [? Hr]). cbn [snd] in *.
  rewrite list.Forall_forall in Hp.
  cbn [dec_endpoint]. unfold dec_members, read_as.
  repeat (eapply result_bind_eq; [eapply get; [in_endpoint|]; first [reads_field|apply dec_listed; [done|]; solve [done | intros; apply dec_peer_document; by apply Hp]]|]).
  repeat (eapply result_bind_eq; [apply skip; apply (bool_decide_unpack _); vm_compute; exact I|]).
  reflexivity.
Qed.

(** ** Order *)

Lemma string_le_cons a s b t :
  string_le (String a s) (String b t) ↔
  (N_of_ascii a < N_of_ascii b)%N ∨ a = b ∧ string_le s t.
Proof.
  unfold string_le, String.leb. cbn [String.compare]. unfold Ascii.compare.
  destruct (N.compare_spec (N_of_ascii a) (N_of_ascii b)) as [E|E|E].
  - apply (f_equal ascii_of_N) in E. rewrite !ascii_N_embedding in E. subst. split; [by right|].
    intros [H|[_ H]]; [lia|done].
  - split; [by left|done].
  - split; [done|]. intros [H|[-> _]]; lia.
Qed.

#[local] Instance string_le_trans : Transitive string_le.
Proof.
  intros s. induction s as [|a s IH]; intros [|b t] [|c u]; rewrite ?string_le_cons; try done.
  intros [H|[-> H]] [H'|[-> H']]; [left; lia|by left|by left|right]. split; [done|by eapply IH].
Qed.
#[local] Instance string_le_antisymm : AntiSymm (=) string_le.
Proof. intros s t. apply String.leb_antisym. Qed.
#[local] Instance string_le_total : Total string_le.
Proof. intros s t. apply String.leb_total. Qed.

Lemma sorted_parts_order l l' : l ≡ₚ l' ↔ merge_sort string_le l = merge_sort string_le l'.
Proof.
  split; intros H.
  - apply (StronglySorted_unique string_le); [apply StronglySorted_merge_sort; apply _..|].
    by rewrite !merge_sort_Permutation.
  - by rewrite <- (merge_sort_Permutation string_le l), H, merge_sort_Permutation.
Qed.

Lemma Join_cons a l sep : l ≠ [] → Join (a :: l) sep = a +:+ sep +:+ Join l sep.
Proof. by destruct l. Qed.

Lemma Split_Join l c : l ≠ [] → Forall (λ w, lacks c w) l → Split (Join l (String c "")) c = l.
Proof.
  induction l as [|w l IH]; [done|]. intros _ [Hw Hl]%list.Forall_cons.
  destruct (decide (l = [])) as [->|Hne]; [by apply Split_lacks_id|].
  rewrite Join_cons by done. change (w +:+ String c "" +:+ ?r) with (w +:+ String c r).
  by rewrite Split_line, IH.
Qed.

Lemma Join_inj l l' c : Forall (λ w, lacks c w ∧ w ≠ "") l → Forall (λ w, lacks c w ∧ w ≠ "") l' →
  Join l (String c "") = Join l' (String c "") → l = l'.
Proof.
  intros H H' E. apply list.Forall_and in H as [Hl Hn]. apply list.Forall_and in H' as [Hl' Hn'].
  destruct (decide (l = [])) as [->|Hne], (decide (l' = [])) as [->|Hne']; [done|..].
  - pose proof (Split_Join l' c Hne' Hl') as S. rewrite <- E in S. cbn in S. subst l'.
    by apply list.Forall_cons in Hn' as [? _].
  - pose proof (Split_Join l c Hne Hl) as S. rewrite E in S. cbn in S. subst l.
    by apply list.Forall_cons in Hn as [? _].
  - rewrite <- (Split_Join l c), <- (Split_Join l' c), E by done. done.
Qed.

Lemma sapp_inj_length a b x y : String.length x = String.length y → a +:+ x = b +:+ y → a = b ∧ x = y.
Proof.
  intros Hl. revert b. induction a as [|c a IH]; intros [|d b] E; cbn in E; [done|..].
  - exfalso. subst. cbn in Hl. rewrite string_length_app in Hl. lia.
  - exfalso. subst. cbn in Hl. rewrite string_length_app in Hl. lia.
  - injection E as -> E. by apply IH in E as [-> ->].
Qed.

Lemma map_Permutation_reads {A B C D} (f : A → C) (f' : B → C) (g : A → D) (g' : B → D) l l' :
  (∀ a b, a ∈ l → b ∈ l' → f a = f' b → g a = g' b) → map f l ≡ₚ map f' l' → map g l ≡ₚ map g' l'.
Proof.
  intros H (l3 & E & Hp)%Permutation_map_inv. rewrite Hp.
  assert (map g l = map g' l3) as ->; [|done].
  assert (∀ a b, a ∈ l → b ∈ l3 → f a = f' b → g a = g' b) as H3.
  { intros a b Ha Hb. apply H; [done|by rewrite Hp]. }
  clear -E H3. revert l3 E H3. induction l as [|a l IH]; intros [|b l3] E H3; try done. cbn in *.
  injection E as E1 E. rewrite (H3 a b); [|apply list_elem_of_here..|done]. f_equal. apply IH; [done|].
  intros. apply H3; [by apply list_elem_of_further..|done].
Qed.

(** ** What an application reads *)

(** The members of a document's array, decoded one by one. *)
Definition read_list {A} (name : string) (dec : json → result A) (zero : A) (body : string) : result (list A) :=
  match json_read body with
  | Some (JObj ms) => field name (dec_slice (λ _, dec) zero) [] ms
  | _ => Err decode_error
  end.

(** A node of the richer document: its identity and its endpoint. *)
Definition read_caelo_node (v : json) : result (string * EndpointNode) :=
  match v with
  | JObj ms =>
      id ← field "id" dec_string "" ms;
      endpoint ← field "endpoint" (λ _, dec_endpoint) (read_as zero_endpoint) ms;
      Ok (id, endpoint)
  | _ => Err decode_error
  end.

(** The node a subscriber is served under a name, as it is read. *)
Definition read_node (loaded : config) (name : string) : EndpointNode :=
  read_as (set_Type endpointType (node_of loaded name)).

Definition good_nodes (loaded : config) (who : subscriber) : Prop :=
  ∀ name, name ∈ Nodes who → good_node (node_of loaded name).

Lemma good_set_Type t e : good_node e → good_node (set_Type t e).
Proof. by intros []. Qed.

Definition array_json (l : list json) : json := match l with [] => JNull | _ => JArr l end.

Lemma written_array_or_null {A} k (f : A → string) (g : A → json) l :
  (∀ a, a ∈ l → written k (f a) (g a)) → written (S k) (array_or_null (map f l)) (array_json (map g l)).
Proof. intros H. destruct l as [|a l]; [apply written_null|]. by apply written_map. Qed.

Lemma dec_array_json {A B} (dec : json → result A) zero (f : B → json) (g : B → A) l :
  (∀ b, b ∈ l → dec (f b) = Ok (g b)) → dec_slice (λ _, dec) zero [] (array_json (map f l)) = Ok (map g l).
Proof. intros H. destruct l as [|b l]; [done|]. by apply (dec_slice_map (λ _, dec)). Qed.

Lemma json_read_members k ms js : reads k ms js → ms ≠ [] → (Z.of_nat k < 10000)%Z →
  json_read (marshal_object ms +:+ nl) = Some (JObj js).
Proof. intros. by eapply json_read_object. Qed.

Lemma plain_reads loaded who : good_nodes loaded who →
  read_list "endpoints" dec_endpoint (read_as zero_endpoint) (plainAnswer loaded who +:+ nl)
    = Ok (map (read_node loaded) (Nodes who)).
Proof.
  intros H. unfold plainAnswer, served, read_list. rewrite map_map.
  set (f := λ name, JObj (endpoint_document (set_Type endpointType (node_of loaded name)))).
  rewrite (json_read_members 5 _ [("endpoints", array_json (map f (Nodes who)))]); [|apply reads_member; [done|]|done|done].
  - apply field_one; [done|]. apply dec_array_json. intros name Hn. by apply dec_endpoint_document, good_set_Type, H.
  - apply written_array_or_null. intros name Hn. by apply written_endpoint, good_set_Type, H.
Qed.

Definition caelo_blocks (loaded : config) (name : string) : list members_of :=
  let about := meta_of loaded name in
  [("id", [("id", JStr (to_valid name))]);
   ("country", text_member "country" (Country about));
   ("description", text_member "description" (Description about));
   ("maintenance", if Maintenance about then [("maintenance", JBool true)] else []);
   ("endpoint", [("endpoint", JObj (endpoint_document (set_Type endpointType (node_of loaded name))))])].

Lemma written_caelo_node loaded name : good_node (node_of loaded name) →
  written 5 (caelo_node loaded name) (JObj (flat_map snd (caelo_blocks loaded name))).
Proof.
  intros H. apply written_members; [|done]. unfold caelo_blocks. cbn [flat_map snd app].
  apply list.Forall2_cons; split; [reads_tag|]. do 2 (apply Forall2_app; [reads_tag|]).
  apply Forall2_app; [unfold flag_tag; destruct (Maintenance _); repeat constructor|].
  apply reads_member; [done|]. by apply written_endpoint, good_set_Type.
Qed.

Lemma read_caelo_node_document loaded name : good_node (node_of loaded name) →
  read_caelo_node (JObj (flat_map snd (caelo_blocks loaded name))) = Ok (to_valid name, read_node loaded name).
Proof.
  intros H.
  assert (Forall under_one_name (caelo_blocks loaded name)) as Hb.
  { unfold caelo_blocks. do 3 (constructor; [names|]).
    constructor; [by destruct (Maintenance _); repeat constructor|]. constructor; [names|constructor]. }
  assert (NoDup (caelo_blocks loaded name).*1) as Hd by (apply (bool_decide_unpack _); vm_compute; exact I).
  unfold read_caelo_node.
  eapply result_bind_eq; [eapply (field_block _ _ _ _ _ _ Hb Hd); [apply list_elem_of_here|by apply field_one]|].
  eapply result_bind_eq; [eapply (field_block _ _ _ _ _ _ Hb Hd)|].
  - unfold caelo_blocks. do 4 apply list_elem_of_further. apply list_elem_of_here.
  - apply field_one; [done|]. by apply dec_endpoint_document, good_set_Type.
  - reflexivity.
Qed.

Lemma caelo_reads loaded who : good_nodes loaded who →
  read_list "nodes" read_caelo_node ("", read_as zero_endpoint) (caeloAnswer loaded who +:+ nl)
    = Ok (map (λ name, (to_valid name, read_node loaded name)) (Nodes who)).
Proof.
  intros H. unfold caeloAnswer, read_list.
  set (f := λ name, JObj (flat_map snd (caelo_blocks loaded name))).
  rewrite (json_read_members 6 _ [("version", JNum (Itoa 1)); ("nodes", array_json (map f (Nodes who)))]);
    [|apply list.Forall2_cons; split; [reads_tag|apply reads_member; [done|]]|done|done].
  - apply (field_skip _ _ _ _ [_]); [by repeat constructor|]. apply field_one; [done|]. apply dec_array_json.
    intros name Hn. by apply read_caelo_node_document, H.
  - apply written_array_or_null. intros name Hn. by apply written_caelo_node, H.
Qed.

Lemma endpoint_reads e : good_node e → ParseEndpoint (marshal_endpoint e) = Endpoint_Config (read_as e).
Proof.
  intros H. unfold ParseEndpoint. rewrite (written_json_read 4 _ _ (written_endpoint e H)) by lia.
  by rewrite dec_endpoint_document.
Qed.

(** ** Requests *)

(** The token a path names. *)
Definition token_of (path : string) : string :=
  let rest := TrimPrefix path "/sub/" in default rest (CutSuffix rest "/state").

(** A subscriber's time is not over: it is open-ended, or its last instant is
    still to come or is now. *)
Definition in_time (who : subscriber) (now : Z) : Prop :=
  ∀ last, Expires who = Some last → (now ≤ last)%Z.

Lemma in_time_spec who now : in_time who now ↔ expired who now = false.
Proof.
  unfold in_time, expired. destruct (Expires who) as [t|]; [|done]. rewrite Z.ltb_ge.
  split; [intros H; by apply H|by intros H ? [= <-]].
Qed.

#[export] Instance in_time_dec who now : Decision (in_time who now).
Proof. destruct (expired who now) eqn:E; [right|left]; rewrite in_time_spec; congruence. Defined.

(** The same server without the subscribers whose time is over. *)
Definition without_expired (now : Z) (loaded : config) : config :=
  mkConfig (UpdateIntervalHours loaded) (filter (λ entry, in_time entry.2 now) (Subscribers loaded))
    (nodes loaded) (Meta loaded).

Lemma lookup_without_expired now loaded token who :
  Subscribers (without_expired now loaded) !! token = Some who ↔
  Subscribers loaded !! token = Some who ∧ expired who now = false.
Proof. rewrite <- in_time_spec. apply map_lookup_filter_Some. Qed.

Section Requests.
Context (sha256 : string → list Z).

(** The answer to a subscriber's GET. *)
Definition answer (loaded : config) (r : request) (who : subscriber) : response :=
  match CutSuffix (TrimPrefix (Path r) "/sub/") "/state" with
  | Some _ =>
      mkResponse 200 {["Cache-Control" := "no-store"; "Content-Type" := "application/json"]}
        (marshal_object [("nodes", marshal_array (map (node_state sha256 loaded (Device r)) (Nodes who)));
                         ("version", marshal_string (set_version sha256 loaded (Device r) who))] +:+ nl)
  | None =>
      if Contains (Accept r) caeloDocumentType
      then mkResponse 200 (answer_headers loaded who caeloDocumentType) (caeloAnswer loaded who +:+ nl)
      else mkResponse 200 (answer_headers loaded who "application/json") (plainAnswer loaded who +:+ nl)
  end.

Lemma answer_code loaded r who : Code (answer loaded r who) = 200%Z.
Proof. unfold answer. destruct (CutSuffix _ _); [done|]. by destruct (Contains _ _). Qed.

Lemma route_by_token loaded now r :
  route sha256 loaded now r =
    if bool_decide (Method r = "GET") then
      match Subscribers loaded !! token_of (Path r) with
      | Some who => if expired who now then NotFound else answer loaded r who
      | None => NotFound
      end
    else MethodNotAllowed.
Proof.
  unfold route, token_of, answer. destruct (CutSuffix _ _) as [token|]; unfold serveState, serve; cbn [default];
    by case_bool_decide.
Qed.

(** ... which is the subscriber there is without the expired ones. *)
Lemma route_live loaded now r :
  route sha256 loaded now r =
    if bool_decide (Method r = "GET") then
      match Subscribers (without_expired now loaded) !! token_of (Path r) with
      | Some who => answer loaded r who
      | None => NotFound
      end
    else MethodNotAllowed.
Proof.
  rewrite route_by_token. case_bool_decide; [|done].
  destruct (Subscribers (without_expired _ _) !! _) as [who|] eqn:Hs.
  - apply lookup_without_expired in Hs as [-> ->]. done.
  - destruct (Subscribers loaded !! _) as [who|] eqn:Hw; [|done]. destruct (expired who now) eqn:He; [done|].
    by rewrite (proj2 (lookup_without_expired _ _ _ _) (conj Hw He)) in Hs.
Qed.

Lemma without_expired_again now loaded : without_expired now (without_expired now loaded) = without_expired now loaded.
Proof. unfold without_expired at 1 3. f_equal. cbn. apply map_filter_filter_l. by intros. Qed.

(** C25: a token that is revoked, because the last instant it is for is past, is
    answered exactly as one the server never knew: on every request, the
    document's or the summary's, the answer is that of the server without the
    subscribers whose time is over; it is an answer that depends on nothing but
    the method when the token is not one of the others, and a GET succeeds just
    when it is. *)
Theorem revoked_is_unknown loaded now r :
  route sha256 loaded now r = route sha256 (without_expired now loaded) now r ∧
  (Subscribers (without_expired now loaded) !! token_of (Path r) = None →
     route sha256 loaded now r = if bool_decide (Method r = "GET") then NotFound else MethodNotAllowed) ∧
  (Code (route sha256 loaded now r) = 200%Z ↔
     Method r = "GET" ∧ is_Some (Subscribers (without_expired now loaded) !! token_of (Path r))).
Proof.
  split_and!.
  - by rewrite (route_live (without_expired now loaded)), without_expired_again, route_live.
  - intros H. by rewrite route_live, H.
  - rewrite route_live. case_bool_decide as Hm; [|by split; [|intros [? _]]].
    destruct (Subscribers _ !! _) as [who|]; [|by split; [|intros [_ [? ?]]]].
    rewrite answer_code. naive_solver.
Qed.
End Requests.

(** ** Delivery *)

(** What the answer to a subscriber's request is to the application that sent
    it: the nodes of the subscriber in order, as they are in the file, and
    each a configuration. *)
Definition delivers (sha256 : string → list Z) (loaded : config) (now : Z) (r : request) (who : subscriber) : Prop :=
  let response := route sha256 loaded now r in
  Code response = 200%Z ∧
  (if Contains (Accept r) caeloDocumentType
   then Headers response !! "Content-Type" = Some caeloDocumentType ∧
        read_list "nodes" read_caelo_node ("", read_as zero_endpoint) (Body response)
          = Ok (map (λ name, (to_valid name, read_node loaded name)) (Nodes who))
   else Headers response !! "Content-Type" = Some "application/json" ∧
        read_list "endpoints" dec_endpoint (read_as zero_endpoint) (Body response)
          = Ok (map (read_node loaded) (Nodes who))) ∧
  (∀ name, name ∈ Nodes who →
     ParseEndpoint (marshal_endpoint (set_Type endpointType (node_of loaded name)))
       = Endpoint_Config (read_node loaded name)).

Section Delivery.
Context (sha256 : string → list Z) (loaded : config) (now : Z) (r : request) (who : subscriber).
Context (Hget : Method r = "GET").
Context (Hwho : Subscribers loaded !! token_of (Path r) = Some who).
Context (Hlive : expired who now = false).
Context (Hdocument : CutSuffix (TrimPrefix (Path r) "/sub/") "/state" = None).
Context (Hgood : good_nodes loaded who).

(** Each endpoint is read as the configuration of its node. *)
Lemma served_nodes_read_back : delivers sha256 loaded now r who.
Proof using Hget Hwho Hlive Hdocument Hgood.
  unfold delivers. cbv zeta. rewrite route_by_token, Hwho, Hlive. rewrite bool_decide_eq_true_2 by done.
  split; [apply answer_code|]. split.
  - unfold answer. rewrite Hdocument. destruct (Contains _ _); cbn [Headers Body].
    + split; [|by apply caelo_reads]. unfold answer_headers. by destruct (_ <? _)%Z.
    + split; [|by apply plain_reads]. unfold answer_headers. by destruct (_ <? _)%Z.
  - intros name Hn. by apply endpoint_reads, good_set_Type, Hgood.
Qed.
End Delivery.

(** ** Loading *)

(** What [reload] asks of a configuration. *)
Definition sound (loaded : config) : Prop :=
  map_Forall (λ token who, (24 ≤ slen token)%Z ∧ Forall (λ name, is_Some (nodes loaded !! name)) (Nodes who))
    (Subscribers loaded).

Lemma check_nodes_Ok loaded names :
  check_nodes loaded names = Ok tt ↔ Forall (λ name, is_Some (nodes loaded !! name)) names.
Proof.
  induction names as [|name names IH]; cbn; [by split|].
  rewrite list.Forall_cons, <- IH. destruct (nodes loaded !! name) as [e|]; [split; [by split; [eexists|]|by intros []]|].
  split; [done|]. by intros [[? ?] _].
Qed.

Lemma check_subscriber_Ok loaded entry : check_subscriber loaded entry = Ok tt ↔
  (24 ≤ slen entry.1)%Z ∧ Forall (λ name, is_Some (nodes loaded !! name)) (Nodes entry.2).
Proof.
  rewrite <- check_nodes_Ok. unfold check_subscriber.
  destruct (check_nodes loaded (Nodes entry.2)) as [[]|e]; cbn [mbind result_bind]; [|by split; [|intros []]].
  destruct (Z.ltb_spec (slen entry.1) 24); split; try done; try lia; by intros [? _]; lia.
Qed.

Lemma check_all_Ok loaded order :
  foldM (λ _ entry, check_subscriber loaded entry) order tt = Ok tt ↔
  Forall (λ entry, (24 ≤ slen entry.1)%Z ∧ Forall (λ name, is_Some (nodes loaded !! name)) (Nodes entry.2)) order.
Proof.
  induction order as [|entry order IH]; cbn [foldM]; [by split|].
  rewrite list.Forall_cons, <- check_subscriber_Ok.
  destruct (check_subscriber loaded entry) as [[]|e]; cbn [mbind result_bind]; [|by split; [|intros []]].
  rewrite IH. split; [done|by intros []].
Qed.

(** A configuration is taken whole or not at all: whichever order Go
    ranges over the subscribers in, it is loaded just when every token has at
    least 24 bytes and every node a subscriber names is defined; and on any
    error, reading the file included, the server goes on with the
    configuration it had. *)
Theorem reload_all_or_nothing path loaded order before :
  order ≡ₚ map_to_list (Subscribers loaded) →
  (sound loaded → reload path (Ok loaded) order before = (Ok tt, loaded)) ∧
  (¬ sound loaded → ∃ e, reload path (Ok loaded) order before = (Err e, before)) ∧
  (∀ e order', ∃ e', reload path (Err e) order' before = (Err e', before)).
Proof.
  intros Hp.
  assert (foldM (λ _ entry, check_subscriber loaded entry) order tt = Ok tt ↔ sound loaded) as H.
  { rewrite check_all_Ok, Hp. unfold sound. rewrite map_Forall_to_list. apply Forall_proper; [|done].
    by intros [token who]. }
  split_and!.
  - intros Hs%H. unfold reload. by rewrite Hs.
  - intros Hs. unfold reload. destruct (foldM _ order tt) as [[]|e]; [|by eexists]. exfalso. by apply Hs, H.
  - intros e order'. by eexists.
Qed.

(** ** The summary's versions *)

Section Versions.
Context (sha256 : string → list Z) (device : string).
Context (Hsha : ∀ s, length (sha256 s) = 32 ∧ Forall is_byte (sha256 s)).

Lemma short_hash_length s : String.length (short_hash sha256 s) = 16.
Proof using Hsha. unfold short_hash. rewrite hex_encode_length, length_take. destruct (Hsha s). lia. Qed.

Lemma short_hash_line s : lacks newline (short_hash sha256 s).
Proof using Hsha.
  apply (sall_impl is_lower_hex).
  - intros c Hc. unfold is_lower_hex, code_in in Hc. apply negb_true_iff, ascii_eqb_false. intros ->. done.
  - apply hex_encode_lower, Forall_take, Hsha.
Qed.

(** The texts a summary hashes. *)
Definition hashed (loaded : config) (who : subscriber) : list string :=
  Join (merge_sort string_le (parts sha256 loaded device who)) nl ::
  map (λ name, device +:+ marshal_endpoint (node_of loaded name)) (Nodes who).

Definition no_collision (texts : list string) : Prop :=
  ∀ x y, x ∈ texts → y ∈ texts → short_hash sha256 x = short_hash sha256 y → x = y.

Definition one_line_names (who : subscriber) : Prop := Forall (λ name, lacks newline name) (Nodes who).

Lemma parts_lines loaded who : one_line_names who →
  Forall (λ w, lacks newline w ∧ w ≠ "") (merge_sort string_le (parts sha256 loaded device who)).
Proof using Hsha.
  intros H. rewrite merge_sort_Permutation. apply list.Forall_fmap. eapply list.Forall_impl; [exact H|].
  intros name Hn. cbn. split.
  - rewrite !sall_app, Hn. cbn. apply short_hash_line.
  - destruct name; discriminate.
Qed.

#[local] Instance Ok_inj {A} : Inj (=) (=) (@Ok A).
Proof. by intros x y [= ->]. Qed.

Lemma same_marshal e e' : good_node e → good_node e' → marshal_endpoint e = marshal_endpoint e' → read_as e = read_as e'.
Proof.
  intros H H' E. pose proof (written_json_read 4 _ _ (written_endpoint e H) ltac:(lia)) as R.
  rewrite E, (written_json_read 4 _ _ (written_endpoint e' H')) in R by lia.
  pose proof (dec_endpoint_document e H) as D. apply (inj Some) in R. rewrite <- R, dec_endpoint_document in D by done.
  by apply (inj Ok) in D.
Qed.

Definition retype (t : string) (n : EndpointNode) : EndpointNode :=
  match n with
  | AwgEndpoint.mkEndpoint _ tag address private_key mtu dns peers jc jmin jmax s1 s2 s3 s4
      h1 h2 h3 h4 i1 i2 i3 i4 i5 hpk cpa rat rt rj kt mha rtr dc =>
    AwgEndpoint.mkEndpoint t tag address private_key mtu dns peers jc jmin jmax s1 s2 s3 s4
      h1 h2 h3 h4 i1 i2 i3 i4 i5 hpk cpa rat rt rj kt mha rtr dc
  end.

Lemma same_served e e' : read_as e = read_as e' → read_as (set_Type endpointType e) = read_as (set_Type endpointType e').
Proof.
  change (read_as (set_Type endpointType e)) with (retype (to_valid endpointType) (read_as e)).
  change (read_as (set_Type endpointType e')) with (retype (to_valid endpointType) (read_as e')). by intros ->.
Qed.

Lemma same_parts loaded loaded' who who' :
  one_line_names who → one_line_names who' → no_collision (hashed loaded who ++ hashed loaded' who') →
  set_version sha256 loaded device who = set_version sha256 loaded' device who' →
  parts sha256 loaded device who ≡ₚ parts sha256 loaded' device who'.
Proof using Hsha.
  intros Hl Hl' Hc E. apply sorted_parts_order, (Join_inj _ _ newline); [by apply parts_lines..|].
  apply Hc; [..|exact E]; apply elem_of_app; [left|right]; apply list_elem_of_here.
Qed.

(** C24: An unchanged version of the set means unchanged nodes, as a set.  For
    two answers whose nodes have names of one line, integers that fit an int64
    and an obfuscation given in texts, numbers or null: unless two of the texts
    hashed for them collide, equal versions mean the same nodes under the same
    identities, each read by the application as the same endpoint, so a node
    added, removed or altered changes the version.  It says nothing of the
    order of the nodes, nor of their metadata ([version_blind]); and a name
    with a line break in it can stand for two nodes. *)
Theorem version_covers_nodes loaded loaded' who who' :
  good_nodes loaded who → good_nodes loaded' who' → one_line_names who → one_line_names who' →
  no_collision (hashed loaded who ++ hashed loaded' who') →
  set_version sha256 loaded device who = set_version sha256 loaded' device who' →
  map (λ name, (name, read_node loaded name)) (Nodes who) ≡ₚ map (λ name, (name, read_node loaded' name)) (Nodes who').
Proof using Hsha.
  intros Hg Hg' Hl Hl' Hc E. eapply map_Permutation_reads; [|by apply same_parts].
  intros name name' Hn Hn' Ep.
  apply sapp_inj_length in Ep as [-> Ep]; [|rewrite !string_length_app; unfold node_version; by rewrite !short_hash_length].
  f_equal. apply (inj (String.append ":")) in Ep. apply same_served, same_marshal; [by apply Hg|by apply Hg'|].
  apply (inj (String.append device)). apply Hc; [..|exact Ep]; apply elem_of_app; [left|right]; apply list_elem_of_further;
    [exact (list_elem_of_fmap_2 (λ n, device +:+ marshal_endpoint (node_of loaded n)) _ _ Hn)
    |exact (list_elem_of_fmap_2 (λ n, device +:+ marshal_endpoint (node_of loaded' n)) _ _ Hn')].
Qed.
End Versions.

Definition with_Meta (m : gmap string meta) (loaded : config) : config :=
  mkConfig (UpdateIntervalHours loaded) (Subscribers loaded) (nodes loaded) m.
Definition with_Nodes (l : list string) (who : subscriber) : subscriber :=
  mkSubscriber (Expires who) (QuotaBytes who) (UsedBytes who) l.

Definition example_key (b : Z) : string := b64_encode (repeat b 32).
Definition example_node (tag address : string) : endpoint :=
  mkEndpoint "" tag (Some [address]) (example_key 1) 1376 ["1.1.1.1"]
    (Some [mkPeer "203.0.113.10" 45330 (example_key 2) (example_key 3) ["0.0.0.0/0"] 25])
    "6" "10" "50" "112" "70" "33" "9" (marshal_string "1148446321") "" "" "" (marshal_string "<b 0xc0de>") "" "" "" "".
Definition example_token : string := "conformance-token-long-enough-to-be-accepted".
Definition example_who : subscriber := mkSubscriber (Some 1893456000000000000%Z) 107374182400 44040192 ["first"; "second"].
Definition example_config : config :=
  mkConfig 12 {[example_token := example_who]}
    (<["first" := example_node "First" "10.8.1.23/32"]> {["second" := example_node "Second" "10.8.2.23/32"]})
    {["first" := mkMeta "DE" "Best for video" false]}.

(** The summary does not say everything a client would fetch: its version
    does not change when the subscriber's nodes are reordered, although the
    order is what the document is for; and nothing in its answer changes with
    what is said about the nodes, although a node put under maintenance is
    one the client should leave alone. *)
Theorem version_blind sha256 loaded who device now r m :
  (∀ l, l ≡ₚ Nodes who → set_version sha256 loaded device (with_Nodes l who) = set_version sha256 loaded device who) ∧
  (is_Some (CutSuffix (TrimPrefix (Path r) "/sub/") "/state") →
     route sha256 (with_Meta m loaded) now r = route sha256 loaded now r) ∧
  plainAnswer example_config (with_Nodes ["second"; "first"] example_who) ≠ plainAnswer example_config example_who ∧
  caeloAnswer (with_Meta {["first" := mkMeta "DE" "Best for video" true]} example_config) example_who
    ≠ caeloAnswer example_config example_who.
Proof.
  split_and!.
  - intros l Hl. unfold set_version, parts. cbn [Nodes with_Nodes].
    by rewrite (proj1 (sorted_parts_order _ _) (Permutation_map _ Hl)).
  - intros [token E]. unfold route. by rewrite E.
  - apply (bool_decide_unpack _). vm_compute. exact I.
  - apply (bool_decide_unpack _). vm_compute. exact I.
Qed.

(** ** Witnesses *)

(** A hash that can be computed here: the codes weighted by their positions. *)
Definition example_sha256 (s : string) : list Z :=
  let h := (foldl (λ p c, (p.1 + 1, p.2 + p.1 * code c)%Z) (1%Z, 0%Z) (String.list_ascii_of_string s)).2 in
  map (λ i, (h / 256 ^ Z.of_nat i) mod 256)%Z (seq 0 32).

Lemma example_sha256_bytes s : length (example_sha256 s) = 32 ∧ Forall is_byte (example_sha256 s).
Proof.
  split; [done|]. apply list.Forall_fmap, list.Forall_forall. intros i _. unfold is_byte. cbn beta.
  apply Z.mod_pos_bound. lia.
Qed.

Lemma example_good name : name ∈ ["first"; "second"] → good_node (node_of example_config name).
Proof.
  intros H. assert (∃ tag address, node_of example_config name = example_node tag address) as (tag & address & ->).
  { repeat (apply elem_of_cons in H as [->|H]); [by eexists _, _..|by apply elem_of_nil in H]. }
  split; [done|by repeat constructor|].
  apply (bool_decide_unpack _). vm_compute. exact I.
Qed.

Definition example_request : request :=
  mkRequest "GET" ("/sub/" +:+ example_token) "application/vnd.caelo.subscription+json, application/json" "".

Lemma reload_all_or_nothing_witness :
  reload "nodes.json" (Ok example_config) [(example_token, example_who)] (mkConfig 0 ∅ ∅ ∅) = (Ok tt, example_config).
Proof.
  apply (proj1 (reload_all_or_nothing "nodes.json" example_config [(example_token, example_who)] (mkConfig 0 ∅ ∅ ∅)
    ltac:(change (Subscribers example_config) with ({[example_token := example_who]} : gmap string subscriber); by rewrite map_to_list_singleton))).
  unfold sound. apply (bool_decide_unpack _). vm_compute. exact I.
Defined.

Lemma version_covers_nodes_witness :
  map (λ name, (name, read_node example_config name)) ["first"; "second"] ≡ₚ
  map (λ name, (name, read_node example_config name)) ["second"; "first"].
Proof.
  apply (version_covers_nodes example_sha256 "phone" example_sha256_bytes example_config example_config example_who
           (with_Nodes ["second"; "first"] example_who)).
  - exact example_good.
  - intros name Hn. apply example_good. cbn in Hn. set_solver.
  - by repeat constructor.
  - by repeat constructor.
  - assert (Forall (λ x, Forall (λ y, short_hash example_sha256 x = short_hash example_sha256 y → x = y)
      (hashed example_sha256 "phone" example_config example_who ++
       hashed example_sha256 "phone" example_config (with_Nodes ["second"; "first"] example_who)))
      (hashed example_sha256 "phone" example_config example_who ++
       hashed example_sha256 "phone" example_config (with_Nodes ["second"; "first"] example_who))) as H.
    { apply (bool_decide_unpack _). vm_compute. exact I. }
    intros x y Hx Hy. rewrite list.Forall_forall in H. specialize (H x Hx). rewrite list.Forall_forall in H. by apply H.
  - vm_compute. reflexivity.
Defined.

Lemma revoked_is_unknown_witness :
  route example_sha256 example_config 1893456000000000001 example_request = NotFound.
Proof.
  exact (proj1 (proj2 (revoked_is_unknown example_sha256 example_config 1893456000000000001 example_request))
    ltac:(vm_compute; exact eq_refl)).
Defined.

Lemma version_blind_witness :
  set_version example_sha256 example_config "phone" (with_Nodes ["second"; "first"] example_who)
    = set_version example_sha256 example_config "phone" example_who.
Proof.
  apply (proj1 (version_blind example_sha256 example_config example_who "phone" 0 example_request ∅)).
  exact (perm_swap _ _ _).
Defined.
