(* ===== verification/Programs.v ===== *)
(** * The command-line programs: core/cmd/caelo-probe and core/cmd/caelo-tun

    [probe_main] describes a configuration and, unless it is only to check it,
    makes one request through it; [tun_main] routes the machine through it
    until it is told to stop.  The flags are arguments; the exit status is the
    result.  [AmneziaWG] is internal/version; there and here the core's own
    version and the text of an error are parameters. *)

From S2P Require Import Prelude GoStrings NetAddr Awg AwgEndpoint Rtt Effects System Routing Systunnel Probe.
From Stdlib Require Import Ascii.
From stdpp Require Import options.

(** ** [time.Duration]: [Round] and [String] *)

Definition Round (d m : Z) : Z :=
  if (m <=? 0)%Z then d
  else if (d <? 0)%Z then
    let r := (- d mod m)%Z in if (r + r <? m)%Z then (d + r)%Z else (d - m + r)%Z
  else
    let r := (d mod m)%Z in if (r + r <? m)%Z then (d - r)%Z else (d + m - r)%Z.

(** The last [n] digits of [v] as a fraction, without the zeros at its end. *)
Fixpoint fraction (n : nat) (v : Z) (text : string) : string :=
  match n with
  | O => if bool_decide (text = "") then "" else "." +:+ text
  | S n =>
      let d := (v mod 10)%Z in
      fraction n (v / 10) (if bool_decide (text = "") && (d =? 0)%Z then "" else Itoa d +:+ text)
  end.

Definition Duration_String (d : Z) : string :=
  let u := Z.abs d in
  (if (d <? 0)%Z then "-" else "") +:+
  if (u =? 0)%Z then "0s"
  else if (u <? 1000)%Z then Itoa u +:+ "ns"
  else if (u <? 1000000)%Z then Itoa (u / 1000) +:+ fraction 3 u "" +:+ bytes [194; 181]%Z +:+ "s"
  else if (u <? 1000000000)%Z then Itoa (u / 1000000) +:+ fraction 6 u "" +:+ "ms"
  else
    let secs := (u / 1000000000)%Z in
    let mins := (secs / 60)%Z in
    (if (0 <? mins / 60)%Z then Itoa (mins / 60) +:+ "h" else "") +:+
    (if (0 <? mins)%Z then Itoa (mins mod 60) +:+ "m" else "") +:+
    Itoa (secs mod 60) +:+ fraction 9 u "" +:+ "s".

(** ** Printing *)

Definition print `{Env} (text : string) : IO unit := _ ← perform (Print text); mret tt.
Fixpoint print_all `{Env} (texts : list string) : IO unit :=
  match texts with [] => mret tt | text :: texts => _ ← print text; print_all texts end.

(** [os.ReadFile]. *)
Definition read_file `{Env} (path : string) : IO (result string) :=
  o ← perform (ReadFile path);
  mret match o with Failure _ e _ => Err e | Output s => Ok s | _ => Ok "" end.

(** ** internal/version *)

Fixpoint dep_version (deps : list (string * string)) : string :=
  match deps with
  | [] => "unknown"
  | (path, version) :: deps =>
      if bool_decide (path = "github.com/amnezia-vpn/amneziawg-go/v3") then version else dep_version deps
  end.

(** The version of amneziawg-go, by what [debug.ReadBuildInfo] gives: the
    dependencies' paths and versions, when the binary has them. *)
Definition AmneziaWG (build : option (list (string * string))) : string :=
  match build with Some deps => dep_version deps | None => "unknown" end.

Section Programs.
Context (render : error → string) (core amneziawg : string).

Definition versions : string := "core        " +:+ core +:+ " (amneziawg-go " +:+ amneziawg +:+ ")" +:+ nl.

(** ** caelo-probe *)

Definition settings (cfg : Awg.Config) (keys : list string) : string :=
  sconcat (map (λ key, match Obfuscation cfg !! key with
                       | Some value => key +:+ "=" +:+ value +:+ " " | None => "" end) keys).

(** What [describe] prints, a line at a time. *)
Definition describe (cfg : Awg.Config) : list string :=
  ["endpoint    " +:+ Endpoint (peer cfg) +:+ nl;
   "address     [" +:+ Join (map Addr_String (Addresses cfg)) " " +:+ "]" +:+ nl;
   "mtu         " +:+ Itoa (Awg.MTU cfg) +:+ nl] ++
  if bool_decide (Obfuscation cfg = ∅) then ["obfuscation none — plain WireGuard" +:+ nl]
  else
    let header := settings cfg ["h1"; "h2"; "h3"; "h4"] in
    ["obfuscation " +:+ settings cfg ["jc"; "jmin"; "jmax"; "s1"; "s2"; "s3"; "s4"] +:+ nl] ++
    (if bool_decide (header = "") then [] else ["header      " +:+ header +:+ nl]) ++
    flat_map (λ key, match Obfuscation cfg !! key with
                     | Some value => ["signature   " +:+ key +:+ " (" +:+ Itoa (slen value) +:+ " bytes of chain)" +:+ nl]
                     | None => [] end) ["i1"; "i2"; "i3"; "i4"; "i5"].

Definition probe_run `{Env, Traffic} (configPath target : string) (timeout : Z) (verbose check : bool)
    : IO (result unit) :=
  raw ←? read_file configPath;
  cfg ←? mret (wrap [Lit "reading "; Plain configPath; Lit ": "] (AwgEndpoint.Parse raw));
  _ ← print_all (describe cfg);
  if check then mret (Ok tt)
  else
    res ←? Run raw (mkOptions target timeout verbose false "");
    _ ← print (nl +:+ versions);
    _ ← print (target +:+ " → " +:+ rs_Status res +:+ " in " +:+ Duration_String (Round (rs_Elapsed res) 1000000) +:+ nl);
    _ ← print (rs_Body res +:+ nl);
    mret (Ok tt).

Definition probe_main `{Env, Traffic} (configPath target : string) (timeout : Z) (verbose check : bool) : IO Z :=
  if bool_decide (configPath = "") then
    _ ← perform (PrintError ("caelo-probe: -config is required" +:+ nl));
    _ ← perform Usage; mret 2%Z
  else
    r ← probe_run configPath target timeout verbose check;
    match r with
    | Ok _ => mret 0%Z
    | Err e => _ ← perform (PrintError ("caelo-probe: " +:+ render e +:+ nl)); mret 1%Z
    end.

(** ** caelo-tun *)

(** From [signal.Notify] on, an interrupt or a SIGTERM does not end the process. *)
Definition waitForStop `{Env} (duration : Z) : IO unit :=
  _ ← perform NotifySignals;
  if (duration <=? 0)%Z then _ ← perform (AwaitStop None); mret tt
  else
    _ ← print ("will stop on its own in " +:+ Duration_String duration +:+ nl);
    _ ← perform (AwaitStop (Some duration)); mret tt.

(** The deferred function of [run]. *)
Definition restore_routing `{Env, Platform} (c : Controller) : IO Controller :=
  _ ← print (nl +:+ "restoring the machine's routing" +:+ nl);
  o ← Stop c;
  _ ← match o.1 with
      | Err e => perform (PrintError ("caelo-tun: " +:+ render e +:+ nl))
      | Ok _ => perform (Print ("restored" +:+ nl))
      end;
  mret o.2.

Definition tun_run `{Env, Platform} (configPath : string) (duration : Z) (verbose : bool) : IO (result unit) :=
  raw ←? read_file configPath;
  controller ← NewController verbose;
  o ← Start raw controller;
  r ← match o.1 with
      | Err e => mret (Err e)
      | Ok status =>
          _ ← print_all [versions; "interface   " +:+ st_Interface status +:+ nl;
                         "endpoint    " +:+ st_Endpoint status +:+ nl; "protocol    " +:+ Protocol status +:+ nl;
                         nl +:+ "the whole machine is going through the tunnel — press Ctrl-C to stop" +:+ nl];
          _ ← waitForStop duration;
          mret (Ok tt)
      end;
  _ ← restore_routing o.2;
  mret r.

Definition is_root (uid : outcome) : bool := match uid with Number z => (z =? 0)%Z | _ => false end.

Definition tun_main `{Env, Platform} (configPath : string) (duration : Z) (verbose : bool) : IO Z :=
  if bool_decide (configPath = "") then
    _ ← perform (PrintError ("caelo-tun: -config is required" +:+ nl));
    _ ← perform Usage; mret 2%Z
  else
    uid ← perform Geteuid;
    if negb (is_root uid) then
      _ ← perform (PrintError ("caelo-tun: must run as root — creating a utun interface and changing routes needs it" +:+ nl));
      mret 1%Z
    else
      r ← tun_run configPath duration verbose;
      match r with
      | Ok _ => mret 0%Z
      | Err e => _ ← perform (PrintError ("caelo-tun: " +:+ render e +:+ nl)); mret 1%Z
      end.

(** The process, and the calls it has made when a signal comes, if one does.
    Until [waitForStop] has registered for it, the signal ends the process where
    it is, its deferred functions not run; after that it is one of the answers
    to [AwaitStop], or comes too late for it and changes nothing. *)
Definition awaits_signals (h : history) : bool := existsb (λ c, match c with NotifySignals => true | _ => false end) (calls h).

Definition tun_process `{Env, Platform} (configPath : string) (duration : Z) (verbose : bool) (signal : option nat)
    : IO Z := λ h,
  let '(code, h') := tun_main configPath duration verbose h in
  match signal with
  | None => (code, h')
  | Some n =>
      let made := take n (drop (length h) h') in
      if awaits_signals made || (length (drop (length h) h') <=? n)%nat then (code, h') else (None, h ++ made)
  end.
End Programs.
