(* ===== verification/ProgramsFacts.v ===== *)
(** * What the command-line programs promise

    [caelo-tun] gives the machine back unless a signal ends it before it has
    registered for signals; [caelo-probe -check] reads one file and prints no
    key. *)

From S2P Require Import Prelude GoStrings NetAddr Awg AwgEndpoint Rtt Effects System SystemFacts Simulated SystemDarwinFacts.
From S2P Require Import Routing RoutingFacts Systunnel SystunnelFacts SystunnelMachine SystunnelProps ServiceFacts Aside Probe Programs.
From Stdlib Require Import Ascii.
From stdpp Require Import options.

(** ** Durations *)

Example durations :
  map Duration_String [0; 999; 1500; 1234000000; 57000000; 3661000000000; -90500000000]%Z =
  ["0s"; "999ns"; "1.5" +:+ bytes [194; 181]%Z +:+ "s"; "1.234s"; "57ms"; "1h1m1s"; "-1m30.5s"] ∧
  map (λ d, Round d 1000000) [1499999; 1500000; -1500000]%Z = [1000000; 2000000; -2000000]%Z.
Proof. vm_compute. done. Qed.

(** ** caelo-tun *)

Section Tun.
Context {env : Env} {platform : Platform} `{!Clock env} `{!Orderly platform}.
Context {M : Type} (after : history → M) (m0 : M) `{!Restores platform env after m0}.
Context (render : error → string) (core amneziawg : string).
#[local] Set Default Proof Using "Type*".

Abbreviation aside := (aside after).
Abbreviation aside_perform := (aside_perform after (platform := platform) (m0 := m0)).
Abbreviation sound := (sound after m0).
Abbreviation given_back := (given_back after m0).

Lemma aside_print text : aside (print text).
Proof. apply aside_bind; [by apply aside_perform|]. intros. apply aside_ret. Qed.
Lemma aside_print_all texts : aside (print_all texts).
Proof. induction texts; cbn [print_all]; [apply aside_ret|]. apply aside_bind; [apply aside_print|done]. Qed.
Lemma aside_read_file path : aside (read_file path).
Proof. apply aside_bind; [by apply aside_perform|]. intros. apply aside_ret. Qed.
Lemma aside_waitForStop d : aside (waitForStop d).
Proof.
  unfold waitForStop. apply aside_bind; [by apply aside_perform|]. intros _. destruct (_ <=? _)%Z.
  - apply aside_bind; [by apply aside_perform|]. intros. apply aside_ret.
  - apply aside_bind; [apply aside_print|]. intros _. apply aside_bind; [by apply aside_perform|]. intros. apply aside_ret.
Qed.

Lemma wp_restore_routing c h : sound c h → wp (restore_routing render c) (λ _ h', given_back h') h.
Proof.
  intros Hs. unfold restore_routing. apply (sound_then after m0 _ _ c); [apply aside_print|done|]. intros _ h1 H1.
  apply wp_bind. eapply wp_mono; [|by apply (sound_Stop after m0)]. intros o h2 [H2 Hd].
  pose proof (sound_down after m0 _ _ H2 Hd) as Hg.
  apply (given_back_aside after m0); [destruct o.1; by apply aside_perform|done|]. done.
Qed.

Lemma wp_tun_run path duration verbose h : sound New h → wp (tun_run render core amneziawg path duration verbose) (λ _ h', given_back h') h.
Proof.
  intros Hs. unfold tun_run. apply (sound_then after m0 _ _ New); [apply aside_read_file|done|].
  intros [raw|e] h1 H1; [|by apply (sound_down after m0 New)].
  unfold NewController. apply wp_bind.
  apply (sound_then after m0 _ _ New); [by apply aside_perform|done|]. intros _ h1' H1'. apply wp_ret.
  apply wp_bind. eapply wp_mono; [|by apply (sound_Start after m0)]. intros o h2 H2.
  apply (sound_then after m0 _ _ o.2); [|done|].
  - destruct o.1; [|apply aside_ret]. apply aside_bind; [apply aside_print_all|]. intros _.
    apply aside_bind; [apply aside_waitForStop|]. intros. apply aside_ret.
  - intros r h3 H3. apply wp_bind. eapply wp_mono; [|by apply wp_restore_routing]. done.
Qed.

Lemma wp_tun_main path duration verbose h : sound New h →
  wp (tun_main render core amneziawg path duration verbose) (λ _ h', given_back h') h.
Proof.
  intros Hn. pose proof (sound_down after m0 _ _ Hn eq_refl) as Hg.
  unfold tun_main. case_bool_decide.
  { apply (given_back_aside after m0); [by apply aside_perform|done|]. intros _ h1 H1.
    apply (given_back_aside after m0); [by apply aside_perform|done|]. done. }
  apply (sound_then after m0 _ _ New); [by apply aside_perform|done|]. intros uid h1 H1. destruct (is_root uid); cbn [negb].
  - apply wp_bind. eapply wp_mono; [|by apply wp_tun_run]. intros [[]|e] h2 H2; [done|].
    apply (given_back_aside after m0); [by apply aside_perform|done|]. done.
  - pose proof (sound_down after m0 _ _ H1 eq_refl). apply (given_back_aside after m0); [by apply aside_perform|done|]. done.
Qed.
End Tun.

Lemma awaits_spec h : awaits_signals h = true ↔ NotifySignals ∈ calls h.
Proof.
  unfold awaits_signals. rewrite existsb_exists. setoid_rewrite <- list_elem_of_In. split.
  - intros (c & Hc & E). by destruct c.
  - intros H. by exists NotifySignals.
Qed.

(** When the process is not ended from outside: no signal comes, or one comes
    after [waitForStop] has registered for it, or once everything is done. *)
Definition left_to_end {env : Env} {platform : Platform} render core amneziawg path duration verbose (signal : option nat) : Prop :=
  ∀ n, signal = Some n → let made := snd (tun_main render core amneziawg path duration verbose []) in
    NotifySignals ∈ calls (take n made) ∨ length made ≤ n.

Definition tun_restores {env : Env} {platform : Platform} {M : Type} (after : history → M) (m0 : M)
    render core amneziawg path duration verbose : Prop :=
  ∀ signal, left_to_end render core amneziawg path duration verbose signal →
  ∃ status h, tun_process render core amneziawg path duration verbose signal [] = (Some status, h) ∧
    after h = m0 ∧ opened h = ∅.

Lemma contract_tun_restores {env : Env} {platform : Platform} `{!Clock env} `{!Orderly platform} {M : Type}
    (after : history → M) m0 `{!Restores platform env after m0} render core amneziawg path duration verbose :
  tun_restores after m0 render core amneziawg path duration verbose.
Proof.
  intros signal Hs.
  destruct (wp_eq _ _ _ (wp_tun_main after m0 render core amneziawg path duration verbose [] (sound_New after m0)))
    as (status & h & E & Hg).
  exists status, h. split; [|exact Hg]. unfold tun_process. rewrite E. destruct signal as [n|]; [|done].
  specialize (Hs n eq_refl). rewrite E in Hs. cbn [snd length] in *. rewrite drop_0, app_nil_l.
  destruct Hs as [->%awaits_spec|Hs]; [done|]. apply Nat.leb_le in Hs. by rewrite Hs, orb_true_r.
Qed.

(** C22: caelo-tun gives the machine back, on Linux and on a Mac (one whose
    services have IPv6 automatic or off): unless a signal ends it before it has
    registered for signals, which it does once the tunnel is up, it ends by
    itself, with a file it cannot read, a configuration that is refused, a
    server that does not answer, a signal while it waits or later, or its own
    timer; and on a machine that had none of the tunnel's routes and settings,
    whose commands behave as documented and whose clock moves, everything is
    then exactly as it was and no interface is open. *)
Theorem tun_gives_back {env : Env} render core amneziawg path duration verbose :
  Clock env →
  (∀ m0, Documented m0 env → pristine m0 →
     tun_restores (platform := linux) (machine_after m0) m0 render core amneziawg path duration verbose) ∧
  (∀ m0, MacDocumented m0 env → mac_pristine m0 →
     tun_restores (platform := darwin) (mac_after m0) m0 render core amneziawg path duration verbose).
Proof. intros Hc. split; intros m0 Hdoc Hpr; apply (contract_tun_restores _ m0). Qed.

(** A machine with a file on it, for whoever runs as root. *)
Definition with_file (path text : string) (env : Env) : Env := λ h c,
  match c with
  | ReadFile p => if bool_decide (p = path) then Output text else env h c
  | Geteuid => Number 0
  | _ => env h c
  end.

#[export] Instance with_file_documented m0 path text env :
  path ≠ resolvConf → Documented m0 env → Documented m0 (with_file path text env).
Proof.
  intros Hp [H1 H2 H3 H4 H5 H6 H7 H8]. split; try done.
  - intros h c Hu. specialize (H1 h c Hu). by destruct Hu as [(? & ? & ->)|[(? & ->)|(? & ->)]].
  - intros h. specialize (H5 h). unfold answer, with_file in *. by rewrite bool_decide_eq_false_2.
Qed.

#[export] Instance with_file_clock path text env : Clock env → Clock (with_file path text env).
Proof. intros [ck H1 H2 H3]. refine {| Effects.clock := ck |}; [exact H1|exact H2|exact H3]. Defined.

(** The laptop and the Mac, with a file. *)
Definition laptop_with_file : Env := with_file "tunnel.conf" tunnel_text (simulated laptop false answering).
Definition mac_with_file : Env := with_file "tunnel.conf" tunnel_text on_mac.

#[export] Instance mac_with_file_documented : MacDocumented macbook mac_with_file.
Proof. destruct on_mac_documented. by split. Qed.

Lemma laptop_file_documented : Documented laptop laptop_with_file.
Proof. apply with_file_documented; [by vm_compute|]. by apply simulated_documented. Qed.

Lemma laptop_registered :
  @left_to_end laptop_with_file linux no_render "v1" "v3" "tunnel.conf" 60000000000 false (Some 40).
Proof. intros n [= <-]. left. apply awaits_spec. vm_compute. reflexivity. Qed.

(** On the laptop the signal comes once [waitForStop] has registered for it; on
    the Mac none does. *)
Lemma tun_gives_back_witness :
  (∃ status h, @tun_process no_render "v1" "v3" laptop_with_file linux "tunnel.conf" 60000000000 false (Some 40) []
     = (Some status, h) ∧ machine_after laptop h = laptop ∧ opened h = ∅) ∧
  (∃ status h, @tun_process no_render "v1" "v3" mac_with_file darwin "tunnel.conf" 0 true None [] = (Some status, h) ∧
     mac_after macbook h = macbook ∧ opened h = ∅).
Proof.
  split.
  - exact (proj1 (@tun_gives_back laptop_with_file no_render "v1" "v3" "tunnel.conf" 60000000000 false
      (with_file_clock _ _ _ (simulated_clock laptop false answering))) laptop laptop_file_documented pristine_laptop
      (Some 40) laptop_registered).
  - refine (proj2 (@tun_gives_back mac_with_file no_render "v1" "v3" "tunnel.conf" 0 true
      (with_file_clock _ _ _ (carrying_clock "utun4" 0 answering (mac_simulated macbook)))) macbook mac_with_file_documented
      mac_pristine_macbook None _). done.
Defined.

(** A signal before that, here as soon as the routes are in place and [Start]
    waits for the server, leaves the machine routed into an interface that is
    gone: nothing puts anything back. *)
Theorem tun_killed_leaves_routes :
  ∃ h, @tun_process no_render "v1" "v3" laptop_with_file linux "tunnel.conf" 0 false (Some 22) [] = (None, h) ∧
    (NotifySignals ∉ calls h) ∧
    ∀ half, half ∈ defaultHalves → routes (machine_after laptop h) !! half = Some "caelo0".
Proof.
  eexists. split; [vm_compute; reflexivity|]. split.
  - intros H%awaits_spec. vm_compute in H. discriminate.
  - intros half [->|[->|[]%elem_of_nil]%elem_of_cons]%elem_of_cons; vm_compute; reflexivity.
Qed.

(** It did come up there, and went down again. *)
Example tun_comes_up :
  fst (@tun_main no_render "v1" "v3" laptop_with_file linux "tunnel.conf" 60000000000 false []) = Some 0%Z ∧
  list.last (calls (snd (@tun_main no_render "v1" "v3" laptop_with_file linux "tunnel.conf" 60000000000 false [])))
    = Some (Print ("restored" +:+ nl)) ∧
  fst (@tun_main no_render "v1" "v3" mac_with_file darwin "tunnel.conf" 0 true []) = Some 0%Z.
Proof. vm_compute. done. Qed.

(** ** caelo-probe *)

Definition with_keys (private public preshared : string) (cfg : Awg.Config) : Awg.Config :=
  set_PrivateKey private (set_peer (mkPeer public preshared (Endpoint (peer cfg)) (AllowedIPs (peer cfg))
    (Keepalive (peer cfg))) cfg).

Lemma run_print_all `{Env} texts h : ∃ h', print_all texts h = (Some tt, h') ∧ calls h' = calls h ++ map Print texts.
Proof.
  revert h. induction texts as [|text texts IH]; intros h; [exists h; by rewrite app_nil_r|].
  destruct (IH (h ++ [(Print text, answer h (Print text))])) as (h' & H1 & H2).
  exists h'. split; [exact H1|]. by rewrite H2, calls_snoc, <- app_assoc.
Qed.

(** Caelo-probe -check dials nothing and prints no key: all it does is
    read the file and, when the configuration is accepted, print its
    description, whatever the other flags; and the description is the same for
    any other keys. *)
Theorem check_reads_and_describes {env : Env} {tr : Traffic} core amneziawg path target timeout verbose h raw :
  answer h (ReadFile path) = Output raw →
  (∃ h', match AwgEndpoint.Parse raw with
         | Ok cfg => probe_run core amneziawg path target timeout verbose true h = (Some (Ok tt), h') ∧
             calls h' = calls h ++ ReadFile path :: map Print (describe cfg)
         | Err e => probe_run core amneziawg path target timeout verbose true h
                      = (Some (Err ([Lit "reading "; Plain path; Lit ": "] ++ e)), h') ∧
             calls h' = calls h ++ [ReadFile path]
         end) ∧
  ∀ cfg private public preshared, describe (with_keys private public preshared cfg) = describe cfg.
Proof.
  intros Ha. split; [|done]. set (h1 := h ++ [(ReadFile path, Output raw)]).
  assert (read_file path h = (Some (Ok raw), h1)) as Hr.
  { unfold read_file, perform, mbind, io_bind. by rewrite Ha. }
  unfold probe_run. rewrite (run_try _ _ _ _ _ Hr). destruct (AwgEndpoint.Parse raw) as [cfg|e].
  - destruct (run_print_all (describe cfg) h1) as (h' & H1 & H2). exists h'.
    rewrite (run_try _ _ h1 (Ok cfg) h1 eq_refl), (run_bind _ _ _ _ _ H1). split; [done|].
    unfold h1 in H2. by rewrite H2, calls_snoc, <- app_assoc.
  - exists h1. split; [done|]. unfold h1. by rewrite calls_snoc.
Qed.

Lemma check_reads_and_describes_witness :
  ∃ cfg h', AwgEndpoint.Parse tunnel_text = Ok cfg ∧
    @probe_run "v1" "v3" (with_file "tunnel.conf" tunnel_text (λ _ _, Output "")) (λ _, []) "tunnel.conf" "" 0 false true []
      = (Some (Ok tt), h') ∧
    calls h' = ReadFile "tunnel.conf" :: map Print (describe cfg).
Proof.
  destruct (proj1 (@check_reads_and_describes (with_file "tunnel.conf" tunnel_text (λ _ _, Output "")) (λ _, [])
    "v1" "v3" "tunnel.conf" "" 0%Z false [] tunnel_text eq_refl)) as [h' H].
  assert (is_ok (AwgEndpoint.Parse tunnel_text) = true) as Hok by (vm_compute; reflexivity).
  destruct (AwgEndpoint.Parse tunnel_text) as [cfg|e]; [|discriminate].
  exists cfg, h'. destruct H as [H1 H2]. split; [reflexivity|]. split; [exact H1|exact H2].
Defined.
