(* ===== verification/SubscriptionMain.v ===== *)
(** * The example subscription server from its start: its file and [main]

    The file an operator writes, read as [json.Decoder] reads it with
    [DisallowUnknownFields], and [main]: the file, the checks, and then the
    listening.  Raw members keep the text they have in the file, so an object
    is split into its members' texts, one level at a time.  Whichever member
    is at fault there is one decoding error; a member that is repeated is
    decoded into what the one before it left. *)

From S2P Require Import Prelude GoStrings GoJson Awg AwgEndpoint Effects Programs SubscriptionServer.
From Stdlib Require Import Ascii.
From stdpp Require Import options.
Local Open Scope Z_scope.

(** ** Splitting a value that has been read *)

(** The value at the head of a text: its own text, and what follows it. *)
Definition raw_value (s : string) : option (string * string) :=
  let t := skip_ws s in
  '(_, rest) ← read_value (2 * String.length t + 2) 0 t;
  Some (String.substring 0 (String.length t - String.length rest) t, rest).

Fixpoint members_from (n : nat) (s : string) : option (list (string * string)) :=
  match n with
  | O => None
  | S n =>
      match skip_ws s with
      | String _ r =>
          '(k, r2) ← string_body (S (String.length r)) r;
          match skip_ws r2 with
          | String ":" r3 =>
              '(text, rest) ← raw_value r3;
              match skip_ws rest with
              | String "," r => ms ← members_from n r; Some ((k, text) :: ms)
              | _ => Some [(k, text)]
              end
          | _ => None
          end
      | _ => None
      end
  end.

(** The members of an object, [None] for another kind of value. *)
Definition raw_members (raw : string) : option (list (string * string)) :=
  match raw with
  | String "{" r =>
      match skip_ws r with
      | String "}" _ => Some []
      | r2 => members_from (S (String.length r2)) r2
      end
  | _ => None
  end.

Fixpoint elements_from (n : nat) (s : string) : option (list string) :=
  match n with
  | O => None
  | S n =>
      '(text, rest) ← raw_value s;
      match skip_ws rest with
      | String "," r => vs ← elements_from n r; Some (text :: vs)
      | _ => Some [text]
      end
  end.

Definition raw_elements (raw : string) : option (list string) :=
  match raw with
  | String "[" r =>
      match skip_ws r with
      | String "]" _ => Some []
      | r2 => elements_from (S (String.length r2)) r2
      end
  | _ => None
  end.

(** ** [time.Time]: RFC 3339 *)

Definition digit (s : string) : option (Z * string) :=
  match s with String c r => if is_digit c then Some (code c - 48, r) else None | _ => None end.

(** [getnum]: two digits, or one where that is allowed. *)
Definition getnum (fixed : bool) (s : string) : option (Z * string) :=
  '(a, r) ← digit s;
  match digit r with
  | Some (b, r2) => Some (a * 10 + b, r2)
  | None => if fixed then None else Some (a, r)
  end.

Definition expect (c : ascii) (s : string) : option string :=
  match s with String a r => if ascii_eqb a c then Some r else None | _ => None end.

Definition is_leap (y : Z) : bool := (y mod 4 =? 0) && (negb (y mod 100 =? 0) || (y mod 400 =? 0)).
Definition month_days (y m : Z) : Z :=
  if m =? 2 then (if is_leap y then 29 else 28)
  else if (m =? 4) || (m =? 6) || (m =? 9) || (m =? 11) then 30 else 31.

(** Days since 1 January of the year 1. *)
Definition days_of (y m d : Z) : Z :=
  let before := y - 1 in
  365 * before + before / 4 - before / 100 + before / 400
    + fold_right Z.add 0 (map (λ k, month_days y (Z.of_nat k)) (seq 1 (Z.to_nat (m - 1)))) + (d - 1).

(** The fraction of a second, in nanoseconds: nine digits count. *)
Definition fraction_ns (ds : string) : Z :=
  let kept := String.substring 0 9 ds in default 0 (digits kept) * 10 ^ (9 - slen kept).

Definition fractional (s : string) : Z * string :=
  match s with
  | String c r =>
      if ascii_eqb c "." || ascii_eqb c ","
      then let '(ds, rest) := span_digits r in if bool_decide (ds = "") then (0, s) else (fraction_ns ds, rest)
      else (0, s)
  | _ => (0, s)
  end.

(** Seconds east of UTC; the whole text must be used. *)
Definition zone (s : string) : option Z :=
  match s with
  | String "Z" "" => Some 0
  | String sign r =>
      '(hr, r) ← getnum true r; r ← expect ":" r; '(mm, r) ← getnum true r;
      if bool_decide (r = "") && (hr <=? 24) && (mm <=? 60) then
        if ascii_eqb sign "+" then Some ((hr * 60 + mm) * 60)
        else if ascii_eqb sign "-" then Some (- ((hr * 60 + mm) * 60)) else None
      else None
  | _ => None
  end.

(** Nanoseconds since 1970. *)
Definition parse_RFC3339 (s : string) : option Z :=
  '(y1, r) ← digit s; '(y2, r) ← digit r; '(y3, r) ← digit r; '(y4, r) ← digit r;
  let y := y1 * 1000 + y2 * 100 + y3 * 10 + y4 in
  r ← expect "-" r; '(m, r) ← getnum true r; r ← expect "-" r; '(d, r) ← getnum true r;
  r ← expect "T" r; '(hour, r) ← getnum false r; r ← expect ":" r; '(minute, r) ← getnum true r;
  r ← expect ":" r; '(second, r) ← getnum true r;
  let '(ns, r) := fractional r in
  east ← zone r;
  if (1 <=? m) && (m <=? 12) && (1 <=? d) && (d <=? month_days y m)
     && (hour <? 24) && (minute <? 60) && (second <? 60)
  then Some ((days_of y m d * 86400 + hour * 3600 + minute * 60 + second - east - 62135596800) * 1000000000 + ns)
  else None.

Definition zero_time : Z := -62135596800 * 1000000000.

(** ** Decoding *)

(** A text or a number, by the readers of AwgEndpoint.v. *)
Definition leaf {A} (dec : A → json → result A) (old : A) (raw : string) : result A :=
  match json_read raw with Some v => dec old v | None => Err decode_error end.

Definition dec_bool (old : bool) (v : json) : result bool :=
  match v with JNull => Ok old | JBool b => Ok b | _ => Err decode_error end.

(** [json.RawMessage] takes any value as it is, null too. *)
Definition dec_raw (_ raw : string) : result string := Ok raw.

(** [Time.UnmarshalJSON]: the text between the quotes, escapes and all. *)
Definition dec_time (old : option Z) (raw : string) : result (option Z) :=
  if bool_decide (raw = "null") then Ok old
  else match raw with
  | String q r =>
      let n := (String.length r - 1)%nat in
      if ascii_eqb q quote && (1 <=? String.length r)%nat && bool_decide (String.substring n 1 r = String quote "") then
        match parse_RFC3339 (String.substring 0 n r) with
        | Some t => Ok (if t =? zero_time then None else Some t)
        | None => Err decode_error
        end
      else Err decode_error
  | _ => Err decode_error
  end.

Definition dec_list {A} (dec : A → string → result A) (zero : A) (old : option (list A)) (raw : string)
    : result (option (list A)) :=
  if bool_decide (raw = "null") then Ok None
  else match raw_elements raw with
  | Some raws => l ← dec_elements dec zero (default [] old) raws; Ok (Some l)
  | None => Err decode_error
  end.

Definition dec_texts (old : list string) (raw : string) : result (list string) :=
  l ← dec_list (leaf dec_string) "" (Some old) raw; Ok (default [] l).

(** An entry of a map starts from nothing; a map keeps its other entries. *)
Definition dec_map {A} (dec : A → string → result A) (zero : A) (old : gmap string A) (raw : string)
    : result (gmap string A) :=
  if bool_decide (raw = "null") then Ok ∅
  else match raw_members raw with
  | Some ms => foldM (λ m '(k, raw), v ← dec zero raw; Ok (<[k := v]> m)) ms old
  | None => Err decode_error
  end.

(** A field is decoded from every member that names it. *)
Definition raw_field {A} (name : string) (dec : A → string → result A) (old : A) (ms : list (string * string))
    : result A :=
  foldM (λ acc '(k, raw), if bool_decide (fold_name k = name) then dec acc raw else Ok acc) ms old.

(** [DisallowUnknownFields]. *)
Definition known (names : list string) (ms : list (string * string)) : result unit :=
  if forallb (λ m, bool_decide (fold_name m.1 ∈ names)) ms then Ok tt else Err decode_error.

(** A struct: null leaves it, another value than an object is refused. *)
Definition dec_struct {A} (names : list string) (dec : A → list (string * string) → result A) (old : A) (raw : string)
    : result A :=
  if bool_decide (raw = "null") then Ok old
  else match raw_members raw with
  | Some ms => _ ← known names ms; dec old ms
  | None => Err decode_error
  end.

Definition peer_names : list string :=
  ["address"; "port"; "public_key"; "pre_shared_key"; "allowed_ips"; "persistent_keepalive_interval"].
Definition decode_peer : peer → string → result peer := dec_struct peer_names (λ p ms,
  address ← raw_field "address" (leaf dec_string) (pr_Address p) ms;
  port ← raw_field "port" (leaf dec_int) (pr_Port p) ms;
  public_key ← raw_field "public_key" (leaf dec_string) (pr_PublicKey p) ms;
  psk ← raw_field "pre_shared_key" (leaf dec_string) (pr_PreSharedKey p) ms;
  allowed ← raw_field "allowed_ips" dec_texts (pr_AllowedIPs p) ms;
  keepalive ← raw_field "persistent_keepalive_interval" (leaf dec_int) (pr_PersistentKeepaliveInterval p) ms;
  Ok (mkPeer address port public_key psk allowed keepalive)).

Definition zero_peer : peer := mkPeer "" 0 "" "" [] 0.

Definition endpoint_names : list string :=
  ["type"; "tag"; "address"; "private_key"; "mtu"; "dns"; "peers";
   "jc"; "jmin"; "jmax"; "s1"; "s2"; "s3"; "s4"; "h1"; "h2"; "h3"; "h4"; "i1"; "i2"; "i3"; "i4"; "i5"].
Definition decode_endpoint : endpoint → string → result endpoint := dec_struct endpoint_names (λ e ms,
  let raw name old := raw_field name dec_raw old ms in
  ty ← raw_field "type" (leaf dec_string) (Type_ e) ms;
  tag ← raw_field "tag" (leaf dec_string) (Tag e) ms;
  address ← raw_field "address" (dec_list (leaf dec_string) "") (Address e) ms;
  private_key ← raw_field "private_key" (leaf dec_string) (PrivateKey e) ms;
  mtu ← raw_field "mtu" (leaf dec_int) (MTU e) ms;
  dns ← raw_field "dns" dec_texts (DNS e) ms;
  peers ← raw_field "peers" (dec_list decode_peer zero_peer) (Peers e) ms;
  jc ← raw "jc" (Jc e); jmin ← raw "jmin" (Jmin e); jmax ← raw "jmax" (Jmax e);
  s1 ← raw "s1" (S1 e); s2 ← raw "s2" (S2 e); s3 ← raw "s3" (S3 e); s4 ← raw "s4" (S4 e);
  h1 ← raw "h1" (H1 e); h2 ← raw "h2" (H2 e); h3 ← raw "h3" (H3 e); h4 ← raw "h4" (H4 e);
  i1 ← raw "i1" (I1 e); i2 ← raw "i2" (I2 e); i3 ← raw "i3" (I3 e); i4 ← raw "i4" (I4 e); i5 ← raw "i5" (I5 e);
  Ok (mkEndpoint ty tag address private_key mtu dns peers jc jmin jmax s1 s2 s3 s4 h1 h2 h3 h4 i1 i2 i3 i4 i5)).

Definition meta_names : list string := ["country"; "description"; "maintenance"].
Definition decode_meta : meta → string → result meta := dec_struct meta_names (λ m ms,
  country ← raw_field "country" (leaf dec_string) (Country m) ms;
  description ← raw_field "description" (leaf dec_string) (Description m) ms;
  maintenance ← raw_field "maintenance" (leaf dec_bool) (Maintenance m) ms;
  Ok (mkMeta country description maintenance)).

Definition subscriber_names : list string := ["expires"; "quota_bytes"; "used_bytes"; "nodes"].
Definition decode_subscriber : subscriber → string → result subscriber := dec_struct subscriber_names (λ s ms,
  expires ← raw_field "expires" dec_time (Expires s) ms;
  quota ← raw_field "quota_bytes" (leaf dec_int) (QuotaBytes s) ms;
  used ← raw_field "used_bytes" (leaf dec_int) (UsedBytes s) ms;
  nodes ← raw_field "nodes" dec_texts (Nodes s) ms;
  Ok (mkSubscriber expires quota used nodes)).

Definition zero_subscriber : subscriber := mkSubscriber None 0 0 [].
Definition zero_config : config := mkConfig 0 ∅ ∅ ∅.

Definition config_names : list string := ["update_interval_hours"; "subscribers"; "nodes"; "meta"].
Definition decode_config : config → string → result config := dec_struct config_names (λ c ms,
  hours ← raw_field "update_interval_hours" (leaf dec_int) (UpdateIntervalHours c) ms;
  subscribers ← raw_field "subscribers" (dec_map decode_subscriber zero_subscriber) (Subscribers c) ms;
  nodes ← raw_field "nodes" (dec_map decode_endpoint zero_endpoint) (nodes c) ms;
  about ← raw_field "meta" (dec_map decode_meta zero_meta) (Meta c) ms;
  Ok (mkConfig hours subscribers nodes about)).

(** [decoder.Decode(&loaded)]: the first value of the text. *)
Definition decode_file (text : string) : result config :=
  match raw_value text with
  | Some (raw, _) => decode_config zero_config raw
  | None => Err decode_error
  end.

(** ** The store, and [main] *)

Record store := mkStore { path : string; loaded : config }.

Definition count (s : store) : Z := Z.of_nat (size (Subscribers (loaded s))).

Section Main.
Context {env : Env} (ranged : gmap string subscriber → list (string * subscriber)).

(** [store.reload], over the file; [ranged] is the order in which Go ranges
    over a map. *)
Definition reload_store (s : store) : IO (result unit * store) :=
  raw ← read_file (path s);
  let decoded := text ← raw; decode_file text in
  let order := match decoded with Ok c => ranged (Subscribers c) | Err _ => [] end in
  let '(r, after) := reload (path s) decoded order (loaded s) in
  mret (r, mkStore (path s) after).

(** [main] after its flags: the server it listens with, if it gets there, and
    what [log.Fatal] says in the end. *)
Definition server_main (config_path listen : string) : IO (option store * error) :=
  r ← reload_store (mkStore config_path zero_config);
  match r with
  | (Err e, _) => mret (None, e)
  | (Ok _, s) =>
      o ← perform (ListenAndServe listen);
      mret (Some s, match o with Failure _ e _ => e | _ => [] end)
  end.
End Main.
