(* ===== verification/SubscriptionMainFacts.v ===== *)
(** * Starting the example subscription server

    It listens only with a configuration that holds together; a misspelt
    member anywhere in the file keeps it from starting; what follows the
    configuration in the file does not. *)

From S2P Require Import Prelude GoStrings GoJson Awg AwgEndpoint Effects Programs.
From S2P Require Import SubscriptionServer SubscriptionServerFacts SubscriptionMain.
From Stdlib Require Import Ascii.
From stdpp Require Import options.

(** ** Refusals *)

Definition fails {A} (m : result A) : Prop := ∃ e, m = Err e.

Lemma fails_err {A} e : fails (@Err A e).
Proof. by exists e. Qed.
Lemma fails_bind {A B} (m : result A) (k : A → result B) : fails m → fails (m ≫= k).
Proof. intros [e ->]. by exists e. Qed.
Lemma fails_later {A B} (m : result A) (k : A → result B) : (∀ a, fails (k a)) → fails (m ≫= k).
Proof. intros H. destruct m as [a|e]; [apply H|apply fails_err]. Qed.

Lemma fails_foldM {A S} (f : S → A → result S) l x s : x ∈ l → (∀ s, fails (f s x)) → fails (foldM f l s).
Proof.
  intros Hx Hf. revert s. induction Hx as [l|x y l _ IH]; intros s; cbn [foldM].
  - apply fails_bind, Hf.
  - apply fails_later. intros s'. by apply IH.
Qed.

Section Refusals.
Context {A : Type} (dec : A → string → result A).

Lemma fails_field name old ms k raw :
  (k, raw) ∈ ms → fold_name k = name → (∀ old, fails (dec old raw)) → fails (raw_field name dec old ms).
Proof.
  intros Hin Hk Hf. apply (fails_foldM _ _ (k, raw)); [done|]. intros s. by rewrite bool_decide_true.
Qed.

Lemma fails_map zero old raw ms k v :
  raw_members raw = Some ms → (k, v) ∈ ms → (∀ old, fails (dec old v)) → fails (dec_map dec zero old raw).
Proof.
  intros Hm Hin Hf. unfold dec_map. rewrite bool_decide_false by by intros ->. rewrite Hm.
  apply (fails_foldM _ _ (k, v)); [done|]. intros s. apply fails_bind, Hf.
Qed.

Lemma fails_elements zero old raws v : v ∈ raws → (∀ old, fails (dec old v)) → fails (dec_elements dec zero old raws).
Proof.
  intros Hin Hf. revert old. induction Hin as [raws|v w raws _ IH]; intros old; cbn [dec_elements].
  - apply fails_bind, Hf.
  - apply fails_later. intros a. apply fails_bind. by apply IH.
Qed.

Lemma fails_list zero old raw raws v :
  raw_elements raw = Some raws → v ∈ raws → (∀ old, fails (dec old v)) → fails (dec_list dec zero old raw).
Proof.
  intros Hm Hin Hf. unfold dec_list. rewrite bool_decide_false by by intros ->. rewrite Hm.
  by apply fails_bind, (fails_elements _ _ _ v).
Qed.

Lemma fails_unknown names (fields : A → list (string * string) → result A) old raw ms k v :
  raw_members raw = Some ms → (k, v) ∈ ms → fold_name k ∉ names → fails (dec_struct names fields old raw).
Proof.
  intros Hm Hin Hk. unfold dec_struct. rewrite bool_decide_false by by intros ->. rewrite Hm. apply fails_bind.
  unfold known. destruct (forallb _ ms) eqn:E; [|apply fails_err]. rewrite forallb_forall in E.
  specialize (E (k, v) ltac:(by apply list_elem_of_In)). by apply bool_decide_eq_true_1 in E.
Qed.

Lemma fails_struct names (fields : A → list (string * string) → result A) old raw ms :
  raw_members raw = Some ms → (∀ old, fails (fields old ms)) → fails (dec_struct names fields old raw).
Proof.
  intros Hm Hf. unfold dec_struct. rewrite bool_decide_false by by intros ->. rewrite Hm.
  apply fails_later. intros _. apply Hf.
Qed.
End Refusals.

(** ** Misspelt members *)

Inductive level := InConfig | InSubscriber | InNode | InMeta | InPeer.

Definition names_of (l : level) : list string :=
  match l with
  | InConfig => config_names | InSubscriber => subscriber_names | InNode => endpoint_names
  | InMeta => meta_names | InPeer => peer_names
  end.

(** A member whose name is none of the names its place has: in the object
    itself, in an entry of one of the three maps, in a peer of a node. *)
Inductive misspelt : level → string → Prop :=
  | misspelt_here l raw ms k v :
      raw_members raw = Some ms → (k, v) ∈ ms → fold_name k ∉ names_of l → misspelt l raw
  | misspelt_entry l raw ms k v entries token w :
      raw_members raw = Some ms → (k, v) ∈ ms →
      (fold_name k, l) ∈ [("subscribers", InSubscriber); ("nodes", InNode); ("meta", InMeta)] →
      raw_members v = Some entries → (token, w) ∈ entries → misspelt l w → misspelt InConfig raw
  | misspelt_peer raw ms k v ws w :
      raw_members raw = Some ms → (k, v) ∈ ms → fold_name k = "peers" →
      raw_elements v = Some ws → w ∈ ws → misspelt InPeer w → misspelt InNode raw.

(** What the decoder of a place makes of a text. *)
Definition refused (l : level) (raw : string) : Prop :=
  match l with
  | InConfig => ∀ old, fails (decode_config old raw)
  | InSubscriber => ∀ old, fails (decode_subscriber old raw)
  | InNode => ∀ old, fails (decode_endpoint old raw)
  | InMeta => ∀ old, fails (decode_meta old raw)
  | InPeer => ∀ old, fails (decode_peer old raw)
  end.

Lemma misspelt_refused l raw : misspelt l raw → refused l raw.
Proof.
  induction 1 as [l raw ms k v Hm Hin Hk|l raw ms k v entries token w Hm Hin Hl He Hw _ IH|raw ms k v ws w Hm Hin Hk He Hw _ IH].
  - destruct l; intros old; by apply (fails_unknown _ _ _ _ ms k v).
  - intros old. apply (fails_struct _ _ _ _ ms); [done|]. intros old'.
    rewrite !elem_of_cons, elem_of_nil in Hl. destruct Hl as [[= Hk ->]|[[= Hk ->]|[[= Hk ->]|[]]]].
    + apply fails_later; intros ?. apply fails_bind. apply (fails_field _ _ _ _ k v Hin Hk). intros o.
      by apply (fails_map _ _ _ _ entries token w).
    + do 2 (apply fails_later; intros ?). apply fails_bind. apply (fails_field _ _ _ _ k v Hin Hk). intros o.
      by apply (fails_map _ _ _ _ entries token w).
    + do 3 (apply fails_later; intros ?). apply fails_bind. apply (fails_field _ _ _ _ k v Hin Hk). intros o.
      by apply (fails_map _ _ _ _ entries token w).
  - intros old. apply (fails_struct _ _ _ _ ms); [done|]. intros old'.
    do 6 (apply fails_later; intros ?). apply fails_bind. apply (fails_field _ _ _ _ k v Hin Hk). intros o.
    by apply (fails_list _ _ _ _ ws w).
Qed.

(** ** [main] *)

Section Main.
Context {env : Env} (ranged : gmap string subscriber → list (string * subscriber)).
Context (Hranged : ∀ m, ranged m ≡ₚ map_to_list m).

(** What [reload] makes of a text, on a store that has nothing yet. *)
Definition accepted (text : string) (c : config) : Prop := decode_file text = Ok c ∧ sound c.

Lemma reload_accepts path c before :
  reload path (Ok c) (ranged (Subscribers c)) before = (Ok tt, c) ∧ sound c ∨
  (∃ e, reload path (Ok c) (ranged (Subscribers c)) before = (Err e, before)) ∧ ¬ sound c.
Proof using Hranged.
  assert (foldM (λ _ entry, check_subscriber c entry) (ranged (Subscribers c)) tt = Ok tt ↔ sound c) as H.
  { rewrite check_all_Ok, Hranged. unfold sound. rewrite map_Forall_to_list. apply Forall_proper; [|done].
    by intros [token who]. }
  unfold reload. destruct (foldM _ _ tt) as [[]|e].
  - left. split; [done|by apply H].
  - right. split; [by eexists|]. by intros Hs%H.
Qed.

Definition started_well (path listen : string) (h : history) (r : option store * error) (h' : history) : Prop :=
  match r.1 with
  | Some s => calls h' = calls h ++ [ReadFile path; ListenAndServe listen] ∧
      ∃ text c, Effects.answer h (ReadFile path) = Output text ∧ accepted text c ∧ s = mkStore path c
  | None => calls h' = calls h ++ [ReadFile path] ∧
      ∀ text, Effects.answer h (ReadFile path) = Output text → ∀ c, ¬ accepted text c
  end.

Lemma server_main_starts path listen h :
  wp (server_main ranged path listen) (started_well path listen h) h.
Proof using Hranged.
  unfold server_main, reload_store, read_file. cbn [SubscriptionMain.path SubscriptionMain.loaded].
  apply wp_bind, wp_bind, wp_bind, wp_perform, wp_ret.
  destruct (Effects.answer h (ReadFile path)) as [text| | |printed e missing| |] eqn:Ho;
    try (apply wp_ret, wp_ret; unfold started_well; cbn; rewrite calls_snoc, Ho; by split).
  cbn [mbind result_bind]. destruct (decode_file text) as [c|e] eqn:Hd.
  2: { apply wp_ret, wp_ret. unfold started_well, accepted. cbn. rewrite calls_snoc, Ho. split; [done|].
       intros text' [= <-] c [? _]. congruence. }
  destruct (reload_accepts path c zero_config) as [[-> Hs]|[[e ->] Hs]]; apply wp_ret.
  - apply wp_bind, wp_perform. rewrite <- Ho.
    destruct (Effects.answer _ (ListenAndServe listen)); apply wp_ret; unfold started_well; cbn;
      rewrite !calls_snoc, <- app_assoc; (split; [done|]); exists text, c; by rewrite Ho.
  - apply wp_ret. unfold started_well, accepted. cbn. rewrite calls_snoc, Ho. split; [done|].
    intros text' [= <-] c' [H1 H2]. rewrite Hd in H1. injection H1 as <-. done.
Qed.
End Main.

(** ** Texts to try *)

(** A JSON text, with apostrophes for quotation marks. *)
Fixpoint quoted (s : string) : string :=
  match s with
  | "" => ""
  | String c r => String (if ascii_eqb c "'" then quote else c) (quoted r)
  end.

Definition sample_token : string := "put-a-long-random-token-here".

(** The file the repository ships, on fewer lines. *)
Definition sample_file : string := quoted (sconcat [
  "{ 'update_interval_hours': 12, 'subscribers': { 'put-a-long-random-token-here': {"; nl;
  "  'expires': '2027-01-01T00:00:00Z', 'quota_bytes': 107374182400, 'used_bytes': 44040192,"; nl;
  "  'nodes': [ 'frankfurt', 'amsterdam' ] } },"; nl;
  " 'nodes': { 'frankfurt': { 'tag': 'Frankfurt', 'address': ['10.8.1.23/32'], 'private_key': 'KEY', 'mtu': 1376,"; nl;
  "   'dns': ['1.1.1.1'], 'peers': [ { 'address': '203.0.113.10', 'port': 45330, 'public_key': 'KEY',"; nl;
  "   'allowed_ips': ['0.0.0.0/0'], 'persistent_keepalive_interval': 25 } ],"; nl;
  "   'jc': 6, 'jmin': 10, 'jmax': 50, 's1': 112, 's2': 70, 's3': 33, 's4': 9, 'h1': '1148446321' },"; nl;
  "  'amsterdam': { 'tag': 'Amsterdam', 'address': ['10.8.2.23/32'], 'private_key': 'KEY',"; nl;
  "   'peers': [ { 'address': '203.0.113.20', 'port': 45330, 'public_key': 'KEY', 'allowed_ips': ['0.0.0.0/0'] } ] } },"; nl;
  " 'meta': { 'frankfurt': { 'country': 'DE', 'description': 'Best for video' } } }"; nl]).

Definition sample_node (tag address far : string) (mtu : Z) (dns : list string) (keepalive : Z) : endpoint :=
  mkEndpoint "" tag (Some [address]) "KEY" mtu dns
    (Some [mkPeer far 45330 "KEY" "" ["0.0.0.0/0"] keepalive]) "" "" "" "" "" "" "" "" "" "" "" "" "" "" "" "".
Definition with_obfuscation (e : endpoint) : endpoint :=
  mkEndpoint (Type_ e) (Tag e) (Address e) (PrivateKey e) (MTU e) (DNS e) (Peers e)
    "6" "10" "50" "112" "70" "33" "9" (quoted "'1148446321'") "" "" "" "" "" "" "" "".

Definition sample_config : config := mkConfig 12
  {[sample_token := mkSubscriber (Some 1798761600000000000%Z) 107374182400 44040192 ["frankfurt"; "amsterdam"]]}
  (<["frankfurt" := with_obfuscation (sample_node "Frankfurt" "10.8.1.23/32" "203.0.113.10" 1376 ["1.1.1.1"] 25)]>
    {["amsterdam" := sample_node "Amsterdam" "10.8.2.23/32" "203.0.113.20" 0 [] 0]})
  {["frankfurt" := mkMeta "DE" "Best for video" false]}.

Example sample_decodes : decode_file sample_file = Ok sample_config.
Proof. vm_compute. reflexivity. Qed.

Example time_offset : parse_RFC3339 "2027-01-01T02:30:00.5+02:30" = Some 1798761600500000000%Z ∧
  parse_RFC3339 "2027-02-29T00:00:00Z" = None ∧ parse_RFC3339 "0001-01-01T00:00:00Z" = Some zero_time ∧
  parse_RFC3339 "2027-01-01 00:00:00Z" = None.
Proof. by vm_compute. Qed.

(** A file with a name misspelt deep inside, and one with more after its end. *)
Definition misspelt_file : string := quoted (sconcat [
  "{ 'nodes': { 'frankfurt': { 'tag': 'Frankfurt', 'peers': [ { 'adress': '203.0.113.10' } ] } } }"; nl]).
Definition with_more : string := sample_file +:+ quoted "{ 'subscribers': { 'short': { 'nodes': ['nowhere'] } } }, trailing".

Lemma misspelt_file_is : ∃ raw rest, raw_value misspelt_file = Some (raw, rest) ∧ misspelt InConfig raw.
Proof.
  eexists _, _. split; [vm_compute; reflexivity|].
  eapply (misspelt_entry InNode); [vm_compute; reflexivity|left|by right; left|vm_compute; reflexivity|left|].
  eapply misspelt_peer; [vm_compute; reflexivity|right; left|reflexivity|vm_compute; reflexivity|left|].
  eapply misspelt_here; [vm_compute; reflexivity|left|by apply (bool_decide_eq_true_1 _)].
Qed.

Definition sorted_range (m : gmap string subscriber) : list (string * subscriber) := map_to_list m.

(** A machine with these files. *)
Definition disk (files : gmap string string) : Env := λ h c,
  match c with
  | ReadFile path => match files !! path with
                     | Some text => Output text
                     | None => Failure "" [Lit "open: no such file or directory"] true
                     end
  | ListenAndServe _ => Failure "" [Lit "http: Server closed"] false
  | _ => Output ""
  end.

(** ** Properties *)

(** C23: The server starts with a configuration that holds together or not at
    all.  On any machine, and in whichever order the maps are ranged over,
    [main] comes back having read the file and done nothing else, when the file
    cannot be read, is not what [json.Decoder] takes, or leaves [reload]'s
    checks unmet; otherwise it goes on to listen, once, on the address it was
    given, with exactly the configuration the file decodes to: every token of
    at least 24 bytes, every node a subscriber names defined. *)
Theorem main_serves_what_holds {env : Env} ranged path listen h :
  (∀ m, ranged m ≡ₚ map_to_list m) →
  ∃ r h', server_main ranged path listen h = (Some r, h') ∧ started_well path listen h r h'.
Proof. intros Hr. apply wp_eq. by apply server_main_starts. Qed.

Lemma main_serves_what_holds_witness :
  ∃ r h', @server_main (disk {["nodes.json" := sample_file]}) sorted_range "nodes.json" ":8080" [] = (Some r, h') ∧
    r.1 = Some (mkStore "nodes.json" sample_config) ∧ calls h' = [ReadFile "nodes.json"; ListenAndServe ":8080"].
Proof.
  destruct (@main_serves_what_holds (disk {["nodes.json" := sample_file]}) sorted_range "nodes.json" ":8080" []
    (λ m, reflexivity _)) as (r & h' & H & Hs).
  exists r, h'. split; [exact H|].
  assert (∃ e, r = (Some (mkStore "nodes.json" sample_config), e)) as [e ->].
  { vm_compute in H. injection H as <- _. by eexists. }
  split; [reflexivity|exact (proj1 Hs)].
Defined.

(** C37: A misspelt member anywhere is a refusal to start: in the file's object, in
    a subscriber, a node, what is said about a node or a peer of one, whatever
    the rest of the file says, [main] reads the file and does not listen. *)
Theorem misspelt_never_served {env : Env} ranged path listen h text raw rest :
  (∀ m, ranged m ≡ₚ map_to_list m) →
  Effects.answer h (ReadFile path) = Output text → raw_value text = Some (raw, rest) → misspelt InConfig raw →
  ∃ e h', server_main ranged path listen h = (Some (None, e), h') ∧ calls h' = calls h ++ [ReadFile path].
Proof.
  intros Hr Ho Hv Hm. destruct (wp_eq _ _ _ (server_main_starts ranged Hr path listen h)) as ([[s|] e] & h' & Hrun & Hs).
  - destruct Hs as (_ & text' & c & Ho' & [Hd _] & _). rewrite Ho in Ho'. injection Ho' as <-.
    unfold decode_file in Hd. rewrite Hv in Hd. destruct (misspelt_refused _ _ Hm zero_config) as [e' He]. congruence.
  - exists e, h'. split; [done|]. apply Hs.
Qed.

Lemma misspelt_never_served_witness :
  ∃ e h', @server_main (disk {["nodes.json" := misspelt_file]}) sorted_range "nodes.json" ":8080" [] = (Some (None, e), h') ∧
    calls h' = [ReadFile "nodes.json"].
Proof.
  destruct misspelt_file_is as (raw & rest & Hv & Hm).
  assert (@Effects.answer (disk {["nodes.json" := misspelt_file]}) [] (ReadFile "nodes.json") = Output misspelt_file) as Ho
    by (vm_compute; reflexivity).
  exact (@misspelt_never_served (disk {["nodes.json" := misspelt_file]}) sorted_range "nodes.json" ":8080" []
    misspelt_file raw rest (λ m, reflexivity _) Ho Hv Hm).
Defined.

(** What follows the configuration in the file is not looked at: this file goes
    on with another object, whose token is too short and whose node is not
    defined, and with text that is no JSON, and is served. *)
Theorem trailing_text_ignored :
  ∃ r h', @server_main (disk {["nodes.json" := with_more]}) sorted_range "nodes.json" ":8080" [] = (Some r, h') ∧
    r.1 = Some (mkStore "nodes.json" sample_config) ∧ json_read with_more = None.
Proof.
  destruct (@server_main (disk {["nodes.json" := with_more]}) sorted_range "nodes.json" ":8080" []) as [[r|] h'] eqn:E;
    [|by vm_compute in E].
  exists r, h'. split; [done|]. split; [|by vm_compute].
  vm_compute in E. by injection E as <- _.
Qed.
