(* ===== verification/SubscriptionProps.v ===== *)
(** * From the operator's file to the application

    What [main] reads from its file, it serves, and what it serves is read by
    the application as the file says it.  An integer read from a file is one
    the application can read back, so all that is asked of the file is that
    the obfuscation is given in texts and numbers. *)

From S2P Require Import Prelude GoStrings GoEncoding GoJson GoJsonFacts GoJsonRaw Awg AwgEndpoint Fields Effects Programs SubscriptionServer SubscriptionServerFacts SubscriptionMain SubscriptionMainFacts.
From Stdlib Require Import Ascii.
From stdpp Require Import options.

(** ** What decoding keeps *)

(** A decoder that leaves a value as good as it found it. *)
Definition keeps {A V} (P : A → Prop) (dec : A → V → result A) : Prop :=
  ∀ old v a, P old → dec old v = Ok a → P a.

Lemma foldM_keeps {A S} (f : S → A → result S) (P : S → Prop) l s s' :
  (∀ s x s', P s → f s x = Ok s' → P s') → P s → foldM f l s = Ok s' → P s'.
Proof.
  intros H. apply (foldM_invariant f P (λ _, True)); [eauto|]. apply list.Forall_forall. done.
Qed.

Section Keeps.
Context {A : Type} (P : A → Prop) (dec : A → string → result A).

Lemma keeps_field name old ms a : keeps P dec → P old → raw_field name dec old ms = Ok a → P a.
Proof.
  intros Hk Ho. apply (foldM_keeps _ P); [|done]. intros s [k raw] s' Hs. case_bool_decide; [by apply Hk|by intros [= <-]].
Qed.

Lemma keeps_elements zero old raws l : keeps P dec → P zero → Forall P old →
  dec_elements dec zero old raws = Ok l → Forall P l.
Proof.
  intros Hk Hz. revert old l. induction raws as [|v raws IH]; intros old l Ho; cbn [dec_elements].
  { intros [= <-]. constructor. }
  destruct (dec (hd zero old) v) as [a|] eqn:E; [|done]. cbn [mbind result_bind].
  destruct (dec_elements dec zero (tl old) raws) as [rest|] eqn:Er; [|done]. intros [= <-]. constructor.
  - refine (Hk _ _ _ _ E). by destruct Ho.
  - apply (IH (tl old)); [by destruct Ho|done].
Qed.

Lemma keeps_list zero : keeps P dec → P zero → keeps (λ l, Forall P (default [] l)) (dec_list dec zero).
Proof.
  intros Hk Hz old raw l Ho. unfold dec_list. case_bool_decide; [intros [= <-]; constructor|].
  destruct (raw_elements raw) as [raws|]; [|done].
  destruct (dec_elements _ _ _ _) as [l'|] eqn:E; [|done]. intros [= <-]. by apply (keeps_elements _ _ _ _ Hk Hz Ho E).
Qed.

Lemma keeps_map zero : keeps P dec → P zero → keeps (map_Forall (λ _, P)) (dec_map dec zero).
Proof.
  intros Hk Hz old raw m Ho. unfold dec_map. case_bool_decide; [intros [= <-]; apply map_Forall_empty|].
  destruct (raw_members raw) as [ms|]; [|done].
  apply (foldM_keeps _ (map_Forall (λ _, P))); [|done]. intros s [k v] s' Hs. destruct (dec zero v) as [a|] eqn:E; [|done]. intros [= <-].
  apply map_Forall_insert_2; [by apply (Hk _ _ _ Hz E)|done].
Qed.

Lemma keeps_struct names (fields : A → list (string * string) → result A) : keeps P fields → keeps P (dec_struct names fields).
Proof.
  intros Hk old raw a Ho. unfold dec_struct. case_bool_decide; [by intros [= <-]|].
  destruct (raw_members raw) as [ms|]; [|done]. destruct (known names ms); [|done]. by apply Hk.
Qed.
End Keeps.

Lemma keeps_int : keeps (λ z, in_int64 z = true) (leaf dec_int).
Proof.
  intros old raw z Ho. unfold leaf. destruct (json_read raw) as [[]|]; cbn; try done; [by intros [= <-]|].
  unfold parse_int. destruct (match _ with String "-" r => _ | _ => _ end) as [v|]; [|done]. cbn.
  destruct (in_int64 v) eqn:E; [|done]. by intros [= <-].
Qed.

(** Peels the fields off a struct's decoder, keeping what each decoded to. *)
#[local] Ltac decoded H :=
  repeat match type of H with (?m ≫= _) = Ok _ => let E := fresh "E" in destruct m eqn:E; [cbn [mbind result_bind] in H|done] end.

Lemma keeps_peer : keeps good_peer decode_peer.
Proof.
  apply keeps_struct. intros p ms p' [Hp Hk] H. decoded H. injection H as <-.
  split; (eapply (keeps_field _ _ _ _ _ _ keeps_int); [|eassumption]); done.
Qed.

(** An endpoint whose integers fit, whatever its raw members hold. *)
Definition in_range (e : endpoint) : Prop := in_int64 (MTU e) = true ∧ Forall good_peer (default [] (Peers e)).

Lemma keeps_endpoint : keeps in_range decode_endpoint.
Proof.
  apply keeps_struct. intros e ms e' [Hm Hp] H. cbv zeta in H. decoded H. injection H as <-. split.
  - eapply (keeps_field _ _ _ _ _ _ keeps_int); [|eassumption]. done.
  - eapply (keeps_field _ _ _ _ _ _ (keeps_list _ _ zero_peer keeps_peer ltac:(done))); [|eassumption]. done.
Qed.

Lemma decoded_in_range text c name : decode_file text = Ok c → in_range (node_of c name).
Proof.
  unfold decode_file. destruct (raw_value text) as [[raw rest]|]; [|done]. intros H.
  assert (map_Forall (λ _, in_range) (nodes c)) as Hn.
  { revert H. apply (keeps_struct (λ c, map_Forall (λ _, in_range) (nodes c))); [|apply map_Forall_empty].
    clear. intros old ms c Ho H. decoded H. injection H as <-.
    eapply (keeps_field _ _ _ _ _ _ (keeps_map _ _ zero_endpoint keeps_endpoint ltac:(done))); [|eassumption]. done. }
  unfold node_of. destruct (nodes c !! name) eqn:E; [by apply (Hn name)|done].
Qed.

(** ** Properties *)

(** C7: What the operator writes in the file, the application reads.  Once
    [main] has read its file and goes on to listen, the GET a live token makes
    for its document, plain or Caelo's as the client asked, is answered with
    the subscriber's nodes in the subscriber's order, every field as the file
    has it (texts as valid UTF-8, the obfuscation's numbers and texts as they
    are, in whichever form the file spells them), and each endpoint handed on
    by itself parses as the configuration of its node.  Nothing more is asked
    of the file than that the obfuscation of those nodes is given in numbers
    and texts. *)
Theorem file_reaches_application sha256 {env : Env} ranged path listen h s e h' now r who :
  (∀ m, ranged m ≡ₚ map_to_list m) →
  server_main ranged path listen h = (Some (Some s, e), h') →
  Method r = "GET" → CutSuffix (TrimPrefix (Path r) "/sub/") "/state" = None →
  Subscribers (loaded s) !! token_of (Path r) = Some who → expired who now = false →
  (∀ name, name ∈ Nodes who → Forall (λ m, scalar_text m.2) (raws (node_of (loaded s) name))) →
  ∃ text, Effects.answer h (ReadFile path) = Output text ∧ decode_file text = Ok (loaded s) ∧
    delivers sha256 (loaded s) now r who.
Proof.
  intros Hr Hrun Hget Hdoc Hwho Hlive Hraws.
  destruct (wp_eq _ _ _ (server_main_starts ranged Hr path listen h)) as (r' & h'' & Hrun' & Hs).
  rewrite Hrun in Hrun'. injection Hrun' as <- <-. destruct Hs as (_ & text & c & Ho & [Hd _] & ->).
  exists text. split_and!; [done..|]. apply served_nodes_read_back; [done..|]. intros name Hn.
  destruct (decoded_in_range _ _ name Hd) as [Hm Hp]. split; [done..|]. by apply Hraws.
Qed.

(** A file with numbers and texts spelt in other ways. *)
Definition escaped_file : string := quoted (sconcat [
  "{ 'subscribers': { 'put-a-long-random-token-here': { 'nodes': [ 'frankfurt' ] } },"; nl;
  " 'nodes': { 'frankfurt': { 'tag': 'Frankfurt', 'address': ['10.8.1.23/32'], 'mtu': 1376, 'private_key': 'KEY',"; nl;
  "   'jc': 6.0, 's1': 1.12e2, 'h1': '\u0031148446321', 'i1': '<b 0xc0de>' } } }"; nl]).

Lemma escaped_file_decodes : ∃ c, decode_file escaped_file = Ok c ∧
  Subscribers c !! sample_token = Some (mkSubscriber None 0 0 ["frankfurt"]) ∧
  Forall (λ m, scalar_text m.2) (raws (node_of c "frankfurt")) ∧
  scalar_of (S1 (node_of c "frankfurt")) = "1.12e2" ∧ scalar_of (H1 (node_of c "frankfurt")) = "1148446321".
Proof.
  destruct (decode_file escaped_file) as [c|] eqn:E; vm_compute in E; [|done]. injection E as <-. eexists. split; [done|].
  split; [by vm_compute|]. split; [|by vm_compute]. apply (bool_decide_unpack _). vm_compute. exact I.
Qed.

Definition sample_request : request := mkRequest "GET" ("/sub/" +:+ sample_token) "application/json" "".

Lemma file_reaches_application_witness :
  ∃ s e h', @server_main (disk {["nodes.json" := escaped_file]}) sorted_range "nodes.json" ":8080" [] = (Some (Some s, e), h') ∧
    delivers example_sha256 (loaded s) 0 sample_request (mkSubscriber None 0 0 ["frankfurt"]).
Proof.
  destruct (@server_main (disk {["nodes.json" := escaped_file]}) sorted_range "nodes.json" ":8080" []) as [r h'] eqn:E.
  assert (∃ c e, r = Some (Some (mkStore "nodes.json" c), e) ∧ decode_file escaped_file = Ok c) as (c & e & -> & Hd).
  { vm_compute in E. injection E as <- _. eexists _, _. by split; [|vm_compute]. }
  destruct escaped_file_decodes as (c' & Hd' & Hwho & Hraws & _). rewrite Hd in Hd'. injection Hd' as <-.
  eexists _, _, _. split; [reflexivity|].
  assert (∀ name, name ∈ ["frankfurt"] → Forall (λ m, scalar_text m.2) (raws (node_of c name))) as Hall
    by (intros name [->|[]%elem_of_nil]%elem_of_cons; exact Hraws).
  destruct (@file_reaches_application example_sha256 (disk {["nodes.json" := escaped_file]}) sorted_range "nodes.json" ":8080" []
    (mkStore "nodes.json" c) e h' 0 sample_request (mkSubscriber None 0 0 ["frankfurt"])
    (λ m, reflexivity _) E eq_refl ltac:(vm_compute; reflexivity) Hwho eq_refl Hall) as (_ & _ & _ & H). exact H.
Defined.
