(* ===== verification/Host.v ===== *)
(** * How the service is started and stopped: core/cmd/caelo-service, the rest

    The socket the service serves on, from systemd or its own
    (listen_linux.go); what it asks of whoever starts it (platform_linux.go,
    main.go); and the Windows service (service_windows.go), its loop on the
    control manager's requests, its installation and its removal.  A listener,
    a manager and a service are named by the number of calls made before the
    one that opened them. *)

From S2P Require Import Prelude GoStrings Effects Routing Systunnel Service.
From Stdlib Require Import Ascii.
From stdpp Require Import options.

(** ** Linux: the socket *)

Definition listenFDStart : Z := 3.

(** [activated]: the listener, whether systemd provided one, and the error. *)
Definition activation : Type := option nat * bool * option error.

Definition env_number (o : outcome) : result Z := Atoi (match o with Output s => s | _ => "" end).

Definition adopt_socket `{Env} : IO activation :=
  _ ← perform (CloseOnExec listenFDStart);
  l ← next_handle;
  adopted ← perform (FileListener listenFDStart);
  _ ← perform (CloseFd listenFDStart);
  mret match adopted with
       | Failure _ e _ => (None, true, Some ([Lit "adopting the socket systemd passed: "] ++ e))
       | _ => (Some l, true, None)
       end.

Definition activated `{Env} : IO activation :=
  named ← perform (Getenv "LISTEN_PID");
  match env_number named with
  | Err _ => mret (None, false, None)
  | Ok pid =>
      own ← perform Getpid;
      if negb (match own with Number z => (pid =? z)%Z | _ => false end) then mret (None, false, None)
      else
        passed ← perform (Getenv "LISTEN_FDS");
        match env_number passed with
        | Err _ => mret (None, false, None)
        | Ok count =>
            if (count <? 1)%Z then mret (None, false, None)
            else if (1 <? count)%Z then
              mret (None, true, Some [Lit "systemd passed "; Num count; Lit " sockets; this program serves one"])
            else adopt_socket
        end
  end.

(** [filepath.Clean]: the parts kept so far, the last first; what is above the
    root of a rooted path is the root. *)
Fixpoint clean_parts (rooted : bool) (parts kept : list string) : list string :=
  match parts with
  | [] => rev kept
  | part :: parts =>
      if bool_decide (part = "") || bool_decide (part = ".") then clean_parts rooted parts kept
      else if bool_decide (part = "..") then
        match kept with
        | [] => clean_parts rooted parts (if rooted then [] else [".."])
        | last :: above =>
            clean_parts rooted parts (if bool_decide (last = "..") then ".." :: kept else above)
        end
      else clean_parts rooted parts (part :: kept)
  end.

Definition Clean (path : string) : string :=
  let rooted := HasPrefix path "/" in
  let body := Join (clean_parts rooted (Split path "/") []) "/" in
  if rooted then "/" +:+ body else if bool_decide (body = "") then "." else body.

(** [filepath.Dir]: up to the last slash, cleaned. *)
Definition Dir (path : string) : string :=
  match CutLast path "/" with Some (dir, _) => Clean (dir +:+ "/") | None => Clean "" end.

Definition own_socket `{Env} (path : string) : IO activation :=
  made ← perform (MkdirAll (Dir path) 493);
  match made with
  | Failure _ e _ => mret (None, false, Some ([Lit "creating the socket directory: "] ++ e))
  | _ =>
      _ ← perform (Remove path);
      l ← next_handle;
      listening ← perform (Listen path);
      match listening with
      | Failure _ e _ => mret (None, false, Some ([Lit "listening on "; Plain path; Lit ": "] ++ e))
      | _ =>
          private ← perform (Chmod path 384);
          match private with
          | Failure _ e _ =>
              _ ← perform (CloseListener l);
              mret (None, false, Some ([Lit "setting socket permissions: "] ++ e))
          | _ => mret (Some l, false, None)
          end
      end
  end.

Definition listen `{Env} (path : string) : IO activation :=
  a ← activated;
  let '(listener, ok, e) := a in
  if ok || bool_decide (is_Some e) then mret (listener, true, e) else own_socket path.

(** ** Linux: who is connected *)

(** What the kernel says of a connection: whether it is a Unix socket, the
    errors of reaching its descriptor, and the peer's user and process. *)
Record peer := mkPeer {
  is_unix : bool;
  syscall_conn : result unit;
  control : result unit;
  credentials : result (Z * Z);
}.

Definition logPeer (uid pid : Z) : string := "serving uid " +:+ Itoa uid +:+ " (pid " +:+ Itoa pid +:+ ")".

(** [authorise]: the line it logs of a peer it lets through. *)
Definition authorise (p : peer) : result string :=
  if negb (is_unix p) then Err [Lit "not a unix socket"]
  else
    _ ← syscall_conn p;
    _ ← control p;
    match credentials p with
    | Err e => Err ([Lit "establishing who is connected: "] ++ e)
    | Ok (uid, pid) => Ok (logPeer uid pid)
    end.

(** ** Starting *)

Definition mustBePrivileged `{Env} : IO (result unit) :=
  uid ← perform Geteuid;
  mret (if match uid with Number z => (z =? 0)%Z | _ => false end then Ok tt
        else Err [Lit "must run as root: this program exists to do what the app may not"]).

(** [describe] in main.go. *)
Definition describe (path : string) (activated : bool) : string :=
  if activated then path +:+ " (handed over by systemd)" else path +:+ " (created here, root only)".

(** [shutdown] to its end: the tunnel, the listener, and the socket's file if
    it is ours. *)
Definition stopEverything `{Env, Platform} (path : string) (listener : nat) (activated : bool) (c : Controller) : IO Controller :=
  c ← shutdown c;
  _ ← perform (CloseListener listener);
  _ ← (if activated then mret (Output "") else perform (Remove path));
  mret c.

(** ** Windows: the pipe *)

Definition PipeName : string := "\\.\pipe\caelo".
Definition pipeSecurity : string := "D:P(A;;GA;;;SY)(A;;GA;;;BA)(A;;GRGW;;;IU)".

Definition listen_pipe `{Env} : IO activation :=
  l ← next_handle;
  listening ← perform (ListenPipe PipeName pipeSecurity);
  mret match listening with
       | Failure _ e _ => (None, false, Some ([Lit "listening on "; Lit PipeName; Lit ": "] ++ e))
       | _ => (Some l, false, None)
       end.

(** ** Windows: the service *)

Definition serviceName : string := "Caelo".
Definition pipeTriggerName : string := "caelo".

(** The GUID as it lies in memory. *)
Definition namedPipeEventGUID : list Z :=
  [0x31; 0xd1; 0x81; 0x1f; 0xac; 0x3f; 0x37; 0x45; 0x9e; 0x0c; 0x7e; 0x7b; 0x0c; 0x2f; 0x4b; 0x55]%Z.

Inductive change_request := Interrogate (current : Z) | StopRequest | ShutdownRequest | OtherRequest.

(** The states of a service, by Windows' numbers. *)
Definition Stopped : Z := 1.
Definition StartPending : Z := 2.
Definition StopPending : Z := 3.
Definition Running : Z := 4.

(** How [Execute] ends: [stopEverything] ends the process in the middle of it,
    or the manager has no more requests and it returns. *)
Inductive execution (S : Type) := Exited (s : S) | Returned (s : S).
Arguments Exited {S} _.
Arguments Returned {S} _.

(** [Execute] is one goroutine of the process and [h.work], which it starts,
    the others; what they all work on is [S].  With each request comes what the
    others do until it is read.  [stop] is [stopEverything], and there is
    nothing after it. *)
Section Execute.
Context `{Env} {S : Type} (stop : S → IO S).

Fixpoint answer_requests (requests : list ((S → IO S) * change_request)) (s : S) : IO (execution S) :=
  match requests with
  | [] => mret (Returned s)
  | (meanwhile, request) :: requests =>
      s ← meanwhile s;
      match request with
      | Interrogate current => _ ← perform (TellManager current); answer_requests requests s
      | StopRequest | ShutdownRequest =>
          _ ← perform (TellManager StopPending);
          s ← stop s;
          mret (Exited s)
      | OtherRequest => answer_requests requests s
      end
  end.

Definition Execute (at_once : S → IO S) (requests : list ((S → IO S) * change_request)) (s : S) : IO (execution S) :=
  _ ← perform (TellManager StartPending);
  _ ← perform GoWork;
  s ← at_once s;
  _ ← perform (TellManager Running);
  answer_requests requests s.
End Execute.

(** [windows.UTF16FromString] of a text in ASCII, and the bytes of it. *)
Fixpoint utf16_bytes (s : string) : list Z :=
  match s with "" => [0; 0]%Z | String c s => code c :: 0%Z :: utf16_bytes s end.

Definition serviceTriggerTypeNetworkEndpoint : Z := 6.
Definition serviceTriggerActionServiceStart : Z := 1.
Definition serviceTriggerDataTypeString : Z := 2.

Definition setPipeTrigger `{Env} (service : nat) : IO (result unit) :=
  o ← perform (ChangeTrigger service serviceTriggerTypeNetworkEndpoint serviceTriggerActionServiceStart
    namedPipeEventGUID serviceTriggerDataTypeString (utf16_bytes pipeTriggerName));
  mret (to_unit o).

(** [mgr.Connect], and its deferred [Disconnect]. *)
Definition with_manager `{Env} {A} (work : nat → IO (result A)) : IO (result A) :=
  manager ← next_handle;
  connected ← perform ConnectManager;
  match connected with
  | Failure _ e _ => mret (Err ([Lit "opening the service manager (this needs Administrator): "] ++ e))
  | _ =>
      r ← work manager;
      _ ← perform (DisconnectManager manager);
      mret r
  end.

(** The deferred [Close] of a service that is open. *)
Definition closing `{Env} {A} (service : nat) (work : IO (result A)) : IO (result A) :=
  r ← work; _ ← perform (CloseService service); mret r.

Definition create_service `{Env} (manager : nat) (executable : string) : IO (result unit) :=
  service ← next_handle;
  created ← perform (CreateService manager serviceName executable 3);
  match created with
  | Failure _ e _ => mret (Err ([Lit "creating the service: "] ++ e))
  | _ =>
      closing service
        (io_wrap [Lit "the service was installed but will not start on demand: "] (setPipeTrigger service))
  end.

Definition install `{Env} : IO (result unit) :=
  executable ← perform Executable;
  match executable with
  | Failure _ e _ => mret (Err e)
  | _ =>
      with_manager (λ manager,
        existing ← next_handle;
        opened ← perform (OpenService manager serviceName);
        match opened with
        | Failure _ _ _ =>
            create_service manager (match executable with Output s => s | _ => "" end)
        | _ =>
            _ ← perform (CloseService existing);
            mret (Err [Lit serviceName; Lit " is already installed"])
        end)
  end.

Definition ControlStop : Z := 1.

(** Stopping a service that is not stopped, as far as its state is known. *)
Definition stop_running `{Env} (service : nat) : IO (result unit) :=
  state ← perform (QueryService service);
  if match state with Failure _ _ _ => false | Number z => negb (z =? Stopped)%Z | _ => true end then
    o ← perform (ControlService service ControlStop);
    mret (wrap [Lit "stopping the service: "] (to_unit o))
  else mret (Ok tt).

Definition uninstall `{Env} : IO (result unit) :=
  with_manager (λ manager,
    service ← next_handle;
    opened ← perform (OpenService manager serviceName);
    match opened with
    | Failure _ _ _ => mret (Err [Lit serviceName; Lit " is not installed"])
    | _ =>
        closing service
          (_ ←? stop_running service;
           o ← perform (DeleteService service);
           mret (to_unit o))
    end).

(** The subcommands: whether one was given, and what came of it. *)
Definition platformCommand `{Env} (args : list string) : IO (bool * result unit) :=
  match args with
  | _ :: command :: _ =>
      if bool_decide (command = "install") then r ← install; mret (true, r)
      else if bool_decide (command = "uninstall") then r ← uninstall; mret (true, r)
      else mret (false, Ok tt)
  | _ => mret (false, Ok tt)
  end.

(** [runAsService] up to [svc.Run]: whether the control manager started us. *)
Definition runAsService `{Env} : IO (result bool) :=
  o ← perform IsWindowsService;
  mret match o with
       | Failure _ e _ => Err e
       | Number z => Ok (negb (z =? 0)%Z)
       | _ => Ok false
       end.

(** ** [main] *)

(** What [main] takes from the build. *)
Class Glue := {
  glue_command : ∀ {env : Env}, list string → IO (bool * result unit);
  glue_privileged : ∀ {env : Env}, IO (result unit);
  glue_listen : ∀ {env : Env}, string → IO activation;
  glue_managed : ∀ {env : Env}, IO (result bool);
}.

(** platform_linux.go and listen_linux.go: no subcommands, and nobody manages
    the main goroutine. *)
Definition linux_glue : Glue := {|
  glue_command _ _ := mret (false, Ok tt);
  glue_privileged := @mustBePrivileged;
  glue_listen := @listen;
  glue_managed _ := mret (Ok false);
|}.

(** service_windows.go and listen_windows.go. *)
Definition windows_glue : Glue := {|
  glue_command := @platformCommand;
  glue_privileged _ := mret (Ok tt);
  glue_listen _ _ := listen_pipe;
  glue_managed := @runAsService;
|}.

(** Where [main] gets to: a subcommand has been run; [log.Fatal]; or the accept
    loop, in the background if the control manager has the main goroutine. *)
Inductive fate :=
  | Finished
  | Fatal (e : error)
  | Serving (listener : nat) (activated managed : bool).

Definition main `{Env, Platform, Glue} (args : list string) (path : string) (verbose : bool) : IO fate :=
  o ← glue_command args;
  let '(handled, err) := o in
  if handled : bool then mret match err with Ok _ => Finished | Err e => Fatal e end
  else
    privileged ← glue_privileged;
    match privileged with
    | Err e => mret (Fatal e)
    | Ok _ =>
        _ ← NewController verbose;
        l ← glue_listen path;
        match l with
        | (Some l, activated, None) =>
            managed ← glue_managed;
            mret match managed with Err e => Fatal e | Ok m => Serving l activated m end
        | (_, _, e) => mret (Fatal (default [] e))
        end
    end.
