(* ===== verification/HostFacts.v ===== *)
(** * Properties of starting and stopping the service

    Whose socket is served on; that the control manager's stop gives the
    machine back; that installing and removing close what they open, and that
    a running service is told to stop before it is deleted. *)

From S2P Require Import Prelude GoStrings NetAddr Effects System SystemFacts SystemWindowsFacts Simulated.
From S2P Require Import Routing RoutingFacts Systunnel SystunnelFacts SystunnelMachine SystunnelProps Service ServiceFacts Aside Host.
From Stdlib Require Import Ascii.
From stdpp Require Import options.

(** ** What an operation adds to the history *)

(** From any history [m] comes back, and its value and new calls are in [Q]. *)
Definition gives {A} `{Env} (m : IO A) (h : history) (Q : A → history → Prop) : Prop :=
  ∃ a new, m h = (Some a, h ++ new) ∧ Q a new.

Section Gives.
Context `{Env}.

Lemma gives_ret {A} (a : A) h (Q : A → history → Prop) : Q a [] → gives (mret a) h Q.
Proof. intros HQ. exists a, []. by rewrite app_nil_r. Qed.

Lemma gives_perform c h (Q : outcome → history → Prop) : Q (answer h c) [(c, answer h c)] → gives (perform c) h Q.
Proof. intros HQ. by exists (answer h c), [(c, answer h c)]. Qed.

Lemma gives_bind {A B} (m : IO A) (k : A → IO B) h Q :
  gives m h (λ a new, gives (k a) (h ++ new) (λ b more, Q b (new ++ more))) → gives (m ≫= k) h Q.
Proof.
  intros (a & new & Hm & b & more & Hk & HQ). exists b, (new ++ more).
  rewrite (run_bind _ _ _ _ _ Hm), Hk, app_assoc. done.
Qed.

Lemma gives_mono {A} (m : IO A) h (P Q : A → history → Prop) :
  (∀ a new, P a new → Q a new) → gives m h P → gives m h Q.
Proof. intros HPQ (a & new & Hm & HP). exists a, new. auto. Qed.

Lemma gives_call {B} c (k : outcome → IO B) h Q :
  (∀ o, o = answer h c → gives (k o) (h ++ [(c, o)]) (λ b more, Q b ((c, o) :: more))) → gives (perform c ≫= k) h Q.
Proof. intros Hk. apply gives_bind, gives_perform. by apply Hk. Qed.

Lemma gives_checked {B} c (bad : error → IO B) (good : IO B) h Q :
  (∀ o e, failed o = true → gives (bad e) (h ++ [(c, o)]) (λ b more, Q b ((c, o) :: more))) →
  (∀ o, failed o = false → gives good (h ++ [(c, o)]) (λ b more, Q b ((c, o) :: more))) →
  gives (o ← perform c; match o with Failure _ e _ => bad e | _ => good end) h Q.
Proof. intros Hbad Hgood. apply gives_call. intros o _. destruct o; auto. Qed.

Lemma gives_handle {B} (k : nat → IO B) h Q : gives (k (length h)) h Q → gives (next_handle ≫= k) h Q.
Proof. intros Hk. apply gives_bind. exists (length h), []. by rewrite app_nil_r. Qed.
End Gives.

(** ** The socket *)

Definition pid_of (o : outcome) : option Z := match o with Number z => Some z | _ => None end.

(** systemd's variables were for this process, and passed one socket. *)
Definition handed_over (new : history) : Prop :=
  ∃ named own passed o1 o2 o3, env_number named = Ok own ∧ env_number passed = Ok 1%Z ∧
    new = [(Getenv "LISTEN_PID", named); (Getpid, Number own); (Getenv "LISTEN_FDS", passed);
           (CloseOnExec 3, o1); (FileListener 3, o2); (CloseFd 3, o3)].

Section Listening.
Context `{Env}.

Definition activation_ok (h : history) (a : activation) (new : history) : Prop :=
  match a with
  | (Some l, ok, e) => ok = true ∧ e = None ∧ handed_over new ∧ l = length h + 4
  | (None, ok, e) => e = None ↔ ok = false
  end ∧ (∀ path, Listen path ∉ calls new).

Lemma gives_adopt h : gives adopt_socket h (λ a new, ∃ o1 o2 o3,
  new = [(CloseOnExec 3, o1); (FileListener 3, o2); (CloseFd 3, o3)] ∧
  (a = (Some (S (length h)), true, None) ∨ ∃ e, a = (None, true, Some e))).
Proof.
  unfold adopt_socket. apply gives_call. intros o1 _. apply gives_handle. apply gives_call. intros o2 _.
  apply gives_call. intros o3 _. apply gives_ret. exists o1, o2, o3. split; [done|].
  rewrite length_app. cbn. rewrite Nat.add_1_r. destruct o2; auto. right. by eexists.
Qed.

Lemma gives_activated h : gives activated h (activation_ok h).
Proof.
  unfold activated, activation_ok. apply gives_call. intros named Hnamed.
  destruct (env_number named) as [pid|e] eqn:Ep; [|by apply gives_ret; set_solver].
  apply gives_call. intros own Hown.
  destruct (match own with Number z => _ | _ => false end) eqn:Eo; cbn [negb]; [|by apply gives_ret; set_solver].
  destruct own as [| | | |z|]; try discriminate. apply Z.eqb_eq in Eo as ->.
  apply gives_call. intros passed Hpassed. destruct (env_number passed) as [count|e] eqn:Ec; [|by apply gives_ret; set_solver].
  destruct (Z.ltb_spec count 1); [by apply gives_ret; set_solver|].
  destruct (Z.ltb_spec 1 count); [by apply gives_ret; set_solver|].
  assert (count = 1%Z) as -> by lia. eapply gives_mono; [|apply gives_adopt].
  intros a new (o1 & o2 & o3 & -> & Ha). split; [|cbn; set_solver].
  destruct Ha as [->|[e ->]]; [|by split]. rewrite !length_app. cbn. split_and!; [done|done| |lia].
  by exists named, z, passed, o1, o2, o3.
Qed.

(** Made by the service: the directory, what was there before taken away, and
    a socket only its owner can open. *)
Definition made_here (path : string) (l : nat) (h new : history) : Prop :=
  ∃ before o1 o2 o3 o4, new = before ++ [(MkdirAll (Dir path) 493, o1); (Remove path, o2); (Listen path, o3); (Chmod path 384, o4)] ∧
    failed o3 = false ∧ failed o4 = false ∧ l = length h + length before + 2.

(** No socket that was opened is left open. *)
Definition none_left (path : string) (h new : history) : Prop :=
  ∀ i o, new !! i = Some (Listen path, o) → failed o = false → CloseListener (length h + i) ∈ calls new.

Definition listening_ok (path : string) (h : history) (a : activation) (new : history) : Prop :=
  match a with
  | (Some l, true, e) => e = None ∧ handed_over new
  | (Some l, false, e) => e = None ∧ made_here path l h new
  | (None, _, e) => is_Some e ∧ none_left path h new
  end.

Lemma no_listening path h new : Listen path ∉ calls new → none_left path h new.
Proof.
  intros Hn i o Hi. exfalso. apply Hn. exact (list_elem_of_fmap_2 fst _ _ (list_elem_of_lookup_2 _ _ _ Hi)).
Qed.

Lemma calls_app h h' : calls (h ++ h') = calls h ++ calls h'.
Proof. apply map_app. Qed.

Lemma gives_own path h h0 new0 : h = h0 ++ new0 → Listen path ∉ calls new0 →
  gives (own_socket path) h (λ a new, listening_ok path h0 a (new0 ++ new)).
Proof.
  intros -> Hn. unfold own_socket, listening_ok.
  assert (∀ (e : error) new, Listen path ∉ calls new → is_Some (Some e) ∧ none_left path h0 (new0 ++ new)) as Hno.
  { intros e new H'. split; [by eexists|]. apply no_listening. rewrite calls_app. set_solver. }
  apply gives_checked; [intros o1 e _; apply gives_ret, Hno; cbn; set_solver|]. intros o1 _.
  apply gives_call. intros o2 _. apply gives_handle.
  apply gives_checked.
  { intros o3 e E3. apply gives_ret. split; [by eexists|]. intros i o Hi Ho.
    exfalso. apply lookup_app_Some in Hi as [Hi|[_ Hi]].
    - apply Hn. exact (list_elem_of_fmap_2 fst _ _ (list_elem_of_lookup_2 _ _ _ Hi)).
    - destruct (i - length new0) as [|[|[|]]]; simplify_eq/=. congruence. }
  intros o3 E3. apply gives_checked.
  - intros o4 e E4. apply gives_call. intros o5 _. apply gives_ret. split; [by eexists|].
    intros i o Hi Ho. rewrite calls_app. apply elem_of_app. right.
    apply lookup_app_Some in Hi as [Hi|[Hlt Hi]].
    { exfalso. apply Hn. exact (list_elem_of_fmap_2 fst _ _ (list_elem_of_lookup_2 _ _ _ Hi)). }
    destruct (i - length new0) as [|[|[|[|[|]]]]] eqn:Ei; simplify_eq/=.
    do 4 apply list_elem_of_further. apply list_elem_of_singleton. f_equal. rewrite !length_app. cbn. lia.
  - intros o4 E4. apply gives_ret. split; [done|]. exists new0, o1, o2, o3, o4.
    split; [done|]. split; [done|]. split; [done|]. rewrite !length_app. cbn. lia.
Qed.

Lemma gives_listen path h : gives (listen path) h (listening_ok path h).
Proof.
  unfold listen. apply gives_bind. eapply gives_mono; [|apply gives_activated].
  intros [[l ok] e] new [Ha Hn]. destruct l as [l|].
  - destruct Ha as (-> & -> & Hh & _). cbn. by apply gives_ret; rewrite app_nil_r.
  - destruct e as [e|].
    + assert (ok = true) as -> by (destruct ok; [done|]; discriminate (proj2 Ha eq_refl)).
      cbn. apply gives_ret. rewrite app_nil_r. split; [by eexists|]. by apply no_listening.
    + rewrite (proj1 Ha eq_refl). cbn. by apply gives_own.
Qed.

(** Whose socket the service serves on, on Linux: one systemd passes is
    taken only when its variables name this very process and exactly one
    socket, and the path is then left alone; otherwise the service makes its
    own, which nobody but its owner may open, and a socket that could not be
    closed to others is not served on and not left open. *)
Theorem listen_whose_socket path h :
  ∃ a new, listen path h = (Some a, h ++ new) ∧ listening_ok path h a new.
Proof. apply gives_listen. Qed.

End Listening.

(** ** The control manager's requests *)

(** What is asked before the first stop, and whether one comes. *)
Fixpoint before_stop (requests : list change_request) : list change_request * bool :=
  match requests with
  | [] => ([], false)
  | StopRequest :: _ | ShutdownRequest :: _ => ([], true)
  | r :: requests => let '(l, b) := before_stop requests in (r :: l, b)
  end.

Definition told (requests : list change_request) : list call :=
  flat_map (λ r, match r with Interrogate state => [TellManager state] | _ => [] end) requests.

Section Answering.
Context {env : Env} {S : Type} (stop : S → IO S) (I Q : list call → S → history → Prop).
Hypothesis (Htell : ∀ R s h state, I R s h →
  I (R ++ [TellManager state]) s (h ++ [(TellManager state, answer h (TellManager state))])).
Hypothesis (Hstop : ∀ R s h, I R s h → wp (stop s) (Q R) h).
#[local] Set Default Proof Using "Type*".

(** What [answer_requests] comes to, by what it was asked. *)
Definition concluded (R : list call) (asked : list change_request * bool) (e : execution S) (h : history) : Prop :=
  if asked.2
  then ∃ s, e = Exited s ∧ Q (R ++ told asked.1 ++ [TellManager StopPending]) s h
  else ∃ s, e = Returned s ∧ I (R ++ told asked.1) s h.

Lemma wp_answer_requests requests R s h :
  Forall (λ r, ∀ R s h, I R s h → wp (r.1 s) (I R) h) requests → I R s h →
  wp (answer_requests stop requests s) (concluded R (before_stop (map snd requests))) h.
Proof.
  intros Hall. revert R s h.
  induction Hall as [|[meanwhile request] requests Hm _ IH]; intros R s h HI; cbn [answer_requests map snd before_stop].
  { apply wp_ret. exists s. by rewrite app_nil_r. }
  apply wp_bind. eapply wp_mono; [|by apply Hm]. intros s1 h1 H1.
  assert (wp (_ ← perform (TellManager StopPending); s ← stop s1; mret (Exited s)) (concluded R ([], true)) h1) as Hend.
  { apply wp_bind, wp_perform, wp_bind. eapply wp_mono; [|apply (Hstop (R ++ [TellManager StopPending])), Htell, H1].
    intros s2 h2 H2. apply wp_ret. by exists s2. }
  destruct request as [state| | |]; [|exact Hend|exact Hend|].
  - apply wp_bind, wp_perform. eapply wp_mono; [|apply IH, Htell, H1].
    intros e h2. destruct (before_stop (map snd requests)) as [l b]. unfold concluded. cbn.
    destruct b; intros (s2 & -> & H2); exists s2; split; try done; by rewrite <- app_assoc in H2.
  - eapply wp_mono; [|apply IH, H1]. intros e h2. by destruct (before_stop (map snd requests)) as [l b].
Qed.
End Answering.

(** What the goroutines of [h.work] do between two requests: some connections
    are served. *)
Definition serving {env : Env} {platform : Platform} render core amneziawg (cs : list (bool * string)) (c : Controller) : IO Controller :=
  r ← serve_each render core amneziawg cs c; mret r.2.

Section Stopping.
Context {env : Env} {platform : Platform} `{!Clock env} `{!Orderly platform}.
Context {M : Type} (after : history → M) (m0 : M) `{!Restores platform env after m0}.
#[local] Set Default Proof Using "Type*".

Lemma wp_stopEverything path l activated c h B : harmless after (Remove path) → sound_books after m0 B c h →
  wp (stopEverything path l activated c) (λ c' h', given_back after m0 h' ∧ device c' = None ∧ rest h' = B) h.
Proof.
  intros Hp Hs. unfold stopEverything. apply wp_bind. eapply wp_mono; [|by apply (sound_books_shutdown after m0)].
  intros c' h1 [[H1 HB] Hd]. pose proof (sound_down after m0 _ _ H1 Hd) as Hg.
  assert (∀ h co, neutral co.1 = true → rest (h ++ [co]) = rest h) as Hrest.
  { intros h' [co o] Hn. exact (f_equal snd (books_neutral h' co o Hn)). }
  assert (∀ c0 h0, neutral c0 = true → harmless after c0 → given_back after m0 h0 → rest h0 = B →
    given_back after m0 (h0 ++ [(c0, answer h0 c0)]) ∧ rest (h0 ++ [(c0, answer h0 c0)]) = B) as Hstep.
  { intros c0 h0 Hn Hh [Hm Ho] Hr. pose proof (f_equal fst (books_neutral h0 c0 (answer h0 c0) Hn)) as Ho'. cbn in Ho'.
    split; [split; [by rewrite Hh|congruence]|by rewrite Hrest]. }
  apply wp_bind, wp_perform.
  destruct (Hstep (CloseListener l) h1 eq_refl (own_harmless after (platform := platform) (m0 := m0) (CloseListener l) eq_refl) Hg HB) as [H2 HB2].
  apply wp_bind. destruct activated; [by apply wp_ret, wp_ret|].
  apply wp_perform, wp_ret. by destruct (Hstep (Remove path) _ eq_refl Hp H2 HB2).
Qed.

Lemma sound_books_tell n R c h call o : managing call = true → own_call call = true → o = answer h call →
  sound_books after m0 (n, R) c h → sound_books after m0 (n, R ++ [call]) c (h ++ [(call, o)]).
Proof.
  intros Hm Hc -> [[[Ho Hi] Hma] [= Hn Hr]]. split; [split|].
  - split; [|done]. rewrite <- Ho, opened_snoc. by destruct call.
  - unfold machine_inv, tunnel_up in *. by rewrite (after_own h call Hc).
  - unfold rest. rewrite strays_snoc, reported_snoc, Hr, Hm. rewrite <- Hn. by destruct call.
Qed.

Context (render : error → string) (core amneziawg : string) (path : string) (l : nat) (activated : bool).
Context (Hremove : harmless after (Remove path)).
Abbreviation work := (serving render core amneziawg).

Lemma wp_serving B cs c h : sound_books after m0 B c h → wp (work cs c) (sound_books after m0 B) h.
Proof.
  intros H0. unfold serving. apply wp_bind. eapply wp_mono; [|by apply (sound_books_serve_each after m0)].
  intros r h1 [H1 _]. by apply wp_ret.
Qed.

(** [stopEverything] began when this had been reported, reported no more, and
    gave everything back. *)
Definition stopped_after (R : list call) (c' : Controller) (h' : history) : Prop :=
  ∃ c h1, stopEverything path l activated c h1 = (Some c', h') ∧ reported h1 = R ∧ reported h' = R ∧
    device c' = None ∧ given_back after m0 h'.

Lemma wp_stop_late late n R c h : sound_books after m0 (n, R) c h →
  wp (c ← work late c; stopEverything path l activated c) (stopped_after R) h.
Proof.
  intros H0. apply wp_bind. eapply wp_mono; [|by apply wp_serving]. intros c1 h1 H1.
  destruct (wp_eq _ _ _ (wp_stopEverything path l activated c1 h1 _ Hremove H1)) as (c' & h' & E & Hg & Hd & Hr).
  unfold wp. rewrite E. exists c1, h1. destruct H1 as [_ [= _ HR]]. injection Hr as _ HR'. by split_and!.
Qed.

Lemma wp_Execute late at_once requests c h : sound_books after m0 (rest h) c h →
  wp (Execute (λ c, c ← work late c; stopEverything path l activated c)
      (work at_once) (map (λ r, (work r.1, r.2)) requests) c)
    (concluded (λ R, sound_books after m0 (strays h, R)) stopped_after
       (reported h ++ [TellManager StartPending; GoWork; TellManager Running]) (before_stop (map snd requests))) h.
Proof.
  intros H0. unfold Execute. do 2 apply wp_bind, wp_perform. apply wp_bind.
  eapply wp_mono; [|apply wp_serving, sound_books_tell, sound_books_tell; [done..|exact H0]]. intros c1 h1 H1.
  apply wp_bind, wp_perform.
  replace (map snd requests) with (map snd (map (λ r, (work r.1, r.2)) requests)) by (rewrite map_map; done).
  apply wp_answer_requests.
  - intros R s h2 state H2. by apply sound_books_tell.
  - intros R s h2 H2. by eapply wp_stop_late.
  - apply Forall_map, Forall_true. intros [cs r] R s h2 H2. by apply wp_serving.
  - replace (reported h ++ _) with (((reported h ++ [TellManager StartPending]) ++ [GoWork]) ++ [TellManager Running])
      by (by rewrite <- !app_assoc).
    by apply sound_books_tell.
Qed.
End Stopping.



(** The manager's handles that are open, by the calls that opened them. *)
Definition handle_step (n : nat) (s : gset nat) (co : call * outcome) : gset nat :=
  match co.1 with
  | ConnectManager | OpenService _ _ | CreateService _ _ _ _ => if failed co.2 then s else {[n]} ∪ s
  | DisconnectManager k | CloseService k => s ∖ {[k]}
  | _ => s
  end.
Definition handles : history → gset nat := tally handle_step ∅.

Lemma handles_snoc h co : handles (h ++ [co]) = handle_step (length h) (handles h) co.
Proof. apply tally_snoc. Qed.

Lemma handles_lt h k : k ∈ handles h → k < length h.
Proof.
  induction h as [|[c o] h IH] using rev_ind; [cbn; set_solver|].
  rewrite handles_snoc, length_app. cbn [length]. unfold handle_step. cbn [fst snd].
  assert (k ∈ handles h → k < length h + 1) by (intros H; specialize (IH H); lia).
  assert (k ∈ {[length h]} ∪ handles h → k < length h + 1) by (rewrite elem_of_union, elem_of_singleton; intros [->|?]; [lia|auto]).
  destruct c; auto; try (destruct (failed o); auto); set_solver.
Qed.

(** What opens, works and closes leaves the handles as they were. *)
Lemma close_again h (s : gset nat) k : length h ≤ k → s = {[k]} ∪ handles h → s ∖ {[k]} = handles h.
Proof.
  intros Hk ->. apply set_eq. intros x. pose proof (handles_lt h x) as Hx. set_unfold.
  split; [intros [[->|?] ?]; done|]. intros H. split; [by right|]. intros ->. specialize (Hx H). lia.
Qed.

(** A deletion comes when the service is stopped, as far as can be told, or
    has been told to stop. *)
Definition told_to_stop (service : nat) (before : history) : Prop :=
  (∃ l o, before = l ++ [(QueryService service, o)] ∧ (failed o = true ∨ o = Number Stopped)) ∨
  (∃ l o, before = l ++ [(ControlService service ControlStop, o)] ∧ failed o = false).

Definition deletes_stopped (new : history) : Prop :=
  ∀ before service o after, new = before ++ (DeleteService service, o) :: after → told_to_stop service before.

Section Handles.
Context `{Env}.

Definition tidy (h new : history) : Prop := handles (h ++ new) = handles h.

Lemma gives_manager {A} (work : nat → IO (result A)) h (P : result A → history → Prop) :
  (∀ o, failed o = false → gives (work (length h)) (h ++ [(ConnectManager, o)]) (λ r new,
     handles (h ++ (ConnectManager, o) :: new) = {[length h]} ∪ handles h ∧ P r new)) →
  gives (with_manager work) h (λ r new, tidy h new ∧
    ((∃ e o, r = Err e ∧ new = [(ConnectManager, o)]) ∨
     ∃ o o' mid, new = (ConnectManager, o) :: mid ++ [(DisconnectManager (length h), o')] ∧ P r mid)).
Proof.
  intros Hw. unfold with_manager. apply gives_handle, gives_checked.
  - intros o e Ho. apply gives_ret. split; [|left; by eexists _, _]. unfold tidy. rewrite handles_snoc.
    unfold handle_step. cbn. by rewrite Ho.
  - intros o Ho. apply gives_bind. eapply gives_mono; [|by apply Hw]. intros r new [Hh HP].
    apply gives_call. intros o' _. apply gives_ret. split.
    + unfold tidy. rewrite app_comm_cons, app_assoc, handles_snoc. unfold handle_step. cbn [fst]. by apply close_again.
    + right. by exists o, o', new.
Qed.

Lemma handles_app h new : handles (h ++ new) = (foldl (λ p co, (S p.1, handle_step p.1 p.2 co)) (length h, handles h) new).2.
Proof.
  induction new as [|co new IH] using rev_ind; [by rewrite app_nil_r|].
  rewrite app_assoc, handles_snoc, IH, foldl_app. cbn. f_equal.
  clear. rewrite length_app. generalize (handles h). induction new as [|x new IH] using rev_ind; intros t; [cbn; lia|].
  rewrite foldl_app, length_app. cbn. rewrite <- IH. lia.
Qed.

Lemma deletes_within mid x y : deletes_stopped mid → (∀ s o, x ≠ (DeleteService s, o)) → (∀ s o, y ≠ (DeleteService s, o)) →
  deletes_stopped (x :: mid ++ [y]).
Proof.
  intros Hm Hx Hy before s o after E. destruct before as [|x' before]; [by injection E as E; destruct (Hx s o)|].
  injection E as <- E.
  destruct after as [|y' after _] using rev_ind.
  - apply app_inj_tail in E as [_ E]. by destruct (Hy s o).
  - rewrite app_comm_cons, app_assoc in E. apply app_inj_tail in E as [E _].
    destruct (Hm _ _ _ _ E) as [(l & o' & -> & ?)|(l & o' & -> & ?)]; [left|right]; by exists (x :: l), o'.
Qed.

#[local] Ltac no_deletion :=
  let b := fresh "before" in let E := fresh "E" in
  intros b ? ? ? E; repeat (destruct b as [|? b]; simplify_eq/=).

Lemma gives_stop_running k h : gives (stop_running k) h (λ r new, handles (h ++ new) = handles h ∧ deletes_stopped new ∧
  (is_ok r = true → told_to_stop k new)).
Proof.
  unfold stop_running. apply gives_call. intros o Ho.
  assert (∀ o, handles (h ++ [(QueryService k, o)]) = handles h) as E1 by (intros; by rewrite handles_snoc).
  destruct (match o with Failure _ _ _ => false | Number z => _ | _ => true end) eqn:Es.
  - apply gives_call. intros o' _. apply gives_ret. split; [by rewrite handles_app|]. split; [no_deletion|].
    intros Hok. right. exists [(QueryService k, o)], o'. split; [done|]. by destruct o'.
  - apply gives_ret. split; [done|]. split; [no_deletion|]. intros _. left. exists [], o. split; [done|].
    destruct o as [| | | |z|]; try discriminate; auto. right. apply negb_false_iff, Z.eqb_eq in Es. by subst.
Qed.

Lemma gives_uninstall h : gives uninstall h (λ _ new, tidy h new ∧ deletes_stopped new).
Proof.
  unfold uninstall. eapply gives_mono; [|apply (gives_manager _ h (λ _ mid, deletes_stopped mid))].
  - intros r new [Ht [(e & o & -> & ->)|(o & o' & mid & -> & Hm)]]; (split; [done|]); [no_deletion|].
    by apply deletes_within.
  - intros o Ho. set (h1 := h ++ [(ConnectManager, o)]).
    assert (handles h1 = {[length h]} ∪ handles h) as E1.
    { unfold h1. rewrite handles_snoc. unfold handle_step. cbn. by rewrite Ho. }
    assert (∀ new, h ++ (ConnectManager, o) :: new = h1 ++ new) as Eapp by (intros; unfold h1; by rewrite <- app_assoc).
    apply gives_handle. fold h1. apply gives_checked.
    { intros o1 e Ho1. apply gives_ret. split; [|no_deletion]. rewrite Eapp, handles_snoc. unfold handle_step. cbn. by rewrite Ho1. }
    intros o1 Ho1. unfold closing. apply gives_bind.
    set (h2 := h1 ++ [(OpenService (length h) serviceName, o1)]).
    assert (handles h2 = {[length h1]} ∪ handles h1) as E2.
    { unfold h2. rewrite handles_snoc. unfold handle_step. cbn. by rewrite Ho1. }
    assert (gives (_ ←? stop_running (length h1); o ← perform (DeleteService (length h1)); mret (to_unit o)) h2
      (λ _ new, handles (h2 ++ new) = handles h2 ∧ deletes_stopped new)) as Hwork.
    { apply gives_bind. eapply gives_mono; [|apply gives_stop_running]. intros [[]|e] new (H1 & H2 & H3).
      - apply gives_call. intros o2 _. apply gives_ret. split.
        + rewrite app_assoc, handles_snoc. exact H1.
        + intros before s o3 after E. destruct after as [|y after _] using rev_ind.
          * apply app_inj_tail in E as [<- [= <- <-]]. by apply H3.
          * rewrite app_comm_cons, app_assoc in E. apply app_inj_tail in E as [E _]. by eapply H2.
      - apply gives_ret. by rewrite app_nil_r. }
    eapply gives_mono; [|exact Hwork]. intros r new [H1 H2]. apply gives_call. intros o2 _. apply gives_ret.
    split; [|by apply deletes_within].
    rewrite Eapp. change (h1 ++ (OpenService (length h) serviceName, o1) :: new ++ [(CloseService (length h1), o2)])
      with (h1 ++ [(OpenService (length h) serviceName, o1)] ++ new ++ [(CloseService (length h1), o2)]).
    rewrite !app_assoc. fold h2. rewrite handles_snoc. unfold handle_step. cbn [fst].
    rewrite <- E1. apply close_again; [done|]. by rewrite H1, E2.
Qed.

Lemma deletes_after (co : call * outcome) new : (∀ s o, co ≠ (DeleteService s, o)) → deletes_stopped new → deletes_stopped (co :: new).
Proof.
  intros Hco Hn s k o after E. destruct s as [|x s]; [by injection E as ->; destruct (Hco k o)|]. injection E as <- E.
  destruct (Hn _ _ _ _ E) as [(l & o' & -> & ?)|(l & o' & -> & ?)]; [left|right]; by exists (co :: l), o'.
Qed.

Lemma gives_create_service manager executable h :
  gives (create_service manager executable) h (λ _ new, tidy h new ∧ deletes_stopped new).
Proof.
  unfold create_service, tidy. apply gives_handle, gives_checked.
  { intros o e Ho. apply gives_ret. split; [|no_deletion]. rewrite handles_snoc. unfold handle_step. cbn. by rewrite Ho. }
  intros o Ho. unfold closing, setPipeTrigger, io_wrap. apply gives_bind, gives_bind, gives_call. intros o3 _.
  apply gives_ret, gives_ret, gives_call. intros o4 _. apply gives_ret.
  split; [|no_deletion]. rewrite handles_app. cbn. unfold handle_step. cbn. rewrite Ho. by apply close_again.
Qed.

(** [install] with the manager it has. *)
Lemma gives_installing manager executable h :
  gives (existing ← next_handle;
         opened ← perform (OpenService manager serviceName);
         match opened with
         | Failure _ _ _ => create_service manager executable
         | _ => _ ← perform (CloseService existing); mret (Err [Lit serviceName; Lit " is already installed"])
         end) h (λ _ new, tidy h new ∧ deletes_stopped new).
Proof.
  apply gives_handle, gives_call. intros o _. set (h1 := h ++ [(OpenService manager serviceName, o)]).
  assert (∀ new, h ++ (OpenService manager serviceName, o) :: new = h1 ++ new) as Eapp by (intros; unfold h1; by rewrite <- app_assoc).
  unfold tidy. destruct (failed o) eqn:Ho.
  - assert (handles h1 = handles h) as E by (unfold h1; rewrite handles_snoc; unfold handle_step; cbn; by rewrite Ho).
    destruct o; try discriminate. eapply gives_mono; [|apply gives_create_service].
    intros r new [Ht Hd]. rewrite Eapp, <- E. split; [exact Ht|]. by apply deletes_after.
  - assert (gives (_ ← perform (CloseService (length h)); mret (Err [Lit serviceName; Lit " is already installed"])) h1
      (λ (_ : result unit) new, handles (h ++ (OpenService manager serviceName, o) :: new) = handles h ∧
        deletes_stopped ((OpenService manager serviceName, o) :: new))) as Hc; [|by destruct o].
    apply gives_call. intros o2 _. apply gives_ret. split; [|no_deletion].
    rewrite handles_app. cbn. unfold handle_step. cbn. rewrite Ho. by apply close_again.
Qed.

Lemma gives_install h : gives install h (λ _ new, tidy h new ∧ deletes_stopped new).
Proof.
  unfold install. apply gives_call. intros ox _. set (h0 := h ++ [(Executable, ox)]).
  assert (handles h0 = handles h) as E0 by by unfold h0; rewrite handles_snoc.
  assert (∀ executable, gives (with_manager (λ manager,
      existing ← next_handle;
      opened ← perform (OpenService manager serviceName);
      match opened with
      | Failure _ _ _ => create_service manager executable
      | _ => _ ← perform (CloseService existing); mret (Err [Lit serviceName; Lit " is already installed"])
      end)) h0 (λ _ more, tidy h ((Executable, ox) :: more) ∧ deletes_stopped ((Executable, ox) :: more))) as Hm.
  2: { destruct ox; try apply Hm. apply gives_ret. split; [exact E0|no_deletion]. }
  intros executable. eapply gives_mono; [|apply (gives_manager _ h0 (λ _ mid, deletes_stopped mid))].
  - intros r new [Ht Hs]. split.
    + unfold tidy in *. change ((Executable, ox) :: new) with ([(Executable, ox)] ++ new). rewrite app_assoc. fold h0. congruence.
    + apply deletes_after; [done|].
      destruct Hs as [(e & o & -> & ->)|(o & o' & mid & -> & Hs)]; [no_deletion|by apply deletes_within].
  - intros o Ho. eapply gives_mono; [|apply gives_installing]. intros r new [Ht Hd]. split; [|exact Hd].
    unfold tidy in Ht. rewrite <- app_assoc in Ht. cbn in Ht. rewrite Ht, handles_snoc. unfold handle_step. cbn. by rewrite Ho.
Qed.

(** C36: the installer's commands clean up after themselves: whatever the
    control manager answers, every handle "install" or "uninstall" opens is
    closed when it ends; and a service is deleted only when it was found
    stopped (or its state could not be told), or was told to stop first, which
    is what gives the machine its routing back. *)
Theorem commands_tidy args h :
  ∃ r new, platformCommand args h = (Some r, h ++ new) ∧ handles (h ++ new) = handles h ∧ deletes_stopped new.
Proof.
  apply (gives_mono _ _ (λ _ new, tidy h new ∧ deletes_stopped new)); [by intros ? ? ?|].
  assert (∀ r : bool * result unit, gives (mret r) h (λ _ new, tidy h new ∧ deletes_stopped new)) as Hno.
  { intros r. apply gives_ret. split; [unfold tidy; by rewrite app_nil_r|no_deletion]. }
  unfold platformCommand. destruct args as [|a [|command args]]; [apply Hno..|].
  case_bool_decide; [|case_bool_decide; [|apply Hno]]; apply gives_bind.
  - eapply gives_mono; [|apply gives_install]. intros r new ?. apply gives_ret. by rewrite app_nil_r.
  - eapply gives_mono; [|apply gives_uninstall]. intros r new ?. apply gives_ret. by rewrite app_nil_r.
Qed.
End Handles.
