(* ===== verification/Daemon.v ===== *)
(** * The service as a process: core/cmd/caelo-service/main.go

    The goroutines [main] starts, interleaved: the accept loop, one goroutine
    for each connection, the idle timer and its watcher, and those that end the
    process for a signal, for the idle timer or for the control manager.  The
    controller's mutex makes each of its operations one event; what a goroutine
    does between two of them can be interleaved with the others, and the
    process can end while an operation is under way. *)

From S2P Require Import Prelude GoStrings Effects Routing Systunnel Service Host.
From stdpp Require Import options.

(** Who ends the process, and where it is in [stopEverything]: not called,
    about to ask for the status, to stop the tunnel, to close the listener, to
    remove the socket, to exit. *)
Inductive stopper := BySignal | ByIdle | ByManager.
Inductive phase := Waiting | Looking | Putting | Closing | Removing | Exiting.
#[global] Instance stopper_eq : EqDecision stopper.
Proof. solve_decision. Defined.
#[global] Instance phase_eq : EqDecision phase.
Proof. solve_decision. Defined.

(** [pending] are the connections accepted whose request has not been handled,
    [handled] counts those that have been and are not closed; [accepting]: the
    accept loop has not returned; [listening]: the listener is open; [gone]:
    the process has ended. *)
Record daemon {platform : Platform} := mkDaemon {
  ctl : ControllerOf State; hist : history; idl : Idler.idler;
  pending : list (bool * string); handled : nat;
  by_signal : phase; by_idle : phase; by_manager : phase;
  accepting : bool; listening : bool; gone : bool;
}.
Arguments mkDaemon {platform}.

(** How an operation may be cut when the process ends: the handler of this
    connection, or the [Stop] of this goroutine, after so many of its calls. *)
Inductive cut := Whole | CutHandler (connection calls : nat) | CutStop (who : stopper) (calls : nat).

(** [Connect]: the accept loop gets a connection; [AcceptFails]: an error, and
    it returns; [Handle]: a connection's turn at the controller; [Close]: it is
    closed; [Timer]: the idler's own events; [Check]: the watcher asks for the
    status; [Signal] and [Asked]: the process is told to stop; [Proceed]: the
    next step of [stopEverything]; [Return]: [main] returns. *)
Inductive event :=
  | Connect (authorised : bool) (input : string)
  | AcceptFails
  | Handle (connection : nat)
  | Close
  | Timer (e : Idler.event)
  | Check
  | Signal
  | Asked
  | Proceed (who : stopper) (at_exit : cut)
  | Return (at_exit : cut).

Section Daemon.
Context {env : Env} {platform : Platform} (render : error → string) (core amneziawg : string).
Context (path : string) (listener : nat) (activated managed : bool).

(** What [main] has when it starts its goroutines. *)
Definition started (h : history) : daemon :=
  mkDaemon New h Idler.newIdler [] 0 Waiting Waiting Waiting true true false.

Definition set_idl (i : Idler.idler) (d : daemon) : daemon :=
  mkDaemon (ctl d) (hist d) i (pending d) (handled d) (by_signal d) (by_idle d) (by_manager d)
    (accepting d) (listening d) (gone d).
Definition set_connections (p : list (bool * string)) (n : nat) (d : daemon) : daemon :=
  mkDaemon (ctl d) (hist d) (idl d) p n (by_signal d) (by_idle d) (by_manager d)
    (accepting d) (listening d) (gone d).
Definition set_world (c : Controller) (h : history) (d : daemon) : daemon :=
  mkDaemon c h (idl d) (pending d) (handled d) (by_signal d) (by_idle d) (by_manager d)
    (accepting d) (listening d) (gone d).
Definition set_flags (a l g : bool) (d : daemon) : daemon :=
  mkDaemon (ctl d) (hist d) (idl d) (pending d) (handled d) (by_signal d) (by_idle d) (by_manager d) a l g.

Definition phase_of (who : stopper) (d : daemon) : phase :=
  match who with BySignal => by_signal d | ByIdle => by_idle d | ByManager => by_manager d end.
Definition set_phase (who : stopper) (p : phase) (d : daemon) : daemon :=
  mkDaemon (ctl d) (hist d) (idl d) (pending d) (handled d)
    (match who with BySignal => p | _ => by_signal d end)
    (match who with ByIdle => p | _ => by_idle d end)
    (match who with ByManager => p | _ => by_manager d end)
    (accepting d) (listening d) (gone d).

(** An operation that comes back, on what the process has done so far. *)
Definition run_on {A} (m : IO A) (h : history) : option (A * history) :=
  match m h with (Some a, h') => Some (a, h') | (None, _) => None end.

Definition is_up (c : Controller) : bool := bool_decide (is_Some (device c)).

(** The calls an operation has made when it is cut. *)
Definition prefix_of {A} (m : IO A) (h : history) (n : nat) : history :=
  h ++ take n (drop (length h) (snd (m h))).

Definition serve_nth (n : nat) (d : daemon) : option (IO (option string * Controller)) :=
  conn ← pending d !! n; Some (serve render core amneziawg conn.1 conn.2 (ctl d)).

(** The process ends: what was under way stops where it is. *)
Definition exit (at_exit : cut) (d : daemon) : option daemon :=
  match at_exit with
  | Whole => Some (set_flags (accepting d) (listening d) true d)
  | CutHandler n calls =>
      m ← serve_nth n d;
      Some (set_flags (accepting d) (listening d) true (set_world (ctl d) (prefix_of m (hist d) calls) d))
  | CutStop who calls =>
      if bool_decide (phase_of who d = Putting)
      then Some (set_flags (accepting d) (listening d) true
                   (set_world (ctl d) (prefix_of (Stop (ctl d)) (hist d) calls) d))
      else None
  end.

(** [os.Remove] of the socket, if it is ours. *)
Definition remove_socket : IO unit :=
  if activated then mret tt else _ ← perform (Remove path); mret tt.

(** [shutdown], one step at a time. *)
Definition proceed (who : stopper) (at_exit : cut) (d : daemon) : option daemon :=
  match phase_of who d with
  | Waiting => None
  | Looking =>
      '(s, h) ← run_on (Status_of (ctl d)) (hist d);
      Some (set_phase who Putting (set_world s.2 h d))
  | Putting =>
      '(o, h) ← run_on (Stop (ctl d)) (hist d);
      i ← Idler.step Idler.Shut (idl d);
      Some (set_phase who Closing (set_idl i (set_world o.2 h d)))
  | Closing =>
      '(_, h) ← run_on (perform (CloseListener listener)) (hist d);
      Some (set_phase who Removing (set_flags (accepting d) false (gone d) (set_world (ctl d) h d)))
  | Removing =>
      '(_, h) ← run_on remove_socket (hist d);
      Some (set_phase who Exiting (set_world (ctl d) h d))
  | Exiting => exit at_exit d
  end.

(** The events of the idler that are not of connections or of the watcher's
    question. *)
Definition timer_event (e : Idler.event) : bool :=
  match e with Idler.Expire | Idler.Fire | Idler.Send | Idler.Receive | Idler.Bail => true | _ => false end.

(** One event, where it is possible. *)
Definition step (e : event) (d : daemon) : option daemon :=
  if gone d then None else
  match e with
  | Connect authorised input =>
      if accepting d && listening d then
        i ← Idler.step Idler.Accept (idl d);
        Some (set_idl i (set_connections (pending d ++ [(authorised, input)]) (handled d) d))
      else None
  | AcceptFails => if accepting d then Some (set_flags false (listening d) false d) else None
  | Handle n =>
      m ← serve_nth n d;
      '(o, h) ← run_on m (hist d);
      i ← Idler.step (Idler.Serve (is_up o.2)) (idl d);
      Some (set_idl i (set_connections (delete n (pending d)) (S (handled d)) (set_world o.2 h d)))
  | Close =>
      if (handled d =? 0)%nat then None
      else i ← Idler.step Idler.Finish (idl d);
           Some (set_idl i (set_connections (pending d) (pred (handled d)) d))
  | Timer e => if timer_event e then i ← Idler.step e (idl d); Some (set_idl i d) else None
  | Check =>
      if bool_decide (Idler.watching (idl d) = Idler.Asking) then
        '(s, h) ← run_on (Status_of (ctl d)) (hist d);
        let d := set_world s.2 h d in
        Some (if Up s.1 then set_idl (Idler.set_watching Idler.Bailing (idl d)) d
              else set_phase ByIdle Looking (set_idl (Idler.set_watching Idler.Stopping (idl d)) d))
      else None
  | Signal => if bool_decide (by_signal d = Waiting) then Some (set_phase BySignal Looking d) else None
  | Asked =>
      if managed && bool_decide (by_manager d = Waiting) then
        '(_, h) ← run_on (perform (TellManager StopPending)) (hist d);
        Some (set_phase ByManager Looking (set_world (ctl d) h d))
      else None
  | Proceed who at_exit => proceed who at_exit d
  | Return at_exit =>
      if accepting d || managed then None
      else '(_, h) ← run_on remove_socket (hist d); exit at_exit (set_world (ctl d) h d)
  end.

Fixpoint run (es : list event) (d : daemon) : option daemon :=
  match es with [] => Some d | e :: es => d' ← step e d; run es d' end.
End Daemon.
