(* ===== verification/DaemonFacts.v ===== *)
(** * The service as a process: what is true of every interleaving

    The controller's invariants hold at every event; the idler of Service.v is
    what the goroutines do to it; the process ends by itself; and what it may
    leave on the machine when it ends. *)

From S2P Require Import Prelude GoStrings Effects System SystemFacts SystemWindowsFacts Simulated.
From S2P Require Import Routing RoutingFacts Systunnel SystunnelFacts SystunnelMachine SystunnelProps.
From S2P Require Import Service ServiceFacts IdlerFacts Aside Host Daemon.
From stdpp Require Import options.

(** ** What the process keeps *)

(** An invariant of the controller that everything the process does keeps. *)
Class Kept {env : Env} {platform : Platform} (path : string) (listener : nat) (activated : bool)
    (I : Controller → history → Prop) : Prop := {
  kept_inv c h : I c h → inv c h;
  kept_Start text c h : I c h → wp (Start text c) (λ r h', I r.2 h') h;
  kept_Stop c h : I c h → wp (Stop c) (λ r h', I r.2 h' ∧ device r.2 = None) h;
  kept_Status c h : I c h → wp (Status_of c) (λ r h', I r.2 h') h;
  kept_tell state c h : I c h → wp (perform (TellManager state)) (λ _ h', I c h') h;
  kept_close c h : I c h → wp (perform (CloseListener listener)) (λ _ h', I c h') h;
  kept_remove c h : I c h → wp (remove_socket path activated) (λ _ h', I c h') h;
}.

(** Whatever the machine: the books of the controller. *)
#[export] Instance inv_kept {env : Env} {platform : Platform} `{!Clock env} `{!Orderly platform} path listener activated :
  Kept path listener activated inv.
Proof.
  assert (∀ c h call, neutral call = true ∨ (∃ state, call = TellManager state) → inv c h → inv c (h ++ [(call, answer h call)])) as Hcall.
  { intros c h call Hn [Ho Hc]. split; [|done]. rewrite opened_snoc, Ho. destruct Hn as [Hn|[? ->]]; [|done]. by destruct call. }
  split; [done|..].
  - intros text c h Hi. apply wp_total_at; [by apply total_Start|]. eapply wlp_mono; [|by apply wlp_Start]. by intros r h' [? _].
  - intros c h Hi. apply wp_total_at; [by apply total_stopLocked|by apply wlp_stopLocked].
  - intros c h Hi. apply wp_total_at; [by apply total_Status|]. eapply wlp_mono; [|by apply wlp_Status]. by intros r h' [? _].
  - intros state c h Hi. apply wp_perform, Hcall; eauto.
  - intros c h Hi. apply wp_perform, Hcall; auto.
  - intros c h Hi. unfold remove_socket. destruct activated; [done|]. apply wp_bind, wp_perform, wp_ret, Hcall; auto.
Qed.

(** On a machine that keeps the platform's contract: that it is given back. *)
Lemma aside_tell {env : Env} {platform : Platform} {M : Type} (after : history → M) (m0 : M) `{!Restores platform env after m0} state :
  aside after (perform (TellManager state)).
Proof.
  split; [apply total_perform|]. split; apply keeps_perform; intros h; [by rewrite opened_snoc|by apply after_own].
Qed.

Lemma sound_kept {env : Env} {platform : Platform} `{!Clock env} `{!Orderly platform} {M : Type} (after : history → M) (m0 : M)
    `{!Restores platform env after m0} path listener activated :
  harmless after (Remove path) → Kept path listener activated (sound after m0).
Proof.
  intros Hremove.
  assert (∀ A (m : IO A) c h, aside after m → sound after m0 c h → wp m (λ _ h', sound after m0 c h') h) as Ha.
  { intros A m c h (H1 & H2 & H3) Hs. by apply sound_aside. }
  split; [by intros c h [? _]|apply sound_Start|apply sound_Stop|apply sound_Status|..]; intros; apply Ha; try done.
  - by apply (aside_tell after m0).
  - by apply (aside_perform after (platform := platform) (m0 := m0)).
  - unfold remove_socket. destruct activated; [apply aside_ret|].
    apply aside_bind; [by apply aside_harmless|intros; apply aside_ret].
Qed.

Section Process.
Context {env : Env} {platform : Platform} `{!Orderly platform}.
Context (render : error → string) (core amneziawg : string).
Context (path : string) (listener : nat) (activated managed : bool).
Context (I : Controller → history → Prop) `{!Kept path listener activated I}.
#[local] Set Default Proof Using "Type*".

Abbreviation step := (step render core amneziawg path listener activated managed).
Abbreviation run := (run render core amneziawg path listener activated managed).

(** [g_sound]: the controller's invariant; [g_up], [g_connections] and
    [g_idle]: the idler says what is so. *)
Record good (d : daemon) : Prop := {
  g_sound : gone d = false → I (ctl d) (hist d);
  g_up : Idler.up (idl d) = is_up (ctl d);
  g_connections : Idler.connections (idl d) = length (pending d) + handled d;
  g_idle : by_idle d = Waiting ↔ Idler.watching (idl d) ≠ Idler.Stopping;
}.

Lemma good_started h : I New h → good (started h).
Proof using Type. by split. Qed.

(** What holds of an operation's result holds of what it gave. *)
Lemma run_on_wp {A} (m : IO A) h (Q : A → history → Prop) a h' :
  wp m Q h → run_on m h = Some (a, h') → Q a h'.
Proof using Type. unfold wp, run_on. destruct (m h) as [[b|] h1]; [|done]. by intros HQ [= <- <-]. Qed.

Lemma run_on_total {A} (m : IO A) h Q : wp m Q h → is_Some (run_on m h).
Proof using Type. unfold wp, run_on. by destruct (m h) as [[b|] h1]. Qed.

Lemma is_up_status c h : inv c h → Up (status c) = is_up c.
Proof using Type.
  intros Hi. pose proof (up_device c h Hi) as Hu. unfold is_up. apply eq_true_iff_eq.
  by rewrite Hu, bool_decide_eq_true.
Qed.

(** Asking for the status changes nothing of what is up, and tells it. *)
Lemma wp_look c h : I c h →
  wp (Status_of c) (λ s h', I s.2 h' ∧ is_up s.2 = is_up c ∧ Up s.1 = is_up c) h.
Proof.
  intros Hs. pose proof (kept_inv _ _ Hs) as Hi. apply wp_all; [by eapply wp_mono; [|by apply kept_Status]| |].
  - by apply wp_wlp, kept_Status.
  - eapply wlp_mono; [|by apply wlp_Status]. intros [s c'] h' (_ & Hd & Hu & _). cbn in *.
    rewrite Hu, (is_up_status c h) by done. split; [|done]. unfold is_up. by rewrite Hd.
Qed.

Lemma wp_served a input c h : I c h →
  wp (serve render core amneziawg a input c) (λ o h', I o.2 h' ∧ answered (a, input) o.1) h.
Proof.
  intros Hs. apply (wp_serve render core amneziawg I); [..|done].
  - intros text. by apply kept_Start.
  - eapply wp_mono; [|by apply kept_Stop]. by intros r h' [? _].
  - by apply kept_Status.
Qed.

Lemma good_exit at_exit d d' : good d → exit render core amneziawg at_exit d = Some d' → good d' ∧ gone d' = true.
Proof.
  intros [H1 H2 H3 H4] He. destruct at_exit as [|n k|who k]; cbn in He.
  - injection He as <-. split; [|done]. by split.
  - destruct (serve_nth _ _ _ n d) as [m|]; [|done]. cbn in He. injection He as <-. split; [|done]. by split.
  - case_bool_decide; [|done]. injection He as <-. split; [|done]. by split.
Qed.

(** A step of [stopEverything]. *)
Lemma good_proceed who at_exit d d' : good d → gone d = false →
  proceed render core amneziawg path listener activated who at_exit d = Some d' → good d'.
Proof using Type*.
  intros Hg Hgone. pose proof Hg as [H1 H2 H3 H4]. specialize (H1 Hgone). unfold proceed.
  destruct (phase_of who d) eqn:Hp; [done|..].
  - destruct (run_on (Status_of (ctl d)) (hist d)) as [[s h]|] eqn:E; [|done]. intros [= <-].
    destruct (run_on_wp _ _ _ _ _ (wp_look _ _ H1) E) as (Hs & Hd & _).
    split; [done|cbn; congruence|done|]. cbn. rewrite <- H4. by destruct who; cbn in *; rewrite ?Hp.
  - destruct (run_on (Stop (ctl d)) (hist d)) as [[o h]|] eqn:E; [|done]. intros [= <-].
    destruct (run_on_wp _ _ _ _ _ (kept_Stop _ _ H1) E) as [Hs Hd].
    split; [done|cbn; unfold is_up; by rewrite Hd|done|]. cbn. rewrite <- H4. by destruct who; cbn in *; rewrite ?Hp.
  - intros [= <-]. split; [intros _|done|done|].
    + exact (kept_close _ _ H1).
    + cbn. rewrite <- H4. by destruct who; cbn in *; rewrite ?Hp.
  - destruct (run_on (remove_socket path activated) (hist d)) as [[o h]|] eqn:E; [|done]. intros [= <-].
    split; [intros _|done|done|].
    + exact (run_on_wp _ _ _ _ _ (kept_remove _ _ H1) E).
    + cbn. rewrite <- H4. by destruct who; cbn in *; rewrite ?Hp.
  - intros He. by apply (good_exit at_exit d).
Qed.

(** The idler's own events leave what it says of the others alone. *)
Lemma timer_keeps e i i' : timer_event e = true → Idler.step e i = Some i' →
  Idler.up i' = Idler.up i ∧ Idler.connections i' = Idler.connections i ∧
  (Idler.watching i' = Idler.Stopping ↔ Idler.watching i = Idler.Stopping).
Proof using Type.
  intros He Hs%step_cases. destruct e; try done; cbn in Hs; destruct_and? Hs; subst i'; try done.
  - unfold Idler.fire. by case_match.
  - cbn. split_and!; [done..|]. split; [done|]. congruence.
  - cbn. split_and!; [done..|]. split; [done|]. congruence.
Qed.

Lemma good_handle n d d' : good d → gone d = false → step (Handle n) d = Some d' → good d'.
Proof using Type*.
  intros [H1 H2 H3 H4] Hgone. specialize (H1 Hgone). unfold Daemon.step. rewrite Hgone. unfold serve_nth.
  destruct (pending d !! n) as [[a input]|] eqn:Hn; [|done]. cbn [mbind option_bind fst snd].
  destruct (run_on _ (hist d)) as [[o h]|] eqn:E; [|done]. cbn [mbind option_bind].
  destruct (run_on_wp _ _ _ _ _ (wp_served a input _ _ H1) E) as [Hs _].
  destruct (Idler.step _ (idl d)) as [i|] eqn:Ei; [|done]. intros [= <-].
  apply step_cases in Ei as [Hc ->]. split; cbn; [done|done| |done].
  pose proof (lookup_lt_Some _ _ _ Hn). rewrite length_delete by eauto. lia.
Qed.

Lemma good_check d d' : good d → gone d = false → step Check d = Some d' → good d'.
Proof using Type*.
  intros [H1 H2 H3 H4] Hgone. specialize (H1 Hgone). unfold Daemon.step. rewrite Hgone. case_bool_decide as Hw; [|done].
  destruct (run_on (Status_of (ctl d)) (hist d)) as [[s h]|] eqn:E; [|done]. intros [= <-].
  destruct (run_on_wp _ _ _ _ _ (wp_look _ _ H1) E) as (Hs & Hd & Hu).
  destruct (Up s.1); split; cbn; try done; try congruence. rewrite H4, Hw. done.
Qed.

(** Every event keeps all of it. *)
Lemma good_step e d d' : good d → step e d = Some d' → good d'.
Proof using Type*.
  intros Hg Hs. destruct (gone d) eqn:Hgone; [unfold Daemon.step in Hs; by rewrite Hgone in Hs|].
  pose proof Hg as [H1 H2 H3 H4]. pose proof (H1 Hgone) as Hsound.
  destruct e as [a input| |n| |e| | | |who at_exit|at_exit].
  - unfold Daemon.step in Hs. rewrite Hgone in Hs. destruct (accepting d && listening d); [|done].
    destruct (Idler.step Idler.Accept (idl d)) as [i|] eqn:Ei; [|done]. injection Hs as <-.
    apply step_cases in Ei as [_ ->]. split; cbn; [done|done| |done]. rewrite length_app. cbn. lia.
  - unfold Daemon.step in Hs. rewrite Hgone in Hs. destruct (accepting d); [|done]. injection Hs as <-.
    by split.
  - by apply (good_handle n d).
  - unfold Daemon.step in Hs. rewrite Hgone in Hs. destruct (Nat.eqb_spec (handled d) 0); [done|].
    destruct (Idler.step Idler.Finish (idl d)) as [i|] eqn:Ei; [|done]. injection Hs as <-.
    apply step_cases in Ei as (_ & Hc & ->).
    unfold Idler.idle. destruct (_ <=? 0)%Z; split; cbn; done || lia.
  - unfold Daemon.step in Hs. rewrite Hgone in Hs. destruct (timer_event e) eqn:He; [|done].
    destruct (Idler.step e (idl d)) as [i|] eqn:Ei; [|done]. injection Hs as <-.
    destruct (timer_keeps e _ _ He Ei) as (E1 & E2 & E3). split; cbn; [done|congruence|congruence|].
    rewrite H4. tauto.
  - by apply (good_check d).
  - unfold Daemon.step in Hs. rewrite Hgone in Hs. case_bool_decide; [|done]. injection Hs as <-. by split.
  - unfold Daemon.step in Hs. rewrite Hgone in Hs. destruct (_ && _); [|done].
    destruct (run_on _ (hist d)) as [[o h]|] eqn:E; [|done]. injection Hs as <-. split; cbn; [|done..]. intros _.
    exact (run_on_wp _ _ _ _ _ (kept_tell _ _ _ Hsound) E).
  - unfold Daemon.step in Hs. rewrite Hgone in Hs. by apply (good_proceed who at_exit d).
  - unfold Daemon.step in Hs. rewrite Hgone in Hs. destruct (_ || _); [done|].
    destruct (run_on (remove_socket path activated) (hist d)) as [[o h]|] eqn:E; [|done].
    apply (good_exit at_exit (set_world (ctl d) h d)); [|done]. split; cbn; [|done..]. intros _.
    exact (run_on_wp _ _ _ _ _ (kept_remove _ _ Hsound) E).
Qed.

Lemma run_keeps_all (P : daemon → Prop) es d d' :
  (∀ e d d', e ∈ es → P d → step e d = Some d' → P d') → P d → run es d = Some d' → P d'.
Proof using Type.
  intros Hstep. revert d. induction es as [|e es IH]; intros d HP; cbn; [by intros [= <-]|].
  destruct (step e d) as [d1|] eqn:E; cbn; [|done]. apply IH.
  - intros e' d2 d3 Hin. apply Hstep. by apply elem_of_cons; right.
  - eapply Hstep; [|done|done]. by apply elem_of_cons; left.
Qed.

Lemma daemon_run_snoc es e d : run (es ++ [e]) d = run es d ≫= step e.
Proof using Type.
  revert d. induction es as [|e' es IH]; intros d; cbn; [by destruct (step e d)|].
  destruct (step e' d) as [d1|]; cbn; [apply IH|done].
Qed.

Lemma good_run es d d' : good d → run es d = Some d' → good d'.
Proof using Type*. apply run_keeps_all. intros e d1 d2 _. apply good_step. Qed.

(** ** The process does to its idler what the idler's own model says *)

Lemma exit_idl at_exit d d' : exit render core amneziawg at_exit d = Some d' → idl d' = idl d.
Proof using Type.
  destruct at_exit as [|n k|who k]; cbn; [by intros [= <-]| |case_bool_decide; [by intros [= <-]|done]].
  destruct (serve_nth _ _ _ n d); [|done]. cbn. by intros [= <-].
Qed.

(** What an event is to the idler, if anything. *)
Definition view (e : event) (d d' : daemon) : option Idler.event :=
  match e with
  | Connect _ _ => Some Idler.Accept
  | Handle _ => Some (Idler.Serve (is_up (ctl d')))
  | Close => Some Idler.Finish
  | Timer e => Some e
  | Check => Some Idler.Ask
  | Proceed who _ => if bool_decide (phase_of who d = Putting) then Some Idler.Shut else None
  | _ => None
  end.

Definition follows_idler (ie : option Idler.event) (i i' : Idler.idler) : Prop :=
  match ie with Some e => Idler.step e i = Some i' | None => i' = i end.

Lemma proceed_view who at_exit d d' :
  proceed render core amneziawg path listener activated who at_exit d = Some d' →
  follows_idler (view (Proceed who at_exit) d d') (idl d) (idl d').
Proof using Type.
  unfold proceed, follows_idler, view. destruct (phase_of who d); [done|..].
  - destruct (run_on _ _) as [[s h]|]; [|done]. by intros [= <-].
  - destruct (run_on _ _) as [[s h]|]; [|done]. by intros [= <-].
  - by intros [= <-].
  - destruct (run_on _ _) as [[s h]|]; [|done]. by intros [= <-].
  - intros He. by apply exit_idl in He.
Qed.

Lemma step_view e d d' : good d → step e d = Some d' → follows_idler (view e d d') (idl d) (idl d').
Proof using Type*.
  intros [H1 H2 H3 H4] Hs. unfold Daemon.step in Hs. destruct (gone d) eqn:Hgone; [done|]. specialize (H1 eq_refl).
  destruct e as [a input| |n| |e| | | |who at_exit|at_exit]; unfold follows_idler, view.
  - destruct (_ && _); [|done]. destruct (Idler.step _ (idl d)) as [i|] eqn:Ei; [|done]. by injection Hs as <-.
  - destruct (accepting d); [|done]. by injection Hs as <-.
  - unfold serve_nth in Hs. destruct (pending d !! n); [|done]. cbn [mbind option_bind] in Hs.
    destruct (run_on _ _) as [[o h]|]; [|done]. cbn [mbind option_bind] in Hs.
    destruct (Idler.step _ (idl d)) as [i|] eqn:Ei; [|done]. by injection Hs as <-.
  - destruct (_ =? _); [done|]. destruct (Idler.step _ (idl d)) as [i|] eqn:Ei; [|done]. by injection Hs as <-.
  - destruct (timer_event e); [|done]. destruct (Idler.step _ (idl d)) as [i|] eqn:Ei; [|done]. by injection Hs as <-.
  - case_bool_decide as Hw; [|done]. destruct (run_on _ _) as [[s h]|] eqn:E; [|done].
    destruct (run_on_wp _ _ _ _ _ (wp_look _ _ H1) E) as (_ & _ & Hu). injection Hs as <-.
    cbn. rewrite bool_decide_true by done. rewrite H2, <- Hu. by destruct (Up s.1).
  - case_bool_decide; [|done]. by injection Hs as <-.
  - destruct (_ && _); [|done]. destruct (run_on _ _) as [[o h]|]; [|done]. by injection Hs as <-.
  - by apply proceed_view in Hs.
  - destruct (_ || _); [done|]. destruct (run_on _ _) as [[o h]|]; [|done]. by apply exit_idl in Hs.
Qed.

(** ** When the idle timer ends the process *)

(** The timer fires when no connection is open. *)
Definition fired_unused (d0 : daemon) (es : list event) : Prop :=
  ∃ es1 es2 d1, es = es1 ++ Timer Idler.Fire :: es2 ∧ run es1 d0 = Some d1 ∧ pending d1 = [] ∧ handled d1 = 0.

(** ... and the watcher then asks, when no tunnel is up. *)
Definition asked_down (d0 : daemon) (es : list event) : Prop :=
  ∃ es1 es2 d1, es = es1 ++ Check :: es2 ∧ fired_unused d0 es1 ∧ run es1 d0 = Some d1 ∧ device (ctl d1) = None.

Lemma fired_unused_snoc d0 es e : fired_unused d0 es → fired_unused d0 (es ++ [e]).
Proof using Type. intros (es1 & es2 & d1 & -> & H). exists es1, (es2 ++ [e]), d1. split; [by rewrite <- app_assoc|done]. Qed.
Lemma asked_down_snoc d0 es e : asked_down d0 es → asked_down d0 (es ++ [e]).
Proof using Type. intros (es1 & es2 & d1 & -> & H). exists es1, (es2 ++ [e]), d1. split; [by rewrite <- app_assoc|done]. Qed.

(** What the idler's state says of the run that led to it. *)
Definition told_by_run (d0 : daemon) (es : list event) (d : daemon) : Prop :=
  (token (idl d) → fired_unused d0 es) ∧ (Idler.watching (idl d) = Idler.Stopping → asked_down d0 es).

Lemma told_step d0 es e d d' : good d → ok (idl d) → run es d0 = Some d → told_by_run d0 es d → step e d = Some d' →
  told_by_run d0 (es ++ [e]) d'.
Proof using Type*.
  intros Hg Hok Hrun [Ht Hw] Hs. pose proof (step_view e d d' Hg Hs) as Hv. unfold follows_idler in Hv.
  destruct (view e d d') as [ie|] eqn:Eview.
  2: { unfold told_by_run. rewrite Hv. split; [intros ?%Ht; by apply fired_unused_snoc|intros ?%Hw; by apply asked_down_snoc]. }
  split.
  - intros Htok. destruct (token_step ie _ _ Hok Hv Htok) as [?%Ht|[-> Hc]]; [by apply fired_unused_snoc|].
    destruct e as [| | | |e| | | |who at_exit|]; try done; cbn in Eview; [|by case_bool_decide]. injection Eview as ->.
    exists es, [], d. rewrite (g_connections _ Hg) in Hc. split_and!; [done|done|by apply length_zero_iff_nil; lia|lia].
  - intros Hst. destruct (decide (Idler.watching (idl d) = Idler.Stopping)) as [?%Hw|Hne]; [by apply asked_down_snoc|].
    apply (stopping_step ie _ _ Hv) in Hst as (-> & Hask & Hup); [|done].
    destruct e as [| | | |e| | | |who at_exit|]; try done; cbn in Eview; [|clear Eview|by case_bool_decide].
    { injection Eview as ->. unfold Daemon.step in Hs. by destruct (gone d). }
    exists es, [], d. split_and!; [done| |done|].
    + apply Ht. right. right. by rewrite Hask.
    + rewrite (g_up _ Hg) in Hup. apply bool_decide_eq_false in Hup. destruct (device (ctl d)); [by destruct Hup|done].
Qed.

Lemma told_run es d0 d : good d0 → ok (idl d0) → ¬ token (idl d0) → run es d0 = Some d →
  good d ∧ ok (idl d) ∧ told_by_run d0 es d.
Proof using Type*.
  intros Hg0 Hok0 Hno. revert d. induction es as [|e es IH] using rev_ind; intros d.
  - intros [= <-]. split_and!; [done..|]. split; [done|]. intros Hw. destruct Hno. right. right. by rewrite Hw.
  - rewrite daemon_run_snoc. destruct (run es d0) as [d1|] eqn:E; [|done]. cbn. intros Hs.
    destruct (IH d1 eq_refl) as (Hg1 & Hok1 & Ht1). split_and!; [by eapply good_step| |by eapply told_step].
    pose proof (step_view e d1 d Hg1 Hs) as Hv. unfold follows_idler in Hv.
    destruct (view e d1 d); [by eapply ok_step|by rewrite Hv].
Qed.

(** ** A request that waits is handled, whoever is ending the process *)

Lemma handle_possible n d : good d → gone d = false → n < length (pending d) →
  ∃ d1, step (Handle n) d = Some d1 ∧ gone d1 = false ∧ ∀ who, phase_of who d1 = phase_of who d.
Proof using Type*.
  intros [H1 H2 H3 H4] Hgone [[a input] Hn]%lookup_lt_is_Some_2. specialize (H1 Hgone).
  pose proof (lookup_lt_Some _ _ _ Hn). unfold Daemon.step. rewrite Hgone. unfold serve_nth. rewrite Hn. cbn [mbind option_bind fst snd].
  destruct (run_on_total _ _ _ (wp_served a input _ _ H1)) as [[o h] ->]. cbn [mbind option_bind].
  unfold Idler.step. rewrite H3. destruct (Nat.eqb_spec (length (pending d) + handled d) 0); [lia|].
  cbn [mbind option_bind]. eexists. split; [done|]. split; [done|]. by intros [].
Qed.

(** A process that ends just ends: nothing is put back. *)
Lemma exit_as_is who d : good d → gone d = false → phase_of who d = Exiting →
  ∃ d2, step (Proceed who Whole) d = Some d2 ∧ gone d2 = true ∧ hist d2 = hist d ∧ I (ctl d) (hist d2).
Proof using Type.
  intros [H1 _ _ _] Hgone Hp. unfold Daemon.step. rewrite Hgone. unfold proceed. rewrite Hp.
  eexists. split_and!; [done..|]. by apply H1.
Qed.

(** ** Once down, nothing but a request brings it up *)

Context {M : Type} (after : history → M) (m0 : M).
Hypothesis (Hdown : ∀ c h, I c h → device c = None → given_back after m0 h).

(** Events in which no request is handled, not even in part. *)
Definition whole_requests (at_exit : cut) : bool := match at_exit with CutHandler _ _ => false | _ => true end.
Definition undisturbed (e : event) : bool :=
  match e with
  | Handle _ => false
  | Proceed _ at_exit | Return at_exit => whole_requests at_exit
  | _ => true
  end.

Definition down (d : daemon) : Prop :=
  good d ∧ is_up (ctl d) = false ∧ (gone d = true → given_back after m0 (hist d)).

Lemma down_given d : good d → gone d = false → is_up (ctl d) = false → given_back after m0 (hist d).
Proof using Type*.
  intros [H1 _ _ _] Hgone Hd%bool_decide_eq_false. apply (Hdown (ctl d)); [by apply H1|].
  destruct (device (ctl d)); [|done]. by destruct Hd.
Qed.

(** A [Stop] with nothing up makes no calls, however far it gets. *)
Lemma prefix_of_Stop_down c h n : is_up c = false → prefix_of (Stop c) h n = h.
Proof using Type*.
  intros Hd%bool_decide_eq_false. unfold prefix_of, Stop, stopLocked. destruct (device c); [by destruct Hd|].
  cbn. by rewrite drop_all, take_nil, app_nil_r.
Qed.

Lemma down_exit at_exit d d' : whole_requests at_exit = true → good d → gone d = false → is_up (ctl d) = false →
  exit render core amneziawg at_exit d = Some d' → is_up (ctl d') = false ∧ (gone d' = true → given_back after m0 (hist d')).
Proof using Type*.
  intros Hw Hg Hgone Hd. pose proof (down_given d Hg Hgone Hd) as Hb. destruct at_exit as [|n k|who k]; [|done|]; cbn.
  - by intros [= <-].
  - case_bool_decide; [|done]. intros [= <-]. split; [done|]. intros _. cbn. by rewrite prefix_of_Stop_down.
Qed.

Lemma down_proceed who at_exit d d' : whole_requests at_exit = true → good d → gone d = false → is_up (ctl d) = false →
  proceed render core amneziawg path listener activated who at_exit d = Some d' →
  is_up (ctl d') = false ∧ (gone d' = true → given_back after m0 (hist d')).
Proof using Type*.
  intros Hw Hg Hgone Hd. pose proof (g_sound _ Hg Hgone) as Hs. unfold proceed.
  destruct (phase_of who d); [done|..].
  - destruct (run_on _ _) as [[s h]|] eqn:E; [|done]. intros [= <-].
    destruct (run_on_wp _ _ _ _ _ (wp_look _ _ Hs) E) as (_ & Hd' & _). cbn. by rewrite Hd', Hd, Hgone.
  - destruct (run_on _ _) as [[o h]|] eqn:E; [|done]. intros [= <-].
    destruct (run_on_wp _ _ _ _ _ (kept_Stop _ _ Hs) E) as [_ Hd']. cbn. unfold is_up. by rewrite Hd', Hgone.
  - intros [= <-]. cbn. by rewrite Hgone.
  - destruct (run_on _ _) as [[o h]|]; [|done]. intros [= <-]. cbn. by rewrite Hgone.
  - by apply down_exit.
Qed.

Lemma down_step e d d' : undisturbed e = true → down d → step e d = Some d' → down d'.
Proof using Type*.
  intros He (Hg & Hd & _) Hs. split; [by eapply good_step|]. pose proof (good_step _ _ _ Hg Hs) as Hg'.
  unfold Daemon.step in Hs. destruct (gone d) eqn:Hgone; [done|].
  destruct e as [a input| |n| |e| | | |who at_exit|at_exit].
  - destruct (_ && _); [|done]. destruct (Idler.step _ _); [|done]. injection Hs as <-. cbn. by rewrite Hgone.
  - destruct (accepting d); [|done]. by injection Hs as <-.
  - done.
  - destruct (_ =? _); [done|]. destruct (Idler.step _ _); [|done]. injection Hs as <-. cbn. by rewrite Hgone.
  - destruct (timer_event e); [|done]. destruct (Idler.step _ _); [|done]. injection Hs as <-. cbn. by rewrite Hgone.
  - case_bool_decide; [|done]. destruct (run_on _ _) as [[s h]|] eqn:E; [|done].
    destruct (run_on_wp _ _ _ _ _ (wp_look _ _ (g_sound _ Hg Hgone)) E) as (_ & Hd' & _). injection Hs as <-.
    destruct (Up s.1); cbn; by rewrite Hd', Hd, Hgone.
  - case_bool_decide; [|done]. injection Hs as <-. cbn. by rewrite Hgone.
  - destruct (_ && _); [|done]. destruct (run_on _ _) as [[o h]|]; [|done]. injection Hs as <-. cbn. by rewrite Hgone.
  - by apply (down_proceed who at_exit d).
  - destruct (_ || _); [done|]. destruct (run_on _ _) as [[o h]|] eqn:E; [|done].
    apply (down_exit at_exit (set_world (ctl d) h d)); [by destruct at_exit| |done..]. destruct Hg as [H1 H2 H3 H4]. split; cbn; [|done..]. intros _.
    exact (run_on_wp _ _ _ _ _ (kept_remove _ _ (H1 Hgone)) E).
Qed.

Lemma down_run es d d' : Forall (λ e, undisturbed e = true) es → down d → run es d = Some d' → down d'.
Proof using Type*.
  intros Hes. apply run_keeps_all. intros e d1 d2 Hin. apply down_step. by eapply list.Forall_forall in Hes.
Qed.

(** ** Left alone, the process ends *)

(** What happens without anybody outside. *)
Definition internal (e : event) : bool :=
  match e with Timer _ | Check | Proceed ByIdle Whole => true | _ => false end.

(** Nobody needs the process, and its watcher has not given up. *)
Definition alone (d : daemon) : Prop := down d ∧ unneeded (idl d).

Lemma alone_step e d d' : internal e = true → alone d → step e d = Some d' → alone d'.
Proof using Type*.
  intros He [Hd Hu] Hs. pose proof (step_view e d d' (proj1 Hd) Hs) as Hv. split.
  - apply (down_step e d); [|done|done]. destruct e; try done. by destruct who, at_exit.
  - unfold follows_idler, view in Hv. destruct e as [| | | |e| | | |[] []|]; try done.
    + apply (unneeded_step e (idl d)); [|done|done]. unfold Daemon.step in Hs. destruct (gone d); [done|].
      destruct (timer_event e) eqn:Ht; [|done]. by destruct e.
    + by apply (unneeded_step Idler.Ask (idl d)).
    + case_bool_decide; [|by rewrite Hv]. destruct Hu as (Hok & Hc & Hup & Hw). split; [by eapply ok_step|].
      apply step_cases in Hv. rewrite Hv. cbn. by destruct Hw.
Qed.

(** How many such events are left, at most. *)
Definition steps_left (p : phase) : nat :=
  match p with Waiting => 0 | Looking => 5 | Putting => 4 | Closing => 3 | Removing => 2 | Exiting => 1 end.
Definition left (d : daemon) : nat :=
  if gone d then 0 else 6 * work (idl d) + steps_left (by_idle d) + 1.

Lemma left_step e d d' : internal e = true → good d → step e d = Some d' → left d' < left d.
Proof using Type*.
  intros He Hg Hs. pose proof (step_view e d d' Hg Hs) as Hv. unfold follows_idler, view in Hv.
  unfold left. unfold Daemon.step in Hs. destruct (gone d) eqn:Hgone; [done|].
  destruct e as [| | | |e| | | |[] []|]; try done.
  - destruct (timer_event e) eqn:Ht; [|done]. destruct (Idler.step e (idl d)) as [i|] eqn:Ei; [|done].
    injection Hs as <-. assert (work i < work (idl d)) by (apply (work_step e); by destruct e).
    cbn -[Nat.mul]. rewrite Hgone. lia.
  - assert (work (idl d') < work (idl d)) by (by apply (work_step Idler.Ask)).
    destruct (gone d'); [lia|]. case_bool_decide as Hw; [|done].
    destruct (run_on _ _) as [[s h]|]; [|done]. injection Hs as <-.
    assert (by_idle d = Waiting) as Hwait by (apply g_idle; [done|]; by rewrite Hw).
    destruct (Up s.1); cbn -[Nat.mul] in *; rewrite ?Hwait in *; cbn -[Nat.mul] in *; lia.
  - unfold proceed in Hs. cbn [phase_of] in *. destruct (by_idle d) eqn:Hp; [done|..].
    + destruct (run_on _ _) as [[s h]|]; [|done]. injection Hs as <-. cbn -[Nat.mul] in *. rewrite Hgone. lia.
    + destruct (run_on _ _) as [[s h]|]; [|done]. injection Hs as <-. cbn -[Nat.mul] in *. rewrite Hgone.
      apply Nat.add_lt_mono_r, Nat.add_le_lt_mono; [|lia]. by apply Nat.mul_le_mono_l.
    + injection Hs as <-. cbn -[Nat.mul] in *. rewrite Hgone. lia.
    + destruct (run_on _ _) as [[s h]|]; [|done]. injection Hs as <-. cbn -[Nat.mul] in *. rewrite Hgone. lia.
    + injection Hs as <-. cbn -[Nat.mul]. lia.
Qed.

Lemma left_run es d d' : Forall (λ e, internal e = true) es → alone d → run es d = Some d' →
  alone d' ∧ length es + left d' ≤ left d.
Proof using Type*.
  intros Hes. revert d. induction Hes as [|e es He _ IH]; intros d Ha; cbn; [intros [= <-]; by split|].
  destruct (step e d) as [d1|] eqn:E; cbn; [|done]. intros Hr.
  destruct (IH d1) as [Ha' Hl]; [by eapply alone_step|done|].
  split; [done|]. pose proof (left_step _ _ _ He (proj1 (proj1 Ha)) E). lia.
Qed.

(** ... and one of them is possible until it has ended. *)
Lemma alone_progress d : alone d → gone d = true ∨ ∃ e d', internal e = true ∧ step e d = Some d'.
Proof using Type*.
  intros [(Hg & Hup & _) Hu]. destruct (gone d) eqn:Hgone; [by left|right].
  pose proof (g_sound _ Hg Hgone) as Hs. unfold Daemon.step. rewrite Hgone.
  destruct (unneeded_progress _ Hu) as [Hw|(ie & i' & Hi & Hst)].
  - exists (Proceed ByIdle Whole). unfold proceed. cbn [phase_of].
    destruct (by_idle d) eqn:Hp.
    + by apply (g_idle _ Hg) in Hp.
    + destruct (run_on_total _ _ _ (wp_look _ _ Hs)) as [[s h] ->]. by eexists.
    + destruct (run_on_total _ _ _ (kept_Stop _ _ Hs)) as [[s h] ->]. by eexists.
    + by eexists.
    + unfold remove_socket. destruct activated; by eexists.
    + by eexists.
  - destruct (timer_event ie) eqn:Ht.
    + exists (Timer ie). rewrite Ht, Hst. by eexists.
    + destruct ie; try done. exists Check. apply step_cases in Hst as [Hw _]. rewrite bool_decide_true by done.
      destruct (run_on_total _ _ _ (wp_look _ _ Hs)) as [[s h] ->]. by eexists.
Qed.
End Process.
