(* ===== verification/DaemonProps.v ===== *)
(** * The service from its start to its end

    [main] of core/cmd/caelo-service, and then the process of Daemon.v: what it
    gives back when it ends, that it ends by itself, and two ways it can end
    that leave the machine routed into nothing. *)

From S2P Require Import Prelude GoStrings GoJson Effects System SystemFacts SystemWindowsFacts Simulated.
From S2P Require Import Routing RoutingFacts Systunnel SystunnelFacts SystunnelMachine SystunnelProps.
From S2P Require Import Service ServiceFacts IdlerFacts Aside ProgramsFacts Host Daemon DaemonFacts.
From stdpp Require Import options.

(** ** [main] up to its goroutines *)

Section Main.
Context {env : Env} {platform : Platform} {M : Type} (after : history → M) (m0 : M).
Context `{!Restores platform env after m0} (path : string) (Hremove : harmless after (Remove path)).
#[local] Set Default Proof Using "Type*".

Hint Extern 1 (aside _ (perform (Remove path))) => (apply aside_harmless; [reflexivity|exact Hremove]) : aside.
Hint Extern 1 (aside _ (perform _)) =>
  (apply (aside_perform after (platform := platform) (m0 := m0)); reflexivity) : aside.

Lemma aside_NewController verbose : aside after (NewController verbose).
Proof using Restores0. unfold NewController. auto with aside. Qed.

Lemma aside_listen : aside after (listen path).
Proof.
  unfold listen, activated, adopt_socket, own_socket. auto 40 with aside.
Qed.

(** What starts the service neither opens an interface nor touches the machine. *)
Lemma aside_linux_main args verbose : aside after (main (H1 := linux_glue) args path verbose).
Proof.
  unfold main. cbn [glue_command glue_privileged glue_listen glue_managed linux_glue]. unfold mustBePrivileged.
  apply aside_bind; [apply aside_ret|]. intros [[] err]; [apply aside_ret|].
  apply aside_bind; [auto with aside|]. intros [[]|e]; [|apply aside_ret].
  apply aside_bind; [apply aside_NewController|]. intros _.
  apply aside_bind; [apply aside_listen|]. intros [[[l|] a] [e|]]; apply aside_ret.
Qed.

Lemma aside_install : aside after install.
Proof using Restores0.
  unfold install, with_manager, create_service, closing, setPipeTrigger, io_wrap, try. auto 40 with aside.
Qed.

Lemma aside_uninstall : aside after uninstall.
Proof using Restores0.
  unfold uninstall, with_manager, closing, stop_running, try. auto 40 with aside.
Qed.

Lemma aside_windows_main args verbose : aside after (main (H1 := windows_glue) args path verbose).
Proof using Restores0.
  unfold main. cbn [glue_command glue_privileged glue_listen glue_managed windows_glue].
  apply aside_bind.
  { pose proof aside_install. pose proof aside_uninstall. unfold platformCommand. auto 10 with aside. }
  intros [[] err]; [apply aside_ret|].
  apply aside_bind; [apply aside_ret|]. intros [[]|e]; [|apply aside_ret].
  apply aside_bind; [apply aside_NewController|]. intros _.
  apply aside_bind; [unfold listen_pipe; auto with aside|].
  intros [[[l|] a] [e|]]; try apply aside_ret.
  apply aside_bind; [unfold runAsService; auto with aside|intros; apply aside_ret].
Qed.
End Main.

(** ** What is promised of the process *)

Section Promises.
Context {env : Env} {platform : Platform} {glue : Glue} {M : Type} (after : history → M) (m0 : M).
Context (render : error → string) (core amneziawg : string) (args : list string) (path : string) (verbose : bool).

(** Some time after the process is told to end, [shutdown] stops the tunnel;
    if no request is handled after that, the machine is as it was when the
    process is gone. *)
Definition ends_clean : Prop :=
  ∀ l activated managed h es1 d1 who d2 es2 d3,
    main args path verbose [] = (Some (Serving l activated managed), h) →
    run render core amneziawg path l activated managed es1 (started h) = Some d1 →
    phase_of who d1 = Putting →
    step render core amneziawg path l activated managed (Proceed who Whole) d1 = Some d2 →
    Forall (λ e, undisturbed e = true) es2 →
    run render core amneziawg path l activated managed es2 d2 = Some d3 →
    gone d3 = true → after (hist d3) = m0 ∧ opened (hist d3) = ∅.

(** A process nobody needs any more: it makes boundedly many steps; until it
    is gone one of its goroutines can move; and when it is gone the machine is
    as it was. *)
Definition ends_by_itself : Prop :=
  ∀ l activated managed h es1 d1 es2 d2,
    main args path verbose [] = (Some (Serving l activated managed), h) →
    run render core amneziawg path l activated managed es1 (started h) = Some d1 →
    gone d1 = false → pending d1 = [] → handled d1 = 0 → device (ctl d1) = None →
    Idler.watching (idl d1) ≠ Idler.Bailing → Idler.watching (idl d1) ≠ Idler.Gone →
    Forall (λ e, internal e = true) es2 →
    run render core amneziawg path l activated managed es2 d1 = Some d2 →
    length es2 ≤ left d1 ∧
    if gone d2 then after (hist d2) = m0 ∧ opened (hist d2) = ∅
    else ∃ e d3, internal e = true ∧ step render core amneziawg path l activated managed e d2 = Some d3.

(** A request that waits is handled at any time, whatever the goroutines that
    end the process are doing; and if it brings a tunnel up when [shutdown] is
    through with it, the process ends with the interface open and the machine
    as [up] says. *)
Definition leaves_late_requests (up : State → System.Config → M → Prop) : Prop :=
  ∀ l activated managed h es d n,
    main args path verbose [] = (Some (Serving l activated managed), h) →
    run render core amneziawg path l activated managed es (started h) = Some d →
    gone d = false → n < length (pending d) →
    ∃ d1, step render core amneziawg path l activated managed (Handle n) d = Some d1 ∧
      (∀ who, phase_of who d1 = phase_of who d) ∧
      ∀ who dev, phase_of who d = Exiting → device (ctl d1) = Some dev →
        ∃ d2 st, step render core amneziawg path l activated managed (Proceed who Whole) d1 = Some d2 ∧ gone d2 = true ∧
          opened (hist d2) = {[dev]} ∧ state (ctl d1) = Some st ∧ up st (network (ctl d1)) (after (hist d2)).

Context `{!Clock env} `{!Orderly platform} `{!Restores platform env after m0}.
Hypothesis (Hremove : harmless after (Remove path)) (Hmain : aside after (main args path verbose)).
#[local] Set Default Proof Using "Type*".

#[local] Instance kept_main l activated : Kept path l activated (sound after m0).
Proof. by apply sound_kept. Qed.

Lemma good_main l activated managed h :
  main args path verbose [] = (Some (Serving l activated managed), h) → good (sound after m0) (started h).
Proof.
  intros Hm. apply good_started. pose proof Hmain as (H1 & H2 & H3).
  pose proof (sound_aside after m0 _ _ [] H1 H2 H3 (sound_New after m0)) as Hw.
  unfold wp in Hw. by rewrite Hm in Hw.
Qed.

Lemma good_reached l activated managed h es d :
  main args path verbose [] = (Some (Serving l activated managed), h) →
  run render core amneziawg path l activated managed es (started h) = Some d → good (sound after m0) d.
Proof.
  intros Hm Hr. exact (good_run render core amneziawg path l activated managed _ _ _ _ (good_main _ _ _ _ Hm) Hr).
Qed.

Lemma contract_ends_clean : ends_clean.
Proof.
  intros l act man h es1 d1 who d2 es2 d3 Hm H1 Hp H2 Hu H3 Hgone.
  pose proof (good_reached l act man h es1 d1 Hm H1) as Hg1.
  assert (down (sound after m0) after m0 d2) as Hd2.
  { pose proof (good_step render core amneziawg path l act man _ _ _ _ Hg1 H2) as Hg2.
    split; [done|]. unfold step in H2. destruct (gone d1) eqn:E; [done|]. unfold proceed in H2. rewrite Hp in H2.
    destruct (run_on (Stop (ctl d1)) (hist d1)) as [[o h']|] eqn:Er; [|done]. injection H2 as <-.
    destruct (run_on_wp _ _ _ _ _ (sound_Stop after m0 _ _ (g_sound _ _ Hg1 E)) Er) as [_ Hd].
    split; cbn; [unfold is_up; by rewrite Hd|by rewrite E]. }
  pose proof (down_run render core amneziawg path l act man (sound after m0) after m0 (sound_down after m0) _ _ _ Hu Hd2 H3)
    as (_ & _ & Hgb).
  by apply Hgb.
Qed.

Lemma contract_ends_by_itself : ends_by_itself.
Proof.
  intros l act man h es1 d1 es2 d2 Hm H1 Hgone Hp Hh Hd Hb Hgo Hi H2.
  pose proof (good_reached l act man h es1 d1 Hm H1) as Hg1.
  destruct (told_run render core amneziawg path l act man (sound after m0) es1 (started h) d1) as (_ & Hok & _);
    [by eapply good_main|apply ok_new|intros [?|[?|?]]; cbn in *; (done || lia)|exact H1|].
  assert (is_up (ctl d1) = false) as Hdown by (unfold is_up; by rewrite Hd).
  assert (alone (sound after m0) after m0 d1) as Ha.
  { split; [split; [done|]; split; [done|by rewrite Hgone]|].
    split; [done|]. rewrite (g_connections _ _ Hg1), Hp, Hh, (g_up _ _ Hg1), Hdown. by split_and!. }
  destruct (left_run render core amneziawg path l act man (sound after m0) after m0 (sound_down after m0) _ _ _ Hi Ha H2) as [Ha2 Hl].
  split; [lia|]. destruct (gone d2) eqn:Hg2; [by apply Ha2|].
  destruct (alone_progress render core amneziawg path l act man (sound after m0) after m0 (sound_down after m0) d2 Ha2)
    as [?|?]; [congruence|done].
Qed.

Lemma contract_leaves_late_requests : leaves_late_requests tunnelled.
Proof.
  intros l act man h es d n Hm Hr Hgone Hn. pose proof (good_reached l act man h es d Hm Hr) as Hg.
  destruct (handle_possible render core amneziawg path l act man (sound after m0) n d Hg Hgone Hn) as (d1 & H1 & Hg1 & Hph).
  exists d1. split_and!; [done..|]. intros who dev Hwho Hdev.
  pose proof (good_step render core amneziawg path l act man _ _ _ _ Hg H1) as Hgood1.
  destruct (exit_as_is render core amneziawg path l act man (sound after m0) who d1 Hgood1 Hg1) as (d2 & H2 & Hg2 & Hh & [[Ho _] Hma]);
    [by rewrite Hph|].
  unfold machine_inv in Hma. rewrite Hdev in Ho, Hma. destruct Hma as (st & Hst & _ & _ & Ht). exists d2, st. by split_and!.
Qed.
End Promises.

(** ** The laptop's service *)

Definition connect_line : string := request_line "connect" tunnel_text.

Definition socket_path : string := "/run/caelo/caelo.sock".
Definition laptop_serves : option fate * history :=
  @main laptop_with_file linux linux_glue ["caelo-service"] socket_path false [].
Abbreviation laptop_start := (started (snd laptop_serves)).
Abbreviation on_laptop := (@run laptop_with_file linux no_render "v1" "v3" socket_path 5 false false).

Example laptop_starts : fst laptop_serves = Some (Serving 5 false false).
Proof. vm_compute. reflexivity. Qed.

(** An end that goes as it should. *)
Definition orderly_end (who : stopper) : list event :=
  [Proceed who Whole; Proceed who Whole; AcceptFails; Proceed who Whole].

(** ** Properties *)

(** C3: The process gives the machine back.  On a machine that has none of the
    tunnel's own routes and settings and whose commands, or Windows' own
    functions, behave as documented, with a clock that moves and, on Linux, a
    socket that is not the resolver's file: whatever the goroutines did before,
    in any interleaving, once a goroutine that ends the process (for a signal,
    for the idle timer, for the control manager) has stopped the tunnel, and if
    no request is handled after that, not even in part, then however the
    process ends, with whatever else happens in between and even in the middle
    of another goroutine's [Stop], the machine is exactly as it was before the
    program started and no interface is open.  From the start of [main]. *)
Theorem process_gives_back {env : Env} render core amneziawg args path verbose :
  Clock env →
  (∀ m0, Documented m0 env → pristine m0 → path ≠ resolvConf →
     ends_clean (platform := linux) (glue := linux_glue) (machine_after m0) m0 render core amneziawg args path verbose) ∧
  (∀ m0, WinDocumented m0 env → WinPlaced m0 env → win_pristine m0 →
     ends_clean (platform := Routing.windows) (glue := windows_glue) (win_after m0) m0
       render core amneziawg args path verbose).
Proof.
  intros Hc. split.
  - intros m0 Hdoc Hpr Hp. apply (contract_ends_clean _ _ _ _ _ _ _ _ (remove_harmless m0 path Hp)).
    by apply (aside_linux_main _ m0), remove_harmless.
  - intros m0 Hdoc Hpl Hpr. apply (contract_ends_clean _ _ _ _ _ _ _ _ (win_remove_harmless m0 path)).
    apply (aside_windows_main (platform := Routing.windows) _ m0).
Qed.

Lemma some_is {A} (o : option A) : (if o is Some _ then true else false) = true → ∃ a, o = Some a.
Proof. destruct o as [a|]; [by exists a|done]. Qed.

Lemma some_pair {A B} (a a' : A) (b b' : B) : Some (a, b) = Some (a', b') → a = a' ∧ b = b'.
Proof. by intros [= -> ->]. Qed.
Lemma some_pair3 {A B C} (a a' : A) (b b' : B) (c c' : C) : Some (a, b, c) = Some (a', b', c') → a = a' ∧ b = b' ∧ c = c'.
Proof. by intros [= -> -> ->]. Qed.

(** A tunnel is up when the signal comes; the listener and the socket go after it. *)
Definition signalled : list event :=
  [Connect true connect_line; Handle 0; Close; Signal; Proceed BySignal Whole].

Lemma laptop_main : @main laptop_with_file linux linux_glue ["caelo-service"] socket_path false []
  = (Some (Serving 5 false false), snd laptop_serves).
Proof. vm_compute. reflexivity. Qed.
Lemma laptop_clock : Clock laptop_with_file.
Proof. apply with_file_clock, simulated_clock. Defined.
Lemma own_socket_path : socket_path ≠ resolvConf.
Proof. by vm_compute. Qed.

Abbreviation laptop_step := (@step laptop_with_file linux no_render "v1" "v3" socket_path 5 false false).

Lemma signalled_runs : ∃ d1 d2 d3, on_laptop signalled laptop_start = Some d1 ∧ is_up (ctl d1) = true ∧
  by_signal d1 = Putting ∧ laptop_step (Proceed BySignal Whole) d1 = Some d2 ∧
  on_laptop (orderly_end BySignal) d2 = Some d3 ∧ gone d3 = true.
Proof.
  assert (option_map (λ d, (is_up (ctl d), by_signal d, match laptop_step (Proceed BySignal Whole) d with
      | Some d2 => option_map gone (on_laptop (orderly_end BySignal) d2) | None => None end))
    (on_laptop signalled laptop_start) = Some (true, Putting, Some true)) as E by (vm_compute; reflexivity).
  destruct (on_laptop signalled laptop_start) as [d1|]; [|discriminate]. cbn [option_map] in E.
  apply some_pair3 in E as (Hup & Hp & E). exists d1.
  destruct (laptop_step (Proceed BySignal Whole) d1) as [d2|]; [|discriminate].
  destruct (on_laptop (orderly_end BySignal) d2) as [d3|] eqn:H3; [|discriminate].
  cbn [option_map] in E. apply (inj Some) in E. exists d2, d3. by split_and!.
Qed.

Lemma process_gives_back_witness :
  ∃ d1 d2 d3, on_laptop signalled laptop_start = Some d1 ∧ is_up (ctl d1) = true ∧
    laptop_step (Proceed BySignal Whole) d1 = Some d2 ∧ on_laptop (orderly_end BySignal) d2 = Some d3 ∧
    gone d3 = true ∧ machine_after laptop (hist d3) = laptop ∧ opened (hist d3) = ∅.
Proof.
  destruct signalled_runs as (d1 & d2 & d3 & H1 & Hup & Hp & H2 & H3 & Hg).
  exists d1, d2, d3. split; [exact H1|]. split; [exact Hup|]. split; [exact H2|]. split; [exact H3|]. split; [exact Hg|].
  exact (proj1 (@process_gives_back laptop_with_file no_render "v1" "v3" ["caelo-service"] socket_path false laptop_clock)
    laptop laptop_file_documented pristine_laptop own_socket_path 5 false false (snd laptop_serves) signalled d1 BySignal d2
    (orderly_end BySignal) d3 laptop_main H1 Hp H2 ltac:(by repeat constructor) H3 Hg).
Defined.


(** The laptop's service after a connection came and went. *)
Definition visited : list event := [Connect true ""; Handle 0; Close].
Definition idling : list event :=
  [Timer Idler.Expire; Timer Idler.Fire; Timer Idler.Send; Timer Idler.Receive; Check;
   Proceed ByIdle Whole; Proceed ByIdle Whole; Proceed ByIdle Whole; Proceed ByIdle Whole; Proceed ByIdle Whole].

Lemma visited_runs : ∃ d1 d2, on_laptop visited laptop_start = Some d1 ∧ on_laptop idling d1 = Some d2 ∧
  gone d1 = false ∧ pending d1 = [] ∧ handled d1 = 0 ∧ device (ctl d1) = None ∧
  Idler.watching (idl d1) = Idler.Receiving ∧ gone d2 = true.
Proof.
  assert (option_map (λ d, ((gone d, pending d, handled d, device (ctl d), Idler.watching (idl d)),
      option_map gone (on_laptop idling d)))
    (on_laptop visited laptop_start) = Some ((false, [], 0, None, Idler.Receiving), Some true)) as E
    by (vm_compute; reflexivity).
  destruct (on_laptop visited laptop_start) as [d1|]; [|discriminate]. cbn [option_map] in E.
  apply some_pair in E as [E1 E]. injection E1 as Hg Hp Hh Hd Hw. exists d1.
  destruct (on_laptop idling d1) as [d2|]; [|discriminate]. cbn [option_map] in E. apply (inj Some) in E.
  exists d2. by split_and!.
Qed.


(** C18: The idle timer does not end the process while it is in use.  Whatever
    the machine answers, with a clock that moves, and in every interleaving: if
    the goroutine that ends the process for idleness has begun, then the timer
    had fired at a moment when no connection was open, served or waiting; and
    after that, when the watcher asked the controller, no tunnel was up.  (A
    connection that comes between the two, or after them, does not stop it.) *)
Theorem idle_stop_was_unused {env : Env} {platform : Platform} render core amneziawg path l activated managed h es d :
  platform ∈ builds → Clock env → opened h = ∅ →
  run render core amneziawg path l activated managed es (started h) = Some d → by_idle d ≠ Waiting →
  ∃ es1 es2 es3 d1 d2,
    es = es1 ++ Timer Idler.Fire :: es2 ++ Check :: es3 ∧
    run render core amneziawg path l activated managed es1 (started h) = Some d1 ∧ pending d1 = [] ∧ handled d1 = 0 ∧
    run render core amneziawg path l activated managed (es1 ++ Timer Idler.Fire :: es2) (started h) = Some d2 ∧
    device (ctl d2) = None.
Proof.
  intros Hb%builds_orderly Hc Ho Hr Hidle.
  destruct (told_run render core amneziawg path l activated managed inv es (started h) d) as (Hg & _ & _ & Hst).
  - by apply good_started.
  - apply ok_new.
  - intros [?|[?|?]]; cbn in *; done || lia.
  - exact Hr.
  - destruct Hst as (es' & es3 & d2 & -> & (es1 & es2 & d1 & -> & H1 & Hp & Hh) & H2 & Hd).
    { destruct (decide (Idler.watching (idl d) = Idler.Stopping)) as [|Hne]; [done|]. by apply (g_idle _ _ Hg) in Hne. }
    exists es1, es2, es3, d1, d2. rewrite <- app_assoc. by split_and!.
Qed.

(** The laptop's service once it has begun to stop for idleness. *)
Definition visited_idle : list event :=
  [Connect true ""; Handle 0; Close; Timer Idler.Expire; Timer Idler.Fire; Timer Idler.Send; Timer Idler.Receive; Check].

Lemma visited_idle_runs : ∃ d, on_laptop visited_idle laptop_start = Some d ∧ by_idle d = Looking.
Proof.
  assert (option_map by_idle (on_laptop visited_idle laptop_start) = Some Looking) as E by (vm_compute; reflexivity).
  destruct (on_laptop visited_idle laptop_start) as [d|]; [|discriminate]. exists d. split; [done|]. by injection E.
Qed.

Lemma laptop_opened : opened (snd laptop_serves) = ∅.
Proof. vm_compute. reflexivity. Qed.

Lemma idle_stop_was_unused_witness :
  ∃ es1 es2 es3 d1, visited_idle = es1 ++ Timer Idler.Fire :: es2 ++ Check :: es3 ∧
    on_laptop es1 laptop_start = Some d1 ∧ pending d1 = [] ∧ handled d1 = 0.
Proof.
  destruct visited_idle_runs as (d & Hr & Hi).
  destruct (@idle_stop_was_unused laptop_with_file linux no_render "v1" "v3" socket_path 5 false false (snd laptop_serves)
    visited_idle d linux_built laptop_clock laptop_opened Hr ltac:(by rewrite Hi)) as (es1 & es2 & es3 & d1 & d2 & H & H1 & Hp & Hh & _).
  exists es1, es2, es3, d1. by split_and!.
Defined.

(** C38: Stopping the service does not keep requests out.  On a machine that has
    none of the tunnel's own routes and settings and whose commands, or Windows'
    own functions, behave as documented, with a clock that moves and, on Linux,
    a socket that is not the resolver's file: in every reachable state that is
    not the end, a request that waits is handled next if its turn comes,
    whatever [shutdown] has done already.  And if that brings a tunnel up when
    [shutdown] is at its exit, the process ends all the same: the interface was
    open till then, and the machine is left with the tunnel's routes, as [Apply]
    made them. *)
Theorem late_request_left {env : Env} render core amneziawg args path verbose :
  Clock env →
  (∀ m0, Documented m0 env → pristine m0 → path ≠ resolvConf →
     leaves_late_requests (platform := linux) (glue := linux_glue) (machine_after m0) render core amneziawg args path verbose
       (λ st net m, routes m = SystemFacts.tunnelled st net (routes m0))) ∧
  (∀ m0, WinDocumented m0 env → WinPlaced m0 env → win_pristine m0 →
     leaves_late_requests (platform := Routing.windows) (glue := windows_glue) (win_after m0)
       render core amneziawg args path verbose (λ st net m, pins st net m)).
Proof.
  intros Hc. split.
  - intros m0 Hdoc Hpr Hp.
    exact (contract_leaves_late_requests (platform := linux) (machine_after m0) m0 _ _ _ _ _ _ (remove_harmless m0 path Hp)
      (aside_linux_main (machine_after m0) m0 path (remove_harmless m0 path Hp) args verbose)).
  - intros m0 Hdoc Hpl Hpr.
    exact (contract_leaves_late_requests (platform := Routing.windows) (win_after m0) m0 _ _ _ _ _ _ (win_remove_harmless m0 path)
      (aside_windows_main (platform := Routing.windows) (win_after m0) m0 path args verbose)).
Qed.

(** A request that waits while [shutdown] takes nothing down and gets to its exit. *)
Definition late_connect : list event :=
  [Connect true connect_line; Signal; Proceed BySignal Whole; Proceed BySignal Whole; Proceed BySignal Whole; Proceed BySignal Whole].

Lemma late_connect_runs : ∃ d d1 dev, on_laptop late_connect laptop_start = Some d ∧ gone d = false ∧ length (pending d) = 1 ∧
  by_signal d = Exiting ∧ laptop_step (Handle 0) d = Some d1 ∧ device (ctl d1) = Some dev.
Proof.
  assert (option_map (λ d, (gone d, length (pending d), by_signal d, option_map (λ d1, is_up (ctl d1)) (laptop_step (Handle 0) d)))
    (on_laptop late_connect laptop_start) = Some (false, 1, Exiting, Some true)) as E by (vm_compute; reflexivity).
  destruct (on_laptop late_connect laptop_start) as [d|]; [|discriminate]. cbn [option_map] in E.
  apply (inj Some), pair_equal_spec in E as [E E1]. injection E as Hg Hl Hs.
  destruct (laptop_step (Handle 0) d) as [d1|] eqn:H1; [|discriminate]. cbn [option_map] in E1. apply (inj Some) in E1.
  unfold is_up in E1. apply bool_decide_eq_true in E1 as [dev Hdev]. exists d, d1, dev. by split_and!.
Qed.

Lemma late_request_left_witness :
  ∃ d d1 d2, on_laptop late_connect laptop_start = Some d ∧ laptop_step (Handle 0) d = Some d1 ∧
    laptop_step (Proceed BySignal Whole) d1 = Some d2 ∧ gone d2 = true ∧
    routes (machine_after laptop (hist d2)) !! "0.0.0.0/1" = Some (Interface (network (ctl d1))).
Proof.
  destruct late_connect_runs as (d & d1 & dev & H & Hg & Hl & Hs & H1 & Hdev).
  destruct (proj1 (@late_request_left laptop_with_file no_render "v1" "v3" ["caelo-service"] socket_path false laptop_clock)
    laptop laptop_file_documented pristine_laptop own_socket_path 5 false false (snd laptop_serves) late_connect d 0
    laptop_main H Hg ltac:(rewrite Hl; auto)) as (d1' & H1' & _ & Hlate).
  rewrite H1 in H1'. injection H1' as <-. destruct (Hlate BySignal dev Hs Hdev) as (d2 & st & H2 & Hg2 & _ & _ & Ht).
  exists d, d1, d2. split_and!; [exact H|exact H1|exact H2|exact Hg2|]. rewrite Ht. unfold SystemFacts.tunnelled.
  by rewrite lookup_insert_ne, lookup_insert_eq.
Defined.

(** An error of [Accept] while a tunnel is up. *)
Definition accept_error : list event := [Connect true connect_line; Handle 0; Close; AcceptFails; Return Whole].

(** When [Accept] fails, [main] returns and the process is gone without
    [shutdown], whatever is up: the tunnel's routes stay. *)
Theorem accept_error_leaves_routes :
  ∃ d, on_laptop accept_error laptop_start = Some d ∧ gone d = true ∧ is_up (ctl d) = true ∧
    ∀ half, half ∈ defaultHalves → routes (machine_after laptop (hist d)) !! half = Some "caelo0".
Proof.
  destruct (some_is (on_laptop accept_error laptop_start)) as [d H]; [vm_compute; reflexivity|].
  exists d. split; [exact H|].
  assert (option_map (λ d, (gone d, is_up (ctl d), map (λ half, routes (machine_after laptop (hist d)) !! half) defaultHalves))
    (on_laptop accept_error laptop_start) = Some (true, true, [Some "caelo0"; Some "caelo0"])) as E by (vm_compute; reflexivity).
  rewrite H in E. cbn [option_map map defaultHalves] in E. injection E as Hg Hu H1 H2.
  split; [exact Hg|]. split; [exact Hu|].
  intros half. unfold defaultHalves. rewrite !elem_of_cons, elem_of_nil. by intros [->|[->|[]]].
Qed.
