(* ===== verification/AwgTest.v ===== *)
(** * The loopback server of the tests: core/internal/awgtest

    A real server in every way that matters to a client: a key of its own, a
    device on a UDP port, the obfuscation it is given, a web server inside its
    tunnel.  A test is an operation that can end at any point ([t.Fatal]) and
    has registered what is to be called when it ends ([t.Cleanup]).  The
    buffers [farTun] and [delayedBind] keep for later are memory they share
    with nobody; the curve is a parameter. *)

From S2P Require Import Prelude GoStrings GoEncoding NetAddr Awg Effects.
From Stdlib Require Import Ascii.
From stdpp Require Import options.

Definition text_of_lines (ls : list string) : string := sconcat (map (λ l, l +:+ nl) ls).

(** A full AWG 1.5 set. *)
Definition Obfuscation : string :=
  text_of_lines ["Jc = 4"; "Jmin = 10"; "Jmax = 50"; "S1 = 31"; "S2 = 17";
                 "H1 = 1000000-1000100"; "H2 = 2000000-2000100";
                 "H3 = 3000000-3000100"; "H4 = 4000000-4000100"].

(** 10.154.1.1 and 10.154.2.1. *)
Definition Address : Addr := AddrFrom4 [10; 154; 1; 1]%Z.
Definition FarAddress : Addr := AddrFrom4 [10; 154; 2; 1]%Z.

(** Delays are in nanoseconds. *)
Record Options := mkOptions { opt_Obfuscation : string; Delay : Z; ExitDelay : Z }.

(** [wired]: how long the device's socket and its tun hold packets back, where
    they are wrapped in a [delayedBind] and a [farTun]. *)
Record Server := mkServer { ClientConfig : string; URL : string; requests : Z; wired : option Z * option Z }.

(** ** Tests *)

(** A step of a test: it may end the test, and registers calls for its end. *)
Definition Test (A : Type) : Type := list call → IO (result A * list call).

#[export] Instance test_ret : MRet Test := λ A a cleanups, mret (Ok a, cleanups).
#[export] Instance test_bind : MBind Test := λ A B k m cleanups,
  r ← m cleanups; match r with (Ok a, cleanups) => k a cleanups | (Err e, cleanups) => mret (Err e, cleanups) end.

Definition Fatal {A} (e : error) : Test A := λ cleanups, mret (Err e, cleanups).
Definition Cleanup (c : call) : Test unit := λ cleanups, mret (Ok tt, cleanups ++ [c]).
Definition lift {A} (m : IO A) : Test A := λ cleanups, r ← m; mret (Ok r, cleanups).

(** [if err != nil { t.Fatal(err) }], and what the call gave otherwise. *)
Definition must `{Env} (c : call) : Test outcome :=
  o ← lift (perform c); match o with Failure _ e _ => Fatal e | _ => mret o end.
Definition must_be {A} (r : result A) : Test A := match r with Ok a => mret a | Err e => Fatal e end.

(** What was registered last is called first. *)
Definition finish `{Env} (cleanups : list call) : IO unit :=
  foldr (λ c rest, _ ← perform c; rest) (mret tt) (rev cleanups).

Definition run_test `{Env} {A} (m : Test A) : IO (result A) :=
  r ← m []; _ ← finish r.2; mret r.1.

(** ** Keys and ports *)

Section Server.
Context {env : Env} (X25519 : list Z → result (list Z)).

(** What [rand.Read] put into an array of [n] bytes. *)
Definition filled (n : nat) (o : outcome) : list Z :=
  match o with
  | Output s => take n (map code (String.list_ascii_of_string s) ++ replicate n 0%Z)
  | _ => replicate n 0%Z
  end.

(** [key[0] &= 248; key[31] = key[31]&127 | 64]. *)
Definition clamp (key : list Z) : list Z :=
  alter (λ b, Z.lor (Z.land b 127) 64) 31 (alter (λ b, Z.land b 248) 0 key).

Definition KeyPair : Test (string * string) :=
  o ← must (RandRead 32);
  let key := clamp (filled 32 o) in
  pub ← must_be (X25519 key);
  mret (b64_encode key, b64_encode pub).

(** The first line that states a port. *)
Fixpoint reported_port (lines : list string) : option Z :=
  match lines with
  | [] => None
  | line :: lines =>
      match CutPrefix line "listen_port=" with
      | Some value =>
          match Atoi value with
          | Ok port => if (0 <? port)%Z then Some port else reported_port lines
          | Err _ => reported_port lines
          end
      | None => reported_port lines
      end
  end.

Definition ListenPort (dev : nat) : Test Z :=
  o ← must (IpcGet dev);
  let uapi := match o with Output s => s | _ => "" end in
  match reported_port (Split uapi newline) with
  | Some port => mret port
  | None => Fatal [Lit "the device reports no listening port:"; Lit nl; Plain uapi]
  end.

(** A port nothing was listening on a moment ago. *)
Definition FreeUDPPort : Test Z :=
  socket ← lift next_handle;
  o ← must (ListenUDP (AddrFrom4 [127; 0; 0; 1]%Z) 0);
  _ ← lift (perform (CloseListener socket));
  mret match o with Number port => port | _ => 0%Z end.

(** ** [Start] *)

Definition server_conf (serverKey clientPublic : string) (opts : Options) : string :=
  "[Interface]" +:+ nl +:+
  "PrivateKey = " +:+ serverKey +:+ nl +:+
  "Address = " +:+ Addr_String Address +:+ "/32, " +:+ Addr_String FarAddress +:+ "/32" +:+ nl +:+
  opt_Obfuscation opts +:+
  "[Peer]" +:+ nl +:+
  "PublicKey = " +:+ clientPublic +:+ nl +:+
  "AllowedIPs = 10.154.1.2/32" +:+ nl.

Definition client_conf (clientKey serverPublic : string) (port : Z) (opts : Options) : string :=
  "[Interface]" +:+ nl +:+
  "PrivateKey = " +:+ clientKey +:+ nl +:+
  "Address = 10.154.1.2/32" +:+ nl +:+
  opt_Obfuscation opts +:+
  "[Peer]" +:+ nl +:+
  "PublicKey = " +:+ serverPublic +:+ nl +:+
  "Endpoint = 127.0.0.1:" +:+ Itoa port +:+ nl +:+
  "AllowedIPs = 10.154.0.0/16" +:+ nl.

Definition wiring (opts : Options) : option Z * option Z :=
  (if (0 <? Delay opts)%Z then Some (Delay opts) else None,
   if (0 <? ExitDelay opts)%Z then Some (ExitDelay opts) else None).

Definition Start (opts : Options) : Test Server :=
  '(serverKey, serverPublic) ← KeyPair;
  '(clientKey, clientPublic) ← KeyPair;
  cfg ← must_be (ParseConfig (server_conf serverKey clientPublic opts));
  dev ← lift next_handle;
  _ ← must (CreateNetTUN (map Addr_String (Addresses cfg)) [] (MTU cfg));
  _ ← lift (perform (NewDevice dev None));
  _ ← Cleanup (DeviceClose dev);
  _ ← must (IpcSet dev ("listen_port=0" +:+ nl +:+ IPC cfg));
  _ ← must (DeviceUp dev);
  port ← ListenPort dev;
  listener ← lift next_handle;
  _ ← must (ListenTCP dev Address 80);
  let server := mkServer (client_conf clientKey serverPublic port opts)
                  ("http://" +:+ Addr_String Address +:+ "/") 0 (wiring opts) in
  _ ← Cleanup (CloseListener listener);
  far ← lift next_handle;
  _ ← must (ListenTCP dev FarAddress 80);
  _ ← Cleanup (CloseListener far);
  mret server.
End Server.

(** The handler of the web server, and [Requests]. *)
Definition web_answer (s : Server) : string * Server :=
  (" " +:+ Addr_String Address +:+ nl, mkServer (ClientConfig s) (URL s) (wrap64 (requests s + 1)) (wired s)).
Definition Requests (s : Server) : Z := requests s.

(** ** Packets held back *)

(** The buffers of the device and the ones made here, by their addresses. *)
Abbreviation memory := (gmap nat (list Z)).

(** A [time.AfterFunc]: when, and the buffers it will hand on, at an offset. *)
Record timer := mkTimer { due : Z; held : list nat; at_offset : Z }.

(** A new buffer. *)
Definition make (contents : list Z) (m : memory) : nat * memory :=
  let r := fresh (dom m) in (r, <[r := contents]> m).

(** What a timer hands on when it fires. *)
Definition fire (m : memory) (t : timer) : option (list (list Z)) := mapM (λ r, m !! r) (held t).

(** Whether a packet is for the far host; [None] would be a panic. *)
Definition for_far (p : list Z) : option bool :=
  if (len p <? 20)%Z then Some false
  else
    b0 ← index p 0;
    if negb (Z.shiftr b0 4 =? 4)%Z then Some false
    else dst ← slice p 16 20; Some (bool_decide (AddrFrom4 dst = FarAddress)).

(** The loop of [farTun.Write]: the packets to write now, the timers, and the
    memory. *)
Fixpoint far_split (bufs : list nat) (offset when : Z) (m : memory)
    : option (list nat * list timer * memory) :=
  match bufs with
  | [] => Some ([], [], m)
  | buf :: bufs =>
      contents ← m !! buf;
      p ← slice contents offset (len contents);
      far ← for_far p;
      if far : bool then
        let '(late, m) := make (replicate (Z.to_nat offset) 0%Z ++ p) m in
        '(now, timers, m) ← far_split bufs offset when m;
        Some (now, mkTimer when [late] offset :: timers, m)
      else
        '(now, timers, m) ← far_split bufs offset when m;
        Some (buf :: now, timers, m)
  end.

(** [farTun.Write]; [inner] is the error of the device inside, if it fails. *)
Definition far_Write (inner : list (list Z) → Z → option error) (delay now_ : Z) (bufs : list nat) (offset : Z)
    (m : memory) : option ((Z * option error) * list (list Z) * list timer * memory) :=
  '(now, timers, m) ← far_split bufs offset (now_ + delay)%Z m;
  written ← mapM (λ r, m !! r) now;
  let failure := match now with [] => None | _ => inner written offset end in
  Some (match failure with Some e => (0%Z, Some e) | None => (len bufs, None) end, written, timers, m).

(** The loop of [delayedBind.Send]: a copy of every packet. *)
Fixpoint copy_all (bufs : list nat) (m : memory) : option (list nat * memory) :=
  match bufs with
  | [] => Some ([], m)
  | buf :: bufs =>
      contents ← m !! buf;
      let '(r, m) := make contents m in
      '(rs, m) ← copy_all bufs m; Some (r :: rs, m)
  end.

(** [delayedBind.Send]. *)
Definition delayed_Send (delay now_ : Z) (bufs : list nat) (m : memory) : option (timer * memory) :=
  '(rs, m) ← copy_all bufs m; Some (mkTimer (now_ + delay) rs 0, m).
