(* ===== verification/AwgTestFacts.v ===== *)
(** * What the tests' server is good for

    The two configurations it makes belong to each other, whatever the device
    answers; a test that uses it leaves nothing open; what is held back for
    later is what was sent. *)

From S2P Require Import Prelude GoStrings GoEncoding NetAddr Awg AwgFacts AwgEndpointFacts AwgConfForm Effects RoutingFacts AwgTest.
From Stdlib Require Import Ascii.
From stdpp Require Import options.

(** ** The two configurations *)

(** A key as a file has it. *)
Record key_bytes (k : list Z) : Prop := { kb_bytes : Forall is_byte k; kb_length : length k = 32 }.

Lemma b64_text_ok k : key_bytes k → text_ok (b64_encode k).
Proof.
  intros [Hb Hl]. pose proof (b64_encode_visible k Hb) as H. split; [|by apply visible_lacks_newline].
  apply ends_visible_sall; [|done]. intros E. pose proof (b64_decode_encode k Hb) as Hd. rewrite E in Hd.
  cbn in Hd. injection Hd as <-. done.
Qed.

Lemma keyToHex_encode k : key_bytes k → keyToHex (b64_encode k) = Ok (hex_encode k).
Proof.
  intros [Hb Hl]. unfold keyToHex. rewrite b64_decode_encode by done. by rewrite bool_decide_true.
Qed.

(** An obfuscation setting: a text, or the header protection key. *)
Inductive setting := Plain (name value : string) | HeaderKey (name : string) (k : list Z).

Definition set_name (s : setting) : string := match s with Plain n _ | HeaderKey n _ => n end.
(** As its line has it, and as it is read. *)
Definition set_text (s : setting) : string := match s with Plain _ v => v | HeaderKey _ k => b64_encode k end.
Definition set_value (s : setting) : string := match s with Plain _ v => v | HeaderKey _ k => hex_encode k end.

Definition setting_text (settings : list setting) : string :=
  text_of_lines (map (λ s, key_line (set_name s) (set_text s)) settings).
Definition settings_read (settings : list setting) (m : gmap string string) : gmap string string :=
  foldl (λ m s, <[ToLower (set_name s) := set_value s]> m) m settings.

(** What a file can carry: a name the reader knows, in any case, and a value on
    its line; for the header protection key, a key. *)
Record carried (s : setting) : Prop := {
  ps_name : names_key (set_name s) (ToLower (set_name s));
  ps_known : ToLower (set_name s) ∈ obfuscationKeys;
  ps_line : lacks newline (set_name s);
  ps_value : match s with
    | Plain _ value => ToLower (set_name s) ≠ "headerprotectionkey" ∧ text_ok value
    | HeaderKey _ k => ToLower (set_name s) = "headerprotectionkey" ∧ key_bytes k
    end;
}.

Lemma carried_text s : carried s → text_ok (set_text s).
Proof. intros [_ _ _ H]. destruct s; [apply H|apply b64_text_ok, H]. Qed.

Lemma carried_set s c : carried s →
  SetObfuscation (ToLower (set_name s)) (set_text s) c =
    Ok (set_Obfuscation (<[ToLower (set_name s) := set_value s]> (Awg.Obfuscation c)) c).
Proof.
  intros [_ _ _ H]. unfold SetObfuscation. destruct s as [n v|n k]; destruct H as [Hn H].
  - by rewrite bool_decide_false.
  - rewrite bool_decide_true by done. cbn [set_text]. by rewrite keyToHex_encode.
Qed.

Lemma reads_settings settings c : Forall carried settings →
  reads (map (λ s, key_line (set_name s) (set_text s)) settings) ("interface", c)
    ("interface", set_Obfuscation (settings_read settings (Awg.Obfuscation c)) c).
Proof.
  intros H. revert c. induction H as [|s settings Hc _ IH]; intros c; cbn [map].
  { destruct c. apply reads_nil. }
  destruct (carried_text s Hc) as [Hv _]. pose proof Hc as [Hn Hk _ _].
  apply (reads_app [_] _ _ ("interface", set_Obfuscation (<[ToLower (set_name s) := set_value s]> (Awg.Obfuscation c)) c)).
  - apply (reads_key _ _ _ _ (ToLower (set_name s))); [done..|]. unfold set_in_section, setInterface.
    by rewrite bool_decide_true, (bool_decide_true (_ ∈ _)), carried_set by done.
  - apply (IH (set_Obfuscation (<[ToLower (set_name s) := set_value s]> (Awg.Obfuscation c)) c)).
Qed.

Definition peer_of (publicKey endpoint allowed : string) : Peer := mkPeer publicKey "" endpoint [allowed] 0.

Section Pair.
Context (settings : list setting) (Hs : Forall carried settings).
Context (opts : Options) (Ho : opt_Obfuscation opts = setting_text settings).

Definition server_config (sk cpub : list Z) : Config :=
  mkConfig (hex_encode sk) [Address; FarAddress] 1420 [] (settings_read settings ∅)
    (peer_of (hex_encode cpub) "" "10.154.1.2/32").
Definition endpoint_of (port : Z) : string := "127.0.0.1:" +:+ Itoa port.
Definition client_config (ck spub : list Z) (port : Z) : Config :=
  mkConfig (hex_encode ck) [AddrFrom4 [10; 154; 1; 2]%Z] 1420 [] (settings_read settings ∅)
    (peer_of (hex_encode spub) (endpoint_of port) "10.154.0.0/16").

Lemma settings_lines : Forall (λ l, lacks newline l) (map (λ s, key_line (set_name s) (set_text s)) settings).
Proof using Hs.
  apply Forall_map. eapply list.Forall_impl; [exact Hs|]. intros s Hs'. destruct (carried_text s Hs') as [_ Hv].
  unfold key_line. by rewrite !sall_app, (ps_line s Hs'), Hv.
Qed.

Lemma key_line_lacks name value : lacks newline name → text_ok value → lacks newline (key_line name value).
Proof using Type. intros Hn [_ Hv]. unfold key_line. by rewrite !sall_app, Hn, Hv. Qed.

(** What both files have in common: a key, an address, the settings, a peer. *)
Definition conf_lines (k address pub : string) (rest : list string) : list string :=
  ["[Interface]"; key_line "PrivateKey" k; key_line "Address" address] ++
  map (λ s, key_line (set_name s) (set_text s)) settings ++ ["[Peer]"; key_line "PublicKey" pub] ++ rest.

Lemma hex_encode_not_empty k : key_bytes k → hex_encode k ≠ "".
Proof using Type. intros [_ Hl] H. pose proof (hex_encode_length k) as E. rewrite H, Hl in E. done. Qed.

Lemma ParseConfig_lines k pub address addrs rest p :
  key_bytes k → key_bytes pub → text_ok address → parseAddrList address = Ok addrs → addrs ≠ [] →
  Forall (λ l, lacks newline l) rest → PublicKey p = hex_encode pub →
  (∀ c, peer c = set_PublicKey (hex_encode pub) zero_peer → reads rest ("peer", c) ("peer", set_peer p c)) →
  ParseConfig (text_of_lines (conf_lines (b64_encode k) address (b64_encode pub) rest)) =
    Ok (mkConfig (hex_encode k) addrs 1420 [] (settings_read settings ∅) p).
Proof using Hs.
  intros Hk Hpub Ht Ha Hne Hl Hp Hr. pose proof (b64_text_ok k Hk). pose proof (b64_text_ok pub Hpub).
  apply (ParseConfig_reads _ "peer");
    [| |by apply hex_encode_not_empty|cbn; rewrite Hp; by apply hex_encode_not_empty|done].
  { unfold conf_lines. rewrite !list.Forall_app, !list.Forall_cons.
    split_and!; auto using settings_lines, key_line_lacks; try done; by apply key_line_lacks. }
  unfold conf_lines. apply (reads_app [_] _ _ _ _ (proj1 (reads_header _ _))).
  eapply (reads_app [_]); [apply reads_private; [done|by apply keyToHex_encode]|].
  eapply (reads_app [_]).
  { apply (reads_addresses [address]); [constructor; [done|constructor]|]. cbn. rewrite Ha. reflexivity. }
  eapply reads_app; [by apply reads_settings|].
  apply (reads_app [_] _ _ _ _ (proj2 (reads_header _ _))).
  eapply (reads_app [_]).
  { eapply (reads_peer_key _ "publickey"); [names|by apply b64_text_ok| |reflexivity].
    match goal with |- peer_set _ _ ?q = _ => change (peer_set _ _ q) with
      (h ← wrap [Lit "PublicKey: "] (keyToHex (b64_encode pub)); Ok (set_PublicKey h q)) end.
    by rewrite keyToHex_encode. }
  apply Hr. reflexivity.
Qed.

Lemma endpoint_text_ok port : text_ok (endpoint_of port).
Proof using Type.
  split; [by apply (ends_visible_app "1" "27.0.0.1:"), Itoa_visible|].
  unfold endpoint_of. rewrite sall_app. apply andb_true_iff. split; [done|by apply Itoa_lacks].
Qed.

Lemma reads_allowed_one text pub endpoint c : text_ok text → lacks "," text →
  peer c = mkPeer pub "" endpoint [] 0 →
  reads [key_line "AllowedIPs" text] ("peer", c) ("peer", set_peer (peer_of pub endpoint text) c).
Proof using Type.
  intros H1 H2 Hc. pose proof (reads_allowed [text] c ltac:(by repeat first [apply Forall_cons_2|apply Forall_nil_2])) as H.
  by rewrite Hc in H.
Qed.

(** The two files, read. *)
Lemma ParseConfig_server sk cpub : key_bytes sk → key_bytes cpub →
  ParseConfig (server_conf (b64_encode sk) (b64_encode cpub) opts) = Ok (server_config sk cpub).
Proof using Hs Ho.
  intros Hsk Hpub.
  assert (server_conf (b64_encode sk) (b64_encode cpub) opts = text_of_lines (conf_lines (b64_encode sk)
    "10.154.1.1/32, 10.154.2.1/32" (b64_encode cpub) [key_line "AllowedIPs" "10.154.1.2/32"])) as ->.
  { unfold server_conf, conf_lines, text_of_lines. rewrite Ho. unfold setting_text, text_of_lines.
    rewrite !map_app, !sconcat_app. unfold key_line. cbn [map sconcat app]. rewrite !sapp_assoc. cbn. by rewrite ?sapp_nil_r. }
  apply ParseConfig_lines; try done; try (split; reflexivity); [by repeat constructor|].
  intros c Hc. by apply reads_allowed_one.
Qed.

Lemma ParseConfig_client ck spub port : key_bytes ck → key_bytes spub →
  ParseConfig (client_conf (b64_encode ck) (b64_encode spub) port opts) = Ok (client_config ck spub port).
Proof using Hs Ho.
  intros Hck Hpub.
  assert (client_conf (b64_encode ck) (b64_encode spub) port opts = text_of_lines (conf_lines (b64_encode ck)
    "10.154.1.2/32" (b64_encode spub) [key_line "Endpoint" (endpoint_of port); key_line "AllowedIPs" "10.154.0.0/16"])) as ->.
  { unfold client_conf, conf_lines, text_of_lines. rewrite Ho. unfold setting_text, text_of_lines.
    rewrite !map_app, !sconcat_app. unfold key_line, endpoint_of. cbn [map sconcat app].
    rewrite !sapp_assoc. cbn. by rewrite ?sapp_assoc. }
  apply ParseConfig_lines; try done; try (split; reflexivity).
  { repeat constructor. by apply key_line_lacks, endpoint_text_ok. }
  intros c Hc. apply (reads_app [_] _ _ ("peer", set_peer (mkPeer (hex_encode spub) "" (endpoint_of port) [] 0) c)).
  - eapply (reads_peer_key _ "endpoint"); [names|apply endpoint_text_ok|by rewrite Hc|reflexivity].
  - by apply (reads_allowed_one _ _ _ (set_peer (mkPeer (hex_encode spub) "" (endpoint_of port) [] 0) c)).
Qed.
End Pair.

(** ** [Start] *)

(** What holds when a step of a test has not ended it. *)
Definition reached {A} (m : Test A) (Q : A → history → Prop) (cleanups : list call) (h : history) : Prop :=
  wlp (m cleanups) (λ r h', ∀ a, r.1 = Ok a → Q a h') h.

Section Reached.
Context {env : Env} {A B : Type}.

Lemma reached_bind (m : Test A) (k : A → Test B) Q cl h :
  reached m (λ a h', ∀ cl', reached (k a) Q cl' h') cl h → reached (m ≫= k) Q cl h.
Proof.
  intros H. apply wlp_bind. eapply wlp_mono; [|exact H]. intros [[a|e] cl'] h' Ha; cbn [fst] in Ha.
  - by apply Ha.
  - by apply wlp_ret.
Qed.

Lemma reached_ret (a : A) (Q : A → history → Prop) cl h : Q a h → reached (mret a) Q cl h.
Proof. intros H. apply wlp_ret. by intros a' [= <-]. Qed.
Lemma reached_Fatal e (Q : A → history → Prop) cl h : reached (Fatal e) Q cl h.
Proof. by apply wlp_ret. Qed.
Lemma reached_must_be (r : result A) (Q : A → history → Prop) cl h :
  (∀ a, r = Ok a → Q a h) → reached (must_be r) Q cl h.
Proof. intros H. destruct r; [apply reached_ret; auto|apply reached_Fatal]. Qed.
Lemma reached_lift (m : IO A) (Q : A → history → Prop) cl h : wlp m Q h → reached (lift m) Q cl h.
Proof. intros H. apply wlp_bind. eapply wlp_mono; [|exact H]. intros a h' Ha. apply wlp_ret. by intros a' [= <-]. Qed.
End Reached.

Lemma reached_Cleanup c (Q : unit → history → Prop) cl h : Q tt h → reached (Cleanup c) Q cl h.
Proof. intros H. apply wlp_ret. by intros [] _. Qed.
Lemma reached_must {env : Env} c (Q : outcome → history → Prop) cl h :
  (∀ o, failed o = false → Q o (h ++ [(c, o)])) → reached (must c) Q cl h.
Proof.
  intros H. apply reached_bind, reached_lift, wlp_perform. intros cl'. destruct (answer h c) eqn:E;
    first [by apply reached_Fatal | by apply reached_ret, H].
Qed.

(** The two ends of a tunnel: each has the public key of the other's private
    key; they agree on the obfuscation; the server is where the client sends
    to, and takes the client's address, as the client takes the server's. *)
Definition belong (X25519 : list Z → result (list Z)) (server client : Config) (port : Z) : Prop :=
  (∃ sk spub, X25519 sk = Ok spub ∧ PrivateKey server = hex_encode sk ∧ PublicKey (peer client) = hex_encode spub) ∧
  (∃ ck cpub, X25519 ck = Ok cpub ∧ PrivateKey client = hex_encode ck ∧ PublicKey (peer server) = hex_encode cpub) ∧
  Awg.Obfuscation client = Awg.Obfuscation server ∧
  Endpoint (peer client) = endpoint_of port ∧ Endpoint (peer server) = "" ∧
  AllowedIPs (peer server) = map (λ a, Addr_String a +:+ "/32") (Addresses client) ∧
  Addresses server = [Address; FarAddress] ∧ AllowedIPs (peer client) = ["10.154.0.0/16"].

(** A property of all bytes, checked one by one. *)
Lemma every_byte (P : Z → Prop) `{!∀ z, Decision (P z)} b :
  forallb (λ n, bool_decide (P (Z.of_nat n))) (seq 0 256) = true → is_byte b → P b.
Proof.
  intros Hall [H1 H2]. rewrite forallb_forall in Hall. specialize (Hall (Z.to_nat b)). rewrite Z2Nat.id in Hall by done.
  apply (bool_decide_eq_true_1 _), Hall, in_seq. lia.
Qed.
Definition byte_range (z : Z) : Prop := (0 ≤ z < 256)%Z.
#[local] Instance byte_range_dec z : Decision (byte_range z).
Proof. unfold byte_range. apply _. Defined.

Lemma key_bytes_clamp o : key_bytes (clamp (filled 32 o)).
Proof.
  assert (length (filled 32 o) = 32 ∧ Forall is_byte (filled 32 o)) as [Hl Hb].
  { assert (Forall is_byte (replicate 32 0%Z)) as Hz by (apply Forall_replicate; unfold is_byte; lia).
    destruct o; cbn [filled]; try (split; [by rewrite length_replicate|done]). split.
    - rewrite length_take, length_app, length_replicate. lia.
    - apply Forall_take, list.Forall_app. split; [|done]. apply Forall_map, list.Forall_forall.
      intros c _. pose proof (code_range c). unfold is_byte. lia. }
  split; [|unfold clamp; by rewrite !length_alter].
  unfold clamp. apply Forall_alter; [apply Forall_alter; [done|]|]; intros b _ Hbyte.
  - by apply (every_byte (λ b, byte_range (Z.land b 248))); [vm_compute; reflexivity|].
  - by apply (every_byte (λ b, byte_range (Z.lor (Z.land b 127) 64))); [vm_compute; reflexivity|].
Qed.

Section Start.
Context {env : Env} (X25519 : list Z → result (list Z)).
Context (Hcurve : ∀ k pub, key_bytes k → X25519 k = Ok pub → key_bytes pub).
Context (settings : list setting) (Hs : Forall carried settings).
Context (opts : Options) (Ho : opt_Obfuscation opts = setting_text settings).

Lemma reached_KeyPair (Q : string * string → history → Prop) cl h :
  (∀ k pub h', key_bytes k → key_bytes pub → X25519 k = Ok pub → Q (b64_encode k, b64_encode pub) h') →
  reached (KeyPair X25519) Q cl h.
Proof using Hcurve.
  intros H. apply reached_bind, reached_must. intros o _ cl1. apply reached_bind, reached_must_be. intros pub Hp cl2.
  apply reached_ret, H; eauto using key_bytes_clamp.
Qed.

Lemma reached_ListenPort dev (Q : Z → history → Prop) cl h :
  (∀ uapi port, reported_port (Split uapi newline) = Some port → Q port (h ++ [(IpcGet dev, Output uapi)])) →
  reached (ListenPort dev) Q cl h.
Proof using Type.
  intros H. apply reached_bind, reached_must. intros o Hf cl1.
  destruct o; try by apply reached_Fatal. cbv beta iota zeta. destruct (reported_port (Split s newline)) as [port|] eqn:E; [|by apply reached_Fatal].
  by apply reached_ret, H.
Qed.

(** What a server is when it has started. *)
Definition ready (s : Server) (h : history) : Prop :=
  ∃ dev server client uapi port,
    ParseConfig (ClientConfig s) = Ok client ∧ belong X25519 server client port ∧
    (∃ o, failed o = false ∧ (IpcSet dev ("listen_port=0" +:+ nl +:+ IPC server), o) ∈ h) ∧
    (IpcGet dev, Output uapi) ∈ h ∧ reported_port (Split uapi newline) = Some port ∧
    Awg.Obfuscation server = settings_read settings ∅.

Lemma reached_Start cl h : reached (Start X25519 opts) ready cl h.
Proof using Hcurve Hs Ho.
  apply reached_bind, reached_KeyPair. intros sk spub h1 Hsk Hspub Es cl1.
  apply reached_bind, reached_KeyPair. intros ck cpub h2 Hck Hcpub Ec cl2.
  apply reached_bind, reached_must_be. intros cfg Hcfg cl3.
  rewrite (ParseConfig_server settings Hs opts Ho) in Hcfg by done. injection Hcfg as <-.
  apply reached_bind, reached_lift. change (wlp next_handle ?Q h2) with (Q (length h2) h2). intros cl4.
  apply reached_bind, reached_must. intros o1 _ cl5.
  apply reached_bind, reached_lift, wlp_perform. intros cl6. apply reached_bind, reached_Cleanup. intros cl7.
  apply reached_bind, reached_must. intros o2 H2 cl8. apply reached_bind, reached_must. intros o3 _ cl9.
  apply reached_bind, reached_ListenPort. intros uapi port Hp cl10.
  apply reached_bind, reached_lift. match goal with |- wlp next_handle ?Q ?h => change (Q (length h) h) end. intros cl11.
  apply reached_bind, reached_must. intros o4 _ cl12. apply reached_bind, reached_Cleanup. intros cl13.
  apply reached_bind, reached_lift. match goal with |- wlp next_handle ?Q ?h => change (Q (length h) h) end. intros cl14.
  apply reached_bind, reached_must. intros o5 _ cl15. apply reached_bind, reached_Cleanup. intros cl16.
  apply reached_ret. exists (length h2), (server_config settings sk cpub), (client_config settings ck spub port), uapi, port.
  split; [by apply ParseConfig_client|]. split; [|split_and!].
  - split_and!; [by eauto..|reflexivity|reflexivity|reflexivity|reflexivity|reflexivity|reflexivity].
  - exists o2. split; [done|]. rewrite !elem_of_app, !list_elem_of_singleton. auto 12.
  - rewrite !elem_of_app, !list_elem_of_singleton. auto 12.
  - done.
  - reflexivity.
Qed.
End Start.

(** ** What a test leaves behind *)

(** The sockets that are open, by the calls that opened them. *)
Definition socket_step (n : nat) (s : gset nat) (co : call * outcome) : gset nat :=
  match co.1 with
  | ListenTCP _ _ _ | ListenUDP _ _ => if failed co.2 then s else {[n]} ∪ s
  | CloseListener k => s ∖ {[k]}
  | _ => s
  end.
Definition sockets : history → gset nat := tally socket_step ∅.

Lemma sockets_snoc h co : sockets (h ++ [co]) = socket_step (length h) (sockets h) co.
Proof. apply tally_snoc. Qed.

Lemma sockets_lt h k : k ∈ sockets h → k < length h.
Proof.
  induction h as [|[c o] h IH] using rev_ind; [cbn; set_solver|].
  rewrite sockets_snoc, length_app. cbn [length]. unfold socket_step. cbn [fst snd].
  assert (k ∈ sockets h → k < length h + 1) by (intros H; specialize (IH H); lia).
  assert (k ∈ {[length h]} ∪ sockets h → k < length h + 1) by (rewrite elem_of_union, elem_of_singleton; intros [->|?]; [lia|auto]).
  destruct c; auto; try (destruct (failed o); auto); set_solver.
Qed.

(** What the calls registered will close. *)
Definition devices_of (cleanups : list call) : gset nat :=
  list_to_set (omap (λ c, match c with DeviceClose d => Some d | _ => None end) cleanups).
Definition sockets_of (cleanups : list call) : gset nat :=
  list_to_set (omap (λ c, match c with CloseListener l => Some l | _ => None end) cleanups).
Definition closing (c : call) : Prop := match c with DeviceClose _ | CloseListener _ => True | _ => False end.

(** Calls that open and close neither interfaces nor sockets. *)
Definition indifferent (c : call) : bool :=
  neutral c && match c with ListenTCP _ _ _ | ListenUDP _ _ | CloseListener _ => false | _ => true end.

Lemma indifferent_keeps h c o : indifferent c = true →
  opened (h ++ [(c, o)]) = opened h ∧ sockets (h ++ [(c, o)]) = sockets h.
Proof.
  unfold indifferent. intros [H1 H2]%andb_true_iff. rewrite opened_snoc, sockets_snoc.
  split; [by destruct c|by destruct c].
Qed.

Create HintDb tidy.

Section Tidy.
Context {env : Env}.

Lemma wp_finish cl h : Forall closing cl →
  wp (finish cl) (λ _ h', opened h' = opened h ∖ devices_of cl ∧ sockets h' = sockets h ∖ sockets_of cl) h.
Proof.
  unfold finish. revert h. induction cl as [|c cl IH] using rev_ind; intros h H.
  { apply wp_ret. unfold devices_of, sockets_of. cbn. set_solver. }
  apply list.Forall_app in H as [Hcl Hc]. apply list.Forall_cons in Hc as [Hc _]. rewrite rev_app_distr. cbn [rev app foldr].
  apply wp_bind, wp_perform. eapply wp_mono; [|by apply IH]. intros [] h' [-> ->].
  rewrite opened_snoc, sockets_snoc. unfold devices_of, sockets_of. rewrite !omap_app, !list_to_set_app_L.
  generalize (opened h), (sockets h), (length h). intros os ss n.
  destruct c; try done; cbn; split; set_solver.
Qed.

(** What is open is what was open before, and what will be closed. *)
Definition owes (o s : gset nat) (cl : list call) (h : history) : Prop :=
  opened h = o ∪ devices_of cl ∧ sockets h = s ∪ sockets_of cl ∧
  Forall closing cl ∧ devices_of cl ## o ∧ sockets_of cl ## s.

Definition tidy {A} (m : Test A) : Prop :=
  ∀ o s cl h, owes o s cl h → wp (m cl) (λ r h', owes o s r.2 h') h.

Lemma tidy_ret {A} (a : A) : tidy (mret a).
Proof. intros o s cl h H. by apply wp_ret. Qed.
Lemma tidy_Fatal {A} e : tidy (@Fatal A e).
Proof. intros o s cl h H. by apply wp_ret. Qed.
Lemma tidy_bind {A B} (m : Test A) (k : A → Test B) : tidy m → (∀ a, tidy (k a)) → tidy (m ≫= k).
Proof.
  intros Hm Hk o s cl h H. apply wp_bind. eapply wp_mono; [|by apply Hm]. intros [[a|e] cl'] h' H'.
  - by apply Hk.
  - by apply wp_ret.
Qed.
Lemma tidy_must_be {A} (r : result A) : tidy (must_be r).
Proof. destruct r; [apply tidy_ret|apply tidy_Fatal]. Qed.

Lemma owes_indifferent o s cl h c a : indifferent c = true → owes o s cl h → owes o s cl (h ++ [(c, a)]).
Proof. intros Hc. unfold owes. by destruct (indifferent_keeps h c a Hc) as [-> ->]. Qed.

Lemma tidy_perform c : indifferent c = true → tidy (lift (perform c)).
Proof. intros Hc o s cl h H. apply wp_bind, wp_perform, wp_ret. by apply owes_indifferent. Qed.
Lemma tidy_must c : indifferent c = true → tidy (must c).
Proof.
  intros Hc. apply tidy_bind; [by apply tidy_perform|]. intros o. destruct o; auto using tidy_ret, tidy_Fatal.
Qed.

Lemma wp_test_bind {A B} (m : Test A) (k : A → Test B) Q cl h :
  wp (m cl) (λ r h', match r.1 with Ok a => wp (k a r.2) Q h' | Err e => Q (Err e, r.2) h' end) h →
  wp ((m ≫= k) cl) Q h.
Proof. intros H. apply wp_bind. eapply wp_mono; [|exact H]. by intros [[a|e] cl'] h'. Qed.

Lemma wp_must c Q cl h :
  (∀ e, failed (answer h c) = true → Q (Err e, cl) (h ++ [(c, answer h c)])) →
  (∀ o, failed (answer h c) = false → Q (Ok o, cl) (h ++ [(c, answer h c)])) → wp (must c cl) Q h.
Proof.
  intros Hbad Hgood. apply wp_test_bind, wp_bind, wp_perform, wp_ret. cbn.
  destruct (answer h c) eqn:E; first [by apply wp_ret, Hbad | by apply wp_ret, Hgood].
Qed.

(** An opening that failed, and one that is registered. *)
Lemma owes_not_opened o s cl h c a : failed a = true →
  match c with TunClose _ | DeviceClose _ | CloseListener _ => False | _ => True end →
  owes o s cl h → owes o s cl (h ++ [(c, a)]).
Proof.
  intros Hf Hc. unfold owes. rewrite opened_snoc, sockets_snoc. unfold open_step, socket_step. cbn.
  destruct c; try done; by rewrite Hf.
Qed.

Lemma owes_device o s cl h c a : failed a = false → (∃ addrs dns mtu, c = CreateNetTUN addrs dns mtu) →
  owes o s cl h → owes o s (cl ++ [DeviceClose (length h)]) (h ++ [(c, a)]).
Proof.
  intros Hf (addrs & dns & mtu & ->) (H1 & H2 & H3 & H4 & H5).
  assert (length h ∉ opened h) as Hfresh by (intros ?%opened_lt; lia). rewrite H1 in Hfresh.
  unfold owes. rewrite opened_snoc, sockets_snoc. unfold open_step, socket_step. cbn. rewrite Hf, H1, H2.
  unfold devices_of, sockets_of in *. rewrite !omap_app, !list_to_set_app_L. cbn.
  split_and!; [set_solver|set_solver| |set_solver|set_solver].
  apply list.Forall_app. by repeat constructor.
Qed.

Lemma owes_socket o s cl h c a : failed a = false → (∃ dev address port, c = ListenTCP dev address port) →
  owes o s cl h → owes o s (cl ++ [CloseListener (length h)]) (h ++ [(c, a)]).
Proof.
  intros Hf (dev & address & port & ->) (H1 & H2 & H3 & H4 & H5).
  assert (length h ∉ sockets h) as Hfresh by (intros ?%sockets_lt; lia). rewrite H2 in Hfresh.
  unfold owes. rewrite opened_snoc, sockets_snoc. unfold open_step, socket_step. cbn. rewrite Hf, H1, H2.
  unfold devices_of, sockets_of in *. rewrite !omap_app, !list_to_set_app_L. cbn.
  split_and!; [set_solver|set_solver| |set_solver|set_solver].
  apply list.Forall_app. by repeat constructor.
Qed.

(** What is opened is registered before anything else can fail. *)
Lemma tidy_device {A} addrs dns mtu (k : nat → Test A) : (∀ dev, tidy (k dev)) →
  tidy (dev ← lift next_handle; _ ← must (CreateNetTUN addrs dns mtu); _ ← lift (perform (NewDevice dev None));
        _ ← Cleanup (DeviceClose dev); k dev).
Proof.
  intros Hk o s cl h H. apply wp_test_bind, wp_bind.
  match goal with |- wp next_handle ?Q h => change (Q (length h) h) end. apply wp_ret. cbn.
  apply wp_test_bind, wp_must; cbn; [intros e Hf; by apply owes_not_opened|intros a Hf].
  apply wp_test_bind, wp_bind, wp_perform, wp_ret. cbn. apply wp_test_bind, wp_ret. cbn.
  apply Hk, owes_indifferent; [done|]. apply owes_device; eauto.
Qed.

Lemma tidy_listen {A} dev address port (k : nat → Test A) : (∀ l, tidy (k l)) →
  tidy (l ← lift next_handle; _ ← must (ListenTCP dev address port); _ ← Cleanup (CloseListener l); k l).
Proof.
  intros Hk o s cl h H. apply wp_test_bind, wp_bind.
  match goal with |- wp next_handle ?Q h => change (Q (length h) h) end. apply wp_ret. cbn.
  apply wp_test_bind, wp_must; cbn; [intros e Hf; by apply owes_not_opened|intros a Hf].
  apply wp_test_bind, wp_ret. cbn. apply Hk, owes_socket; eauto.
Qed.

Lemma tidy_FreeUDPPort : tidy FreeUDPPort.
Proof.
  intros o s cl h H. apply wp_test_bind, wp_bind.
  match goal with |- wp next_handle ?Q h => change (Q (length h) h) end. apply wp_ret. cbn.
  apply wp_test_bind, wp_must; cbn; [intros e Hf; by apply owes_not_opened|intros a Hf].
  apply wp_test_bind, wp_bind, wp_perform, wp_ret. cbn. apply wp_ret.
  destruct H as (H1 & H2 & H3 & H4 & H5).
  assert (length h ∉ sockets h) as Hfresh by (intros ?%sockets_lt; lia). unfold owes.
  rewrite !opened_snoc, !sockets_snoc. unfold open_step, socket_step. cbn. rewrite Hf, H1.
  split_and!; [done| |done..]. rewrite <- H2. set_solver.
Qed.

Section Start.
Context (X25519 : list Z → result (list Z)).

Hint Resolve tidy_ret tidy_Fatal tidy_bind tidy_must_be tidy_device tidy_listen : tidy.
Hint Extern 1 (tidy (must _)) => (apply tidy_must; reflexivity) : tidy.

Lemma tidy_KeyPair : tidy (KeyPair X25519).
Proof. unfold KeyPair. auto with tidy. Qed.
Lemma tidy_ListenPort dev : tidy (ListenPort dev).
Proof.
  unfold ListenPort. apply tidy_bind; [auto with tidy|]. intros o. cbv zeta. destruct (reported_port _); auto with tidy.
Qed.
Hint Resolve tidy_KeyPair tidy_ListenPort : tidy.

Lemma tidy_Start opts : tidy (Start X25519 opts).
Proof.
  unfold Start. do 2 (apply tidy_bind; [auto with tidy|intros [? ?]]).
  apply tidy_bind; [auto with tidy|]. intros cfg. apply tidy_device. intros dev.
  do 3 (apply tidy_bind; [auto with tidy|intros ?]).
  apply tidy_listen. intros l. apply tidy_listen. auto with tidy.
Qed.
End Start.

(** A test that is tidy leaves nothing. *)
Lemma run_test_leaves {A} (m : Test A) h : tidy m →
  ∃ r h', run_test m h = (Some r, h') ∧ opened h' = opened h ∧ sockets h' = sockets h.
Proof.
  intros Hm.
  assert (wp (run_test m) (λ _ h', opened h' = opened h ∧ sockets h' = sockets h) h) as H.
  { apply wp_bind. eapply wp_mono; [|apply (Hm (opened h) (sockets h) [])].
    - intros r h1 (H1 & H2 & H3 & H4 & H5). apply wp_bind. eapply wp_mono; [|by apply wp_finish].
      intros [] h2 [E1 E2]. apply wp_ret. rewrite E1, E2, H1, H2. split; set_solver.
    - unfold owes, devices_of, sockets_of. cbn. split_and!; [set_solver..|constructor|set_solver|set_solver]. }
  apply wp_eq in H as (r & h' & ? & ?). eauto.
Qed.
End Tidy.

(** ** Packets held back *)

Abbreviation contents m := (λ r : nat, (m : memory) !! r).

(** [m2] has everything [m'] has that [m] has not: whoever held buffers at [m]
    may have done with them what they like. *)
Definition spares (m m' m2 : memory) : Prop := ∀ r c, m !! r = None → m' !! r = Some c → m2 !! r = Some c.

Lemma make_spec c m : let '(r, m') := make c m in m !! r = None ∧ m' !! r = Some c ∧ m ⊆ m'.
Proof.
  cbn. assert (m !! fresh (dom m) = None) as H by (apply not_elem_of_dom, is_fresh).
  split_and!; [done|apply lookup_insert_eq|by apply insert_subseteq].
Qed.

Lemma contents_weaken bufs (m m' : memory) cs : m ⊆ m' → mapM (contents m) bufs = Some cs → mapM (contents m') bufs = Some cs.
Proof.
  intros Hm. revert cs. induction bufs as [|b bufs IH]; intros cs; cbn; [done|].
  destruct (m !! b) as [c|] eqn:E; cbn; [|done]. rewrite (lookup_weaken _ _ _ _ E Hm). cbn.
  destruct (mapM (contents m) bufs) as [cs'|]; cbn; [|done]. intros [= <-]. by rewrite (IH cs').
Qed.

Lemma spares_step m m1 m' m2 : m ⊆ m1 → spares m m' m2 → spares m1 m' m2.
Proof. intros H Hs r c Hr. apply Hs. by apply (lookup_weaken_None _ _ _ Hr). Qed.

Lemma copy_all_spec bufs m cs : mapM (contents m) bufs = Some cs →
  ∃ rs m', copy_all bufs m = Some (rs, m') ∧ m ⊆ m' ∧
    ∀ m2, spares m m' m2 → mapM (contents m2) rs = Some cs.
Proof.
  revert m cs. induction bufs as [|b bufs IH]; intros m cs; cbn.
  { intros [= <-]. exists [], m. by split_and!. }
  destruct (m !! b) as [c|]; cbn; [|done].
  destruct (mapM (contents m) bufs) as [cs'|] eqn:E; cbn; [|done]. intros [= <-].
  pose proof (make_spec c m) as Hmake. unfold make in Hmake. destruct Hmake as (H1 & H2 & H3).
  destruct (IH _ cs' (contents_weaken _ _ _ _ H3 E)) as (rs & m' & -> & H4 & H5).
  eexists _, m'. split; [reflexivity|]. split; [by etrans|]. intros m2 Hs. cbn.
  rewrite (Hs _ _ H1 (lookup_weaken _ _ _ _ H2 H4)). cbn.
  by rewrite (H5 m2 (spares_step _ _ _ _ H3 Hs)).
Qed.

Lemma for_far_total p : ∃ b, for_far p = Some b.
Proof.
  unfold for_far. destruct (len p <? 20)%Z eqn:E; [eauto|]. apply Z.ltb_ge in E.
  destruct (index_in_bounds p 0) as [b0 ->]; [lia|]. cbn. destruct (negb _); [eauto|].
  destruct (slice_in_bounds p 16 20) as (l & -> & _); [lia..|]. cbn. eauto.
Qed.

(** A packet at [offset] in a buffer, and whether it goes far. *)
Definition packet_at (offset : Z) (c : list Z) : list Z := drop (Z.to_nat offset) c.
Definition goes_far (offset : Z) (c : list Z) : Prop := for_far (packet_at offset c) = Some true.

#[local] Instance goes_far_dec offset c : Decision (goes_far offset c).
Proof. unfold goes_far. apply _. Defined.

Lemma slice_packet offset c : (0 ≤ offset ≤ len c)%Z → slice c offset (len c) = Some (packet_at offset c).
Proof.
  intros H. unfold slice, len in *. rewrite (proj2 (Z.leb_le 0 offset)), (proj2 (Z.leb_le offset _)), Z.leb_refl by lia.
  cbn [andb]. f_equal. unfold packet_at. apply take_ge. rewrite length_drop. lia.
Qed.

Lemma far_split_spec bufs offset when m cs :
  (0 ≤ offset)%Z → mapM (contents m) bufs = Some cs → Forall (λ c, (offset ≤ len c)%Z) cs →
  ∃ now timers m', far_split bufs offset when m = Some (now, timers, m') ∧ m ⊆ m' ∧
    mapM (contents m') now = Some (filter (λ c, ¬ goes_far offset c) cs) ∧
    Forall (λ t, due t = when ∧ at_offset t = offset) timers ∧
    ∀ m2, spares m m' m2 → map (fire m2) timers =
      map (λ c, Some [replicate (Z.to_nat offset) 0%Z ++ packet_at offset c]) (filter (goes_far offset) cs).
Proof.
  intros H0. revert m cs. induction bufs as [|b bufs IH]; intros m cs; cbn [mapM far_split].
  { intros [= <-] _. exists [], [], m. by split_and!. }
  cbn. destruct (m !! b) as [c|] eqn:Hb; cbn; [|done].
  destruct (mapM (contents m) bufs) as [cs'|] eqn:E; cbn; [|done]. intros [= <-] [Hc Hcs]%list.Forall_cons.
  rewrite slice_packet by done. cbn [mbind option_bind].
  destruct (for_far_total (packet_at offset c)) as [far Hfar]. rewrite Hfar. cbn [mbind option_bind].
  rewrite !filter_cons. destruct far.
  - pose proof (make_spec (replicate (Z.to_nat offset) 0%Z ++ packet_at offset c) m) as Hmake.
    unfold make in Hmake. destruct Hmake as (H1 & H2 & H3).
    destruct (IH _ cs' (contents_weaken _ _ _ _ H3 E) Hcs) as (now & timers & m' & -> & H4 & H5 & H6 & H7). cbn.
    eexists _, _, m'. split; [reflexivity|]. split; [by etrans|].
    rewrite decide_False by (intros Hn; by apply Hn). rewrite decide_True by done.
    split_and!; [done|by constructor|].
    intros m2 Hs. cbn. rewrite (H7 m2 (spares_step _ _ _ _ H3 Hs)). f_equal. unfold fire. cbn.
    by rewrite (Hs _ _ H1 (lookup_weaken _ _ _ _ H2 H4)).
  - destruct (IH m cs' E Hcs) as (now & timers & m' & -> & H4 & H5 & H6 & H7). cbn.
    eexists _, _, m'. split; [reflexivity|]. split; [done|].
    rewrite decide_True by (unfold goes_far; congruence). rewrite decide_False by (unfold goes_far; congruence).
    split_and!; [|done..]. cbn. by rewrite (lookup_weaken _ _ _ _ Hb H4), H5.
Qed.

(** ** Properties *)

(** C34: The server of the tests and the client it is for belong together.  On
    any machine, with any curve that gives keys, and any obfuscation settings a
    file can carry (names the reader knows, values on their line, the header
    protection key in base64 included), once [Start] has not ended the test:
    the text it gives reads as a client's configuration, the device was given a
    server's, and the two fit: each knows the public key of the other's private
    key, they share the settings, read as they were given, the client sends to
    the very port the device reported it listens on, and each takes the other's
    addresses. *)
Theorem Start_makes_a_pair {env : Env} X25519 settings opts cleanups h s cleanups' h' :
  (∀ k pub, key_bytes k → X25519 k = Ok pub → key_bytes pub) →
  Forall carried settings → opt_Obfuscation opts = setting_text settings →
  Start X25519 opts cleanups h = (Some (Ok s, cleanups'), h') → ready X25519 settings s h'.
Proof.
  intros Hcurve Hs Ho Hrun. pose proof (reached_Start X25519 Hcurve settings Hs opts Ho cleanups h) as H.
  exact (wlp_eq _ _ _ _ _ H Hrun s eq_refl).
Qed.

(** The settings of the constant, a loopback, and a curve that will do. *)
Definition full_settings : list setting :=
  [Plain "Jc" "4"; Plain "Jmin" "10"; Plain "Jmax" "50"; Plain "S1" "31"; Plain "S2" "17";
   Plain "H1" "1000000-1000100"; Plain "H2" "2000000-2000100"; Plain "H3" "3000000-3000100"; Plain "H4" "4000000-4000100"].
Example Obfuscation_settings : Obfuscation = setting_text full_settings.
Proof. reflexivity. Qed.
Lemma full_settings_carried : Forall carried full_settings.
Proof. repeat (constructor; [split; [names|by apply (bool_decide_eq_true_1 _)|done|split; [done|split; reflexivity]]|]). constructor. Qed.
Example header_key_carried : carried (HeaderKey "HeaderProtectionKey" (replicate 32 3%Z)).
Proof.
  split; [names|by apply (bool_decide_eq_true_1 _)|done|]. split; [done|]. split; [|done]. apply Forall_replicate. done.
Qed.

Definition loopback : Env := λ h c,
  match c with
  | RandRead n => Output (bytes (replicate (Z.to_nat n) (Z.of_nat (length h) + 200)%Z))
  | IpcGet _ => Output ("private_key=00" +:+ nl +:+ "listen_port=51820" +:+ nl +:+ "fwmark=0" +:+ nl)
  | _ => Output ""
  end.
Definition mirror (k : list Z) : result (list Z) := Ok (reverse k).
Definition full : Options := mkOptions Obfuscation 0 0.

Lemma mirror_gives_keys k pub : key_bytes k → mirror k = Ok pub → key_bytes pub.
Proof.
  intros [Hb Hl] [= <-]. split; [|by rewrite length_reverse]. apply list.Forall_forall. intros x Hx.
  rewrite list.Forall_forall in Hb. by apply Hb, elem_of_reverse.
Qed.

Lemma Start_makes_a_pair_witness :
  ∃ s cleanups h, @Start loopback mirror full [] [] = (Some (Ok s, cleanups), h) ∧
    ready mirror full_settings s h ∧ Requests s = 0%Z.
Proof.
  destruct (@Start loopback mirror full [] []) as [[[[s|e] cleanups]|] h] eqn:E; [|vm_compute in E; discriminate..].
  exists s, cleanups, h. split; [reflexivity|]. split.
  - exact (@Start_makes_a_pair loopback mirror full_settings full [] [] s cleanups h
      mirror_gives_keys full_settings_carried Obfuscation_settings E).
  - vm_compute in E. by injection E as <- _ _.
Defined.

(** A test leaves nothing behind.  Whatever the machine answers, wherever the
    test ends, and whatever it does with the server in between, as long as it
    registers what it opens: every interface and every socket that [Start]
    opened is closed when the test is over, and no other. *)
Theorem server_leaves_nothing {env : Env} {A} X25519 opts (body : Server → Test A) h :
  (∀ s, tidy (body s)) →
  ∃ r h', run_test (s ← Start X25519 opts; body s) h = (Some r, h') ∧
    opened h' = opened h ∧ sockets h' = sockets h.
Proof. intros Hb. apply run_test_leaves, tidy_bind; [apply tidy_Start|done]. Qed.

Lemma server_leaves_nothing_witness :
  ∃ r h', @run_test loopback _ (s ← @Start loopback mirror full; @FreeUDPPort loopback) [] = (Some r, h') ∧
    opened h' = ∅ ∧ sockets h' = ∅.
Proof. apply (@server_leaves_nothing loopback Z mirror full (λ _, @FreeUDPPort loopback) []). intros _. apply tidy_FreeUDPPort. Defined.

(** What is held back is what was sent.  [farTun.Write] hands on at once, in
    their order, the packets that are not for the far host, and makes a timer
    for each that is; [delayedBind.Send] makes one for all.  When a timer fires,
    whatever its callers have done with their buffers since, it hands on the
    packets as they were: none is lost, none changed, none sent twice. *)
Theorem held_back_unchanged inner delay now_ bufs offset m cs :
  (0 ≤ offset)%Z → mapM (contents m) bufs = Some cs → Forall (λ c, (offset ≤ len c)%Z) cs →
  (∃ r timers m', far_Write inner delay now_ bufs offset m =
      Some (r, filter (λ c, ¬ goes_far offset c) cs, timers, m') ∧ m ⊆ m' ∧
    r = match filter (λ c, ¬ goes_far offset c) cs with
        | [] => (len bufs, None)
        | near => match inner near offset with Some e => (0%Z, Some e) | None => (len bufs, None) end
        end ∧
    Forall (λ t, due t = (now_ + delay)%Z ∧ at_offset t = offset) timers ∧
    ∀ later, spares m m' later → map (fire later) timers =
      map (λ c, Some [replicate (Z.to_nat offset) 0%Z ++ packet_at offset c]) (filter (goes_far offset) cs)) ∧
  (∃ t m', delayed_Send delay now_ bufs m = Some (t, m') ∧ m ⊆ m' ∧ due t = (now_ + delay)%Z ∧
    ∀ later, spares m m' later → fire later t = Some cs).
Proof.
  intros H0 Hm Hcs. split.
  - destruct (far_split_spec bufs offset (now_ + delay) m cs H0 Hm Hcs) as (now & timers & m' & E & H1 & H2 & H3 & H4).
    eexists _, timers, m'. unfold far_Write. rewrite E. cbn [mbind option_bind]. rewrite H2. cbn [mbind option_bind].
    split; [reflexivity|]. split_and!; [done| |done|done].
    destruct now as [|b now]; cbn in H2.
    + by injection H2 as <-.
    + destruct (m' !! b); [|done]. cbn in H2. destruct (mapM (contents m') now); [|done]. cbn in H2. by injection H2 as <-.
  - destruct (copy_all_spec bufs m cs Hm) as (rs & m' & E & H1 & H2).
    unfold delayed_Send. rewrite E. cbn. exists (mkTimer (now_ + delay) rs 0), m'. by split_and!.
Qed.

(** A packet for the far host and one for the server, behind sixteen bytes of room. *)
Definition packet_to (last2 : list Z) : list Z :=
  replicate 16 7%Z ++ ([69; 0; 0; 20]%Z ++ replicate 12 0%Z) ++ [10; 154]%Z ++ last2.
Definition two_packets : memory := {[1 := packet_to [2; 1]%Z; 2 := packet_to [1; 1]%Z]}.

Lemma held_back_unchanged_witness :
  ∃ r timers m', far_Write (λ _ _, None) 5 100 [1; 2] 16 two_packets =
      Some (r, [packet_to [1; 1]%Z], timers, m') ∧ r = (2%Z, None) ∧
    ∀ later, spares two_packets m' later →
      map (fire later) timers = [Some [replicate 16 0%Z ++ drop 16 (packet_to [2; 1]%Z)]].
Proof.
  destruct (held_back_unchanged (λ _ _, None) 5 100 [1; 2] 16 two_packets [packet_to [2; 1]%Z; packet_to [1; 1]%Z]
    ltac:(lia) eq_refl ltac:(repeat constructor; by vm_compute)) as [(r & timers & m' & H & _ & Hr & _ & Hl) _].
  exists r, timers, m'. split; [exact H|]. split; [exact Hr|exact Hl].
Defined.
