(* ===== verification/RttTest.v ===== *)
(** * Something for a meter to measure: core/internal/rtt/rtttest

    One TCP connection opening, shown to a meter: what it leaves, and when it
    leaves nothing. *)

From S2P Require Import Prelude GoStrings NetAddr Rtt RttFacts.
From stdpp Require Import options.
Local Open Scope Z_scope.

(** An IPv4 packet of forty bytes with a bare TCP header. *)
Definition packet (src dst : list Z) (sport dport flags seq ack : Z) : list Z :=
  let p := replicate 40 0 in
  let p := <[0%nat := 69]> p in
  let p := list_inserts 2 (be_split 2 40) p in
  let p := <[9%nat := 6]> p in
  let p := list_inserts 12 src p in
  let p := list_inserts 16 dst p in
  let p := list_inserts 20 (be_split 2 sport) p in
  let p := list_inserts 22 (be_split 2 dport) p in
  let p := list_inserts 24 (be_split 4 seq) p in
  let p := list_inserts 28 (be_split 4 ack) p in
  let p := <[32%nat := 80]> p in
  <[33%nat := flags]> p.

(** The clock reads [t1] at the SYN and [t2] at the answer. *)
Definition Connect (t1 t2 : Z) (m : Meter) : option Meter :=
  m ← Outbound (packet [10; 8; 1; 2] [1; 1; 1; 1] 50000 443 2 1000 0) t1 m;
  Inbound (packet [1; 1; 1; 1] [10; 8; 1; 2] 443 50000 18 9000 1001) t2 m.

Definition opening : flow := mkFlow (AddrFrom4 [10; 8; 1; 2]) (AddrFrom4 [1; 1; 1; 1]) 50000 443.

Lemma Connect_records t1 t2 m :
  Connect t1 t2 m = Some (record_answer opening 1001 t2 (record_syn opening 1000 t1 m)).
Proof.
  unfold Connect, Outbound, Inbound.
  replace (parseTCP (packet [10; 8; 1; 2] [1; 1; 1; 1] 50000 443 2 1000 0))
    with (Some (Some (mkTcp opening 2 1000 0))) by (vm_compute; reflexivity).
  replace (parseTCP (packet [1; 1; 1; 1] [10; 8; 1; 2] 443 50000 18 9000 1001))
    with (Some (Some (mkTcp (reverse_flow opening) 18 9000 1001))) by (vm_compute; reflexivity).
  reflexivity.
Qed.

(** A meter with room, that is not waiting for this very connection, shows a
    figure afterwards: at least a millisecond, and no more than it took. *)
Theorem Connect_leaves_figure t1 t2 m :
  pending m !! opening = None → (size (pending m) < maxPending)%nat → 0 < t2 - t1 ≤ pendingFor →
  ∃ m', Connect t1 t2 m = Some m' ∧
    1 ≤ (Milliseconds t2 (Some m')).1 ≤ Z.max (in_ms (t2 - t1)) 1.
Proof.
  intros Hn Hr Hd. destruct (record_syn_then_answer opening 1000 t1 (t2 - t1) m Hn Hr Hd) as [Hin Hseen].
  replace (t1 + (t2 - t1)) with t2 in * by lia. change (wrapu 32 (1000 + 1)) with 1001 in *.
  eexists. split; [apply Connect_records|]. unfold Milliseconds.
  destruct (Latency_at_most t2 _ _ Hseen Hin) as (v & m3 & -> & Hv); [cbn [sample_at]; unfold Window; lia|].
  cbn [fst rtt] in *. unfold in_ms. pose proof (Z.quot_le_mono v (t2 - t1) 1000000 ltac:(lia) Hv). lia.
Qed.

Lemma Connect_leaves_figure_witness :
  ∃ m', Connect 0 1500000 New = Some m' ∧ 1 ≤ (Milliseconds 1500000 (Some m')).1 ≤ Z.max (in_ms (1500000 - 0)) 1.
Proof.
  apply (Connect_leaves_figure 0 1500000 New); [reflexivity|by apply Nat.ltb_lt|unfold pendingFor; lia].
Defined.

(** A clock that has not moved between the two leaves nothing: such an answer
    is not a measurement. *)
Theorem Connect_at_once t now_ : ∃ m', Connect t t New = Some m' ∧ (Milliseconds now_ (Some m')).1 = 0.
Proof.
  eexists. split; [apply Connect_records|]. unfold record_syn, record_answer. cbn [pending New].
  rewrite lookup_empty. cbn [size map_size]. rewrite (proj2 (Nat.leb_gt _ _)) by by apply Nat.ltb_lt. cbn [pending].
  rewrite lookup_insert_eq. cbn [again syn_seq syn_at orb]. change (1001 =? wrapu 32 (1000 + 1)) with true.
  cbn [negb]. by rewrite Z.sub_diag.
Qed.
